(* ===== verification/_CoqProject ===== *)
-Q . S2P
Prelude.v
RustStr.v
Recovery.v
State.v
Fs.v
Persistence.v
Preflight.v
Solver.v
Plan.v
ManifestData.v
Migration.v
Manifest.v
Discovery.v
Sanitize.v
Protocol.v
EventLog.v
EventFile.v
Inventory.v
SolverXml.v
Vendors.v
System.v
Planner.v
Executor.v
Fixture.v
OnlineUpdate.v
Staging.v
Request.v
Offline.v
Dependencies.v
ManifestFetch.v
Pending.v
Verifier.v
Rollback.v
Ownership.v
Service.v
Authority.v
Starting.v
Worker.v
Observed.v
Loop.v
Preview.v
Metadata.v
Client.v
Probe.v
Artifacts.v
Process.v
Simulation.v
Programs.v
