(* ===== verification/Prelude.v ===== *)
(** * Lyra Upgrade: a verification library

    Lyra Upgrade updates an installed Lyra OS: a service (src/service) plans an
    operation and runs it in a worker, an offline program (src/offline) installs a
    release upgrade or a package migration outside of the running system, and a
    verifier (src/verifier) decides after the reboot whether the operation counts as
    completed. They share a core (src/core) with the data, the policies and the
    record of an operation, and talk through a directory per operation below
    /var/lib/lyra-upgrade/operations, the link /system-update and the replay record
    of the last applied manifest. This library models these programs and proves what
    they promise: nothing is installed that the user did not confirm, a snapshot is
    recorded first, an interruption never loses the record, and success is reported
    only for a machine that was checked.

    ** Method

    Rust functions are Rocq functions. [Result] is [result] of this file; code that
    changes the world is in the state monad [ST], which keeps the world on errors,
    with [st_try] for a result that is inspected and [st_map_err] for [map_err].
    Machine integers are [Z] with [saturating_add] and the parsers' bounds written
    out; strings are bytes, with UTF-8 decoding where the code works on [char]s. The
    file system is that of Fs.v: a finite map, one definition per call, and a
    parameter [fault] that lets the system fail any call with any error after any
    part of a write, so a theorem for all [fault]s covers a process killed at any
    call. All other calls (programs, the network, RPM, D-Bus observers, the clock)
    are the [effect]s of System.v; an [Oracle] answers them from the history and the
    files, and the history is the trace the safety theorems speak about. Theorems
    that need the calls to succeed take [no_fault].

    Parsers and serializers of libraries (serde_json, quick_xml, url, time), digests
    and the external programs are parameters. Where a theorem needs something of
    them it is a hypothesis in its statement: a decoder that reads back what the
    encoder wrote on the record at hand, a digest without a collision on two texts,
    a system that says NotFound only of what does not exist, names of temporary files
    other than state.json. Each such theorem has a witness with concrete functions.

    ** Files

    - Prelude: results, the state monad, orders, sorting and the tactics [res_inv],
      [st_inv] and [tests]. RustStr: the string functions of the standard library.
    - Recovery (core/src/recovery.rs): subvolume identities and the check of a
      rollback boot. State (core/src/lib.rs): the record, [transition_to], the
      invariants of all runs. Fs: the file system. Persistence
      (core/src/persistence.rs): [validate_state], [save_state], [load_state].
    - Preflight, Solver, Plan (core/src/preflight.rs, solver.rs, lib.rs): the policies
      of host and solver result, and the plan with its canonical order.
    - ManifestData, Migration, Manifest (core/src/manifest.rs, migration.rs and
      service/src/migration.rs): routes, package migrations and payloads.
    - Discovery (core/src/discovery.rs): host facts from files and allowed probes.
    - Sanitize, Protocol, EventLog, EventFile (core/src/sanitize.rs, protocol,
      service/src/event_log.rs): lines shown to the user, and their bounded and durable
      histories.
    - Inventory, SolverXml, Vendors (service/src/inventory.rs, solver_xml.rs,
      vendor_metadata.rs): the installed packages, the answer of zypper, vendors.
    - System: effects, oracle, the libraries. Planner (service/src/planner.rs).
      Executor (service/src/executor.rs): both workers. Fixture: a concrete machine.
      OnlineUpdate and Staging: the theorems on the two workers.
    - Request, Offline (offline/src/request.rs, main.rs): the offline program.
    - Dependencies, ManifestFetch, Pending, Verifier (verifier/src/dependencies.rs,
      service/src/manifest_fetch.rs, verifier/src/pending.rs, main.rs): the signed
      manifest, the replay record, the scan and the verification after a boot.
    - Rollback (service/src/recovery.rs). Ownership and Service (service/src/main.rs,
      query_client.rs, readonly_discovery.rs): the files that say whose operation it
      is; the handler of every request, the thread of an operation, its observer, the
      loop of the program and the query broker. Authority: the frame of every handler
      and what a request may change. Starting, Worker, Observed, Loop: the theorems on
      what a start accepts, how its thread ends, what its observer and a status show,
      and the answers to a whole input.
    - Preview (service/src/manifest_fetch.rs): the download of an offer, its keys and
      the copy of the last one. Metadata (service/src/vendor_metadata.rs): the walk over
      the XML of packages and the verified metadata of a repository.
    - Client (src/src-tauri/src/main.rs): the commands of the window, proved against an
      interface of its two processes ([Client.Peers]), of which the service of Service.v
      is an instance. Probe (probe/src/main.rs): the evidence a virtual machine sends.
    - Artifacts (service/src/inventory.rs): the inventory after a transaction. Process
      (service/src/process.rs, executor.rs): bounded probes and observed programs.
      Simulation (service/src/simulation.rs, repository_context.rs): the disposable root
      of the solver. Programs (main of service/src/main.rs, cli/src/main.rs): the mode
      of the service, and the command line tool.

    ** Theorems

    - Installation: [Offline.offline_installs_authorized],
      [OnlineUpdate.update_applies_reviewed_after_snapshot],
      [Staging.staging_arms_reviewed_last] and [Planner.revalidation_binds] say what
      has happened, in the trace and on disk, before packages are installed or the
      next boot is armed. The relation [Executor.quiet] carries them through the steps
      that make no such call, [Staging.kept] through those that leave a path alone.
    - Outcome: [OnlineUpdate.update_completes], [Offline.offline_leaves_clean],
      [Verifier.verifier_completes_checked], [Pending.scan_finds_all].
    - Storage: [Persistence.save_state_atomic], [EventFile.append_crash_safe],
      [Verifier.replay_record_monotone] hold under every failure;
      [Persistence.save_load_roundtrip], [EventFile.append_then_load] are round trips.
    - The state machine: invariants and milestones of all runs in State.
    - Authority: [Authority.unauthorized_changes_nothing],
      [Authority.foreign_operation_untouched], [Authority.owner_permanent] hold of
      every request, proved once over the relation [Authority.within], with any
      relation on files and any relation on memory of the class [Authority.Memory].
      [Rollback.rollback_intent_first] and [Rollback.rollback_scheduled] are about
      the one request that selects another boot. [Programs.program_acts_for_caller]
      says which process serves them at all; [Client.client_routes_requests] what the
      window sends, and [Client.exchange_is_handled] composes window and service.
    - An operation of a user: [Starting.thread_starts_confirmed],
      [Worker.worker_ends_recorded], [Observed.observer_never_silent],
      [Observed.status_hides_nothing], [Loop.loop_answers_requests].
    - What comes from outside: [ManifestFetch.manifest_authentic],
      [Preview.offer_verified], [Preview.copy_whole_or_gone],
      [Metadata.repository_vendors_verified]; [Metadata.walk_is_postorder] proves the
      streaming walk against a recursive reference.
    - Isolation: [Simulation.simulation_confined] under every failure,
      [Simulation.copy_tree_mirrors] without one, [Process.output_bounded] for any child,
      [Artifacts.capture_exact], and [Programs.tool_shows_inspection], that the tool and
      the service say the same of a machine.
    - Policies: exact characterizations ([..._iff], [..._exact], [..._spec]) of what
      is accepted, and independence of the order of the input.

    ** Bounds and fuel

    Loops of the code are structural recursions over their input, with these
    exceptions: [RustStr.show_digits] has the bit length of the number as fuel, which
    bounds its digits; [EventLog.trim_from] the number of events, of which every turn
    removes one; [Request.canonical] the limit of the kernel on links (40), at which
    the call fails as in the kernel; [Pending.escape_bytes] the 64 bytes the code
    takes; [Service.serve] and [EventFile.read_records] one more than the bytes of their
    input, of which every turn takes one; the three masks of Sanitize the same for the
    line. Where the code has no bound of its own the fuel is an argument, and the
    theorems say what is enough: [Process.poll] one poll per 20 ms of the time given
    ([Process.output_bounded]), [Simulation.copy_tree] more than the depth of the tree
    ([Simulation.copy_tree_mirrors]). Limits of the code (4096 bytes of a line, 8 MiB of
    a history, 1 MiB of a manifest, 32 nested elements and the like) are definitions
    with its names.

    ** Not modelled

    Links in the middle of a path, except where the code asks for the canonical path
    (Request.v resolves them, also for Metadata and Simulation), hard links,
    special files, and other processes that write below the state directory at the
    same time. The threads of the service are definitions of their own ([Service.work]
    and the observer): their steps are not interleaved with those of the handler, and
    the wait for them at the end of the program is left out. Credentials of a socket
    and time-outs of a connection are answers of the oracle. The two threads that read
    the output of a child are functions of what its streams hold in the end. Of a child
    of the verifier that is killed, nothing is kept. JSON as serde writes it, the event
    loop of tauri, the interface of the window in JavaScript, scripts, packaging, tests
    and examples are not modelled. *)

From Stdlib Require Export ZArith Lia Ascii Sorted.
From stdpp Require Export base tactics list gmap sets strings.

(* ------------------------------------------------------------------ *)
(** ** Definitions *)

(** Rust's [Result<A, E>], error type first so that [result E] is a monad. *)
Inductive result (E A : Type) : Type :=
  | Ok (a : A)
  | Err (e : E).
Arguments Ok {E A} a.
Arguments Err {E A} e.

#[export] Instance result_ret {E} : MRet (result E) := λ A a, Ok a.
#[export] Instance result_bind {E} : MBind (result E) := λ A B f r,
  match r with Ok a => f a | Err e => Err e end.
#[export] Instance result_fmap {E} : FMap (result E) := λ A B f r,
  match r with Ok a => Ok (f a) | Err e => Err e end.

#[export] Instance result_eq_dec {E A} `{EqDecision E, EqDecision A} :
  EqDecision (result E A).
Proof. solve_decision. Defined.

(** Stateful code that may fail: the state is kept also on errors, as the
    effects before a [return Err] are. *)
Definition ST (W E A : Type) : Type := W → result E A * W.
#[export] Instance st_ret {W E} : MRet (ST W E) := λ A a w, (Ok a, w).
#[export] Instance st_bind {W E} : MBind (ST W E) := λ A B f m w,
  match m w with
  | (Ok a, w') => f a w'
  | (Err e, w') => (Err e, w')
  end.
Definition st_lift {W E A} (r : result E A) : ST W E A := λ w, (r, w).
Definition st_throw {W E A} (e : E) : ST W E A := λ w, (Err e, w).
Definition st_get {W E A} (f : W → A) : ST W E A := λ w, (Ok (f w), w).
Definition st_modify {W E} (f : W → W) : ST W E unit := λ w, (Ok (), f w).
(** The result of a computation as a value, to [match] on it. *)
Definition st_try {W E E' A} (m : ST W E A) : ST W E' (result E A) := λ w,
  let '(r, w') := m w in (Ok r, w').
Definition st_map_err {W E E' A} (f : E → E') (m : ST W E A) : ST W E' A := λ w,
  let '(r, w') := m w in
  (match r with Ok a => Ok a | Err e => Err (f e) end, w').

(** [r.map_err(f)], [o.ok_or(e)], [r.ok()], [r.is_ok()]. *)
Definition map_err {E E' A} (f : E → E') (r : result E A) : result E' A :=
  match r with Ok a => Ok a | Err e => Err (f e) end.
Definition ok_or {E A} (e : E) (o : option A) : result E A :=
  match o with Some a => Ok a | None => Err e end.
Definition res_ok {E A} (r : result E A) : option A :=
  match r with Ok a => Some a | Err _ => None end.
Definition is_ok {E A} (r : result E A) : bool :=
  match r with Ok _ => true | Err _ => false end.
(** [if b { return Err(e) }]. *)
Definition reject_if {E} (b : bool) (e : E) : result E unit :=
  if b then Err e else Ok ().

(** Option tests as the code writes them. *)
Definition is_some {A} (o : option A) : bool :=
  match o with Some _ => true | None => false end.
Definition is_none {A} (o : option A) : bool := negb (is_some o).
Definition is_some_and {A} (o : option A) (p : A → bool) : bool :=
  match o with Some a => p a | None => false end.
Definition is_none_or {A} (o : option A) (p : A → bool) : bool :=
  match o with Some a => p a | None => true end.
Definition opt_filter {A} (p : A → bool) (o : option A) : option A :=
  match o with Some a => if p a then Some a else None | None => None end.

(** Equality tests [a == b] on types with decidable equality. *)
Definition eqb {A} `{EqDecision A} (x y : A) : bool := bool_decide (x = y).

(** Machine integers are mathematical integers with their range written out. *)
Definition u64_max : Z := 18446744073709551615.
Definition u32_max : Z := 4294967295.
Definition u16_max : Z := 65535.
Definition u8_max : Z := 255.
Definition i64_max : Z := 9223372036854775807.
Definition i64_min : Z := -9223372036854775808.
Definition is_u64 (z : Z) : Prop := (0 ≤ z ≤ u64_max)%Z.
Definition saturating_add (a b : Z) : Z := Z.min (a + b) u64_max.
Definition saturating_sub (a b : Z) : Z := Z.max (a - b) 0.

(** [iter().all(p)], [iter().any(p)], [contains]. *)
Definition list_all {A} (p : A → bool) (l : list A) : bool := forallb p l.
Definition list_any {A} (p : A → bool) (l : list A) : bool := existsb p l.
Definition contains {A} `{EqDecision A} (l : list A) (x : A) : bool :=
  list_any (eqb x) l.

#[global] Arguments list_all : simpl never.
#[global] Arguments list_any : simpl never.
#[global] Arguments contains : simpl never.
#[global] Arguments eqb : simpl never.

(** A total order in the sense of Rust's [Ord], with its laws apart. *)
Class Ord (A : Type) := cmp : A → A → comparison.
Class OrdLaws (A : Type) `{Ord A} : Prop := {
  cmp_eq_iff : ∀ x y : A, cmp x y = Eq ↔ x = y;
  cmp_opp : ∀ x y : A, cmp y x = CompOpp (cmp x y);
  cmp_lt_trans : ∀ x y z : A, cmp x y = Lt → cmp y z = Lt → cmp x z = Lt;
}.

#[export] Instance ord_Z : Ord Z := Z.compare.
#[export] Instance ord_string : Ord string := String.compare.
#[export] Instance ord_bool : Ord bool := λ x y,
  match x, y with false, true => Lt | true, false => Gt | _, _ => Eq end.
(** Derived orders compare fields in declaration order; [None < Some _]. *)
#[export] Instance ord_prod {A B} `{Ord A, Ord B} : Ord (A * B) := λ x y,
  match cmp x.1 y.1 with Eq => cmp x.2 y.2 | c => c end.
#[export] Instance ord_option {A} `{Ord A} : Ord (option A) := λ x y,
  match x, y with
  | None, None => Eq | None, Some _ => Lt | Some _, None => Gt
  | Some a, Some b => cmp a b
  end.
(** The order of a type through an injective key (records, enumerations). *)
Definition ord_via {A B} `{Ord B} (f : A → B) : Ord A := λ x y, cmp (f x) (f y).

Definition le_of {A} `{Ord A} (x y : A) : bool :=
  match cmp x y with Gt => false | _ => true end.
Definition lt_of {A} `{Ord A} (x y : A) : bool :=
  match cmp x y with Lt => true | _ => false end.

(** A stable sort ([sort_by]) and the removal of consecutive duplicates. *)
Fixpoint insert_by {A} (le : A → A → bool) (x : A) (l : list A) : list A :=
  match l with
  | [] => [x]
  | y :: l' => if le x y then x :: y :: l' else y :: insert_by le x l'
  end.
Definition sort_by {A} (le : A → A → bool) (l : list A) : list A :=
  foldr (insert_by le) [] l.
Definition sort {A} `{Ord A} (l : list A) : list A := sort_by le_of l.
Definition sort_by_key {A B} `{Ord B} (f : A → B) (l : list A) : list A :=
  sort_by (λ x y, le_of (f x) (f y)) l.
Fixpoint dedup {A} `{EqDecision A} (l : list A) : list A :=
  match l with
  | [] => []
  | x :: l' =>
      match dedup l' with
      | [] => [x]
      | y :: l'' => if eqb x y then x :: l'' else x :: y :: l''
      end
  end.

Declare Scope lyra_scope.
Delimit Scope lyra_scope with lyra.
Notation "a ==? b" := (eqb a b) (at level 70, no associativity) : lyra_scope.
Notation "a !=? b" := (negb (eqb a b)) (at level 70, no associativity) : lyra_scope.

Create HintDb lyra.
Create Rewrite HintDb lyra.
Create Rewrite HintDb lyra_res.

(* ------------------------------------------------------------------ *)
(** ** Results *)

Section results.
Context {E A B : Type}.
Implicit Types (r : result E A) (e : E).

Lemma bind_Ok r (f : A → result E B) b :
  r ≫= f = Ok b ↔ ∃ a, r = Ok a ∧ f a = Ok b.
Proof. destruct r; simpl; naive_solver. Qed.

Lemma bind_Err r (f : A → result E B) e :
  r ≫= f = Err e ↔ r = Err e ∨ ∃ a, r = Ok a ∧ f a = Err e.
Proof. destruct r; simpl; naive_solver. Qed.

Lemma map_err_Ok {E'} (g : E → E') r a : map_err g r = Ok a ↔ r = Ok a.
Proof. destruct r; simpl; naive_solver. Qed.

Lemma map_err_Err {E'} (g : E → E') r (x : E') :
  map_err g r = Err x ↔ ∃ e, r = Err e ∧ g e = x.
Proof. destruct r; simpl; naive_solver. Qed.

Lemma ok_or_Ok e (o : option A) a : ok_or e o = Ok a ↔ o = Some a.
Proof. destruct o; simpl; naive_solver. Qed.

Lemma ok_or_Err e e' (o : option A) : ok_or e o = Err e' ↔ o = None ∧ e = e'.
Proof. destruct o; simpl; naive_solver. Qed.

Lemma mret_Ok (a b : A) : mret (M:=result E) a = Ok b ↔ a = b.
Proof. unfold mret, result_ret. naive_solver. Qed.

Lemma reject_if_Ok b e u : reject_if b e = Ok u ↔ b = false.
Proof. destruct b, u; simpl; naive_solver. Qed.

Lemma reject_if_Err b e e' : reject_if b e = Err e' ↔ b = true ∧ e = e'.
Proof. destruct b; simpl; naive_solver. Qed.

Lemma is_ok_true r : is_ok r = true ↔ ∃ a, r = Ok a.
Proof. destruct r; simpl; naive_solver. Qed.
End results.

#[export] Hint Rewrite @bind_Ok @map_err_Ok @ok_or_Ok @mret_Ok @reject_if_Ok
  : lyra_res.

(** Open a successful chain of [?]s into its successful steps. *)
Ltac res_inv :=
  repeat match goal with
  | H : _ ≫= _ = Ok _ |- _ => apply bind_Ok in H as (? & ? & H)
  | H : map_err _ _ = Ok _ |- _ => apply map_err_Ok in H
  | H : ok_or _ _ = Ok _ |- _ => apply ok_or_Ok in H
  | H : mret _ = Ok _ |- _ => apply mret_Ok in H
  | H : reject_if _ _ = Ok _ |- _ => apply reject_if_Ok in H
  | H : Ok _ = Ok _ |- _ => injection H as H
  | H : Err _ = Ok _ |- _ => discriminate H
  | H : Ok _ = Err _ |- _ => discriminate H
  | H : unit |- _ => destruct H
  end.

(* ------------------------------------------------------------------ *)
(** ** Stateful computations *)

Section stateful.
Context {W E : Type}.

(** A computation preserves a relation between the worlds before and after it
    when it does so on every outcome; the rules follow the monad. *)
Definition st_rel {A} (R : W → W → Prop) (m : ST W E A) : Prop :=
  ∀ w, R w (m w).2.

Lemma st_rel_ret {A} (R : W → W → Prop) `{!Reflexive R} (a : A) : st_rel R (mret a).
Proof. intros w. simpl. reflexivity. Qed.

Lemma st_rel_lift {A} (R : W → W → Prop) `{!Reflexive R} (r : result E A) :
  st_rel R (st_lift r).
Proof. intros w. simpl. reflexivity. Qed.

Lemma st_rel_throw {A} (R : W → W → Prop) `{!Reflexive R} (e : E) :
  st_rel R (st_throw (A:=A) e).
Proof. intros w. simpl. reflexivity. Qed.

Lemma st_rel_bind {A B} (R : W → W → Prop) `{!Transitive R} (m : ST W E A)
    (f : A → ST W E B) :
  st_rel R m → (∀ a, st_rel R (f a)) → st_rel R (m ≫= f).
Proof.
  intros Hm Hf w. unfold mbind, st_bind. specialize (Hm w).
  destruct (m w) as [[a|e] w1]; [|done]. etransitivity; [exact Hm|apply Hf].
Qed.

(** The rule at one world, where the first step is known to have succeeded. *)
Lemma st_step {A B} (R : W → W → Prop) `{!Transitive R} (m : ST W E A) (f : A → ST W E B) w :
  R w (m w).2 → (∀ a w1, m w = (Ok a, w1) → R w1 (f a w1).2) → R w ((m ≫= f) w).2.
Proof.
  intros Hm Hf. unfold mbind, st_bind. destruct (m w) as [[a|e] w1]; [|done].
  etransitivity; [exact Hm|by apply Hf].
Qed.

Lemma st_bind_cases {A B} (m : ST W E A) (f : A → ST W E B) w x w' :
  (m ≫= f) w = (x, w') →
  (∃ e, m w = (Err e, w') ∧ x = Err e) ∨ (∃ a w1, m w = (Ok a, w1) ∧ f a w1 = (x, w')).
Proof.
  unfold mbind, st_bind. destruct (m w) as [[a|e] w1]; [eauto|].
  intros [= <- <-]. eauto.
Qed.

Lemma st_bind_eq {A B} (m : ST W E A) (f : A → ST W E B) w a w1 :
  m w = (Ok a, w1) → (m ≫= f) w = f a w1.
Proof. intros H. unfold mbind, st_bind. by rewrite H. Qed.

Lemma st_bind_Ok {A B} (m : ST W E A) (f : A → ST W E B) w b w' :
  (m ≫= f) w = (Ok b, w') ↔ ∃ a w1, m w = (Ok a, w1) ∧ f a w1 = (Ok b, w').
Proof.
  unfold mbind, st_bind. destruct (m w) as [[a|e] w1]; split.
  - eauto.
  - by intros (? & ? & [= <- <-] & ?).
  - done.
  - by intros (? & ? & ? & ?).
Qed.

Lemma st_bind_Err {A B} (m : ST W E A) (f : A → ST W E B) w e w' :
  (m ≫= f) w = (Err e, w') ↔
    m w = (Err e, w') ∨ ∃ a w1, m w = (Ok a, w1) ∧ f a w1 = (Err e, w').
Proof.
  unfold mbind, st_bind. destruct (m w) as [[a|e1] w1]; split.
  - eauto.
  - by intros [?|(? & ? & [= <- <-] & ?)].
  - intros [= -> ->]. by left.
  - by intros [[= -> ->]|(? & ? & ? & ?)].
Qed.
End stateful.

Lemma st_rel_try {W E E' A} (R : W → W → Prop) (m : ST W E A) :
  st_rel R m → st_rel R (st_try (E':=E') m).
Proof. intros H w. unfold st_try. specialize (H w). by destruct (m w). Qed.

Lemma st_rel_map_err {W E E' A} (R : W → W → Prop) (f : E → E') (m : ST W E A) :
  st_rel R m → st_rel R (st_map_err f m).
Proof. intros H w. unfold st_map_err. specialize (H w). by destruct (m w). Qed.

Lemma pair_with_fst {A B} (p : A * B) a : p.1 = a → p = (a, p.2).
Proof. destruct p. by intros <-. Qed.

Lemma st_try_eq {W E E' A} (m : ST W E A) w r w' :
  st_try (E':=E') m w = (Ok r, w') ↔ m w = (r, w').
Proof. unfold st_try. destruct (m w). split; congruence. Qed.

Lemma st_map_err_Ok {W E E' A} (f : E → E') (m : ST W E A) w a w' :
  st_map_err f m w = (Ok a, w') ↔ m w = (Ok a, w').
Proof. unfold st_map_err. destruct (m w) as [[b|e] w1]; split; congruence. Qed.

Lemma st_map_err_Err {W E E' A} (f : E → E') (m : ST W E A) w e w' :
  st_map_err f m w = (Err e, w') ↔ ∃ e0, m w = (Err e0, w') ∧ e = f e0.
Proof.
  unfold st_map_err. destruct (m w) as [[b|e1] w1]; split; try naive_solver congruence.
Qed.

Lemma st_bind_try {W E E' A B} (m : ST W E A) (f : result E A → ST W E' B) w x w' :
  (st_try m ≫= f) w = (x, w') → ∃ r w1, m w = (r, w1) ∧ f r w1 = (x, w').
Proof. unfold mbind, st_bind, st_try. destruct (m w) as [r w1]. eauto. Qed.

(** Open a successful stateful computation into its successful steps. *)
Ltac st_inv :=
  repeat match goal with
  | H : (_ ≫= _) _ = (Ok _, _) |- _ => apply st_bind_Ok in H as (? & ? & ? & H)
  | H : st_map_err _ _ _ = (Ok _, _) |- _ => apply st_map_err_Ok in H
  | H : st_try _ _ = (Ok _, _) |- _ => apply st_try_eq in H
  | H : st_lift _ _ = (_, _) |- _ => unfold st_lift in H; injection H as H <-
  | H : mret _ _ = (_, _) |- _ => unfold mret, st_ret in H; injection H as H <-
  | H : st_throw _ _ = (Ok _, _) |- _ => discriminate H
  | H : unit |- _ => destruct H
  end.

(* ------------------------------------------------------------------ *)
(** ** Booleans, options and lists *)

Section tests.
Context {A : Type}.

Lemma eqb_true `{EqDecision A} (x y : A) : eqb x y = true ↔ x = y.
Proof. apply bool_decide_eq_true. Qed.

Lemma eqb_false `{EqDecision A} (x y : A) : eqb x y = false ↔ x ≠ y.
Proof. apply bool_decide_eq_false. Qed.

Lemma eqb_refl `{EqDecision A} (x : A) : eqb x x = true.
Proof. by apply eqb_true. Qed.

Lemma list_all_true (p : A → bool) l :
  list_all p l = true ↔ Forall (λ x, p x = true) l.
Proof. unfold list_all. by rewrite forallb_forall, List.Forall_forall. Qed.

Lemma list_any_true (p : A → bool) l :
  list_any p l = true ↔ ∃ x, x ∈ l ∧ p x = true.
Proof.
  unfold list_any. rewrite existsb_exists. by setoid_rewrite list_elem_of_In.
Qed.

Lemma list_any_false (p : A → bool) l :
  list_any p l = false ↔ ∀ x, x ∈ l → p x = false.
Proof.
  rewrite <-not_true_iff_false, list_any_true.
  setoid_rewrite <-not_true_iff_false. naive_solver.
Qed.

Lemma contains_true `{EqDecision A} (l : list A) x :
  contains l x = true ↔ x ∈ l.
Proof.
  unfold contains. rewrite list_any_true. setoid_rewrite eqb_true. naive_solver.
Qed.

Lemma contains_false `{EqDecision A} (l : list A) x :
  contains l x = false ↔ x ∉ l.
Proof. by rewrite <-not_true_iff_false, contains_true. Qed.

Lemma is_some_true (o : option A) : is_some o = true ↔ ∃ a, o = Some a.
Proof. destruct o; simpl; naive_solver. Qed.

Lemma is_some_false (o : option A) : is_some o = false ↔ o = None.
Proof. destruct o; simpl; naive_solver. Qed.

Lemma is_none_true (o : option A) : is_none o = true ↔ o = None.
Proof. unfold is_none. by rewrite negb_true_iff, is_some_false. Qed.

Lemma is_none_false (o : option A) : is_none o = false ↔ ∃ a, o = Some a.
Proof. unfold is_none. by rewrite negb_false_iff, is_some_true. Qed.

Lemma is_some_and_true (o : option A) p :
  is_some_and o p = true ↔ ∃ a, o = Some a ∧ p a = true.
Proof. destruct o; simpl; naive_solver. Qed.

Lemma is_some_and_false (o : option A) p :
  is_some_and o p = false ↔ ∀ a, o = Some a → p a = false.
Proof. destruct o; simpl; naive_solver. Qed.

Lemma is_none_or_true (o : option A) p :
  is_none_or o p = true ↔ ∀ a, o = Some a → p a = true.
Proof. destruct o; simpl; naive_solver. Qed.

Lemma is_none_or_false (o : option A) p :
  is_none_or o p = false ↔ ∃ a, o = Some a ∧ p a = false.
Proof. destruct o; simpl; naive_solver. Qed.

Lemma opt_filter_Some p (o : option A) a :
  opt_filter p o = Some a ↔ o = Some a ∧ p a = true.
Proof. destruct o as [x|]; simpl; [destruct (p x) eqn:?|]; intuition congruence. Qed.
End tests.

#[export] Hint Rewrite @eqb_true @eqb_false @list_any_true @list_any_false
  @list_all_true @contains_true @contains_false @is_some_true @is_some_false
  @is_none_true @is_none_false @is_some_and_true @is_some_and_false
  @is_none_or_true @is_none_or_false @opt_filter_Some
  @andb_true_iff @andb_false_iff @orb_true_iff @orb_false_iff
  @negb_true_iff @negb_false_iff @Z.ltb_lt @Z.ltb_ge @Z.leb_le @Z.leb_gt
  @Z.eqb_eq @Z.eqb_neq : lyra.

(** Turn boolean tests into the propositions they decide. *)
Ltac tests := autorewrite with lyra in *.

(** A preorder through the steps in between. *)
Ltac chain := first [reflexivity | eassumption | etransitivity; [eassumption|chain]].

Lemma saturating_add_range a b :
  (0 ≤ a)%Z → (0 ≤ b)%Z → is_u64 (saturating_add a b).
Proof. unfold is_u64, saturating_add, u64_max. lia. Qed.

Lemma saturating_sub_range a b :
  is_u64 a → (0 ≤ b)%Z → is_u64 (saturating_sub a b).
Proof. unfold is_u64, saturating_sub, u64_max. lia. Qed.

#[export] Hint Resolve saturating_add_range saturating_sub_range : lyra.

(* ------------------------------------------------------------------ *)
(** ** Orders *)

#[export] Instance ord_laws_Z : OrdLaws Z.
Proof.
  split; unfold cmp, ord_Z.
  - apply Z.compare_eq_iff.
  - intros. apply Z.compare_antisym.
  - intros x y z. rewrite !Z.compare_lt_iff. lia.
Qed.

Lemma ascii_lt_trans a b c :
  Ascii.compare a b = Lt → Ascii.compare b c = Lt → Ascii.compare a c = Lt.
Proof. unfold Ascii.compare. rewrite !N.compare_lt_iff. lia. Qed.

Lemma string_compare_refl s : String.compare s s = Eq.
Proof.
  induction s as [|a s IH]; simpl; [done|].
  unfold Ascii.compare. by rewrite N.compare_refl.
Qed.

Lemma string_lt_trans s1 s2 s3 :
  String.compare s1 s2 = Lt → String.compare s2 s3 = Lt →
  String.compare s1 s3 = Lt.
Proof.
  revert s2 s3. induction s1 as [|a s1 IH]; intros [|b s2] [|c s3]; simpl; try done.
  destruct (Ascii.compare a b) eqn:Hab; [| |done];
    destruct (Ascii.compare b c) eqn:Hbc; try done.
  - apply Ascii.compare_eq_iff in Hab as ->. rewrite Hbc. apply IH.
  - apply Ascii.compare_eq_iff in Hab as ->. by rewrite Hbc.
  - apply Ascii.compare_eq_iff in Hbc as ->. by rewrite Hab.
  - by rewrite (ascii_lt_trans _ _ _ Hab Hbc).
Qed.

#[export] Instance ord_laws_string : OrdLaws string.
Proof.
  split; unfold cmp, ord_string.
  - intros x y. split; [apply String.compare_eq_iff|intros ->; apply string_compare_refl].
  - intros x y. apply String.compare_antisym.
  - apply string_lt_trans.
Qed.

#[export] Instance ord_laws_bool : OrdLaws bool.
Proof.
  split; unfold cmp, ord_bool.
  - intros [] []; intuition congruence.
  - by intros [] [].
  - intros [] [] []; congruence.
Qed.

#[export] Instance ord_laws_prod {A B} `{OrdLaws A, OrdLaws B} : OrdLaws (A * B).
Proof.
  split; unfold cmp, ord_prod.
  - intros [a b] [a' b']; simpl. destruct (cmp a a') eqn:Ha.
    + apply cmp_eq_iff in Ha as ->. rewrite cmp_eq_iff. naive_solver.
    + split; [done|]. intros [= -> ->]. by rewrite (proj2 (cmp_eq_iff a' a') eq_refl) in Ha.
    + split; [done|]. intros [= -> ->]. by rewrite (proj2 (cmp_eq_iff a' a') eq_refl) in Ha.
  - intros [a b] [a' b']; simpl. rewrite (cmp_opp a a').
    destruct (cmp a a'); simpl; [apply cmp_opp|done|done].
  - intros [a b] [a' b'] [a'' b'']; simpl.
    destruct (cmp a a') eqn:Hc1; [| |done]; destruct (cmp a' a'') eqn:Hc2; try done.
    + apply cmp_eq_iff in Hc1 as ->. rewrite Hc2. apply cmp_lt_trans.
    + apply cmp_eq_iff in Hc1 as ->. by rewrite Hc2.
    + apply cmp_eq_iff in Hc2 as ->. by rewrite Hc1.
    + by rewrite (cmp_lt_trans _ _ _ Hc1 Hc2).
Qed.

#[export] Instance ord_laws_option {A} `{OrdLaws A} : OrdLaws (option A).
Proof.
  split; unfold cmp, ord_option.
  - intros [x|] [y|]; try done. rewrite cmp_eq_iff. naive_solver.
  - intros [x|] [y|]; simpl; try done. apply cmp_opp.
  - intros [x|] [y|] [z|]; try done. apply cmp_lt_trans.
Qed.

Lemma ord_laws_via {A B} `{OrdLaws B} (f : A → B) `{!Inj (=) (=) f} :
  @OrdLaws A (ord_via f).
Proof.
  split; unfold cmp, ord_via.
  - intros x y. rewrite cmp_eq_iff. split; [apply (inj f)|by intros ->].
  - intros. apply cmp_opp.
  - intros x y z. apply cmp_lt_trans.
Qed.

Section order.
Context {A : Type} `{OrdLaws A}.
Implicit Types x y z : A.

Lemma cmp_refl x : cmp x x = Eq.
Proof. by apply cmp_eq_iff. Qed.

Lemma le_of_refl x : le_of x x = true.
Proof. unfold le_of. by rewrite cmp_refl. Qed.

Lemma le_of_total x y : le_of x y = false → le_of y x = true.
Proof. unfold le_of. rewrite (cmp_opp x y). by destruct (cmp x y). Qed.

Lemma le_of_trans x y z : le_of x y = true → le_of y z = true → le_of x z = true.
Proof.
  unfold le_of. destruct (cmp x y) eqn:Hxy; [| |done];
    destruct (cmp y z) eqn:Hyz; try done; intros _ _.
  - apply cmp_eq_iff in Hxy as ->. by rewrite Hyz.
  - apply cmp_eq_iff in Hxy as ->. by rewrite Hyz.
  - apply cmp_eq_iff in Hyz as ->. by rewrite Hxy.
  - by rewrite (cmp_lt_trans _ _ _ Hxy Hyz).
Qed.

Lemma le_of_antisym x y : le_of x y = true → le_of y x = true → x = y.
Proof.
  unfold le_of. rewrite (cmp_opp x y). destruct (cmp x y) eqn:Hxy; try done.
  by apply cmp_eq_iff in Hxy.
Qed.
End order.

(* ------------------------------------------------------------------ *)
(** ** Sorting *)

Lemma insert_by_perm {A} (le : A → A → bool) x l : insert_by le x l ≡ₚ x :: l.
Proof.
  induction l as [|y l IH]; simpl; [done|].
  destruct (le x y); [done|]. rewrite IH. by apply perm_swap.
Qed.

Lemma sort_by_perm {A} (le : A → A → bool) l : sort_by le l ≡ₚ l.
Proof.
  induction l as [|x l IH]; simpl; [done|]. by rewrite insert_by_perm, IH.
Qed.

Lemma sort_by_elem {A} (le : A → A → bool) l x : x ∈ sort_by le l ↔ x ∈ l.
Proof. by rewrite sort_by_perm. Qed.

Lemma sort_perm {A} `{Ord A} (l : list A) : sort l ≡ₚ l.
Proof. apply sort_by_perm. Qed.

Lemma sort_elem {A} `{Ord A} (l : list A) x : x ∈ sort l ↔ x ∈ l.
Proof. apply sort_by_elem. Qed.

Section sorting_by.
Context {A : Type} (le : A → A → bool).
Context (le_tot : ∀ x y, le x y = false → le y x = true).
Context (le_tr : ∀ x y z, le x y = true → le y z = true → le x z = true).
#[local] Abbreviation R := (λ x y, le x y = true).

Lemma insert_by_sorted x l :
  StronglySorted R l → StronglySorted R (insert_by le x l).
Proof.
  induction 1 as [|y l Hl IH Hy]; simpl; [repeat constructor|].
  destruct (le x y) eqn:Hxy.
  - constructor; [by constructor|]. constructor; [done|].
    eapply Forall_impl; [exact Hy|]. intros z. by apply le_tr.
  - constructor; [done|]. rewrite insert_by_perm. constructor; auto.
Qed.

Lemma sort_by_sorted l : StronglySorted R (sort_by le l).
Proof. induction l; simpl; [constructor|by apply insert_by_sorted]. Qed.

Lemma head_sort_by (le_rf : ∀ x, le x x = true) l x :
  head (sort_by le l) = Some x → x ∈ l ∧ ∀ y, y ∈ l → le x y = true.
Proof.
  pose proof (sort_by_sorted l) as Hs. pose proof (sort_by_elem le l) as He.
  destruct (sort_by le l) as [|x' l']; [done|]. intros [= ->]. split; [apply He; left|].
  intros y Hy. apply He, elem_of_cons in Hy as [->|Hy]; [apply le_rf|].
  inversion Hs as [|? ? _ Hf]; subst. rewrite Forall_forall in Hf. by apply Hf.
Qed.
End sorting_by.

(** A sorted list is determined by its elements up to permutation, provided the
    order separates the elements of the list. *)
Lemma strongly_sorted_unique {A} (R : A → A → Prop) l1 l2 :
  (∀ x y, x ∈ l1 → y ∈ l1 → R x y → R y x → x = y) →
  StronglySorted R l1 → StronglySorted R l2 → l1 ≡ₚ l2 → l1 = l2.
Proof.
  intros Hanti Hl1. revert l2 Hanti.
  induction Hl1 as [|x l1 Hl1 IH Hx]; intros l2 Hanti Hl2 Hp.
  { by apply Permutation_nil in Hp. }
  destruct Hl2 as [|y l2 Hl2 Hy].
  { by apply Permutation_sym, Permutation_nil in Hp. }
  assert (x = y) as ->.
  { assert (x ∈ y :: l2) as Hx2 by (rewrite <-Hp; left).
    assert (y ∈ x :: l1) as Hy1 by (rewrite Hp; left).
    apply elem_of_cons in Hx2 as [->|Hx2]; [done|].
    apply elem_of_cons in Hy1 as [->|Hy1]; [done|].
    rewrite Forall_forall in Hx, Hy.
    apply Hanti; [left|by right|by apply Hx|by apply Hy]. }
  f_equal. apply IH; [|done|by apply Permutation_cons_inv in Hp].
  intros a b Ha Hb. apply Hanti; by right.
Qed.

Section sorting.
Context {A : Type} `{OrdLaws A}.
Implicit Types l : list A.

Lemma sort_sorted l : StronglySorted (λ x y, le_of x y = true) (sort l).
Proof. apply sort_by_sorted; [apply le_of_total|apply le_of_trans]. Qed.

Lemma sort_unique l1 l2 : l1 ≡ₚ l2 → sort l1 = sort l2.
Proof.
  intros Hp. eapply strongly_sorted_unique; [|apply sort_sorted..|].
  - intros x y _ _. apply le_of_antisym.
  - by rewrite !sort_perm.
Qed.

Lemma sort_idemp l : sort (sort l) = sort l.
Proof. apply sort_unique, sort_perm. Qed.
End sorting.

(** Sorting by a key that separates the elements forgets their order. *)
Lemma sort_by_key_unique {A B} `{OrdLaws B} (f : A → B) l1 l2 :
  (∀ x y, x ∈ l1 → y ∈ l1 → f x = f y → x = y) →
  l1 ≡ₚ l2 → sort_by_key f l1 = sort_by_key f l2.
Proof.
  intros Hinj Hp. unfold sort_by_key.
  eapply strongly_sorted_unique.
  2, 3: apply sort_by_sorted; eauto using le_of_total, le_of_trans.
  - intros x y Hx Hy. rewrite sort_by_elem in Hx, Hy.
    intros. by apply Hinj, le_of_antisym.
  - by rewrite !sort_by_perm.
Qed.

Section dedup.
Context {A : Type} `{EqDecision A}.
Implicit Types l : list A.

Lemma dedup_cons x l : ∃ l', dedup (x :: l) = x :: l'.
Proof.
  simpl. destruct (dedup l) as [|y l'']; [eauto|].
  destruct (eqb x y) eqn:E; eauto.
Qed.

Lemma dedup_elem l x : x ∈ dedup l ↔ x ∈ l.
Proof.
  induction l as [|y l IH]; simpl; [done|].
  rewrite elem_of_cons, <-IH. destruct (dedup l) as [|z l']; [set_solver|].
  destruct (eqb y z) eqn:E; [|set_solver].
  apply eqb_true in E as ->. set_solver.
Qed.

Lemma dedup_nil l : dedup l = [] ↔ l = [].
Proof.
  split; [|by intros ->]. destruct l as [|x l]; [done|].
  destruct (dedup_cons x l) as [l' ->]. done.
Qed.
End dedup.

Section sort_dedup.
Context {A : Type} `{OrdLaws A, !EqDecision A}.
Implicit Types l : list A.

(** After [sort] and [dedup] the list is strictly increasing. *)
Lemma dedup_strict l :
  StronglySorted (λ x y, le_of x y = true) l →
  StronglySorted (λ x y, le_of x y = true ∧ x ≠ y) (dedup l).
Proof.
  induction 1 as [|x l Hl IH Hx]; simpl; [constructor|].
  assert (∀ z, z ∈ dedup l → le_of x z = true) as Hle.
  { intros z Hz. rewrite dedup_elem in Hz. rewrite Forall_forall in Hx. by apply Hx. }
  destruct (dedup l) as [|y l'] eqn:Hd; [repeat constructor|].
  inversion IH as [|? ? Hl' Hy]; subst.
  destruct (eqb x y) eqn:E; [by apply eqb_true in E as ->|].
  apply eqb_false in E. constructor; [done|]. constructor.
  { split; [apply Hle; left|done]. }
  rewrite Forall_forall in Hy |- *. intros z Hz. split; [apply Hle; by right|].
  intros ->. apply E. apply le_of_antisym; [apply Hle; left|by apply Hy].
Qed.

Lemma sort_dedup_strict l :
  StronglySorted (λ x y, le_of x y = true ∧ x ≠ y) (dedup (sort l)).
Proof. apply dedup_strict, sort_sorted. Qed.

Lemma sort_dedup_NoDup l : NoDup (dedup (sort l)).
Proof.
  generalize (sort_dedup_strict l). generalize (dedup (sort l)).
  induction 1 as [|x k Hk IH Hx]; constructor; [|done].
  intros Hin. rewrite Forall_forall in Hx. by apply Hx in Hin as [_ ?].
Qed.

Lemma sort_dedup_elem l x : x ∈ dedup (sort l) ↔ x ∈ l.
Proof. by rewrite dedup_elem, sort_elem. Qed.

(** The sorted, deduplicated list depends only on the set of elements. *)
Lemma sort_dedup_ext l1 l2 :
  (∀ x, x ∈ l1 ↔ x ∈ l2) → dedup (sort l1) = dedup (sort l2).
Proof.
  intros Hext. eapply strongly_sorted_unique; [|apply sort_dedup_strict..|].
  - intros x y _ _ [? ?] [? _]. by apply le_of_antisym.
  - apply NoDup_Permutation; [apply sort_dedup_NoDup..|].
    intros x. by rewrite !sort_dedup_elem.
Qed.

Lemma sort_dedup_nil l : dedup (sort l) = [] ↔ l = [].
Proof.
  rewrite dedup_nil. split; [|by intros ->]. intros Hs.
  apply Permutation_nil. rewrite <-Hs. apply sort_perm.
Qed.
End sort_dedup.
