(* ===== verification/RustStr.v ===== *)
(** * Rust strings

    A [&str] is its UTF-8 byte sequence, kept as a [string] of bytes. This file
    models the methods of the standard library the program uses on [str], [u8],
    [char] and the integer types: byte classes, [chars], [trim], [lines],
    [split], [splitn], [split_once], [strip_prefix], [parse] and [to_string]. *)

From S2P Require Import Prelude.

Open Scope bool_scope.

(* ------------------------------------------------------------------ *)
(** ** Bytes *)

Definition bval (b : ascii) : N := N_of_ascii b.
Definition in_range (lo hi : N) (b : ascii) : bool :=
  (lo <=? bval b)%N && (bval b <=? hi)%N.

Definition is_ascii (b : ascii) : bool := (bval b <? 128)%N.
Definition is_ascii_digit (b : ascii) : bool := in_range 48 57 b.
Definition is_ascii_uppercase (b : ascii) : bool := in_range 65 90 b.
Definition is_ascii_lowercase (b : ascii) : bool := in_range 97 122 b.
Definition is_ascii_alphabetic (b : ascii) : bool :=
  is_ascii_uppercase b || is_ascii_lowercase b.
Definition is_ascii_alphanumeric (b : ascii) : bool :=
  is_ascii_digit b || is_ascii_alphabetic b.
Definition is_ascii_hexdigit (b : ascii) : bool :=
  is_ascii_digit b || in_range 65 70 b || in_range 97 102 b.
Definition to_lower (b : ascii) : ascii :=
  if is_ascii_uppercase b then ascii_of_N (bval b + 32) else b.
(** [matches!(b, b'x' | b'y' | ...)], the bytes given as a string. *)
Fixpoint byte_in (set : string) (b : ascii) : bool :=
  match set with
  | EmptyString => false
  | String c set' => Ascii.eqb b c || byte_in set' b
  end.

(** [s.bytes().all(p)] and [s.bytes().enumerate().all(p)]. *)
Fixpoint bytes_all (p : ascii → bool) (s : string) : bool :=
  match s with EmptyString => true | String b s' => p b && bytes_all p s' end.
Fixpoint bytes_alli_from (p : nat → ascii → bool) (i : nat) (s : string) : bool :=
  match s with
  | EmptyString => true
  | String b s' => p i b && bytes_alli_from p (S i) s'
  end.
Definition bytes_alli (p : nat → ascii → bool) (s : string) : bool :=
  bytes_alli_from p 0 s.
Fixpoint bytes_map (f : ascii → ascii) (s : string) : string :=
  match s with EmptyString => EmptyString | String b s' => String (f b) (bytes_map f s') end.

Definition str_len (s : string) : Z := Z.of_nat (String.length s).
Definition is_empty (s : string) : bool :=
  match s with EmptyString => true | _ => false end.
Definition to_ascii_lowercase (s : string) : string := bytes_map to_lower s.
Definition eq_ignore_ascii_case (s t : string) : bool :=
  eqb (to_ascii_lowercase s) (to_ascii_lowercase t).

(* ------------------------------------------------------------------ *)
(** ** Characters *)

Definition repl_char : N := 65533.
Definition cont (b : ascii) : N := (bval b mod 64)%N.

(** [s.chars()]: the scalar values of a UTF-8 byte sequence. A [&str] is always
    valid UTF-8; on other inputs the decoder is total with U+FFFD. *)
Fixpoint chars (s : string) : list N :=
  match s with
  | EmptyString => []
  | String a s1 =>
      let n := bval a in
      if (n <? 128)%N then n :: chars s1
      else if (n <? 224)%N then
        match s1 with
        | String b s2 => ((n mod 32) * 64 + cont b)%N :: chars s2
        | EmptyString => [repl_char]
        end
      else if (n <? 240)%N then
        match s1 with
        | String b (String c s3) =>
            ((n mod 16) * 4096 + cont b * 64 + cont c)%N :: chars s3
        | _ => [repl_char]
        end
      else
        match s1 with
        | String b (String c (String d s4)) =>
            ((n mod 8) * 262144 + cont b * 4096 + cont c * 64 + cont d)%N :: chars s4
        | _ => [repl_char]
        end
  end.

(** The UTF-8 encoding of a scalar value. *)
Definition encode_char (c : N) : string :=
  let byte n := ascii_of_N n in
  if (c <? 128)%N then String (byte c) ""
  else if (c <? 2048)%N then
    String (byte (192 + c / 64)%N) (String (byte (128 + c mod 64)%N) "")
  else if (c <? 65536)%N then
    String (byte (224 + c / 4096)%N) (String (byte (128 + c / 64 mod 64)%N)
      (String (byte (128 + c mod 64)%N) ""))
  else
    String (byte (240 + c / 262144)%N) (String (byte (128 + c / 4096 mod 64)%N)
      (String (byte (128 + c / 64 mod 64)%N) (String (byte (128 + c mod 64)%N) ""))).
Definition utf8 (cs : list N) : string := foldr (λ c s, encode_char c +:+ s) "" cs.

(** [char::is_whitespace] (Unicode White_Space) and [char::is_control] (Cc). *)
Definition is_whitespace (c : N) : bool :=
  ((9 <=? c)%N && (c <=? 13)%N) || (c =? 32)%N || (c =? 133)%N || (c =? 160)%N
  || (c =? 5760)%N || ((8192 <=? c)%N && (c <=? 8202)%N) || (c =? 8232)%N
  || (c =? 8233)%N || (c =? 8239)%N || (c =? 8287)%N || (c =? 12288)%N.
Definition is_control (c : N) : bool :=
  (c <? 32)%N || ((127 <=? c)%N && (c <=? 159)%N).

Fixpoint drop_while {A} (p : A → bool) (l : list A) : list A :=
  match l with [] => [] | x :: l' => if p x then drop_while p l' else l end.
Definition trim_chars (cs : list N) : list N :=
  reverse (drop_while is_whitespace (reverse (drop_while is_whitespace cs))).
Definition trim (s : string) : string := utf8 (trim_chars (chars s)).
(** [str::trim_matches] with one character, an ASCII one. *)
Definition trim_matches (c : ascii) (s : string) : string :=
  let strip := drop_while (λ b, Ascii.eqb b c) in
  String.string_of_list_ascii (reverse (strip (reverse (strip (String.list_ascii_of_string s))))).

(** [split_whitespace]. *)
Fixpoint words_from (cur : list N) (cs : list N) : list string :=
  match cs with
  | [] => match cur with [] => [] | _ => [utf8 (reverse cur)] end
  | c :: cs' =>
      if is_whitespace c
      then match cur with [] => words_from [] cs' | _ => utf8 (reverse cur) :: words_from [] cs' end
      else words_from (c :: cur) cs'
  end.
Definition split_whitespace (s : string) : list string := words_from [] (chars s).

(* ------------------------------------------------------------------ *)
(** ** Searching and splitting *)

Fixpoint strip_prefix (p s : string) : option string :=
  match p, s with
  | EmptyString, _ => Some s
  | String a p', String b s' => if Ascii.eqb a b then strip_prefix p' s' else None
  | _, _ => None
  end.
Definition starts_with (p s : string) : bool := is_some (strip_prefix p s).

Fixpoint rev_append (s acc : string) : string :=
  match s with EmptyString => acc | String b s' => rev_append s' (String b acc) end.
Definition str_rev (s : string) : string := rev_append s "".
Definition strip_suffix (p s : string) : option string :=
  str_rev <$> strip_prefix (str_rev p) (str_rev s).
Definition ends_with (p s : string) : bool := is_some (strip_suffix p s).

(** [s.contains(p)] for a string pattern. *)
Fixpoint contains_str (p s : string) : bool :=
  starts_with p s || match s with EmptyString => false | String _ s' => contains_str p s' end.

Fixpoint split (c : ascii) (s : string) : list string :=
  match s with
  | EmptyString => [""]
  | String b s' =>
      if Ascii.eqb b c then "" :: split c s'
      else match split c s' with [] => [String b ""] | x :: xs => String b x :: xs end
  end.
Fixpoint split_once (c : ascii) (s : string) : option (string * string) :=
  match s with
  | EmptyString => None
  | String b s' =>
      if Ascii.eqb b c then Some ("", s')
      else '(x, y) ← split_once c s'; Some (String b x, y)
  end.
Fixpoint splitn (n : nat) (c : ascii) (s : string) : list string :=
  match n with
  | O => []
  | S O => [s]
  | S n' => match split_once c s with
            | None => [s]
            | Some (x, y) => x :: splitn n' c y
            end
  end.

Definition nl : ascii := "010"%char.
Definition cr : ascii := "013"%char.
Definition strip_cr (s : string) : string := default s (strip_suffix (String cr "") s).
(** [lines()]: pieces ended by a newline lose it and a carriage return before
    it; a last piece without a newline is kept unless it is empty. *)
Fixpoint lines_of (pieces : list string) : list string :=
  match pieces with
  | [] => []
  | [p] => if is_empty p then [] else [p]
  | p :: ps => strip_cr p :: lines_of ps
  end.
Definition lines (s : string) : list string := lines_of (split nl s).

(* ------------------------------------------------------------------ *)
(** ** Integers *)

Definition digit_val (b : ascii) : Z := Z.of_N (bval b) - 48.
Fixpoint digits_val (acc : Z) (s : string) : option Z :=
  match s with
  | EmptyString => Some acc
  | String b s' => if is_ascii_digit b then digits_val (acc * 10 + digit_val b) s' else None
  end.
Definition parse_digits (max : Z) (s : string) : option Z :=
  if is_empty s then None
  else n ← digits_val 0 s; if (n <=? max)%Z then Some n else None.
(** [str::parse::<u64>()] and the like: an optional [+], then decimal digits. *)
Definition parse_unsigned (max : Z) (s : string) : option Z :=
  match s with
  | String "+" s' => parse_digits max s'
  | _ => parse_digits max s
  end.
Definition parse_u64 : string → option Z := parse_unsigned u64_max.
Definition parse_u32 : string → option Z := parse_unsigned u32_max.
Definition parse_u8 : string → option Z := parse_unsigned u8_max.
(** [usize] is 64 bits wide on the supported targets. *)
Definition parse_usize : string → option Z := parse_unsigned u64_max.
Definition parse_i64 (s : string) : option Z :=
  match s with
  | String "+" s' => parse_digits i64_max s'
  | String "-" s' => Z.opp <$> parse_digits (- i64_min) s'
  | _ => parse_digits i64_max s
  end.

(** [n.to_string()] for an unsigned integer. The fuel is its bit length, which
    bounds the number of its decimal digits. *)
Fixpoint show_digits (fuel : nat) (n : Z) (acc : string) : string :=
  match fuel with
  | O => acc
  | S fuel' =>
      let acc' := String (ascii_of_N (Z.to_N (48 + n mod 10))) acc in
      if (n / 10 =? 0)%Z then acc' else show_digits fuel' (n / 10) acc'
  end.
Definition to_string (n : Z) : string := show_digits (S (Z.to_nat (Z.log2 n))) n "".

(* ------------------------------------------------------------------ *)
(** ** Decoding and common formats *)

(** The well-formedness test of [String::from_utf8]. *)
Fixpoint utf8_valid (s : string) : bool :=
  match s with
  | EmptyString => true
  | String a s1 =>
      let n := bval a in
      if (n <? 128)%N then utf8_valid s1
      else if in_range 194 223 a then
        match s1 with
        | String b s2 => in_range 128 191 b && utf8_valid s2
        | _ => false
        end
      else if in_range 224 239 a then
        match s1 with
        | String b (String c s3) =>
            in_range (if (n =? 224)%N then 160 else 128)
                     (if (n =? 237)%N then 159 else 191) b
            && in_range 128 191 c && utf8_valid s3
        | _ => false
        end
      else if in_range 240 244 a then
        match s1 with
        | String b (String c (String d s4)) =>
            in_range (if (n =? 240)%N then 144 else 128)
                     (if (n =? 244)%N then 143 else 191) b
            && in_range 128 191 c && in_range 128 191 d && utf8_valid s4
        | _ => false
        end
      else false
  end.
Definition from_utf8 (s : string) : option string :=
  if utf8_valid s then Some s else None.

(** [byte.is_ascii_hexdigit() && !byte.is_ascii_uppercase()], the test every
    identifier of the program uses. *)
Definition lower_hex (b : ascii) : bool :=
  is_ascii_hexdigit b && negb (is_ascii_uppercase b).

(* ------------------------------------------------------------------ *)
(** ** Lemmas on bytes *)

Lemma bytes_all_app p s t : bytes_all p (s +:+ t) = bytes_all p s && bytes_all p t.
Proof.
  induction s as [|b s IH]; [done|].
  change (String b s +:+ t) with (String b (s +:+ t)). simpl. rewrite IH.
  by rewrite andb_assoc.
Qed.

Lemma bytes_all_impl (p q : ascii → bool) s :
  (∀ b, p b = true → q b = true) → bytes_all p s = true → bytes_all q s = true.
Proof.
  intros Hpq. induction s as [|b s IH]; simpl; [done|].
  rewrite !andb_true_iff. intros [? ?]. auto.
Qed.

Lemma bval_range b : (bval b < 256)%N.
Proof. apply N_ascii_bounded. Qed.

Lemma in_range_true lo hi b : in_range lo hi b = true ↔ (lo ≤ bval b ≤ hi)%N.
Proof. unfold in_range. rewrite andb_true_iff, !N.leb_le. done. Qed.

Lemma byte_in_true set b : byte_in set b = true ↔ b ∈ String.list_ascii_of_string set.
Proof.
  induction set as [|c set IH]; simpl; [by rewrite elem_of_nil|].
  rewrite orb_true_iff, Ascii.eqb_eq, IH, elem_of_cons. done.
Qed.

(* ------------------------------------------------------------------ *)
(** ** Lemmas on characters *)

Lemma chars_ascii s :
  bytes_all is_ascii s = true → chars s = bval <$> String.list_ascii_of_string s.
Proof.
  induction s as [|b s IH]; [done|]. simpl. rewrite andb_true_iff.
  unfold is_ascii. intros [Hb Hs]. rewrite Hb. f_equal. auto.
Qed.

Lemma utf8_ascii s :
  bytes_all is_ascii s = true → utf8 (bval <$> String.list_ascii_of_string s) = s.
Proof.
  induction s as [|b s IH]; [done|]. cbn [bytes_all]. rewrite andb_true_iff.
  intros [Hb Hs]. unfold is_ascii in Hb.
  change (encode_char (bval b) +:+ utf8 (bval <$> String.list_ascii_of_string s) = String b s).
  rewrite IH by done. unfold encode_char. rewrite Hb.
  unfold bval. by rewrite ascii_N_embedding.
Qed.

Lemma utf8_chars_ascii s : bytes_all is_ascii s = true → utf8 (chars s) = s.
Proof. intros H. by rewrite chars_ascii, utf8_ascii. Qed.

Lemma drop_while_elem {A} (p : A → bool) l x : x ∈ drop_while p l → x ∈ l.
Proof.
  induction l as [|y l IH]; simpl; [done|]. destruct (p y); [|done].
  intros. right. auto.
Qed.

Lemma drop_while_keep {A} (p : A → bool) l :
  (∀ x l', l = x :: l' → p x = false) → drop_while p l = l.
Proof. destruct l as [|x l]; [done|]. intros H. simpl. by rewrite (H x l). Qed.

Lemma drop_while_nil {A} (p : A → bool) l :
  drop_while p l = [] ↔ Forall (λ x, p x = true) l.
Proof.
  induction l as [|x l IH]; simpl; [done|]. rewrite Forall_cons.
  destruct (p x) eqn:Hp; [naive_solver|]. split; [done|]. intros [? _]. congruence.
Qed.

Lemma trim_chars_nil cs : trim_chars cs = [] ↔ Forall (λ c, is_whitespace c = true) cs.
Proof.
  unfold trim_chars. split.
  - intros H. apply (f_equal reverse) in H. rewrite reverse_involutive in H.
    apply drop_while_nil in H. rewrite Forall_reverse in H.
    destruct (drop_while is_whitespace cs) as [|c cs'] eqn:E.
    { by apply drop_while_nil. }
    exfalso. apply Forall_cons_1 in H as [Hc _].
    clear -E Hc. induction cs as [|d cs IH]; simpl in E; [done|].
    destruct (is_whitespace d) eqn:Hd; [auto|]. congruence.
  - intros H. by rewrite (proj2 (drop_while_nil _ _) H).
Qed.

Lemma encode_char_nonempty c s : is_empty (encode_char c +:+ s) = false.
Proof. unfold encode_char. by repeat case_match. Qed.

(** [s.trim().is_empty()] holds exactly for strings of whitespace. *)
Lemma trim_empty s :
  is_empty (trim s) = true ↔ Forall (λ c, is_whitespace c = true) (chars s).
Proof.
  rewrite <-trim_chars_nil. unfold trim.
  destruct (trim_chars (chars s)) as [|c cs]; [done|].
  simpl. by rewrite encode_char_nonempty.
Qed.

(** A string with no whitespace at its ends is its own [trim]. *)
Lemma trim_chars_id cs :
  (∀ c cs', cs = c :: cs' → is_whitespace c = false) →
  (∀ c cs', cs = cs' ++ [c] → is_whitespace c = false) → trim_chars cs = cs.
Proof.
  intros Hh Ht. unfold trim_chars. rewrite (drop_while_keep _ cs) by done.
  rewrite drop_while_keep, reverse_involutive; [done|].
  intros c cs' E. apply (Ht c (reverse cs')).
  by rewrite <-(reverse_involutive cs), E, reverse_cons.
Qed.

Lemma trim_no_whitespace s :
  bytes_all (λ b, is_ascii b && negb (is_whitespace (bval b))) s = true →
  trim s = s.
Proof.
  intros H.
  assert (bytes_all is_ascii s = true) as Ha.
  { revert H. apply bytes_all_impl. intros b. by rewrite andb_true_iff; intros []. }
  assert (∀ c, c ∈ chars s → is_whitespace c = false) as Hw.
  { rewrite chars_ascii by done. clear Ha. induction s as [|b s IH]; simpl in *.
    - intros c Hc. by apply elem_of_nil in Hc.
    - apply andb_true_iff in H as [[_ Hb]%andb_true_iff Hs].
      intros c [->|Hc]%elem_of_cons; [by apply negb_true_iff|auto]. }
  unfold trim. rewrite trim_chars_id; [by apply utf8_chars_ascii| |].
  - intros c cs' E. apply Hw. rewrite E. left.
  - intros c cs' E. apply Hw. rewrite E. set_solver.
Qed.

(* ------------------------------------------------------------------ *)
(** ** Lemmas on searching and splitting *)

Lemma string_app_cons a s t : String a s +:+ t = String a (s +:+ t).
Proof. done. Qed.

Lemma string_app_nil_r s : s +:+ "" = s.
Proof. induction s as [|a s IH]; [done|]. by rewrite string_app_cons, IH. Qed.

Lemma string_app_assoc s t u : s +:+ (t +:+ u) = (s +:+ t) +:+ u.
Proof. induction s as [|a s IH]; [done|]. by rewrite !string_app_cons, IH. Qed.

Lemma strip_prefix_Some p s t : strip_prefix p s = Some t ↔ s = p +:+ t.
Proof.
  revert s. induction p as [|a p IH]; intros s.
  - simpl. split; [by intros [= ->]|by intros ->].
  - rewrite string_app_cons. destruct s as [|b s]; simpl; [done|].
    destruct (Ascii.eqb_spec a b) as [->|Hne]; [|split; congruence].
    rewrite IH. split; congruence.
Qed.

Lemma strip_prefix_app p s : strip_prefix p (p +:+ s) = Some s.
Proof. by apply strip_prefix_Some. Qed.

Lemma rev_append_acc s acc : rev_append s acc = str_rev s +:+ acc.
Proof.
  unfold str_rev. revert acc. induction s as [|a s IH]; intros acc; [done|].
  simpl. rewrite (IH (String a acc)), (IH (String a "")). by rewrite <-string_app_assoc.
Qed.

Lemma str_rev_cons a s : str_rev (String a s) = str_rev s +:+ String a "".
Proof. unfold str_rev at 1. simpl. apply rev_append_acc. Qed.

Lemma str_rev_app s t : str_rev (s +:+ t) = str_rev t +:+ str_rev s.
Proof.
  induction s as [|a s IH].
  - change ("" +:+ t) with t. by rewrite string_app_nil_r.
  - by rewrite string_app_cons, !str_rev_cons, IH, string_app_assoc.
Qed.

Lemma str_rev_involutive s : str_rev (str_rev s) = s.
Proof.
  induction s as [|a s IH]; [done|]. by rewrite str_rev_cons, str_rev_app, IH.
Qed.

Lemma strip_suffix_Some p s t : strip_suffix p s = Some t ↔ s = t +:+ p.
Proof.
  unfold strip_suffix. rewrite fmap_Some. setoid_rewrite strip_prefix_Some. split.
  - intros (u & Hu & ->). apply (f_equal str_rev) in Hu.
    by rewrite str_rev_app, !str_rev_involutive in Hu.
  - intros ->. exists (str_rev t). by rewrite str_rev_app, str_rev_involutive.
Qed.

Lemma split_app c l s :
  bytes_all (λ b, negb (Ascii.eqb b c)) l = true → split c (l +:+ String c s) = l :: split c s.
Proof.
  induction l as [|b l IH]; simpl.
  - intros _. change ("" +:+ String c s) with (String c s). simpl. by rewrite Ascii.eqb_refl.
  - intros [Hb Hl]%andb_true_iff.
    apply negb_true_iff in Hb. by rewrite Hb, IH.
Qed.

Lemma split_nonempty c s : split c s ≠ [].
Proof. destruct s as [|b s]; simpl; [done|]. destruct (Ascii.eqb b c); [done|]. by destruct (split c s). Qed.

(** A line ended by a newline is the first of the lines. *)
Lemma lines_cons l s :
  bytes_all (λ b, negb (Ascii.eqb b nl) && negb (Ascii.eqb b cr)) l = true →
  lines (l +:+ String nl s) = l :: lines s.
Proof.
  intros Hl. unfold lines. rewrite split_app.
  2: { revert Hl. apply bytes_all_impl. intros b. by intros [? _]%andb_true_iff. }
  assert (strip_cr l = l) as Hcr.
  { unfold strip_cr. destruct (strip_suffix (String cr "") l) as [t|] eqn:E; [|done].
    apply strip_suffix_Some in E. rewrite E, bytes_all_app in Hl.
    by rewrite andb_comm in Hl. }
  destruct (split nl s) as [|q qs] eqn:E; [by destruct (split_nonempty nl s)|].
  cbn [lines_of]. by rewrite Hcr.
Qed.

(* ------------------------------------------------------------------ *)
(** ** Lemmas on integers *)

Lemma digit_byte (d : Z) (Hd : (0 ≤ d < 10)%Z) :
  is_ascii_digit (ascii_of_N (Z.to_N (48 + d))) = true
  ∧ digit_val (ascii_of_N (Z.to_N (48 + d))) = d.
Proof.
  unfold is_ascii_digit, digit_val. rewrite in_range_true. unfold bval.
  rewrite N_ascii_embedding by lia. lia.
Qed.

Lemma show_digits_val fuel n acc a :
  (0 ≤ n < 10 ^ Z.of_nat fuel)%Z →
  ∃ k, digits_val a (show_digits fuel n acc) = digits_val (a * 10 ^ Z.of_nat k + n) acc.
Proof.
  revert n acc. induction fuel as [|fuel IH]; intros n acc Hn.
  { exists O. simpl in *. f_equal. lia. }
  destruct (digit_byte (n mod 10)) as [Hd Hv]; [apply Z.mod_pos_bound; lia|].
  cbn -[Z.add Z.mul Z.modulo Z.div Z.pow]. destruct (n / 10 =? 0)%Z eqn:E.
  - exists 1%nat. simpl. rewrite Hd, Hv. f_equal. apply Z.eqb_eq in E.
    rewrite (Z.div_mod n 10) at 2 by lia. rewrite E. lia.
  - destruct (IH (n / 10)%Z (String (ascii_of_N (Z.to_N (48 + n mod 10))) acc))
      as [k Hk].
    { rewrite Nat2Z.inj_succ, Z.pow_succ_r in Hn by lia.
      split; [apply Z.div_pos; lia|apply Z.div_lt_upper_bound; lia]. }
    exists (S k). rewrite Hk. simpl digits_val. rewrite Hd, Hv. f_equal.
    rewrite Nat2Z.inj_succ, Z.pow_succ_r by lia.
    rewrite (Z.div_mod n 10) at 3 by lia. ring.
Qed.

Lemma show_digits_head fuel n acc :
  ∃ b s, show_digits (S fuel) n acc = String b s ∧ is_ascii_digit b = true.
Proof.
  revert n acc. induction fuel as [|fuel IH]; intros n acc.
  - cbn -[Z.add Z.modulo Z.div]. destruct (n / 10 =? 0)%Z; eexists _, _; (split; [done|]);
      apply digit_byte, Z.mod_pos_bound; lia.
  - change (show_digits (S (S fuel)) n acc) with
      (let acc' := String (ascii_of_N (Z.to_N (48 + n mod 10))) acc in
       if (n / 10 =? 0)%Z then acc' else show_digits (S fuel) (n / 10) acc').
    cbv zeta. destruct (n / 10 =? 0)%Z; [|apply IH].
    eexists _, _. split; [done|]. apply digit_byte, Z.mod_pos_bound. lia.
Qed.

(** [parse] inverts [to_string] on every value of the type. *)
Lemma parse_to_string max n :
  (0 ≤ n ≤ max)%Z → parse_unsigned max (to_string n) = Some n.
Proof.
  intros Hn. unfold to_string.
  destruct (show_digits_head (Z.to_nat (Z.log2 n)) n "") as (b & s & Hs & Hb).
  destruct (show_digits_val (S (Z.to_nat (Z.log2 n))) n "" 0%Z) as [k Hk].
  { split; [lia|]. destruct (Z.eq_dec n 0%Z) as [->|]; [done|].
    pose proof (Z.log2_spec n). rewrite Nat2Z.inj_succ, Z2Nat.id by apply Z.log2_nonneg.
    eapply Z.lt_le_trans; [apply H; lia|]. apply Z.pow_le_mono_l. lia. }
  assert (parse_unsigned max (String b s) = parse_digits max (String b s)) as Hp.
  { clear Hs. unfold parse_unsigned.
    destruct b as [[] [] [] [] [] [] [] []]; first [reflexivity|discriminate Hb]. }
  rewrite Hs in Hk |- *. rewrite Hp. unfold parse_digits. change (is_empty _) with false.
  cbn iota. rewrite Hk. change (digits_val ?a "") with (Some a).
  rewrite Z.mul_0_l, Z.add_0_l. cbn. by rewrite (proj2 (Z.leb_le n max)) by lia.
Qed.

Lemma parse_unsigned_range max s n :
  parse_unsigned max s = Some n → (0 ≤ n ≤ max)%Z.
Proof.
  assert (∀ a t m, (0 ≤ a)%Z → digits_val a t = Some m → (0 ≤ m)%Z) as Hpos.
  { intros a t. revert a. induction t as [|b t IH]; simpl; intros a m Ha; [naive_solver|].
    destruct (is_ascii_digit b) eqn:Hb; [|done].
    apply IH. unfold is_ascii_digit in Hb. apply in_range_true in Hb.
    unfold digit_val. lia. }
  assert (∀ t, parse_digits max t = Some n → (0 ≤ n ≤ max)%Z) as Hd.
  { intros t. unfold parse_digits. destruct (is_empty t); [done|].
    destruct (digits_val 0 t) as [m|] eqn:E; simpl; [|done].
    destruct (Z.leb_spec m max); [|done]. intros [= ->]. split; [|done].
    by apply (Hpos 0%Z t). }
  unfold parse_unsigned. destruct s as [|b s]; [apply Hd|].
  destruct b as [[] [] [] [] [] [] [] []]; apply Hd.
Qed.

Lemma parse_i64_range s n : parse_i64 s = Some n → (n ≤ i64_max)%Z.
Proof.
  assert (∀ max t, parse_digits max t = Some n → (n ≤ max)%Z) as Hd.
  { intros max t. unfold parse_digits. destruct (is_empty t); [done|].
    destruct (digits_val 0 t) as [m|]; simpl; [|done].
    destruct (Z.leb_spec m max); [|done]. by intros [= <-]. }
  assert (∀ t, Z.opp <$> parse_digits (- i64_min) t = Some n → (n ≤ i64_max)%Z) as Hn.
  { intros t. destruct (parse_digits (- i64_min) t) as [m|] eqn:E; simpl; [|done].
    intros [= <-]. assert (0 ≤ m)%Z; [|unfold i64_max; lia].
    apply (parse_unsigned_range (- i64_min) (String "+" t)). exact E. }
  unfold parse_i64. destruct s as [|b s]; [apply Hd|].
  destruct b as [[] [] [] [] [] [] [] []]; first [apply Hd|apply Hn].
Qed.

Example parse_u64_ex :
  map parse_u64 ["42"; "+7"; ""; "+"; "-1"; "18446744073709551616"; "1x"]
  = [Some 42; Some 7; None; None; None; None; None]%Z.
Proof. reflexivity. Qed.
Example lines_ex : lines ("a" +:+ String cr (String nl ("b" +:+ String nl ""))) = ["a"; "b"].
Proof. reflexivity. Qed.
Example splitn_ex : splitn 2 "|" "a|b|c" = ["a"; "b|c"].
Proof. reflexivity. Qed.
Example trim_ex : trim "  a b " = "a b".
Proof. reflexivity. Qed.

Lemma digit_is_ascii b : is_ascii_digit b = true → is_ascii b = true.
Proof. unfold is_ascii_digit, is_ascii. rewrite in_range_true, N.ltb_lt. lia. Qed.

Lemma utf8_valid_ascii s : bytes_all is_ascii s = true → utf8_valid s = true.
Proof.
  induction s as [|b s IH]; [done|]. simpl. intros [Hb Hs]%andb_true_iff.
  unfold is_ascii in Hb. rewrite Hb. by apply IH.
Qed.

Lemma from_utf8_ascii s : bytes_all is_ascii s = true → from_utf8 s = Some s.
Proof. intros H. unfold from_utf8. by rewrite utf8_valid_ascii. Qed.

Lemma string_length_app s t : String.length (s +:+ t) = String.length s + String.length t.
Proof. induction s as [|a s IH]; simpl; [done|]. by rewrite IH. Qed.

Lemma show_digits_all fuel n acc :
  bytes_all is_ascii_digit acc = true → bytes_all is_ascii_digit (show_digits fuel n acc) = true.
Proof.
  revert n acc. induction fuel as [|fuel IH]; intros n acc Ha; [done|].
  cbn -[Z.add Z.modulo Z.div].
  assert (bytes_all is_ascii_digit (String (ascii_of_N (Z.to_N (48 + n mod 10))) acc) = true) as H.
  { cbn -[Z.add Z.modulo]. rewrite Ha, andb_true_r. apply digit_byte, Z.mod_pos_bound. lia. }
  destruct (n / 10 =? 0)%Z; auto.
Qed.

Lemma show_digits_length fuel n acc (k : nat) :
  (0 ≤ n < 10 ^ Z.of_nat (S k))%Z → String.length (show_digits fuel n acc) ≤ S k + String.length acc.
Proof.
  revert n acc k. induction fuel as [|fuel IH]; intros n acc k Hn; [simpl; lia|].
  cbn -[Z.add Z.modulo Z.div Z.pow]. destruct (n / 10 =? 0)%Z eqn:E; [cbn; lia|].
  apply Z.eqb_neq in E. destruct k as [|k].
  - exfalso. apply E, Z.div_small. lia.
  - rewrite Nat2Z.inj_succ, Z.pow_succ_r in Hn by lia.
    pose proof (IH (n / 10)%Z (String (ascii_of_N (Z.to_N (48 + n mod 10))) acc) k) as H.
    cbn [String.length] in H. eapply Nat.le_trans; [apply H|lia].
    split; [apply Z.div_pos; lia|apply Z.div_lt_upper_bound; lia].
Qed.

Lemma to_string_digits n : bytes_all is_ascii_digit (to_string n) = true.
Proof. by apply show_digits_all. Qed.

Lemma to_string_nonempty n : is_empty (to_string n) = false.
Proof.
  unfold to_string. destruct (show_digits_head (Z.to_nat (Z.log2 n)) n "") as (b & s & -> & _). done.
Qed.

Lemma to_string_length n (k : nat) :
  (0 ≤ n < 10 ^ Z.of_nat k)%Z → k ≠ 0 → String.length (to_string n) ≤ k.
Proof.
  intros Hn Hk. destruct k as [|k]; [done|]. unfold to_string.
  pose proof (show_digits_length (S (Z.to_nat (Z.log2 n))) n "" k Hn). cbn in *. lia.
Qed.

(** A slice from the start is a prefix. *)
Lemma substring_prefix n s : ∃ t, s = String.substring 0 n s +:+ t.
Proof.
  revert s. induction n as [|n IH]; intros s; [exists s; by destruct s|].
  destruct s as [|b s]; [by exists ""|]. destruct (IH s) as [t Ht]. exists t.
  simpl. change (String b s = String b (String.substring 0 n s +:+ t)). by f_equal.
Qed.
