(* ===== verification/Recovery.v ===== *)
(** * Btrfs rollback identities (src/core/src/recovery.rs)

    The identity of a subvolume, the goal of an explicitly requested rollback,
    the parser of [btrfs subvolume show --raw] and the check of the booted
    system against the goal. The [btrfs] program is the parameter [run]. *)

From S2P Require Import Prelude RustStr.

Open Scope bool_scope.
Open Scope lyra_scope.

(* ------------------------------------------------------------------ *)
(** ** Data *)

Record SubvolumeIdentity := {
  id : Z;
  uuid : string;
  parent_uuid : option string;
}.

Record RollbackGoal := {
  source_snapshot_number : Z;
  source_snapshot : SubvolumeIdentity;
  (** [None] is a persisted intent whose boot selection is not confirmed. *)
  boot_snapshot : option SubvolumeIdentity;
}.

#[export] Instance SubvolumeIdentity_eq_dec : EqDecision SubvolumeIdentity.
Proof. solve_decision. Defined.
#[export] Instance RollbackGoal_eq_dec : EqDecision RollbackGoal.
Proof. solve_decision. Defined.

(* ------------------------------------------------------------------ *)
(** ** Well-formed identities *)

Definition valid_uuid (value : string) : bool :=
  (str_len value =? 36)%Z
  && bytes_alli (λ i c,
       if contains [8; 13; 18; 23]%nat i then Ascii.eqb c "-" else lower_hex c) value.

Definition identity_valid (self : SubvolumeIdentity) : bool :=
  (5 <? id self)%Z && valid_uuid (uuid self)
  && is_none_or (parent_uuid self) valid_uuid.

Definition goal_valid (self : RollbackGoal) (snapshot_number : option Z) : bool :=
  (0 <? source_snapshot_number self)%Z
  && (snapshot_number ==? Some (source_snapshot_number self))
  && identity_valid (source_snapshot self)
  && is_none_or (boot_snapshot self) (λ boot,
       identity_valid boot
       && (id boot !=? id (source_snapshot self))
       && (uuid boot !=? uuid (source_snapshot self))
       && (parent_uuid boot ==? Some (uuid (source_snapshot self)))).

(** Paths are their textual form. *)
Definition snapshot_path (number : Z) : string :=
  "/.snapshots/" +:+ to_string number +:+ "/snapshot".

(* ------------------------------------------------------------------ *)
(** ** The parser *)

Definition identity_keys : list string := ["UUID"; "Parent UUID"; "Subvolume ID"].

Fixpoint subvolume_fields (fields : gmap string string) (ls : list string)
  : result string (gmap string string) :=
  match ls with
  | [] => Ok fields
  | line :: ls' =>
      match split_once ":" (trim line) with
      | Some (key, value) =>
          if contains identity_keys key then
            match fields !! key with
            | Some _ => Err "BTRFS_IDENTITY_INVALID"
            | None => subvolume_fields (<[key := trim value]> fields) ls'
            end
          else subvolume_fields fields ls'
      | None => subvolume_fields fields ls'
      end
  end.

Definition parse_subvolume (output : string) : result string SubvolumeIdentity :=
  fields ← subvolume_fields ∅ (lines output);
  uuid ← ok_or "BTRFS_IDENTITY_INVALID" (fields !! "UUID");
  parent ← ok_or "BTRFS_IDENTITY_INVALID" (fields !! "Parent UUID");
  id ← ok_or "BTRFS_IDENTITY_INVALID" (fields !! "Subvolume ID" ≫= parse_u64);
  let value := {|
    id := id;
    uuid := uuid;
    parent_uuid := if parent !=? "-" then Some parent else None |} in
  if negb (identity_valid value) then Err "BTRFS_IDENTITY_INVALID" else Ok value.

(* ------------------------------------------------------------------ *)
(** ** The check of the booted system *)

Section probes.
(** [run arguments path]: the exit status and standard output of the [btrfs]
    program, [None] when it cannot be started. *)
Context (run : list string → string → option (bool * string)).

Definition btrfs (arguments : list string) (path : string) : result string string :=
  '(success, stdout) ← ok_or "BTRFS_PROBE_FAILED" (run arguments path);
  if negb success then Err "BTRFS_PROBE_FAILED"
  else ok_or "BTRFS_PROBE_FAILED" (from_utf8 stdout).

Definition inspect_subvolume (path : string) : result string SubvolumeIdentity :=
  output ← btrfs ["subvolume"; "show"; "--raw"] path; parse_subvolume output.

Definition containing_subvolume_id (path : string) : result string Z :=
  output ← btrfs ["inspect-internal"; "rootid"] path;
  ok_or "BTRFS_PROBE_FAILED" (parse_u64 (trim output)).

Definition default_subvolume_id : result string Z :=
  output ← btrfs ["subvolume"; "get-default"] "/";
  match split_whitespace output with
  | "ID" :: fields => ok_or "BTRFS_PROBE_FAILED" (head fields ≫= parse_u64)
  | _ => Err "BTRFS_PROBE_FAILED"
  end.

Definition verify_rollback_boot (goal : RollbackGoal) : result string unit :=
  expected ← ok_or "ROLLBACK_INTENT_INCOMPLETE" (boot_snapshot goal);
  source ← inspect_subvolume (snapshot_path (source_snapshot_number goal));
  if source !=? source_snapshot goal then Err "ROLLBACK_BOOT_IDENTITY_MISMATCH" else
  root ← inspect_subvolume "/";
  if root !=? expected then Err "ROLLBACK_BOOT_IDENTITY_MISMATCH" else
  default_id ← default_subvolume_id;
  if default_id !=? id expected then Err "ROLLBACK_BOOT_IDENTITY_MISMATCH" else
  Ok ().
End probes.

(* ------------------------------------------------------------------ *)
(** ** What the output says *)

(** The values the lines of an output give to a key. *)
Definition field_values (key : string) (ls : list string) : list string :=
  omap (λ line,
    '(k, value) ← split_once ":" (trim line);
    if k ==? key then Some (trim value) else None) ls.

Definition opt_list {A} (o : option A) : list A :=
  match o with Some a => [a] | None => [] end.

(** The map read from the lines has for each key the one value given to it. *)
Lemma subvolume_fields_sound ls fields fields' :
  subvolume_fields fields ls = Ok fields' →
  ∀ key, key ∈ identity_keys →
    opt_list (fields !! key) ++ field_values key ls = opt_list (fields' !! key).
Proof.
  revert fields. induction ls as [|line ls IH]; intros fields; simpl.
  { intros [= ->] key _. by rewrite app_nil_r. }
  destruct (split_once ":" (trim line)) as [[k v]|] eqn:Hs; simpl; [|by apply IH].
  intros H key Hk. destruct (contains identity_keys k) eqn:Hc.
  - destruct (fields !! k) eqn:Hf; [done|]. specialize (IH _ H key Hk).
    destruct (eqb k key) eqn:E; simpl; tests; subst.
    + by rewrite lookup_insert_eq in IH; rewrite Hf.
    + by rewrite lookup_insert_ne in IH by done.
  - destruct (eqb k key) eqn:E; simpl; [|by apply IH].
    tests. by subst.
Qed.

(** If no key has two values, the lines are accepted. *)
Lemma subvolume_fields_complete ls fields :
  (∀ key, key ∈ identity_keys →
     length (opt_list (fields !! key) ++ field_values key ls) ≤ 1) →
  ∃ fields', subvolume_fields fields ls = Ok fields'.
Proof.
  revert fields. induction ls as [|line ls IH]; intros fields H; simpl in *; [eauto|].
  destruct (split_once ":" (trim line)) as [[k v]|] eqn:Hs; simpl in *; [|by apply IH].
  destruct (contains identity_keys k) eqn:Hc.
  - assert (k ∈ identity_keys) as Hk by by tests.
    destruct (fields !! k) eqn:Hf.
    { specialize (H k Hk). rewrite Hf, eqb_refl in H. simpl in H. lia. }
    apply IH. intros key Hkey. specialize (H key Hkey).
    destruct (eqb k key) eqn:E; simpl in *; tests; subst.
    + by rewrite lookup_insert_eq; rewrite Hf in H.
    + by rewrite lookup_insert_ne.
  - apply IH. intros key Hkey. specialize (H key Hkey).
    destruct (eqb k key) eqn:E; [|done]. tests. by subst.
Qed.

Lemma identity_keys_elem : "UUID" ∈ identity_keys ∧ "Parent UUID" ∈ identity_keys
  ∧ "Subvolume ID" ∈ identity_keys.
Proof. unfold identity_keys. set_solver. Qed.

Lemma opt_list_single {A} (o : option A) a : opt_list o = [a] ↔ o = Some a.
Proof. destruct o; simpl; split; congruence. Qed.

Lemma single_of_length {A} (l : list A) a : l = [a] → length l ≤ 1.
Proof. by intros ->. Qed.

(** The parsed parent is the field, with [-] for none; no UUID is [-]. *)
Lemma parent_field (o : option string) p :
  is_none_or o valid_uuid = true →
  (if p !=? "-" then Some p else None) = o ↔ p = default "-" o.
Proof.
  intros Hv. destruct (eqb p "-") eqn:E; simpl; tests; subst.
  - split; [by intros <-|]. destruct o as [u|]; simpl; [|done].
    intros <-. specialize (Hv _ eq_refl). by vm_compute in Hv.
  - split; [by intros <-|]. by destruct o as [u|]; simpl; intros ->.
Qed.

Lemma fields_lookup fields ls key v :
  subvolume_fields ∅ ls = Ok fields → key ∈ identity_keys →
  fields !! key = Some v ↔ field_values key ls = [v].
Proof.
  intros H Hk. pose proof (subvolume_fields_sound _ _ _ H key Hk) as Hs.
  rewrite lookup_empty in Hs. simpl in Hs. by rewrite Hs, opt_list_single.
Qed.

(** [parse_subvolume] accepts an output with an identity exactly when each
    of the three fields occurs on one line of it and on no other, the values are
    those of the identity ([-] for no parent, a decimal identifier) and the
    identity is valid; every other output is an error. *)
Theorem parse_subvolume_iff output v :
  parse_subvolume output = Ok v ↔
    field_values "UUID" (lines output) = [uuid v]
    ∧ field_values "Parent UUID" (lines output) = [default "-" (parent_uuid v)]
    ∧ (∃ t, field_values "Subvolume ID" (lines output) = [t]
            ∧ parse_u64 t = Some (id v))
    ∧ identity_valid v = true.
Proof.
  destruct identity_keys_elem as (Hu & Hp & Hi). unfold parse_subvolume. split.
  - intros H. res_inv. rename select (subvolume_fields _ _ = _) into Hf.
    match type of H with context [identity_valid ?w] => destruct (identity_valid w) eqn:Hv end;
      [|done]. simpl in H. injection H as <-. simpl.
    setoid_rewrite <-(fields_lookup _ _ _ _ Hf); [|done..].
    rename select (_ ≫= parse_u64 = _) into Hn. apply bind_Some in Hn as (t & Ht & Hn).
    split; [done|]. split; [|split; [|done]].
    + unfold identity_valid in Hv. apply andb_true_iff in Hv as [_ Hpv].
      pose proof (proj1 (parent_field _ _ Hpv) eq_refl) as Hp1. simpl in Hp1. congruence.
    + by exists t.
  - intros (Hvu & Hvp & (t & Ht & Hn) & Hv).
    destruct (subvolume_fields_complete (lines output) ∅) as [fields Hf].
    { intros key Hk. rewrite lookup_empty. simpl. unfold identity_keys in Hk.
      repeat (apply elem_of_cons in Hk as [->|Hk]; [eapply single_of_length; eassumption|]).
      by apply elem_of_nil in Hk. }
    apply (fields_lookup _ _ _ _ Hf) in Hvu, Hvp, Ht; [|done..].
    rewrite Hf. simpl. rewrite Hvu, Hvp, Ht. simpl. rewrite Hn. simpl.
    assert (is_none_or (parent_uuid v) valid_uuid = true) as Hpv.
    { unfold identity_valid in Hv. by apply andb_true_iff in Hv as [_ ?]. }
    rewrite (proj2 (parent_field _ _ Hpv) eq_refl). destruct v; simpl in *. by rewrite Hv.
Qed.

(** A rollback whose persisted goal is well formed for the recorded snapshot
    is confirmed after a boot exactly when the goal names a boot clone, the
    source snapshot on disk still has the recorded identity, the running root
    is that clone and the clone is the default subvolume; the confirmed root is
    then a direct child of the source snapshot and not that snapshot itself. *)
Theorem verify_rollback_boot_iff run goal n :
  goal_valid goal n = true →
  (verify_rollback_boot run goal = Ok () ↔
   ∃ boot,
     boot_snapshot goal = Some boot
     ∧ inspect_subvolume run (snapshot_path (source_snapshot_number goal))
         = Ok (source_snapshot goal)
     ∧ inspect_subvolume run "/" = Ok boot
     ∧ default_subvolume_id run = Ok (id boot)
     ∧ parent_uuid boot = Some (uuid (source_snapshot goal))
     ∧ id boot ≠ id (source_snapshot goal)).
Proof.
  unfold goal_valid, verify_rollback_boot. rewrite !andb_true_iff, is_none_or_true.
  intros [_ Hb]. split.
  - destruct (boot_snapshot goal) as [boot|] eqn:Hg; simpl; [|done].
    specialize (Hb _ eq_refl). intros H.
    apply bind_Ok in H as (src & Hsrc & H). destruct (eqb src _) eqn:E1; [|done].
    simpl in H. apply bind_Ok in H as (root & Hroot & H).
    destruct (eqb root boot) eqn:E2; [|done]. simpl in H.
    apply bind_Ok in H as (d & Hd & H). destruct (eqb d _) eqn:E3; [|done].
    tests. subst. naive_solver.
  - intros (boot & Hg & Hsrc & Hroot & Hd & _). rewrite Hg. simpl.
    rewrite Hsrc. simpl. rewrite eqb_refl. simpl. rewrite Hroot. simpl.
    rewrite eqb_refl. simpl. rewrite Hd. simpl. by rewrite eqb_refl.
Qed.

(* ------------------------------------------------------------------ *)
(** ** A concrete host *)

Definition sample_source : SubvolumeIdentity := {|
  id := 258; uuid := "aaaaaaaa-bbbb-cccc-dddd-eeeeeeeeeeee"; parent_uuid := None |}.
Definition sample_boot : SubvolumeIdentity := {|
  id := 260; uuid := "bbbbbbbb-bbbb-cccc-dddd-eeeeeeeeeeee";
  parent_uuid := Some "aaaaaaaa-bbbb-cccc-dddd-eeeeeeeeeeee" |}.
Definition sample_goal : RollbackGoal := {|
  source_snapshot_number := 2; source_snapshot := sample_source;
  boot_snapshot := Some sample_boot |}.
Definition sample_lines (ls : list string) : string :=
  foldr (λ l s, l +:+ String nl s) "" ls.
Definition sample_run (arguments : list string) (path : string) : option (bool * string) :=
  Some (true,
    if contains arguments "get-default" then "ID 260 gen 7 top level 5 path @/x"
    else if path ==? "/" then
      sample_lines ["@/x"; "	UUID: 	" +:+ uuid sample_boot;
        "	Parent UUID: 	" +:+ uuid sample_source; "	Subvolume ID: 	260"]
    else
      sample_lines ["@/.snapshots/2/snapshot"; "	UUID: 	" +:+ uuid sample_source;
        "	Parent UUID: 	-"; "	Subvolume ID: 	258"; "	Flags: 	readonly"]).

Example sample_run_source :
  inspect_subvolume sample_run (snapshot_path 2) = Ok sample_source.
Proof. vm_compute. reflexivity. Qed.

Lemma verify_rollback_boot_iff_witness :
  goal_valid sample_goal (Some 2%Z) = true
  ∧ verify_rollback_boot sample_run sample_goal = Ok ().
Proof.
  split; [vm_compute; reflexivity|].
  apply (verify_rollback_boot_iff sample_run sample_goal (Some 2%Z));
    [vm_compute; reflexivity|].
  exists sample_boot. vm_compute. repeat split; discriminate.
Defined.
