(* ===== verification/State.v ===== *)
(** * The operation state machine (src/core/src/lib.rs)

    The persisted record of an operation, the predicates of its states, the
    transition table and [transition_to], with the step relation of an operation
    that runs without a failure being injected from outside: validated
    transitions and the one write of the snapshot number. *)

From S2P Require Import Prelude RustStr Recovery.

Open Scope bool_scope.
Open Scope lyra_scope.

(* ------------------------------------------------------------------ *)
(** ** Data *)

Definition STATE_SCHEMA_VERSION : Z := 1.

Inductive OperationKind : Set :=
  | UpdateWithinRelease | ReleaseUpgrade | PackageMigration.

Inductive OperationState : Set :=
  | Idle | Checking | Available | Preflight | Planned | AwaitingConfirmation
  | Downloading | Snapshotting | Applying | ReadyToReboot | ApplyingOffline
  | AwaitingReboot | VerifyingBoot | Blocked | Failed | NeedsRecovery | Completed.

Inductive BootVerification : Set := Boot_Pending | Boot_Passed | Boot_Failed.

Inductive TransitionError : Set :=
  | UnsupportedSchema | InvalidTransition | SnapshotNotRecorded.

Record ReleaseIdentity := {
  version : string;
  edition : string;
  architecture : string;
  build_id : string;
}.

Record OperationStateRecord := {
  schema_version : Z;
  operation_id : string;
  sequence : Z;
  operation : OperationKind;
  state : OperationState;
  source : ReleaseIdentity;
  target : option ReleaseIdentity;
  plan_sha256 : string;
  manifest_sha256 : option string;
  snapshot_number : option Z;
  recovery : option RollbackGoal;
  last_completed_step : option string;
  error_code : option string;
  boot_verification : option BootVerification;
  created_at : string;
  updated_at : string;
}.

#[export] Instance OperationKind_eq_dec : EqDecision OperationKind.
Proof. solve_decision. Defined.
#[export] Instance OperationState_eq_dec : EqDecision OperationState.
Proof. solve_decision. Defined.
#[export] Instance BootVerification_eq_dec : EqDecision BootVerification.
Proof. solve_decision. Defined.
#[export] Instance TransitionError_eq_dec : EqDecision TransitionError.
Proof. solve_decision. Defined.
#[export] Instance ReleaseIdentity_eq_dec : EqDecision ReleaseIdentity.
Proof. solve_decision. Defined.
#[export] Instance OperationStateRecord_eq_dec : EqDecision OperationStateRecord.
Proof. solve_decision. Defined.

(* ------------------------------------------------------------------ *)
(** ** Predicates *)

Definition is_signed_offline (self : OperationKind) : bool :=
  match self with ReleaseUpgrade | PackageMigration => true | _ => false end.

Definition is_terminal (self : OperationState) : bool :=
  match self with Failed | NeedsRecovery | Completed => true | _ => false end.

Definition is_cancelable (self : OperationState) : bool :=
  match self with
  | Idle | Checking | Available | Preflight | Planned | AwaitingConfirmation
  | Downloading | Blocked => true
  | _ => false
  end.

Definition permits_system_write (self : OperationState) : bool :=
  match self with
  | Snapshotting | Applying | ReadyToReboot | ApplyingOffline => true
  | _ => false
  end.

Definition is_supported_desktop (self : ReleaseIdentity) : bool :=
  (edition self ==? "desktop") && (architecture self ==? "x86_64").

(* ------------------------------------------------------------------ *)
(** ** Transitions *)

Definition valid_transition (operation : OperationKind)
    (current next : OperationState) : bool :=
  match next with
  | Blocked => match current with Checking | Preflight | Downloading => true | _ => false end
  | Failed => match current with Completed | NeedsRecovery => false | _ => true end
  | NeedsRecovery =>
      match current with
      | Snapshotting | Applying | ApplyingOffline | VerifyingBoot => true
      | _ => false
      end
  | _ =>
      match current, next with
      | Idle, Checking | Checking, Available | Available, Preflight
      | Preflight, Planned | Planned, AwaitingConfirmation
      | AwaitingConfirmation, Downloading | Downloading, Snapshotting
      | Applying, AwaitingReboot | Applying, Completed
      | AwaitingReboot, VerifyingBoot | VerifyingBoot, Completed
      | Blocked, Preflight | Blocked, Idle => true
      | Snapshotting, Applying =>
          match operation with UpdateWithinRelease => true | _ => false end
      | Snapshotting, ReadyToReboot | ReadyToReboot, ApplyingOffline
      | ApplyingOffline, AwaitingReboot => is_signed_offline operation
      | _, _ => false
      end
  end.

(** The states whose entry requires a recorded snapshot. *)
Definition needs_snapshot (next : OperationState) : bool :=
  match next with Applying | ReadyToReboot | ApplyingOffline => true | _ => false end.

Definition set_state (self : OperationStateRecord) (s : OperationState) : OperationStateRecord := {|
  schema_version := schema_version self; operation_id := operation_id self;
  sequence := sequence self; operation := operation self; state := s;
  source := source self; target := target self; plan_sha256 := plan_sha256 self;
  manifest_sha256 := manifest_sha256 self; snapshot_number := snapshot_number self;
  recovery := recovery self; last_completed_step := last_completed_step self;
  error_code := error_code self; boot_verification := boot_verification self;
  created_at := created_at self; updated_at := updated_at self |}.

Definition set_sequence (self : OperationStateRecord) (n : Z) : OperationStateRecord := {|
  schema_version := schema_version self; operation_id := operation_id self;
  sequence := n; operation := operation self; state := state self;
  source := source self; target := target self; plan_sha256 := plan_sha256 self;
  manifest_sha256 := manifest_sha256 self; snapshot_number := snapshot_number self;
  recovery := recovery self; last_completed_step := last_completed_step self;
  error_code := error_code self; boot_verification := boot_verification self;
  created_at := created_at self; updated_at := updated_at self |}.

Definition set_snapshot_number (self : OperationStateRecord) (n : option Z)
  : OperationStateRecord := {|
  schema_version := schema_version self; operation_id := operation_id self;
  sequence := sequence self; operation := operation self; state := state self;
  source := source self; target := target self; plan_sha256 := plan_sha256 self;
  manifest_sha256 := manifest_sha256 self; snapshot_number := n;
  recovery := recovery self; last_completed_step := last_completed_step self;
  error_code := error_code self; boot_verification := boot_verification self;
  created_at := created_at self; updated_at := updated_at self |}.

Definition set_recovery (self : OperationStateRecord) (g : option RollbackGoal)
  : OperationStateRecord := {|
  schema_version := schema_version self; operation_id := operation_id self;
  sequence := sequence self; operation := operation self; state := state self;
  source := source self; target := target self; plan_sha256 := plan_sha256 self;
  manifest_sha256 := manifest_sha256 self; snapshot_number := snapshot_number self;
  recovery := g; last_completed_step := last_completed_step self;
  error_code := error_code self; boot_verification := boot_verification self;
  created_at := created_at self; updated_at := updated_at self |}.

Definition set_error_code (self : OperationStateRecord) (e : option string)
  : OperationStateRecord := {|
  schema_version := schema_version self; operation_id := operation_id self;
  sequence := sequence self; operation := operation self; state := state self;
  source := source self; target := target self; plan_sha256 := plan_sha256 self;
  manifest_sha256 := manifest_sha256 self; snapshot_number := snapshot_number self;
  recovery := recovery self; last_completed_step := last_completed_step self;
  error_code := e; boot_verification := boot_verification self;
  created_at := created_at self; updated_at := updated_at self |}.

Definition set_last_completed_step (self : OperationStateRecord) (s : option string)
  : OperationStateRecord := {|
  schema_version := schema_version self; operation_id := operation_id self;
  sequence := sequence self; operation := operation self; state := state self;
  source := source self; target := target self; plan_sha256 := plan_sha256 self;
  manifest_sha256 := manifest_sha256 self; snapshot_number := snapshot_number self;
  recovery := recovery self; last_completed_step := s;
  error_code := error_code self; boot_verification := boot_verification self;
  created_at := created_at self; updated_at := updated_at self |}.

Definition set_boot_verification (self : OperationStateRecord)
    (b : option BootVerification) : OperationStateRecord := {|
  schema_version := schema_version self; operation_id := operation_id self;
  sequence := sequence self; operation := operation self; state := state self;
  source := source self; target := target self; plan_sha256 := plan_sha256 self;
  manifest_sha256 := manifest_sha256 self; snapshot_number := snapshot_number self;
  recovery := recovery self; last_completed_step := last_completed_step self;
  error_code := error_code self; boot_verification := b;
  created_at := created_at self; updated_at := updated_at self |}.

Definition set_updated_at (self : OperationStateRecord) (t : string)
  : OperationStateRecord := {|
  schema_version := schema_version self; operation_id := operation_id self;
  sequence := sequence self; operation := operation self; state := state self;
  source := source self; target := target self; plan_sha256 := plan_sha256 self;
  manifest_sha256 := manifest_sha256 self; snapshot_number := snapshot_number self;
  recovery := recovery self; last_completed_step := last_completed_step self;
  error_code := error_code self; boot_verification := boot_verification self;
  created_at := created_at self; updated_at := t |}.

(** Every assignment comes after the last [return Err]: an error leaves the
    record as it was, so the result carries the new record only on success. *)
Definition transition_to (self : OperationStateRecord) (next : OperationState)
  : result TransitionError OperationStateRecord :=
  if schema_version self !=? STATE_SCHEMA_VERSION then Err UnsupportedSchema
  else if needs_snapshot next && is_none (snapshot_number self)
  then Err SnapshotNotRecorded
  else if negb (valid_transition (operation self) (state self) next)
  then Err InvalidTransition
  else Ok (set_sequence (set_state self next) (saturating_add (sequence self) 1)).

(** What an operation does to its record while nothing fails outside the state
    machine: a validated transition, or the recording of the snapshot number
    Snapper printed, which the executor does in [Snapshotting] only. *)
Inductive step : OperationStateRecord → OperationStateRecord → Prop :=
  | step_transition r next r' : transition_to r next = Ok r' → step r r'
  | step_snapshot r n :
      state r = Snapshotting → (0 < n ≤ u64_max)%Z →
      step r (set_snapshot_number r (Some n)).

(** The run of a list of transitions, stopping at the first error. *)
Fixpoint transitions (r : OperationStateRecord) (l : list OperationState)
  : result TransitionError OperationStateRecord :=
  match l with
  | [] => Ok r
  | next :: l' => r' ← transition_to r next; transitions r' l'
  end.

(** The states of a path through the table. *)
Inductive path (k : OperationKind) : OperationState → list OperationState → OperationState → Prop :=
  | path_nil s : path k s [] s
  | path_cons s s' t l :
      valid_transition k s s' = true → path k s' l t → path k s (s' :: l) t.

(* ------------------------------------------------------------------ *)
(** ** Lemmas *)

Lemma transition_to_Ok r next r' :
  transition_to r next = Ok r' ↔
    schema_version r = STATE_SCHEMA_VERSION
    ∧ (needs_snapshot next = true → ∃ n, snapshot_number r = Some n)
    ∧ valid_transition (operation r) (state r) next = true
    ∧ r' = set_sequence (set_state r next) (saturating_add (sequence r) 1).
Proof.
  unfold transition_to. destruct (eqb (schema_version r) _) eqn:E1; simpl; tests.
  2: { split; [done|]. by intros (? & _). }
  destruct (needs_snapshot next) eqn:E2, (snapshot_number r) as [n|] eqn:E3;
    simpl; try (split; [done|]; intros (_ & H & _); by destruct (H eq_refl));
    destruct (valid_transition _ _ next) eqn:E4; simpl;
    (split; [|by intros (_ & _ & ? & ->)]); intros [= <-]; naive_solver.
Qed.

(** The states after the snapshot on the way to the result. *)
Definition after_snapshot (s : OperationState) : bool :=
  match s with
  | Applying | ReadyToReboot | ApplyingOffline | AwaitingReboot | VerifyingBoot
  | Completed => true
  | _ => false
  end.

(** The states that fit the kind of the operation. *)
Definition kind_allows (k : OperationKind) (s : OperationState) : bool :=
  match s with
  | Applying => negb (is_signed_offline k)
  | ReadyToReboot | ApplyingOffline => is_signed_offline k
  | _ => true
  end.

Ltac table := simpl in *; try done; try congruence; eauto.

Lemma valid_kind_allows k s s' :
  valid_transition k s s' = true → kind_allows k s' = true.
Proof. by destruct k, s, s'. Qed.

Lemma valid_after_snapshot k s s' :
  valid_transition k s s' = true → after_snapshot s' = true →
  after_snapshot s = true ∨ needs_snapshot s' = true.
Proof. destruct k, s, s'; simpl; auto. Qed.

Lemma valid_not_cancelable k s s' :
  valid_transition k s s' = true → is_cancelable s = false → is_cancelable s' = false.
Proof. by destruct k, s, s'. Qed.

(** What the steps of an operation keep true of its record. *)
Record keeps (r0 r : OperationStateRecord) : Prop := {
  keeps_identity :
    schema_version r = schema_version r0
    ∧ operation_id r = operation_id r0 ∧ operation r = operation r0
    ∧ recovery r = recovery r0
    ∧ source r = source r0 ∧ target r = target r0
    ∧ plan_sha256 r = plan_sha256 r0 ∧ manifest_sha256 r = manifest_sha256 r0;
  keeps_sequence : (sequence r0 ≤ sequence r ≤ u64_max)%Z;
  keeps_cancelable : is_cancelable (state r) = true → snapshot_number r = None;
  keeps_positive : ∀ n, snapshot_number r = Some n → (0 < n)%Z;
  keeps_snapshot : after_snapshot (state r) = true → ∃ n, snapshot_number r = Some n;
  keeps_kind : kind_allows (operation r) (state r) = true;
}.

Lemma keeps_step r0 r r' : keeps r0 r → step r r' → keeps r0 r'.
Proof.
  intros [Hid Hseq Hc Hpos Hs Hk] Hstep.
  destruct Hstep as [r next r' (_ & Hn & Hv & ->)%transition_to_Ok|r n Hst Hn];
    split; simpl; try done.
  - unfold saturating_add, u64_max in *. lia.
  - intros Hcn. apply Hc. destruct (is_cancelable (state r)) eqn:E; [done|].
    by rewrite (valid_not_cancelable _ _ _ Hv E) in Hcn.
  - intros Ha. destruct (valid_after_snapshot _ _ _ Hv Ha); auto.
  - by eapply valid_kind_allows.
  - by rewrite Hst.
  - intros m [= <-]. lia.
  - eauto.
Qed.

Lemma keeps_init r0 :
  is_cancelable (state r0) = true → snapshot_number r0 = None →
  (0 ≤ sequence r0 ≤ u64_max)%Z → keeps r0 r0.
Proof.
  intros Hc Hn Hseq. split; [done|lia|done|congruence| |].
  - by destruct (state r0).
  - by destruct (operation r0), (state r0).
Qed.

Lemma keeps_rtc r0 r r' : keeps r0 r → rtc step r r' → keeps r0 r'.
Proof.
  intros Hk Hr. induction Hr as [r|r r1 r' Hs _ IH]; [done|].
  apply IH. by eapply keeps_step.
Qed.

Lemma path_snoc_inv k s l t :
  path k s l t →
  (l = [] ∧ s = t) ∨ ∃ l' p, l = l' ++ [t] ∧ path k s l' p ∧ valid_transition k p t = true.
Proof.
  induction 1 as [s|s s' t l Hv Hp IH]; [by left|]. right.
  destruct IH as [[-> ->]|(l' & p & -> & Hp' & Hv')].
  - exists [], s. split; [done|]. split; [constructor|done].
  - exists (s' :: l'), p. split; [done|]. split; [|done]. by econstructor.
Qed.

Lemma path_from_idle k l t :
  path k Idle l t → t ≠ Idle →
  ∃ l' p, l = l' ++ [t] ∧ path k Idle l' p ∧ valid_transition k p t = true.
Proof. intros H Hne. by apply path_snoc_inv in H as [[_ <-]|?]. Qed.

Lemma path_kind_allows k l s : path k Idle l s → kind_allows k s = true.
Proof.
  intros H. apply path_snoc_inv in H as [[_ <-]|(? & ? & _ & _ & Hv)]; [done|].
  by eapply valid_kind_allows.
Qed.

(** One step back from a state with few predecessors. *)
Lemma sublist_snoc {A} (m l : list A) x : m `sublist_of` l → m ++ [x] `sublist_of` l ++ [x].
Proof. intros. by apply sublist_app. Qed.

Ltac back H :=
  let l' := fresh "l" in let p := fresh "p" in let Hv := fresh "Hv" in
  apply path_from_idle in H as (l' & p & -> & H & Hv); [|done];
  destruct p; simpl in Hv; try discriminate Hv; clear Hv.

Lemma path_confirmed k l :
  path k Idle l Snapshotting →
  [Planned; AwaitingConfirmation; Downloading; Snapshotting] `sublist_of` l.
Proof.
  intros H. back H. back H. back H. back H.
  change [Planned; AwaitingConfirmation; Downloading; Snapshotting]
    with ((([Planned] ++ [AwaitingConfirmation]) ++ [Downloading]) ++ [Snapshotting]).
  repeat apply sublist_snoc. apply (sublist_snoc []). apply sublist_nil_l.
Qed.

(** The states an operation must go through, in order, to be completed. *)
Definition milestones (k : OperationKind) : list OperationState :=
  [Planned; AwaitingConfirmation; Downloading; Snapshotting]
  ++ match k with
     | UpdateWithinRelease => [Applying]
     | _ => [ReadyToReboot; ApplyingOffline; AwaitingReboot; VerifyingBoot]
     end ++ [Completed].

Lemma path_applied l :
  path UpdateWithinRelease Idle l Applying →
  [Planned; AwaitingConfirmation; Downloading; Snapshotting] ++ [Applying] `sublist_of` l.
Proof. intros H. back H. by eapply sublist_snoc, path_confirmed. Qed.

Lemma path_verified k l :
  is_signed_offline k = true → path k Idle l VerifyingBoot →
  [Planned; AwaitingConfirmation; Downloading; Snapshotting]
    ++ [ReadyToReboot; ApplyingOffline; AwaitingReboot; VerifyingBoot] `sublist_of` l.
Proof.
  intros Hk H. destruct k; [done|..]; back H; back H.
  all: try by back H.
  all: back H; back H; rewrite <-!app_assoc; apply sublist_app;
    [by eapply path_confirmed|done].
Qed.

(** A way to completion from every state that fits the kind. *)
Definition after_download (k : OperationKind) : list OperationState :=
  match k with
  | UpdateWithinRelease => [Applying; Completed]
  | _ => [ReadyToReboot; ApplyingOffline; AwaitingReboot; VerifyingBoot; Completed]
  end.
Fixpoint drop_until (s : OperationState) (l : list OperationState) : list OperationState :=
  match l with [] => [] | x :: l' => if x ==? s then l' else drop_until s l' end.
Definition way_to_completed (k : OperationKind) (s : OperationState) : list OperationState :=
  match s with
  | Blocked => [Idle; Checking; Available; Preflight; Planned; AwaitingConfirmation; Downloading;
          Snapshotting] ++ after_download k
  | AwaitingReboot => [VerifyingBoot; Completed]
  | VerifyingBoot => [Completed]
  | _ => drop_until s
      ([Idle; Checking; Available; Preflight; Planned; AwaitingConfirmation; Downloading;
        Snapshotting] ++ after_download k)
  end.

(** An upper bound on the transitions left that are not to [Failed]. *)
Definition rank (s : OperationState) : nat :=
  match s with
  | Snapshotting => 5 | Applying | ReadyToReboot => 4 | ApplyingOffline => 3
  | AwaitingReboot => 2 | VerifyingBoot => 1 | _ => 0
  end.

Lemma rank_decreases k s s' :
  is_cancelable s = false → valid_transition k s s' = true →
  rank s' ≤ rank s ∧ (s' ≠ Failed → rank s' < rank s).
Proof. destruct k, s, s'; simpl; try done; split; (lia || done). Qed.

Lemma transitions_steps r l r' : transitions r l = Ok r' → rtc step r r'.
Proof.
  revert r. induction l as [|next l IH]; simpl; intros r H.
  - injection H as ->. done.
  - apply bind_Ok in H as (r1 & H1 & H). eapply rtc_l; [by econstructor|auto].
Qed.

(** C7 Whatever validated transitions and snapshot recordings an operation goes
    through after its creation without a snapshot, its identity, plan and
    manifest digests never change, its sequence number never decreases nor
    overflows, a snapshot number is recorded (and positive) in every state from
    the application of the packages to completion, no snapshot exists while the
    operation can still be cancelled, online application happens only to updates
    and the offline states are entered only by signed offline operations. *)
Theorem lifecycle_invariant r0 r :
  is_cancelable (state r0) = true → snapshot_number r0 = None →
  (0 ≤ sequence r0 ≤ u64_max)%Z →
  rtc step r0 r → keeps r0 r.
Proof.
  intros Hc Hn Hseq. by apply keeps_rtc, keeps_init.
Qed.

(** Nothing reaches [Completed] by a shortcut: every path of the table from
    [Idle] goes, in order, through the plan, its confirmation, the download and
    the snapshot, then through the online application for an update, and through
    staging, offline application, reboot and boot verification for a release
    upgrade or a package migration. *)
Theorem completed_through_milestones k l :
  path k Idle l Completed → milestones k `sublist_of` l.
Proof.
  intros H. unfold milestones. rewrite app_assoc. destruct k.
  - back H; apply sublist_snoc; [by apply path_applied|].
    back H. back H. do 2 apply sublist_inserts_r. by apply path_applied.
  - back H; apply sublist_snoc; [by back H|by apply path_verified in H].
  - back H; apply sublist_snoc; [by back H|by apply path_verified in H].
Qed.

(** From the snapshot on there is no way back: a path of the table that
    starts in a state that is not cancelable stays in such states, and apart
    from transitions to [Failed] it has at most [rank] many transitions, so an
    operation that has begun to write ends after at most five of them. *)
Theorem no_way_back k s l t :
  path k s l t → is_cancelable s = false →
  is_cancelable t = false
  ∧ length (filter (λ s', s' ≠ Failed) l) + rank t ≤ rank s.
Proof.
  induction 1 as [s|s s' t l Hv Hp IH]; intros Hs; [split; [done|simpl; lia]|].
  destruct IH as [IH1 IH2]; [by eapply valid_not_cancelable|]. split; [done|].
  destruct (rank_decreases k s s' Hs Hv) as [Hle Hlt]. rewrite filter_cons.
  destruct (decide (s' ≠ Failed)) as [Hne|]; simpl; [specialize (Hlt Hne)|]; lia.
Qed.

(** No dead end: every state an operation can reach from [Idle], other than
    [Failed], [NeedsRecovery] and [Completed], still has a path to [Completed]. *)
Theorem completion_reachable k l s :
  path k Idle l s → is_terminal s = false → ∃ l', path k s l' Completed.
Proof.
  intros H%path_kind_allows Hs. exists (way_to_completed k s).
  destruct k, s; try done; repeat (econstructor; [reflexivity|]); constructor.
Qed.

(* ------------------------------------------------------------------ *)
(** ** Concrete operations *)

Definition sample_release : ReleaseIdentity := {|
  version := "1.0-alpha.6"; edition := "desktop"; architecture := "x86_64";
  build_id := "test" |}.
Definition zeros (n : nat) : string := Nat.iter n (String "0") "".
Definition sample_record (k : OperationKind) (s : OperationState) : OperationStateRecord := {|
  schema_version := 1; operation_id := "00000000-0000-4000-8000-000000000000";
  sequence := 0; operation := k; state := s; source := sample_release;
  target := match k with UpdateWithinRelease => None | _ => Some sample_release end;
  plan_sha256 := zeros 64;
  manifest_sha256 := match k with UpdateWithinRelease => None | _ => Some (zeros 64) end;
  snapshot_number := None; recovery := None; last_completed_step := None;
  error_code := None; boot_verification := None;
  created_at := "2026-08-18T00:00:00Z"; updated_at := "2026-08-18T00:00:00Z" |}.

Example applying_requires_persisted_snapshot :
  transition_to (sample_record UpdateWithinRelease Snapshotting) Applying
  = Err SnapshotNotRecorded.
Proof. reflexivity. Qed.

(** An upgrade in [Snapshotting] after its download. *)
Definition sample_snapshotting : OperationStateRecord :=
  set_sequence (set_state (sample_record ReleaseUpgrade AwaitingConfirmation) Snapshotting) 2.
Definition sample_staged : OperationStateRecord :=
  set_sequence (set_state (set_snapshot_number sample_snapshotting (Some 42%Z)) ReadyToReboot) 3.

Lemma lifecycle_invariant_witness :
  rtc step (sample_record ReleaseUpgrade AwaitingConfirmation) sample_staged
  ∧ keeps (sample_record ReleaseUpgrade AwaitingConfirmation) sample_staged.
Proof.
  assert (rtc step (sample_record ReleaseUpgrade AwaitingConfirmation) sample_staged) as H.
  { transitivity sample_snapshotting.
    - apply (transitions_steps _ [Downloading; Snapshotting] sample_snapshotting).
      vm_compute. reflexivity.
    - eapply rtc_l; [apply (step_snapshot _ 42%Z); [reflexivity|unfold u64_max; lia]|].
      apply (transitions_steps _ [ReadyToReboot]). vm_compute. reflexivity. }
  split; [exact H|]. apply lifecycle_invariant; try reflexivity; [|exact H].
  split; [reflexivity|]. vm_compute. discriminate.
Defined.

Lemma completed_through_milestones_witness :
  milestones UpdateWithinRelease `sublist_of`
    [Checking; Available; Preflight; Planned; AwaitingConfirmation; Downloading;
     Snapshotting; Applying; AwaitingReboot; VerifyingBoot; Completed].
Proof.
  apply completed_through_milestones. repeat (econstructor; [reflexivity|]). constructor.
Defined.

Lemma no_way_back_witness :
  is_cancelable AwaitingReboot = false
  ∧ 2 + rank AwaitingReboot ≤ rank Snapshotting.
Proof.
  assert (path UpdateWithinRelease Snapshotting [Applying; AwaitingReboot] AwaitingReboot)
    as H by (repeat (econstructor; [reflexivity|]); constructor).
  apply (no_way_back _ _ _ _ H). reflexivity.
Defined.

Lemma completion_reachable_witness :
  ∃ l', path PackageMigration Blocked l' Completed.
Proof.
  apply (completion_reachable PackageMigration [Checking; Blocked]); [|reflexivity].
  repeat (econstructor; [reflexivity|]). constructor.
Defined.
