(* ===== verification/Fs.v ===== *)
(** * The file system calls of the program

    A model of the part of [std::fs] the program uses: a finite map from
    absolute paths to directories, files and symbolic links, with owner and mode,
    and one definition per call. Paths are lists of components, innermost first,
    so [Path::parent] is the tail and [Path::join] is [cons]. Every call may fail
    at any time with any error, as the parameter [fault] decides from the number
    of the call; a failing write may have written any prefix of its bytes. A
    process killed at a call is the case of a [fault] that fails from there on.
    Nothing exists below a symbolic link: links in the middle of a path are not
    resolved. *)

From S2P Require Import Prelude RustStr.

Open Scope bool_scope.

(* ------------------------------------------------------------------ *)
(** ** The world *)

Definition path : Type := list string.

Inductive IoError : Set := NotFound | AlreadyExists | OtherError (code : Z).

Inductive node : Set :=
  | Dir (uid mode : Z)
  | File (uid mode : Z) (content : string)
  | Symlink (target : string).

Record world := { nodes : gmap path node; calls : nat }.

#[export] Instance IoError_eq_dec : EqDecision IoError.
Proof. solve_decision. Defined.
#[export] Instance node_eq_dec : EqDecision node.
Proof. solve_decision. Defined.

Definition parent (p : path) : option path :=
  match p with [] => None | _ :: q => Some q end.
Definition join (p : path) (name : string) : path := name :: p.

Definition is_dir (n : node) : bool := match n with Dir _ _ => true | _ => false end.
Definition is_symlink (n : node) : bool := match n with Symlink _ => true | _ => false end.

(** The directory a new entry would be made in exists. *)
Definition in_dir (ns : gmap path node) (p : path) : bool :=
  match parent p with
  | Some q => is_some_and (ns !! q) is_dir
  | None => false
  end.

Definition S_ISVTX : Z := 512.

(* ------------------------------------------------------------------ *)
(** ** Calls *)

Section calls.
(** The effective user, the umask and the failures the system injects. *)
Context (euid umask : Z) (fault : nat → option (IoError * nat)).

Definition syscall {A} (f : gmap path node → result IoError A * gmap path node)
  : ST world IoError A := λ w,
  match fault (calls w) with
  | Some (e, _) => (Err e, {| nodes := nodes w; calls := S (calls w) |})
  | None =>
      let '(r, ns) := f (nodes w) in (r, {| nodes := ns; calls := S (calls w) |})
  end.

Definition symlink_metadata (p : path) : ST world IoError node :=
  syscall (λ ns, (ok_or NotFound (ns !! p), ns)).

Definition create_dir (p : path) : ST world IoError unit :=
  syscall (λ ns,
    if is_some (ns !! p) then (Err AlreadyExists, ns)
    else if negb (in_dir ns p) then (Err NotFound, ns)
    else (Ok (), <[p := Dir euid (Z.land 511 (Z.lnot umask))]> ns)).

Definition set_permissions (p : path) (mode : Z) : ST world IoError unit :=
  syscall (λ ns,
    match ns !! p with
    | None => (Err NotFound, ns)
    | Some (Dir u _) => (Ok (), <[p := Dir u mode]> ns)
    | Some (File u _ c) => (Ok (), <[p := File u mode c]> ns)
    | Some (Symlink _) => (Err (OtherError 40), ns)
    end).

(** [OpenOptions::new().write(true).create_new(true).mode(m).open(p)]. *)
Definition create_new (p : path) (mode : Z) : ST world IoError unit :=
  syscall (λ ns,
    if is_some (ns !! p) then (Err AlreadyExists, ns)
    else if negb (in_dir ns p) then (Err NotFound, ns)
    else (Ok (), <[p := File euid (Z.land mode (Z.lnot umask)) ""]> ns)).

Definition append (ns : gmap path node) (p : path) (s : string) : gmap path node :=
  match ns !! p with
  | Some (File u m c) => <[p := File u m (c +:+ s)]> ns
  | _ => ns
  end.

(** A write to a file opened at [p]; a failure may come after a prefix. *)
Definition write_all (p : path) (s : string) : ST world IoError unit := λ w,
  match fault (calls w) with
  | Some (e, k) =>
      (Err e, {| nodes := append (nodes w) p (String.substring 0 k s);
                 calls := S (calls w) |})
  | None => (Ok (), {| nodes := append (nodes w) p s; calls := S (calls w) |})
  end.

Definition sync_all : ST world IoError unit := syscall (λ ns, (Ok (), ns)).

Definition rename (p q : path) : ST world IoError unit :=
  syscall (λ ns,
    match ns !! p with
    | None => (Err NotFound, ns)
    | Some n =>
        if is_some_and (ns !! q) is_dir then (Err (OtherError 21), ns)
        else if negb (in_dir ns q) then (Err NotFound, ns)
        else (Ok (), <[q := n]> (delete p ns))
    end).

Definition remove_file (p : path) : ST world IoError unit :=
  syscall (λ ns,
    match ns !! p with
    | None => (Err NotFound, ns)
    | Some n => if is_dir n then (Err (OtherError 21), ns) else (Ok (), delete p ns)
    end).

(** [File::open(p)] on a directory or file, not through a link. *)
Definition open_any (p : path) : ST world IoError unit :=
  syscall (λ ns,
    match ns !! p with
    | None => (Err NotFound, ns)
    | Some (Symlink _) => (Err (OtherError 40), ns)
    | Some _ => (Ok (), ns)
    end).

(** Opening with [O_NOFOLLOW] and reading to the end. *)
Definition read_nofollow (p : path) : ST world IoError string :=
  syscall (λ ns,
    match ns !! p with
    | None => (Err NotFound, ns)
    | Some (File _ _ c) => (Ok c, ns)
    | Some (Symlink _) => (Err (OtherError 40), ns)
    | Some (Dir _ _) => (Err (OtherError 21), ns)
    end).

(** [OpenOptions::new().read(true)] with [O_NOFOLLOW]: the node opened, for its
    metadata; [write] for writing or appending, [create] to make a missing file. *)
Definition open_nofollow (p : path) (write create : bool) (mode : Z) : ST world IoError node :=
  syscall (λ ns,
    match ns !! p with
    | Some (Symlink _) => (Err (OtherError 40), ns)
    | Some (Dir u m) => if write then (Err (OtherError 21), ns) else (Ok (Dir u m), ns)
    | Some n => (Ok n, ns)
    | None =>
        if negb create then (Err NotFound, ns)
        else if negb (in_dir ns p) then (Err NotFound, ns)
        else
          let n := File euid (Z.land mode (Z.lnot umask)) "" in (Ok n, <[p := n]> ns)
    end).

Definition symlink (target : string) (p : path) : ST world IoError unit :=
  syscall (λ ns,
    if is_some (ns !! p) then (Err AlreadyExists, ns)
    else if negb (in_dir ns p) then (Err NotFound, ns)
    else (Ok (), <[p := Symlink target]> ns)).

Definition read_link (p : path) : ST world IoError string :=
  syscall (λ ns,
    match ns !! p with
    | None => (Err NotFound, ns)
    | Some (Symlink target) => (Ok target, ns)
    | Some _ => (Err (OtherError 22), ns)
    end).

(** [create_dir_all]: an existing directory is no error. *)
Fixpoint create_dir_all (p : path) : ST world IoError unit :=
  let settle (e : IoError) : ST world IoError unit :=
    n ← st_try (E':=IoError) (symlink_metadata p);
    match n with Ok (Dir _ _) => mret () | _ => st_throw e end in
  match p with
  | [] => mret ()
  | _ :: q =>
      made ← st_try (E':=IoError) (create_dir p);
      match made with
      | Ok _ => mret ()
      | Err NotFound =>
          _ ← create_dir_all q;
          made ← st_try (E':=IoError) (create_dir p);
          match made with Ok _ => mret () | Err e => settle e end
      | Err e => settle e
      end
  end.

(** The other calls on an open file, which change nothing and may fail. *)
Definition file_call : ST world IoError unit := syscall (λ ns, (Ok (), ns)).

(* ------------------------------------------------------------------ *)
(** ** Frames *)

(** The calls made between two worlds touched only paths in [P]. *)
Definition touches (P : path → Prop) (w w' : world) : Prop :=
  ∀ q, ¬ P q → nodes w' !! q = nodes w !! q.

#[export] Instance touches_reflexive P : Reflexive (touches P).
Proof. by intros w q Hq. Qed.
#[export] Instance touches_transitive P : Transitive (touches P).
Proof. intros w1 w2 w3 H1 H2 q Hq. by rewrite H2, H1. Qed.

Lemma touches_weaken (P Q : path → Prop) w w' : (∀ q, P q → Q q) → touches P w w' → touches Q w w'.
Proof. intros HPQ H q Hq. apply H. auto. Qed.

Lemma syscall_touches {A} (P : path → Prop) (f : gmap path node → result IoError A * gmap path node) :
  (∀ ns q, ¬ P q → (f ns).2 !! q = ns !! q) → st_rel (touches P) (syscall f).
Proof.
  intros H w q Hq. unfold syscall. destruct (fault (calls w)) as [[]|]; [done|].
  specialize (H (nodes w) q Hq). by destruct (f (nodes w)).
Qed.

Ltac frame :=
  intros; apply syscall_touches; intros ns q Hq;
  repeat case_match; simpl; rewrite ?lookup_insert_ne, ?lookup_delete_ne by congruence;
  try done.

Lemma symlink_metadata_touches P p : st_rel (touches P) (symlink_metadata p).
Proof. frame. Qed.
Lemma create_dir_touches p : st_rel (touches (λ q, q = p)) (create_dir p).
Proof. frame. Qed.
Lemma set_permissions_touches p m : st_rel (touches (λ q, q = p)) (set_permissions p m).
Proof. frame. Qed.
Lemma create_new_touches p m : st_rel (touches (λ q, q = p)) (create_new p m).
Proof. frame. Qed.
Lemma sync_all_touches P : st_rel (touches P) sync_all.
Proof. frame. Qed.
Lemma rename_touches p q : st_rel (touches (λ q', q' = p ∨ q' = q)) (rename p q).
Proof.
  intros; apply syscall_touches; intros ns q' Hq; repeat case_match; simpl; try done.
  by rewrite lookup_insert_ne, lookup_delete_ne by (intros ->; auto).
Qed.
Lemma remove_file_touches p : st_rel (touches (λ q, q = p)) (remove_file p).
Proof. frame. Qed.
Lemma open_any_touches P p : st_rel (touches P) (open_any p).
Proof. frame. Qed.
Lemma read_nofollow_touches P p : st_rel (touches P) (read_nofollow p).
Proof. frame. Qed.

Lemma open_nofollow_touches p write create mode :
  st_rel (touches (λ q, q = p)) (open_nofollow p write create mode).
Proof. frame. Qed.
Lemma file_call_touches P : st_rel (touches P) file_call.
Proof. frame. Qed.

Lemma symlink_touches t p : st_rel (touches (λ q, q = p)) (symlink t p).
Proof. frame. Qed.
Lemma read_link_touches P p : st_rel (touches P) (read_link p).
Proof. frame. Qed.

Lemma append_ne ns p s q : q ≠ p → append ns p s !! q = ns !! q.
Proof. intros. unfold append. repeat case_match; by rewrite ?lookup_insert_ne. Qed.

Lemma write_all_touches p s : st_rel (touches (λ q, q = p)) (write_all p s).
Proof.
  intros w q Hq. unfold write_all.
  destruct (fault (calls w)) as [[]|]; simpl; by apply append_ne.
Qed.

(** A call that succeeds was not failed by the system. *)
Lemma syscall_Ok {A} (f : gmap path node → result IoError A * gmap path node) w a w' :
  syscall f w = (Ok a, w') →
  fault (calls w) = None ∧ f (nodes w) = (Ok a, nodes w') ∧ calls w' = S (calls w).
Proof.
  unfold syscall. destruct (fault (calls w)) as [[]|]; [done|].
  destruct (f (nodes w)) as [r ns]. by intros [= -> <-].
Qed.

(** A metadata answer that is not a failure of the system is the truth. *)
Lemma symlink_metadata_Ok p w n w' :
  symlink_metadata p w = (Ok n, w') → nodes w !! p = Some n ∧ nodes w' = nodes w.
Proof.
  intros (_ & H & _)%syscall_Ok. injection H as H1 H2. apply ok_or_Ok in H1. auto.
Qed.

Lemma symlink_metadata_nodes p w : nodes (symlink_metadata p w).2 = nodes w.
Proof. unfold symlink_metadata, syscall. by destruct (fault (calls w)) as [[]|]. Qed.
End calls.

(** No call fails. *)
Definition no_fault : nat → option (IoError * nat) := λ _, None.

Lemma touches_ret {E A} P (a : A) : st_rel (touches P) (mret (M:=ST world E) a).
Proof. apply st_rel_ret, _. Qed.
Lemma touches_lift {E A} P (r : result E A) : st_rel (touches P) (st_lift r).
Proof. apply st_rel_lift, _. Qed.
Lemma touches_throw {E A} P (e : E) : st_rel (touches P) (st_throw (A:=A) e).
Proof. apply st_rel_throw, _. Qed.

Create HintDb frames.
#[export] Hint Resolve symlink_metadata_touches create_dir_touches
  set_permissions_touches create_new_touches sync_all_touches rename_touches
  remove_file_touches open_any_touches open_nofollow_touches file_call_touches symlink_touches
  read_link_touches   read_nofollow_touches write_all_touches
  touches_ret touches_lift touches_throw : frames.
