(* ===== verification/Persistence.v ===== *)
(** * Persistence of the operation record (src/core/src/persistence.rs)

    What a record must look like to be stored or accepted, and the protocol that
    stores it: checked directories, a private temporary file, a rename over the
    destination. The JSON text of a record is the parameter [encode], its parser
    the parameter [decode]; the process and clock numbers of the temporary name
    are the parameters [pid] and [nonce]. *)

From S2P Require Import Prelude RustStr Recovery State Fs.

Open Scope bool_scope.
Open Scope lyra_scope.

(* ------------------------------------------------------------------ *)
(** ** Validation *)

Inductive PersistenceError : Set :=
  | InvalidOperationId | UnsafePath | Io (e : IoError) | Json
  | Persistence_UnsupportedSchema | InvalidState.

#[export] Instance PersistenceError_eq_dec : EqDecision PersistenceError.
Proof. solve_decision. Defined.

Definition is_sha256 (value : string) : bool :=
  (str_len value =? 64)%Z && bytes_all lower_hex value.

Definition validate_operation_id (value : string) : result PersistenceError unit :=
  let valid :=
    (str_len value =? 36)%Z
    && bytes_alli (λ index byte,
         match index with
         | 8 | 13 | 18 | 23 => Ascii.eqb byte "-"
         | _ => lower_hex byte
         end) value in
  if valid then Ok () else Err InvalidOperationId.

Definition recovery_allowed (s : OperationState) : bool :=
  match s with
  | NeedsRecovery | Failed | AwaitingReboot | VerifyingBoot | Completed => true
  | _ => false
  end.
Definition intent_allowed (s : OperationState) : bool :=
  match s with NeedsRecovery | Failed => true | _ => false end.
Definition snapshot_required (s : OperationState) : bool :=
  match s with
  | Applying | ReadyToReboot | ApplyingOffline | AwaitingReboot | VerifyingBoot
  | NeedsRecovery | Completed => true
  | _ => false
  end.

Definition operation_shape_is_valid (r : OperationStateRecord) : bool :=
  match operation r with
  | UpdateWithinRelease => is_none (target r) && is_none (manifest_sha256 r)
  | ReleaseUpgrade => is_some (target r) && is_some (manifest_sha256 r)
  | PackageMigration => (target r ==? Some (source r)) && is_some (manifest_sha256 r)
  end.

Definition validate_state (r : OperationStateRecord) : result PersistenceError unit :=
  if is_some_and (recovery r) (λ goal,
       negb (recovery_allowed (state r))
       || negb (goal_valid goal (snapshot_number r))
       || (negb (intent_allowed (state r)) && is_none (boot_snapshot goal)))
  then Err InvalidState
  else if schema_version r !=? STATE_SCHEMA_VERSION
  then Err Persistence_UnsupportedSchema
  else if negb (is_sha256 (plan_sha256 r))
       || is_some_and (manifest_sha256 r) (λ hash, negb (is_sha256 hash))
       || (snapshot_number r ==? Some 0%Z)
       || (snapshot_required (state r) && is_none (snapshot_number r))
  then Err InvalidState
  else if operation_shape_is_valid r then Ok () else Err InvalidState.

(* ------------------------------------------------------------------ *)
(** ** Storage *)

Section storage.
Context (euid umask : Z) (fault : nat → option (IoError * nat)).
Context (pid nonce : Z).
Context (encode : OperationStateRecord → string)
        (decode : string → option OperationStateRecord).

#[local] Abbreviation M := (ST world PersistenceError).

(** [?] on an [io::Error]. *)
Definition io {A} (m : ST world IoError A) : M A := st_map_err Io m.

Definition reject_symlink (p : path) : M unit :=
  r ← st_try (symlink_metadata fault p);
  match r with
  | Ok metadata => if is_symlink metadata then st_throw UnsafePath else mret ()
  | Err NotFound => mret ()
  | Err e => st_throw (Io e)
  end.

Fixpoint ensure_parent_chain (p : path) : M unit :=
  r ← st_try (symlink_metadata fault p);
  match r with
  | Ok (Dir uid mode) =>
      if negb (uid =? euid)%Z && (Z.land mode S_ISVTX =? 0)%Z
      then st_throw UnsafePath else mret ()
  | Ok _ => st_throw UnsafePath
  | Err NotFound =>
      match p with
      | [] => st_throw UnsafePath
      | _ :: q =>
          _ ← ensure_parent_chain q;
          _ ← io (create_dir euid umask fault p);
          io (set_permissions fault p 448)
      end
  | Err e => st_throw (Io e)
  end.

Definition ensure_directory (p : path) : M unit :=
  r ← st_try (symlink_metadata fault p);
  match r with
  | Ok (Dir uid mode) =>
      if negb (uid =? euid)%Z then st_throw UnsafePath
      else io (set_permissions fault p 448)
  | Ok _ => st_throw UnsafePath
  | Err NotFound =>
      _ ← io (create_dir euid umask fault p);
      io (set_permissions fault p 448)
  | Err e => st_throw (Io e)
  end.

Definition prepare_root (root : path) : M unit :=
  if contains root ".." then st_throw UnsafePath
  else
    _ ← reject_symlink root;
    _ ← match parent root with
        | Some p => ensure_parent_chain p
        | None => mret ()
        end;
    ensure_directory root.

Definition sync_directory (p : path) : M unit :=
  _ ← io (open_any fault p); io (sync_all fault).

Definition state_text (r : OperationStateRecord) : string :=
  encode r +:+ String nl "".

Definition write_and_replace (temporary destination : path)
    (r : OperationStateRecord) : M unit :=
  _ ← io (create_new euid umask fault temporary 384);
  _ ← st_map_err (λ _, Json) (write_all fault temporary (encode r));
  _ ← io (write_all fault temporary (String nl ""));
  _ ← io (sync_all fault);
  _ ← io (rename fault temporary destination);
  match parent destination with
  | Some p => sync_directory p
  | None => st_throw UnsafePath
  end.

Definition temporary_name : string :=
  ".state.json." +:+ to_string pid +:+ "." +:+ to_string nonce.

Definition save_state (root : path) (r : OperationStateRecord) : M unit :=
  _ ← st_lift (validate_operation_id (operation_id r));
  _ ← st_lift (validate_state r);
  _ ← prepare_root root;
  let operation_dir := join root (operation_id r) in
  _ ← ensure_directory operation_dir;
  let destination := join operation_dir "state.json" in
  _ ← reject_symlink destination;
  let temporary := join operation_dir temporary_name in
  result ← st_try (write_and_replace temporary destination r);
  if is_ok result then mret ()
  else
    _ ← st_try (E':=PersistenceError) (remove_file fault temporary);
    st_lift result.

Definition load_state (root : path) (id : string) : M OperationStateRecord :=
  _ ← st_lift (validate_operation_id id);
  _ ← reject_symlink root;
  let operation_dir := join root id in
  _ ← reject_symlink operation_dir;
  let p := join operation_dir "state.json" in
  _ ← reject_symlink p;
  text ← io (read_nofollow fault p);
  r ← st_lift (ok_or Json (decode text));
  if schema_version r !=? STATE_SCHEMA_VERSION then st_throw Persistence_UnsupportedSchema
  else if operation_id r !=? id then st_throw UnsafePath
  else
    _ ← st_lift (validate_state r);
    mret r.
End storage.

(* ------------------------------------------------------------------ *)
(** ** Records that may be stored *)

(** What [validate_state] accepts, clause by clause. *)
Record well_formed (r : OperationStateRecord) : Prop := {
  wf_schema : schema_version r = STATE_SCHEMA_VERSION;
  wf_plan : is_sha256 (plan_sha256 r) = true;
  wf_manifest : ∀ h, manifest_sha256 r = Some h → is_sha256 h = true;
  wf_nonzero : snapshot_number r ≠ Some 0%Z;
  wf_required : snapshot_required (state r) = true → snapshot_number r ≠ None;
  wf_recovery : ∀ goal, recovery r = Some goal →
    recovery_allowed (state r) = true ∧ goal_valid goal (snapshot_number r) = true
    ∧ (intent_allowed (state r) = true ∨ boot_snapshot goal ≠ None);
  wf_shape : operation_shape_is_valid r = true;
}.

Lemma recovery_clause r :
  is_some_and (recovery r) (λ goal,
    negb (recovery_allowed (state r)) || negb (goal_valid goal (snapshot_number r))
    || (negb (intent_allowed (state r)) && is_none (boot_snapshot goal))) = false ↔
  (∀ goal, recovery r = Some goal →
    recovery_allowed (state r) = true ∧ goal_valid goal (snapshot_number r) = true
    ∧ (intent_allowed (state r) = true ∨ boot_snapshot goal ≠ None)).
Proof.
  rewrite is_some_and_false. split; intros H goal Hg; specialize (H goal Hg).
  - apply orb_false_iff in H as [[H1 H2]%orb_false_iff H3].
    apply negb_false_iff in H1, H2. split; [done|]. split; [done|].
    apply andb_false_iff in H3 as [H3|H3].
    + apply negb_false_iff in H3. auto.
    + apply is_none_false in H3 as [b Hb]. right. by rewrite Hb.
  - destruct H as (-> & -> & [->|Hb]); simpl; [done|].
    destruct (boot_snapshot goal); [|done]. by rewrite andb_false_r.
Qed.

Lemma validate_state_Ok r u : validate_state r = Ok u ↔ well_formed r.
Proof.
  unfold validate_state. split.
  - destruct (is_some_and (recovery r) _) eqn:Hr; [done|].
    rewrite recovery_clause in Hr.
    destruct (eqb (schema_version r) _) eqn:Hs; [|done]. rewrite eqb_true in Hs. simpl.
    destruct (_ || _) eqn:Hx; [done|]. destruct (operation_shape_is_valid r) eqn:Ho; [|done].
    intros _. apply orb_false_iff in Hx as [[[H1 H2]%orb_false_iff H3]%orb_false_iff H4].
    split; try done.
    + by apply negb_false_iff.
    + intros h Hh. rewrite is_some_and_false in H2. by apply negb_false_iff, H2.
    + by apply eqb_false.
    + intros Hq. rewrite Hq in H4. simpl in H4. by destruct (snapshot_number r).
  - intros [Hs Hp Hm Hn Hq Hr Ho]. rewrite (proj2 (recovery_clause r) Hr).
    rewrite Hs. rewrite eqb_refl. simpl.
    rewrite Hp, Ho. simpl.
    rewrite (proj2 (is_some_and_false _ _)); [|intros h Hh; by rewrite (Hm h Hh)].
    rewrite (proj2 (eqb_false _ _) Hn). simpl.
    destruct (snapshot_required (state r)) eqn:E; simpl; [|by destruct u].
    destruct (snapshot_number r) eqn:En; simpl; [by destruct u|]. by destruct (Hq eq_refl).
Qed.

Lemma validate_state_refuses r :
  ¬ well_formed r → ∃ e, validate_state r = Err e.
Proof.
  destruct (validate_state r) as [u|e] eqn:E; [|eauto].
  apply validate_state_Ok in E. done.
Qed.

(** A step keeps a record well formed, except that it may enter
    [NeedsRecovery] without a snapshot. *)
Lemma keeps_well_formed r0 r :
  well_formed r0 → recovery r0 = None → keeps r0 r →
  (well_formed r ↔ (state r = NeedsRecovery → snapshot_number r ≠ None)).
Proof.
  intros [Hs Hp Hm _ _ _ Ho] Hr0 [(Es & _ & Eo & Er & Esrc & Et & Ep & Em) _ _ Hpos Hsnap _].
  split.
  - intros Hw Hst. apply (wf_required r Hw). by rewrite Hst.
  - intros Hnr. split.
    + by rewrite Es.
    + by rewrite Ep.
    + by rewrite Em.
    + intros E. apply Hpos in E. lia.
    + intros Hq. destruct (state r) eqn:Est; try done; try (by apply Hnr);
        destruct (Hsnap eq_refl) as [n ->]; done.
    + rewrite Er, Hr0. done.
    + unfold operation_shape_is_valid. by rewrite Eo, Et, Em, Esrc.
Qed.

(** Starting from a valid record of an operation that can still be cancelled
    and has neither snapshot nor rollback goal, every record reached by
    transitions and the recording of the snapshot passes the validation that
    [save_state] and [load_state] make, with one exception: an operation in
    [NeedsRecovery] whose snapshot was never recorded, which is refused. *)
Theorem reachable_storable r0 r :
  validate_state r0 = Ok () → is_cancelable (state r0) = true →
  snapshot_number r0 = None → recovery r0 = None →
  (0 ≤ sequence r0 ≤ u64_max)%Z → rtc step r0 r →
  (validate_state r = Ok () ↔ (state r = NeedsRecovery → snapshot_number r ≠ None)).
Proof.
  rewrite !validate_state_Ok. intros Hw Hc Hn Hr Hq Hsteps.
  by apply (keeps_well_formed r0); [..|eapply keeps_rtc, Hsteps; apply keeps_init].
Qed.

(* ------------------------------------------------------------------ *)
(** ** What the calls of [save_state] do *)

Section storage_facts.
Context (euid umask : Z) (fault : nat → option (IoError * nat)).

Lemma io_touches {A} P (m : ST world IoError A) :
  st_rel (touches P) m → st_rel (touches P) (io m).
Proof. apply st_rel_map_err. Qed.

Lemma touches_mono {A} (P Q : Fs.path → Prop) (m : ST world PersistenceError A) :
  st_rel (touches P) m → (∀ q, P q → Q q) → st_rel (touches Q) m.
Proof. intros H HPQ w. eapply touches_weaken; [exact HPQ|apply H]. Qed.

Lemma reject_symlink_touches P p : st_rel (touches P) (reject_symlink fault p).
Proof.
  apply st_rel_bind; [apply _|apply st_rel_try, symlink_metadata_touches|].
  intros [n|[]]; [destruct (is_symlink n)|..]; auto with frames.
Qed.

Lemma load_state_touches P decode root id : st_rel (touches P) (load_state fault decode root id).
Proof.
  unfold load_state, io. cbv zeta.
  apply st_rel_bind; [apply _|auto with frames|intros _].
  do 3 (apply st_rel_bind; [apply _|apply reject_symlink_touches|intros _]).
  apply st_rel_bind; [apply _|apply st_rel_map_err; auto with frames|intros text].
  apply st_rel_bind; [apply _|auto with frames|intros r].
  destruct (schema_version r !=? _); [auto with frames|].
  destruct (operation_id r !=? id); [auto with frames|].
  apply st_rel_bind; [apply _|auto with frames|intros _; auto with frames].
Qed.

Lemma ensure_directory_touches p :
  st_rel (touches (λ q, q = p)) (ensure_directory euid umask fault p).
Proof.
  apply st_rel_bind; [apply _|apply st_rel_try, symlink_metadata_touches|].
  intros [[u m|u m c|t]|[]]; [destruct (negb _)|..]; auto using io_touches with frames.
  apply st_rel_bind; [apply _|apply io_touches|intros; apply io_touches]; auto with frames.
Qed.

Lemma ensure_parent_chain_touches p :
  st_rel (touches (λ q, q `suffix_of` p)) (ensure_parent_chain euid umask fault p).
Proof.
  induction p as [|name p IH]; simpl;
    (apply st_rel_bind; [apply _|apply st_rel_try, symlink_metadata_touches|]);
    intros [[u m|u m c|t]|[]]; try destruct (negb _ && _); auto with frames.
  assert (∀ q, q = name :: p → q `suffix_of` name :: p) as Hq by (by intros q ->).
  repeat (apply st_rel_bind; [apply _| |intros ?]).
  - eapply touches_mono; [apply IH|]. intros q. apply suffix_cons_r.
  - eapply touches_mono; [apply io_touches, create_dir_touches|done].
  - eapply touches_mono; [apply io_touches, set_permissions_touches|done].
Qed.

Lemma prepare_root_touches root :
  st_rel (touches (λ q, q `suffix_of` root)) (prepare_root euid umask fault root).
Proof.
  unfold prepare_root. destruct (contains root ".."); [auto with frames|].
  apply st_rel_bind; [apply _|apply reject_symlink_touches|intros _].
  apply st_rel_bind; [apply _| |intros _].
  - destruct root as [|name p]; simpl; [auto with frames|].
    eapply touches_mono; [apply ensure_parent_chain_touches|]. intros q. apply suffix_cons_r.
  - eapply touches_mono; [apply ensure_directory_touches|]. by intros q ->.
Qed.

(** A directory that [ensure_directory] accepts was absent or already a
    directory of the user, and is then private to the user. *)
Lemma ensure_directory_Ok p w w' :
  ensure_directory euid umask fault p w = (Ok (), w') →
  (nodes w !! p = None ∨ ∃ m, nodes w !! p = Some (Dir euid m))
  ∧ nodes w' !! p = Some (Dir euid 448).
Proof.
  unfold ensure_directory. intros H. apply st_bind_Ok in H as (r & w1 & Hr & H).
  rewrite st_try_eq in Hr. pose proof (symlink_metadata_nodes fault p w) as Hn.
  rewrite Hr in Hn. simpl in Hn. destruct r as [[u m|u m c|t]|[]]; try done.
  - apply symlink_metadata_Ok in Hr as [Hp _]. destruct (Z.eqb_spec u euid) as [->|]; [|done].
    simpl in H. apply st_map_err_Ok in H. apply syscall_Ok in H as (_ & H & _).
    rewrite Hn, Hp in H. injection H as H. rewrite <-H, lookup_insert_eq. eauto.
  - apply st_bind_Ok in H as (? & w2 & H2 & H3). unfold io in *.
    rewrite st_map_err_Ok in H2, H3. apply syscall_Ok in H2 as (_ & H2 & _), H3 as (_ & H3 & _).
    rewrite Hn in H2. destruct (nodes w !! p) eqn:Hp; [done|]. simpl in H2.
    destruct (in_dir (nodes w) p); [|done]. injection H2 as _ H2.
    rewrite <-H2, lookup_insert_eq in H3. injection H3 as H3.
    rewrite <-H3, lookup_insert_eq. auto.
Qed.

Lemma reject_symlink_Ok p w w' :
  reject_symlink fault p w = (Ok (), w') → nodes w' = nodes w.
Proof.
  unfold reject_symlink. intros H. apply st_bind_Ok in H as (r & w1 & Hr & H).
  rewrite st_try_eq in Hr. pose proof (symlink_metadata_nodes fault p w) as Hn.
  rewrite Hr in Hn. simpl in Hn. destruct r as [n|[]]; try done.
  - destruct (is_symlink n); [done|]. by injection H as <-.
  - by injection H as <-.
Qed.

(** Whatever fails, a record that is loaded is the one in its file. *)
Lemma load_state_sound decode root id w r w' :
  load_state fault decode root id w = (Ok r, w') →
  ∃ u m text, nodes w !! join (join root id) "state.json" = Some (File u m text)
              ∧ decode text = Some r ∧ operation_id r = id ∧ validate_state r = Ok ().
Proof.
  unfold load_state, io. cbv zeta. intros H. st_inv.
  destruct (schema_version _ !=? _); [done|]. destruct (operation_id _ !=? id) eqn:Ei; [done|]. st_inv.
  repeat match goal with Hs : reject_symlink _ _ _ = _ |- _ => apply reject_symlink_Ok in Hs end.
  match goal with Hs : read_nofollow _ _ _ = _ |- _ => apply syscall_Ok in Hs as (_ & Hs & _) end.
  match goal with Hs : ok_or _ _ = _ |- _ => apply ok_or_Ok in Hs end.
  rewrite negb_false_iff, eqb_true in Ei.
  repeat match goal with Hs : nodes _ = nodes _ |- _ => rewrite Hs in *; clear Hs end.
  destruct (nodes w !! _) as [[|u m c|]|]; simplify_eq; eauto 10.
Qed.

Context (pid nonce : Z) (encode : OperationStateRecord → string).

(** A step that touches only [t] leaves [d] alone. *)
Lemma step_other {A} (m : ST world PersistenceError A) t d w w1 (x : result PersistenceError A) :
  st_rel (touches (λ q, q = t)) m → t ≠ d → m w = (x, w1) →
  nodes w1 !! d = nodes w !! d.
Proof. intros H Hne E. specialize (H w). rewrite E in H. apply H. congruence. Qed.

Lemma create_new_Ok p m w w' :
  create_new euid umask fault p m w = (Ok (), w') →
  ∃ m', nodes w' !! p = Some (File euid m' "").
Proof.
  intros (_ & H & _)%syscall_Ok. destruct (is_some _); [done|].
  destruct (negb _); [done|]. injection H as H. rewrite <-H, lookup_insert_eq. eauto.
Qed.

Lemma write_all_Ok p s w w' u m c :
  write_all fault p s w = (Ok (), w') → nodes w !! p = Some (File u m c) →
  nodes w' !! p = Some (File u m (c +:+ s)).
Proof.
  unfold write_all. destruct (fault (calls w)) as [[]|]; [done|].
  intros [= <-] Hp. simpl. unfold append. by rewrite Hp, lookup_insert_eq.
Qed.

Lemma sync_all_Ok w w' : sync_all fault w = (Ok (), w') → nodes w' = nodes w.
Proof. intros (_ & H & _)%syscall_Ok. by injection H. Qed.

Lemma rename_result p q w x w' :
  rename fault p q w = (x, w') →
  nodes w' = nodes w ∨
  (x = Ok () ∧ nodes w' !! q = nodes w !! p ∧ is_Some (nodes w !! p)).
Proof.
  unfold rename, syscall. destruct (fault (calls w)) as [[]|].
  { intros [= _ <-]. by left. }
  destruct (nodes w !! p) as [n|] eqn:Hp; [|intros [= _ <-]; by left].
  destruct (is_some_and _ _); [intros [= _ <-]; by left|].
  destruct (negb _); [intros [= _ <-]; by left|].
  intros [= <- <-]. right. simpl. rewrite lookup_insert_eq. eauto.
Qed.

Lemma rename_Ok p q w w' :
  rename fault p q w = (Ok (), w') → nodes w' !! q = nodes w !! p.
Proof.
  intros (_ & H & _)%syscall_Ok. destruct (nodes w !! p); [|done].
  destruct (is_some_and _ _); [done|]. destruct (negb _); [done|].
  injection H as H. by rewrite <-H, lookup_insert_eq.
Qed.

Lemma sync_directory_nodes p w : nodes (sync_directory fault p w).2 = nodes w.
Proof.
  assert (∀ q, nodes (sync_directory fault p w).2 !! q = nodes w !! q) as H.
  { intros q. assert (st_rel (touches (λ _, False)) (sync_directory fault p)) as Ht.
    { apply st_rel_bind; [apply _|apply io_touches|intros _; apply io_touches];
        auto with frames. }
    apply Ht. auto. }
  by apply map_eq.
Qed.

(** The text of the record is complete in the temporary file before the rename. *)
Lemma write_and_replace_spec t d r w x w' :
  t ≠ d → write_and_replace euid umask fault encode t d r w = (x, w') →
  touches (λ q, q = t ∨ q = d) w w'
  ∧ (nodes w' !! d = nodes w !! d
     ∨ ∃ m, nodes w' !! d = Some (File euid m (state_text encode r)))
  ∧ (x = Ok () → ∃ m, nodes w' !! d = Some (File euid m (state_text encode r))).
Proof.
  intros Hne H. split.
  { revert H. assert (st_rel (touches (λ q, q = t ∨ q = d))
      (write_and_replace euid umask fault encode t d r)) as Ht.
    { repeat (apply st_rel_bind; [apply _| |intros ?]);
        try first
          [ apply io_touches, sync_all_touches
          | eapply touches_mono; [apply io_touches, create_new_touches|simpl; tauto]
          | eapply touches_mono; [apply st_rel_map_err, write_all_touches|simpl; tauto]
          | eapply touches_mono; [apply io_touches, rename_touches|simpl; tauto] ].
      destruct (parent d); [|auto with frames].
      intros w0 q _. by rewrite sync_directory_nodes. }
    intros H. specialize (Ht w). by rewrite H in Ht. }
  unfold write_and_replace in H.
  assert (∀ A m w0 w1 (y : result PersistenceError A),
    st_rel (touches (λ q, q = t)) m → m w0 = (y, w1) → nodes w1 !! d = nodes w0 !! d) as Hd.
  { intros A m w0 w1 y Hm. by apply (step_other m t). }
  apply st_bind_cases in H as [(e & H1 & ->)|([] & w1 & H1 & H)];
    pose proof (Hd _ _ _ _ _ (io_touches _ _ (create_new_touches _ _ _ _ _)) H1) as D1;
    [split; [by left|done]|].
  apply st_bind_cases in H as [(e & H2 & ->)|([] & w2 & H2 & H)];
    pose proof (Hd _ _ _ _ _ (st_rel_map_err _ _ _ (write_all_touches _ _ _)) H2) as D2;
    [split; [left; congruence|done]|].
  apply st_bind_cases in H as [(e & H3 & ->)|([] & w3 & H3 & H)];
    pose proof (Hd _ _ _ _ _ (io_touches _ _ (write_all_touches _ _ _)) H3) as D3;
    [split; [left; congruence|done]|].
  apply st_bind_cases in H as [(e & H4 & ->)|([] & w4 & H4 & H)];
    pose proof (Hd _ _ _ _ _ (io_touches _ _ (sync_all_touches _ _)) H4) as D4;
    [split; [left; congruence|done]|].
  unfold io in H1, H2, H3, H4. apply st_map_err_Ok in H1, H2, H3, H4.
  apply create_new_Ok in H1 as [m Hm].
  eapply write_all_Ok in H2; [|exact Hm]. eapply write_all_Ok in H3; [|exact H2].
  apply sync_all_Ok in H4.
  assert (nodes w4 !! t = Some (File euid m (state_text encode r))) as Ht by (by rewrite H4).
  apply st_bind_cases in H as [(e & H5 & ->)|([] & w5 & H5 & H)].
  - split; [|done]. apply st_map_err_Err in H5 as (e0 & H5 & _).
    apply rename_result in H5 as [->|(? & _)]; [left; congruence|done].
  - apply st_map_err_Ok in H5. apply rename_Ok in H5.
    assert (nodes w' = nodes w5) as ->.
    { destruct (parent d); [|by injection H as _ <-].
      pose proof (sync_directory_nodes p w5) as Hs. by rewrite H in Hs. }
    rewrite H5, Ht. eauto.
Qed.

Lemma temporary_ne p : join p (temporary_name pid nonce) ≠ join p "state.json".
Proof. done. Qed.

Lemma suffix_cons_ne {A} (x : A) l : ¬ x :: l `suffix_of` l.
Proof. intros H%suffix_length. simpl in H. lia. Qed.

(** The paths [save_state] may touch: the destination, the directories above it
    and the temporary file. *)
Definition save_paths (root : Fs.path) (id : string) (q : Fs.path) : Prop :=
  q `suffix_of` join (join root id) "state.json"
  ∨ q = join (join root id) (temporary_name pid nonce).

#[local] Abbreviation save :=
  (save_state euid umask fault pid nonce encode).

Lemma prepare_root_Ok root w w' :
  prepare_root euid umask fault root w = (Ok (), w') →
  (nodes w !! root = None ∨ ∃ m, nodes w !! root = Some (Dir euid m))
  ∧ nodes w' !! root = Some (Dir euid 448) ∧ ".." ∉ root.
Proof.
  unfold prepare_root. destruct (contains root "..") eqn:Hc; [done|].
  rewrite contains_false in Hc. intros H.
  apply st_bind_Ok in H as ([] & w1 & Hrs & H). apply reject_symlink_Ok in Hrs.
  apply st_bind_Ok in H as ([] & w2 & Hpc & H). apply ensure_directory_Ok in H as [Hb Ha].
  split; [|done]. rewrite <-Hrs. destruct root as [|name p]; simpl in *.
  - injection Hpc as <-. done.
  - pose proof (ensure_parent_chain_touches p w1) as Ht. rewrite Hpc in Ht. simpl in Ht.
    by rewrite (Ht (name :: p)) in Hb by apply suffix_cons_ne.
Qed.

Lemma save_state_touches root r : st_rel (touches (save_paths root (operation_id r))) (save root r).
Proof.
  set (o := join root (operation_id r)).
  assert (∀ A (m : ST world PersistenceError A) q,
    q `suffix_of` join o "state.json" → st_rel (touches (λ q', q' = q)) m →
    st_rel (touches (save_paths root (operation_id r))) m) as Hp.
  { intros A m q Hq Hm. eapply touches_mono; [exact Hm|]. intros q' ->. by left. }
  apply st_rel_bind; [apply _|auto with frames|intros _].
  apply st_rel_bind; [apply _|auto with frames|intros _].
  apply st_rel_bind; [apply _| |intros _].
  { eapply touches_mono; [apply prepare_root_touches|]. intros q Hq. left.
    by do 2 apply suffix_cons_r. }
  apply st_rel_bind; [apply _| |intros _].
  { eapply Hp; [|apply ensure_directory_touches]. by apply suffix_cons_r. }
  apply st_rel_bind; [apply _|apply reject_symlink_touches|intros _].
  apply st_rel_bind; [apply _|apply st_rel_try| intros x].
  { intros w0. destruct (write_and_replace _ _ _ _ _ _ _ _) as [x w1] eqn:E.
    apply write_and_replace_spec in E as [E _]; [|apply temporary_ne].
    eapply touches_weaken; [|exact E]. intros q [->| ->]; [by right|by left]. }
  destruct (is_ok x); [auto with frames|].
  apply st_rel_bind; [apply _| |auto with frames].
  eapply touches_mono; [apply st_rel_try, remove_file_touches|]. intros q ->. by right.
Qed.

(** What a run of [save_state] leaves at the destination, and what a successful
    one has established. *)
Lemma save_state_spec root r w x w' :
  save root r w = (x, w') →
  let o := join root (operation_id r) in
  let d := join o "state.json" in
  (nodes w' !! d = nodes w !! d
   ∨ ∃ m, nodes w' !! d = Some (File euid m (state_text encode r)))
  ∧ (x = Ok () →
     (∃ m, nodes w' !! d = Some (File euid m (state_text encode r)))
     ∧ nodes w' !! o = Some (Dir euid 448) ∧ nodes w' !! root = Some (Dir euid 448)
     ∧ (nodes w !! root = None ∨ ∃ m, nodes w !! root = Some (Dir euid m))
     ∧ (nodes w !! o = None ∨ ∃ m, nodes w !! o = Some (Dir euid m))
     ∧ ".." ∉ root
     ∧ validate_state r = Ok () ∧ validate_operation_id (operation_id r) = Ok ()).
Proof.
  intros H o d. unfold save_state in H. cbv zeta in H. fold o in H. fold d in H.
  apply st_bind_cases in H as [(e & H & ->)|([] & w1 & H1 & H)]; [injection H as _ <-; split; [by left|done]|].
  injection H1 as Hid <-.
  apply st_bind_cases in H as [(e & H & ->)|([] & w1 & H1 & H)]; [injection H as _ <-; split; [by left|done]|].
  injection H1 as Hval <-.
  assert (¬ d `suffix_of` root) as Hd1 by (intros Hs%suffix_length; simpl in Hs; lia).
  assert (¬ o `suffix_of` root) as Ho1 by apply suffix_cons_ne.
  pose proof (prepare_root_touches root w) as T1.
  apply st_bind_cases in H as [(e & H & ->)|([] & w1 & H1 & H)].
  { rewrite H in T1. split; [left; by apply T1|done]. }
  rewrite H1 in T1. apply prepare_root_Ok in H1 as (Hroot & Hroot1 & Hdd).
  pose proof (ensure_directory_touches o w1) as T2. simpl in T1.
  assert (d ≠ o) as Hdo by (intros E%(f_equal length); simpl in E; lia).
  assert (root ≠ o) as Hro by (intros E%(f_equal length); simpl in E; lia).
  assert (root ≠ d) as Hrd by (intros E%(f_equal length); simpl in E; lia).
  apply st_bind_cases in H as [(e & H & ->)|([] & w2 & H2 & H)].
  { rewrite H in T2. simpl in T2. split; [left; by rewrite (T2 d), (T1 d)|done]. }
  rewrite H2 in T2. apply ensure_directory_Ok in H2 as [Ho2 Ho3]. simpl in T2.
  pose proof (reject_symlink_touches (λ _, False) d w2) as T3.
  apply st_bind_cases in H as [(e & H & ->)|([] & w3 & H3 & H)].
  { rewrite H in T3. simpl in T3. split; [left; by rewrite (T3 d), (T2 d), (T1 d) by auto|done]. }
  rewrite H3 in T3. simpl in T3. clear H3.
  apply st_bind_try in H as (y & w4 & H4 & H).
  apply write_and_replace_spec in H4 as (T4 & Hold & Hnew); [|apply temporary_ne].
  fold o d in T4, Hold, Hnew.
  assert (nodes w4 !! d = nodes w !! d
          ∨ ∃ m, nodes w4 !! d = Some (File euid m (state_text encode r))) as Hold'.
  { destruct Hold as [E|?]; [left|by right].
    by rewrite E, (T3 d), (T2 d), (T1 d) by auto. }
  destruct y as [[]|e]; simpl in H.
  - injection H as <- <-. split; [done|]. intros _.
    assert (o ≠ d ∧ o ≠ join o (temporary_name pid nonce)) as [? ?]
      by (split; intros E%(f_equal length); simpl in E; lia).
    assert (root ≠ join o (temporary_name pid nonce))
      by (intros E%(f_equal length); simpl in E; lia).
    split; [by apply Hnew|].
    split; [by rewrite (T4 o), (T3 o) by (auto; tauto)|].
    split; [by rewrite (T4 root), (T3 root), (T2 root) by (auto; tauto)|].
    rewrite (T1 o) in Ho2 by done. done.
  - apply st_bind_try in H as (z & w5 & H5 & H). injection H as <- <-.
    split; [|done].
    assert (nodes w5 !! d = nodes w4 !! d) as ->; [|done].
    pose proof (remove_file_touches fault (join o (temporary_name pid nonce)) w4) as T5.
    rewrite H5 in T5. apply T5. by intros E%eq_sym%temporary_ne.
Qed.
End storage_facts.

(* ------------------------------------------------------------------ *)
(** ** The storage protocol *)

(** C5 Whichever calls the system fails (a process killed at any call included),
    [save_state] leaves at the destination either what was there or the complete
    text of the new record, never a part of it, and the new record when it
    reports success; besides the destination it changes only the directories
    above it and its temporary file. *)
Theorem save_state_atomic euid umask fault pid nonce encode root r w :
  let '(x, w') := save_state euid umask fault pid nonce encode root r w in
  let d := join (join root (operation_id r)) "state.json" in
  (nodes w' !! d = nodes w !! d
   ∨ ∃ m, nodes w' !! d = Some (File euid m (state_text encode r)))
  ∧ (x = Ok () → ∃ m, nodes w' !! d = Some (File euid m (state_text encode r)))
  ∧ touches (save_paths pid nonce root (operation_id r)) w w'.
Proof.
  destruct (save_state _ _ _ _ _ _ _ _ _) as [x w'] eqn:E.
  pose proof (save_state_touches euid umask fault pid nonce encode root r w) as Ht.
  rewrite E in Ht. apply save_state_spec in E as (Hold & Hnew).
  split; [done|]. split; [|done]. intros Hx. by destruct (Hnew Hx).
Qed.

(** A successful [save_state] found the state root and the directory of the
    operation absent or owned by the effective user, without a parent component
    in the root, stored a valid record, and leaves both directories private to
    the user (mode 0700). *)
Theorem save_state_private euid umask fault pid nonce encode root r w w' :
  save_state euid umask fault pid nonce encode root r w = (Ok (), w') →
  (∀ q, q = root ∨ q = join root (operation_id r) →
     (nodes w !! q = None ∨ ∃ m, nodes w !! q = Some (Dir euid m))
     ∧ nodes w' !! q = Some (Dir euid 448))
  ∧ ".." ∉ root ∧ well_formed r.
Proof.
  intros H. apply save_state_spec in H as (_ & H).
  destruct (H eq_refl) as (_ & Ho & Hr & Hr0 & Ho0 & Hd & Hv & _).
  split; [by intros q [->| ->]|]. split; [done|]. by eapply validate_state_Ok.
Qed.

Lemma reject_symlink_ok p w :
  (∀ t, nodes w !! p ≠ Some (Symlink t)) →
  ∃ w', reject_symlink no_fault p w = (Ok (), w') ∧ nodes w' = nodes w.
Proof.
  intros H. unfold reject_symlink, mbind, st_bind, st_try, symlink_metadata, syscall. simpl.
  destruct (nodes w !! p) as [[]|] eqn:E; simpl; eauto. by destruct (H target).
Qed.

(** What [save_state] stored under any failures that did not stop it,
    [load_state] gives back, provided the parser inverts the printer on the
    record. *)
Theorem save_load_roundtrip euid umask fault pid nonce encode decode root r w w' :
  decode (state_text encode r) = Some r →
  save_state euid umask fault pid nonce encode root r w = (Ok (), w') →
  ∃ w'', load_state no_fault decode root (operation_id r) w' = (Ok r, w'')
         ∧ nodes w'' = nodes w'.
Proof.
  intros Hdec H. apply save_state_spec in H as (_ & H).
  destruct (H eq_refl) as ([m Hd] & Ho & Hr & _ & _ & _ & Hv & Hid).
  unfold load_state, mbind, st_bind, st_lift. rewrite Hid.
  destruct (reject_symlink_ok root w') as (w1 & -> & N1); [by rewrite Hr|].
  destruct (reject_symlink_ok (join root (operation_id r)) w1) as (w2 & -> & N2);
    [by rewrite N1, Ho|].
  destruct (reject_symlink_ok (join (join root (operation_id r)) "state.json") w2)
    as (w3 & -> & N3); [by rewrite N2, N1, Hd|].
  unfold io, st_map_err, read_nofollow, syscall. simpl. rewrite N3, N2, N1, Hd. simpl.
  rewrite Hdec. simpl. pose proof Hv as Hv'. rewrite validate_state_Ok in Hv'.
  rewrite (wf_schema r Hv'), !eqb_refl. simpl. rewrite Hv. eauto.
Qed.

Lemma ensure_directory_ok euid umask p w :
  (nodes w !! p = None ∧ in_dir (nodes w) p = true)
  ∨ (∃ m, nodes w !! p = Some (Dir euid m)) →
  ∃ w', ensure_directory euid umask no_fault p w = (Ok (), w').
Proof.
  unfold ensure_directory, mbind, st_bind, st_try, symlink_metadata, io, st_map_err,
    create_dir, set_permissions, syscall. simpl.
  intros [[Hp Hi]|[m Hp]]; rewrite Hp; simpl.
  - rewrite Hp. simpl. rewrite Hi. simpl. rewrite lookup_insert_eq. eauto.
  - rewrite Z.eqb_refl. simpl. rewrite Hp. eauto.
Qed.

Lemma ensure_parent_chain_ok euid umask p w u m :
  nodes w !! p = Some (Dir u m) → u = euid ∨ Z.land m S_ISVTX ≠ 0%Z →
  ∃ w', ensure_parent_chain euid umask no_fault p w = (Ok (), w') ∧ nodes w' = nodes w.
Proof.
  intros Hp Hu.
  assert (negb (u =? euid)%Z && (Z.land m S_ISVTX =? 0)%Z = false) as Hc.
  { destruct (Z.eqb_spec u euid); [done|]. destruct (Z.eqb_spec (Z.land m S_ISVTX) 0); [|done].
    by destruct Hu. }
  destruct p; unfold ensure_parent_chain, mbind, st_bind, st_try, symlink_metadata, syscall;
    simpl; rewrite Hp; simpl; rewrite Hc; eexists; split; reflexivity.
Qed.

Lemma write_and_replace_ok euid umask encode t d r w p :
  parent t = Some p → parent d = Some p → t ≠ d → t ≠ p → d ≠ p →
  nodes w !! t = None → (∃ u m, nodes w !! p = Some (Dir u m)) →
  (∀ n, nodes w !! d = Some n → is_dir n = false) →
  ∃ w', write_and_replace euid umask no_fault encode t d r w = (Ok (), w').
Proof.
  intros Pt Pd Hne Htp Hdp Ht (u & m & Hp) Hd.
  unfold write_and_replace, sync_directory, mbind, st_bind, io, st_map_err, create_new,
    write_all, sync_all, rename, open_any, append, syscall, in_dir. simpl.
  rewrite Ht, Pt, Pd. simpl. rewrite Hp. simpl. rewrite !lookup_insert_eq. simpl.
  rewrite !lookup_insert_ne by done.
  rewrite Hp. simpl.
  destruct (nodes w !! d) as [n|] eqn:Hn; simpl; [rewrite (Hd n eq_refl)|]; simpl;
    rewrite lookup_insert_ne, lookup_delete_ne, !lookup_insert_ne, Hp by done; eauto.
Qed.

(** When the system fails no call, a valid record is saved: it is enough that
    the root lies in a directory the user owns (or a sticky one), that the root
    and the directory of the operation are absent or owned by the user, that the
    destination is no directory and no link, and that the temporary name is free. *)
Theorem save_state_succeeds euid umask pid nonce encode name p r w u m :
  let root := join p name in
  let o := join root (operation_id r) in
  validate_operation_id (operation_id r) = Ok () → validate_state r = Ok () →
  ".." ∉ root →
  nodes w !! p = Some (Dir u m) → (u = euid ∨ Z.land m S_ISVTX ≠ 0%Z) →
  (nodes w !! root = None ∨ ∃ m, nodes w !! root = Some (Dir euid m)) →
  (nodes w !! o = None ∨ ∃ m, nodes w !! o = Some (Dir euid m)) →
  (∀ n, nodes w !! join o "state.json" = Some n → is_dir n = false ∧ is_symlink n = false) →
  nodes w !! join o (temporary_name pid nonce) = None →
  ∃ w', save_state euid umask no_fault pid nonce encode root r w = (Ok (), w').
Proof.
  intros root o Hid Hv Hdd Hp Hu Hroot Ho Hdest Htmp.
  assert (∀ l, length l < length o → l ≠ o ∧ (∀ x, l ≠ join o x)) as Hlen.
  { intros l Hl. split; [|intros x]; intros ->; simpl in Hl; lia. }
  destruct (Hlen root ltac:(simpl; lia)) as [Hro Hrx].
  destruct (Hlen p ltac:(simpl; lia)) as [Hpo Hpx].
  assert (∀ x, o ≠ join o x) as Hox by (intros x E%(f_equal length); simpl in E; lia).
  assert (root ≠ p) as Hrp by (intros E%(f_equal length); simpl in E; lia).
  unfold save_state, prepare_root. rewrite Hid, Hv. cbv zeta. fold o.
  rewrite (proj2 (contains_false _ _) Hdd).
  destruct (reject_symlink_ok root w) as (w1 & E1 & N1).
  { intros t E. destruct Hroot as [Hroot|[? Hroot]]; congruence. }
  destruct (ensure_parent_chain_ok euid umask p w1 u m) as (w2 & E2 & N2);
    [by rewrite N1|done|].
  destruct (ensure_directory_ok euid umask root w2) as (w3 & E3).
  { rewrite N2, N1. destruct Hroot as [Hroot|?]; [left|by right].
    split; [done|]. unfold in_dir. simpl. by rewrite Hp. }
  pose proof (ensure_directory_touches euid umask no_fault root w2) as T3. rewrite E3 in T3.
  pose proof (ensure_directory_Ok _ _ _ _ _ _ E3) as [_ R3]. simpl in T3.
  assert (∀ q, q ≠ root → nodes w3 !! q = nodes w !! q) as W3
    by (intros q Hq; by rewrite (T3 q), N2, N1 by auto).
  destruct (ensure_directory_ok euid umask o w3) as (w4 & E4).
  { rewrite (W3 o) by auto. destruct Ho as [Ho|?]; [left|by right].
    split; [done|]. unfold in_dir. simpl. by rewrite R3. }
  pose proof (ensure_directory_touches euid umask no_fault o w3) as T4. rewrite E4 in T4.
  pose proof (ensure_directory_Ok _ _ _ _ _ _ E4) as [_ R4]. simpl in T4.
  assert (∀ x, nodes w4 !! join o x = nodes w !! join o x) as W4.
  { intros x. rewrite (T4 (join o x)), W3; [done| |]; intros E; [by apply (Hrx x)|by apply (Hox x)]. }
  destruct (reject_symlink_ok (join o "state.json") w4) as (w5 & E5 & N5).
  { intros t E. rewrite W4 in E. by destruct (Hdest _ E). }
  destruct (write_and_replace_ok euid umask encode (join o (temporary_name pid nonce))
    (join o "state.json") r w5 o) as (w6 & E6); try done.
  { by rewrite N5, W4. }
  { rewrite N5, R4. eauto. }
  { intros n Hn. rewrite N5, W4 in Hn. by destruct (Hdest n Hn). }
  exists w6. unfold mbind, st_bind, st_lift, st_try.
  rewrite E1. change (parent root) with (Some p). cbv iota beta. rewrite E2, E3, E4, E5, E6. reflexivity.
Qed.

(* ------------------------------------------------------------------ *)
(** ** A concrete store *)

Definition sample_root : Fs.path := ["operations"; "lyra-upgrade"; "lib"; "var"].
Definition sample_world : world := {|
  nodes := list_to_map
    [([], Dir 0 493); (["var"], Dir 0 493); (["lib"; "var"], Dir 0 493);
     (["lyra-upgrade"; "lib"; "var"], Dir 0 448)];
  calls := 0 |}.
Definition sample_encode (r : OperationStateRecord) : string :=
  "{" +:+ operation_id r +:+ " " +:+ to_string (sequence r) +:+ "}".
Definition sample_stored : OperationStateRecord := sample_record ReleaseUpgrade Downloading.
Definition sample_decode (s : string) : option OperationStateRecord :=
  if s ==? state_text sample_encode sample_stored then Some sample_stored else None.
Definition sample_save : result PersistenceError unit * world :=
  save_state 0 18 no_fault 100 7 sample_encode sample_root sample_stored sample_world.

Lemma sample_save_eq : sample_save = (Ok (), sample_save.2).
Proof. apply pair_with_fst. vm_compute. reflexivity. Qed.

Lemma reachable_storable_witness :
  validate_state sample_staged = Ok ()
  ∧ validate_state (set_state sample_snapshotting NeedsRecovery) ≠ Ok ().
Proof.
  assert (rtc step sample_snapshotting sample_staged) as H1.
  { eapply rtc_l; [apply (step_snapshot _ 42%Z); [reflexivity|unfold u64_max; lia]|].
    apply (transitions_steps _ [ReadyToReboot]). vm_compute. reflexivity. }
  assert (rtc step (sample_record ReleaseUpgrade AwaitingConfirmation) sample_snapshotting) as H0.
  { apply (transitions_steps _ [Downloading; Snapshotting]). vm_compute. reflexivity. }
  assert (0 ≤ 0 ≤ u64_max)%Z as Hq by (unfold u64_max; lia).
  split.
  - apply (reachable_storable (sample_record ReleaseUpgrade AwaitingConfirmation));
      [vm_compute; reflexivity|reflexivity..|exact Hq|by transitivity sample_snapshotting|].
    discriminate.
  - vm_compute. discriminate.
Defined.

Lemma save_state_private_witness :
  sample_save.1 = Ok () ∧ ".." ∉ sample_root ∧ well_formed sample_stored.
Proof.
  split; [vm_compute; reflexivity|].
  apply (save_state_private 0 18 no_fault 100 7 sample_encode sample_root sample_stored
    sample_world sample_save.2). exact sample_save_eq.
Defined.

Lemma save_load_roundtrip_witness :
  ∃ w'', load_state no_fault sample_decode sample_root (operation_id sample_stored)
           sample_save.2 = (Ok sample_stored, w'')
         ∧ nodes w'' = nodes sample_save.2.
Proof.
  apply (save_load_roundtrip 0 18 no_fault 100 7 sample_encode sample_decode sample_root
    sample_stored sample_world); [vm_compute; reflexivity|exact sample_save_eq].
Defined.

Lemma save_state_succeeds_witness :
  ∃ w', save_state 0 18 no_fault 100 7 sample_encode sample_root sample_stored sample_world
        = (Ok (), w').
Proof.
  apply (save_state_succeeds 0 18 100 7 sample_encode "operations"
    ["lyra-upgrade"; "lib"; "var"] sample_stored sample_world 0 448);
    try (vm_compute; reflexivity).
  - intros Hin. rewrite <-contains_true in Hin. vm_compute in Hin. discriminate.
  - by left.
  - left. vm_compute. reflexivity.
  - left. vm_compute. reflexivity.
  - intros n Hn. vm_compute in Hn. discriminate.
Defined.
