(* ===== verification/Preflight.v ===== *)
(** * Host preflight (src/core/src/preflight.rs, evaluate_preflight)

    The facts read from a host, the policy, the issues with their derived order,
    and the evaluation of the facts into a report. *)

From S2P Require Import Prelude RustStr State.

Open Scope bool_scope.
Open Scope lyra_scope.

(* ------------------------------------------------------------------ *)
(** ** Data *)

Record InstalledPackage := {
  pkg_name : string;
  pkg_version : string;
  pkg_architecture : string;
  pkg_vendor : string;
}.

Record InventoryReport := {
  inventory_schema_version : Z;
  inventory_packages : list InstalledPackage;
  configuration_artifacts : list string;
}.

Record StorageFacts := {
  root_writable : bool;
  home_isolated : bool;
  boot_available_bytes : Z;
  esp_available_bytes : option Z;
}.

Record RepositoryFact := {
  alias : string;
  enabled : bool;
  official : bool;
  metadata_valid : bool;
  signing_key_trusted : bool;
}.

Record HostFacts := {
  release : ReleaseIdentity;
  root_filesystem : string;
  snapper_root_configured : bool;
  rpm_database_healthy : bool;
  package_lock_free : bool;
  available_bytes : Z;
  required_download_bytes : Z;
  required_transaction_bytes : Z;
  required_snapshot_bytes : Z;
  on_battery : bool;
  battery_percent : option Z;
  secure_boot_enabled : option bool;
  repositories : list RepositoryFact;
  held_packages : list string;
  installed_packages : list InstalledPackage;
  storage : option StorageFacts;
  orphaned_packages : list string;
}.

Record PreflightPolicy := {
  minimum_battery_percent : Z;
  free_space_margin_bytes : Z;
  minimum_free_space_bytes : Z;
  require_secure_boot_fact : bool;
}.

Definition default_policy : PreflightPolicy := {|
  minimum_battery_percent := 40;
  free_space_margin_bytes := 1024 * 1024 * 1024;
  minimum_free_space_bytes := 0;
  require_secure_boot_fact := true |}.

Inductive PreflightIssue : Set :=
  | StorageLayoutUnknown | RootNotWritable | HomeNotIsolated
  | InsufficientBootSpace | InsufficientEspSpace
  | UnsupportedEdition | UnsupportedArchitecture | RootNotBtrfs
  | SnapperUnavailable | RpmDatabaseUnhealthy | PackageManagerBusy
  | InsufficientSpace | BatteryTooLow | BatteryStateUnknown
  | SecureBootStateUnknown
  | RepositoryMetadataInvalid (alias : string)
  | RepositoryKeyUntrusted (alias : string)
  | UnsupportedSolverSchema | SolverFailed
  | UnauthorizedDowngrade (package : string)
  | UnauthorizedRemoval (package : string)
  | UnauthorizedVendorChange (package : string)
  | LockstepViolation.

Record PreflightReport := {
  report_required_bytes : Z;
  report_available_bytes : Z;
  blockers : list PreflightIssue;
  third_party_repositories : list string;
  report_held_packages : list string;
  report_orphaned_packages : list string;
}.

#[export] Instance InstalledPackage_eq_dec : EqDecision InstalledPackage.
Proof. solve_decision. Defined.
#[export] Instance RepositoryFact_eq_dec : EqDecision RepositoryFact.
Proof. solve_decision. Defined.
#[export] Instance PreflightIssue_eq_dec : EqDecision PreflightIssue.
Proof. solve_decision. Defined.
#[export] Instance StorageFacts_eq_dec : EqDecision StorageFacts.
Proof. solve_decision. Defined.
#[export] Instance InventoryReport_eq_dec : EqDecision InventoryReport.
Proof. solve_decision. Defined.

(** The derived orders: fields in declaration order; variants by position, then
    their field. *)
Definition package_key (p : InstalledPackage) : string * (string * (string * string)) :=
  (pkg_name p, (pkg_version p, (pkg_architecture p, pkg_vendor p))).
#[export] Instance ord_package : Ord InstalledPackage := ord_via package_key.

Definition issue_key (i : PreflightIssue) : Z * string :=
  match i with
  | StorageLayoutUnknown => (0, "") | RootNotWritable => (1, "")
  | HomeNotIsolated => (2, "") | InsufficientBootSpace => (3, "")
  | InsufficientEspSpace => (4, "") | UnsupportedEdition => (5, "")
  | UnsupportedArchitecture => (6, "") | RootNotBtrfs => (7, "")
  | SnapperUnavailable => (8, "") | RpmDatabaseUnhealthy => (9, "")
  | PackageManagerBusy => (10, "") | InsufficientSpace => (11, "")
  | BatteryTooLow => (12, "") | BatteryStateUnknown => (13, "")
  | SecureBootStateUnknown => (14, "")
  | RepositoryMetadataInvalid a => (15, a) | RepositoryKeyUntrusted a => (16, a)
  | UnsupportedSolverSchema => (17, "") | SolverFailed => (18, "")
  | UnauthorizedDowngrade p => (19, p) | UnauthorizedRemoval p => (20, p)
  | UnauthorizedVendorChange p => (21, p) | LockstepViolation => (22, "")
  end%Z.
#[export] Instance ord_issue : Ord PreflightIssue := ord_via issue_key.

#[export] Instance package_key_inj : Inj (=) (=) package_key.
Proof. intros [] [] [=]. simpl in *. congruence. Qed.
#[export] Instance ord_laws_package : OrdLaws InstalledPackage := ord_laws_via package_key.
#[export] Instance issue_key_inj : Inj (=) (=) issue_key.
Proof. intros i j. destruct i, j; simpl; intros [=]; congruence. Qed.
#[export] Instance ord_laws_issue : OrdLaws PreflightIssue := ord_laws_via issue_key.

(* ------------------------------------------------------------------ *)
(** ** Evaluation *)

Definition passed (self : PreflightReport) : bool :=
  match blockers self with [] => true | _ => false end.

(** [if b { blockers.push(i) }]. *)
Definition push_if (b : bool) (i : PreflightIssue) : list PreflightIssue :=
  if b then [i] else [].

Definition storage_blockers (storage : option StorageFacts) : list PreflightIssue :=
  match storage with
  | None => [StorageLayoutUnknown]
  | Some s =>
      push_if (negb (root_writable s)) RootNotWritable
      ++ push_if (negb (home_isolated s)) HomeNotIsolated
      ++ push_if (boot_available_bytes s <? 256 * 1024 * 1024)%Z InsufficientBootSpace
      ++ push_if (is_some_and (esp_available_bytes s)
                    (λ bytes, (bytes <? 32 * 1024 * 1024)%Z)) InsufficientEspSpace
  end.

Definition host_blockers (facts : HostFacts) : list PreflightIssue :=
  push_if (edition (release facts) !=? "desktop") UnsupportedEdition
  ++ push_if (architecture (release facts) !=? "x86_64") UnsupportedArchitecture
  ++ push_if (root_filesystem facts !=? "btrfs") RootNotBtrfs
  ++ push_if (negb (snapper_root_configured facts)) SnapperUnavailable
  ++ push_if (negb (rpm_database_healthy facts)) RpmDatabaseUnhealthy
  ++ push_if (negb (package_lock_free facts)) PackageManagerBusy.

Definition required_bytes_of (facts : HostFacts) (policy : PreflightPolicy) : Z :=
  Z.max
    (saturating_add
      (saturating_add
        (saturating_add (required_download_bytes facts) (required_transaction_bytes facts))
        (required_snapshot_bytes facts))
      (free_space_margin_bytes policy))
    (minimum_free_space_bytes policy).

Definition power_blockers (facts : HostFacts) (policy : PreflightPolicy)
  : list PreflightIssue :=
  (if on_battery facts then
     match battery_percent facts with
     | Some percent => push_if (percent <? minimum_battery_percent policy)%Z BatteryTooLow
     | None => [BatteryStateUnknown]
     end
   else [])
  ++ push_if (require_secure_boot_fact policy && is_none (secure_boot_enabled facts))
       SecureBootStateUnknown.

Definition repository_blockers (r : RepositoryFact) : list PreflightIssue :=
  push_if (negb (metadata_valid r)) (RepositoryMetadataInvalid (alias r))
  ++ push_if (negb (signing_key_trusted r)) (RepositoryKeyUntrusted (alias r)).

Definition enabled_repositories (l : list RepositoryFact) : list RepositoryFact :=
  List.filter enabled l.

Definition evaluate_preflight (facts : HostFacts) (policy : PreflightPolicy)
  : PreflightReport :=
  let required := required_bytes_of facts policy in
  let active := enabled_repositories (repositories facts) in
  {| report_required_bytes := required;
     report_available_bytes := available_bytes facts;
     blockers := dedup (sort
       (storage_blockers (storage facts) ++ host_blockers facts
        ++ push_if (available_bytes facts <? required)%Z InsufficientSpace
        ++ power_blockers facts policy
        ++ concat (map repository_blockers active)));
     third_party_repositories := dedup (sort
       (map alias (List.filter (λ r, negb (official r)) active)));
     report_held_packages := dedup (sort (held_packages facts));
     report_orphaned_packages := dedup (sort (orphaned_packages facts)) |}.

(* ------------------------------------------------------------------ *)
(** ** The meaning of the issues *)

(** The bytes a plan needs, as an exact sum kept within 64 bits. *)
Definition bytes_needed (facts : HostFacts) (policy : PreflightPolicy) : Z :=
  Z.max (minimum_free_space_bytes policy)
    (Z.min u64_max (required_download_bytes facts + required_transaction_bytes facts
                    + required_snapshot_bytes facts + free_space_margin_bytes policy)).

Definition issue_holds (facts : HostFacts) (policy : PreflightPolicy)
    (i : PreflightIssue) : Prop :=
  let storage_is p := ∃ s, storage facts = Some s ∧ p s in
  let repository_is a p := ∃ r, r ∈ repositories facts ∧ alias r = a
                                ∧ enabled r = true ∧ p r = false in
  match i with
  | StorageLayoutUnknown => storage facts = None
  | RootNotWritable => storage_is (λ s, root_writable s = false)
  | HomeNotIsolated => storage_is (λ s, home_isolated s = false)
  | InsufficientBootSpace => storage_is (λ s, (boot_available_bytes s < 268435456)%Z)
  | InsufficientEspSpace =>
      storage_is (λ s, ∃ b, esp_available_bytes s = Some b ∧ (b < 33554432)%Z)
  | UnsupportedEdition => edition (release facts) ≠ "desktop"
  | UnsupportedArchitecture => architecture (release facts) ≠ "x86_64"
  | RootNotBtrfs => root_filesystem facts ≠ "btrfs"
  | SnapperUnavailable => snapper_root_configured facts = false
  | RpmDatabaseUnhealthy => rpm_database_healthy facts = false
  | PackageManagerBusy => package_lock_free facts = false
  | InsufficientSpace => (available_bytes facts < bytes_needed facts policy)%Z
  | BatteryTooLow =>
      on_battery facts = true
      ∧ ∃ p, battery_percent facts = Some p ∧ (p < minimum_battery_percent policy)%Z
  | BatteryStateUnknown => on_battery facts = true ∧ battery_percent facts = None
  | SecureBootStateUnknown =>
      require_secure_boot_fact policy = true ∧ secure_boot_enabled facts = None
  | RepositoryMetadataInvalid a => repository_is a metadata_valid
  | RepositoryKeyUntrusted a => repository_is a signing_key_trusted
  | _ => False
  end.

(* ------------------------------------------------------------------ *)
(** ** Lemmas *)

Lemma push_if_elem b i j : j ∈ push_if b i ↔ b = true ∧ j = i.
Proof. destruct b; simpl; [rewrite list_elem_of_singleton|rewrite elem_of_nil]; naive_solver. Qed.

Lemma bytes_needed_spec facts policy :
  is_u64 (required_download_bytes facts) → is_u64 (required_transaction_bytes facts) →
  is_u64 (required_snapshot_bytes facts) → is_u64 (free_space_margin_bytes policy) →
  required_bytes_of facts policy = bytes_needed facts policy.
Proof. unfold required_bytes_of, bytes_needed, saturating_add, is_u64. lia. Qed.

(** Decide a membership in a list of [push_if]s, the issue being known. *)
Ltac pushes :=
  rewrite ?elem_of_app, ?push_if_elem, ?list_elem_of_singleton, ?elem_of_nil;
  rewrite ?negb_true_iff, ?negb_false_iff, ?eqb_false, ?andb_true_iff, ?is_none_true,
    ?is_some_and_true; repeat setoid_rewrite Z.ltb_lt.

(** The part of the evaluation an issue comes from. *)
Inductive part : Set := Storage | Host | Space | Power | Repositories | Solver.
Definition part_of (i : PreflightIssue) : part :=
  match i with
  | StorageLayoutUnknown | RootNotWritable | HomeNotIsolated | InsufficientBootSpace
  | InsufficientEspSpace => Storage
  | UnsupportedEdition | UnsupportedArchitecture | RootNotBtrfs | SnapperUnavailable
  | RpmDatabaseUnhealthy | PackageManagerBusy => Host
  | InsufficientSpace => Space
  | BatteryTooLow | BatteryStateUnknown | SecureBootStateUnknown => Power
  | RepositoryMetadataInvalid _ | RepositoryKeyUntrusted _ => Repositories
  | _ => Solver
  end.

Ltac pick :=
  first [ solve [split; [eauto|reflexivity]]
        | left; solve [split; [eauto|reflexivity]] | right; pick ].
Ltac decide_issue i :=
  let H := fresh in
  split;
  [ intros H;
    repeat (destruct H as [H|H];
      [first [contradiction | destruct H as [? ->]; split; [done|by eauto 6]]|]);
    destruct H as [? ->]; split; [done|by eauto 6]
  | intros [H ?]; destruct i; try discriminate H;
    repeat match goal with
    | H : ∃ _, _ |- _ => destruct H as (? & ? & ?)
    | H : Some _ = Some _ |- _ => injection H as <-
    | H : _ ∧ _ |- _ => destruct H
    end; simplify_eq; pick ].

Lemma storage_blockers_elem facts policy i :
  i ∈ storage_blockers (storage facts) ↔ part_of i = Storage ∧ issue_holds facts policy i.
Proof.
  unfold issue_holds, storage_blockers.
  destruct (storage facts) as [s|]; pushes; [decide_issue i|].
  split; [by intros ->|]. intros [Hp H]. destruct i; try discriminate Hp; [done|..];
    by destruct H as (? & ? & _).
Qed.

Lemma host_blockers_elem facts policy i :
  i ∈ host_blockers facts ↔ part_of i = Host ∧ issue_holds facts policy i.
Proof. unfold issue_holds, host_blockers. pushes; decide_issue i. Qed.

Lemma power_blockers_elem facts policy i :
  i ∈ power_blockers facts policy ↔ part_of i = Power ∧ issue_holds facts policy i.
Proof.
  unfold issue_holds, power_blockers.
  change [BatteryStateUnknown] with (push_if true BatteryStateUnknown).
  destruct (on_battery facts), (battery_percent facts) as [p|]; pushes; decide_issue i.
Qed.

Lemma enabled_repositories_elem l r :
  r ∈ enabled_repositories l ↔ r ∈ l ∧ enabled r = true.
Proof. unfold enabled_repositories. by rewrite !list_elem_of_In, filter_In. Qed.

Lemma elem_of_concat_map {A B} (f : A → list B) l b :
  b ∈ concat (map f l) ↔ ∃ a, a ∈ l ∧ b ∈ f a.
Proof.
  rewrite list_elem_of_In, in_concat. split.
  - intros (m & Hm & Hb). apply in_map_iff in Hm as (a & <- & Ha).
    exists a. by rewrite !list_elem_of_In.
  - intros (a & Ha & Hb). exists (f a). rewrite in_map_iff, <-!list_elem_of_In.
    split; [|done]. exists a. by rewrite <-list_elem_of_In.
Qed.

Lemma repositories_blockers_elem facts policy i :
  i ∈ concat (map repository_blockers (enabled_repositories (repositories facts))) ↔
    part_of i = Repositories ∧ issue_holds facts policy i.
Proof.
  rewrite elem_of_concat_map. setoid_rewrite enabled_repositories_elem.
  unfold repository_blockers, issue_holds. split.
  - intros (r & [Hr He] & H). revert H. pushes.
    intros [[Hm ->]|[Hk ->]]; simpl; eauto 10.
  - destruct i; simpl; intros [Hi H]; try done; destruct H as (r & Hr & <- & He & Hp);
      exists r; (split; [done|]); pushes; auto.
Qed.

Lemma evaluate_blockers_elem facts policy i :
  is_u64 (required_download_bytes facts) → is_u64 (required_transaction_bytes facts) →
  is_u64 (required_snapshot_bytes facts) → is_u64 (free_space_margin_bytes policy) →
  i ∈ blockers (evaluate_preflight facts policy) ↔ issue_holds facts policy i.
Proof.
  intros H1 H2 H3 H4. unfold evaluate_preflight. simpl blockers.
  rewrite sort_dedup_elem, !elem_of_app, push_if_elem, Z.ltb_lt, bytes_needed_spec by done.
  rewrite (storage_blockers_elem _ policy), (host_blockers_elem _ policy), power_blockers_elem,
    (repositories_blockers_elem _ policy).
  destruct (decide (i = InsufficientSpace)) as [->|Hne].
  - simpl. intuition congruence.
  - assert (part_of i ≠ Space) as Hs by (by destruct i).
    assert (part_of i = Solver → ¬ issue_holds facts policy i) as Hn by (by destruct i; intros ? []).
    destruct (part_of i); intuition congruence.
Qed.

Lemma passed_true report : passed report = true ↔ blockers report = [].
Proof. unfold passed. by destruct (blockers report). Qed.

(** The host an operation may be planned on. *)
Record host_ready (facts : HostFacts) (policy : PreflightPolicy) : Prop := {
  ready_storage : ∃ s, storage facts = Some s
    ∧ root_writable s = true ∧ home_isolated s = true
    ∧ (268435456 ≤ boot_available_bytes s)%Z
    ∧ (∀ b, esp_available_bytes s = Some b → (33554432 ≤ b)%Z);
  ready_desktop : is_supported_desktop (release facts) = true;
  ready_root : root_filesystem facts = "btrfs";
  ready_snapper : snapper_root_configured facts = true;
  ready_rpm : rpm_database_healthy facts = true;
  ready_lock : package_lock_free facts = true;
  ready_space : (bytes_needed facts policy ≤ available_bytes facts)%Z;
  ready_power : on_battery facts = true →
    ∃ p, battery_percent facts = Some p ∧ (minimum_battery_percent policy ≤ p)%Z;
  ready_secure_boot : require_secure_boot_fact policy = true →
    secure_boot_enabled facts ≠ None;
  ready_repositories : ∀ r, r ∈ repositories facts → enabled r = true →
    metadata_valid r = true ∧ signing_key_trusted r = true;
}.

Lemma no_issue_ready facts policy :
  (∀ i, ¬ issue_holds facts policy i) → host_ready facts policy.
Proof.
  intros H. destruct (storage facts) as [s|] eqn:Hs.
  2: { by destruct (H StorageLayoutUnknown). }
  assert (∀ b : bool, (b = false → False) → b = true) as Hb by (by intros []; [|intros []]).
  split.
  - exists s. split; [done|]. repeat split.
    + apply Hb. intros E. apply (H RootNotWritable). simpl. eauto.
    + apply Hb. intros E. apply (H HomeNotIsolated). simpl. eauto.
    + apply Z.nlt_ge. intros E. apply (H InsufficientBootSpace). simpl. eauto.
    + intros b Hesp. apply Z.nlt_ge. intros E. apply (H InsufficientEspSpace). simpl. eauto 6.
  - unfold is_supported_desktop. apply andb_true_iff. rewrite !eqb_true. split; apply dec_stable.
    + apply (H UnsupportedEdition).
    + apply (H UnsupportedArchitecture).
  - apply dec_stable, (H RootNotBtrfs).
  - apply Hb, (H SnapperUnavailable).
  - apply Hb, (H RpmDatabaseUnhealthy).
  - apply Hb, (H PackageManagerBusy).
  - apply Z.nlt_ge, (H InsufficientSpace).
  - intros Ho. destruct (battery_percent facts) as [p|] eqn:Hp.
    + exists p. split; [done|]. apply Z.nlt_ge. intros E. apply (H BatteryTooLow). simpl. eauto.
    + by destruct (H BatteryStateUnknown).
  - intros Hq Hn. by apply (H SecureBootStateUnknown).
  - intros r Hr He. split; apply Hb; intros E.
    + apply (H (RepositoryMetadataInvalid (alias r))). simpl. eauto 6.
    + apply (H (RepositoryKeyUntrusted (alias r))). simpl. eauto 6.
Qed.

Lemma ready_no_issue facts policy i : host_ready facts policy → ¬ issue_holds facts policy i.
Proof.
  intros [(s & Hs & Hw & Hh & Hb & He) Hd Hroot Hsn Hrpm Hl Hsp Hp Hsec Hrep].
  unfold is_supported_desktop in Hd. rewrite andb_true_iff, !eqb_true in Hd.
  destruct Hd as [Hd1 Hd2].
  destruct i; simpl; rewrite ?Hs; try congruence; try lia.
  - intros (? & [= <-] & ?). congruence.
  - intros (? & [= <-] & ?). congruence.
  - intros (? & [= <-] & ?). lia.
  - intros (? & [= <-] & b & Hesp & ?). specialize (He b Hesp). lia.
  - intros (Ho & p & Hp1 & Hp2). destruct (Hp Ho) as (q & Hq & ?). simplify_eq. lia.
  - intros (Ho & Hp1). destruct (Hp Ho) as (q & Hq & ?). congruence.
  - intros (Hq & Hn). by apply Hsec.
  - intros (r & Hr & _ & He' & Hm). destruct (Hrep r Hr He'). congruence.
  - intros (r & Hr & _ & He' & Hm). destruct (Hrep r Hr He'). congruence.
Qed.

Lemma push_if_nil b i : push_if b i = [] ↔ b = false.
Proof. by destruct b. Qed.

Lemma no_elem_nil {A} (l : list A) : l = [] ↔ ∀ x, x ∉ l.
Proof. split; [intros -> x; apply not_elem_of_nil|]. intros H. by apply elem_of_nil_inv. Qed.

Lemma concat_map_nil {A B} (f : A → list B) l :
  concat (map f l) = [] ↔ ∀ a, a ∈ l → f a = [].
Proof.
  induction l as [|a l IH]; simpl; [set_solver|]. split.
  - intros [H1 H2]%app_eq_nil b [->|Hb]%elem_of_cons; [done|]. by apply IH.
  - intros H. rewrite (H a) by left. apply IH. intros b Hb. apply H. by right.
Qed.

Lemma app_nil_iff {A} (l1 l2 : list A) : l1 ++ l2 = [] ↔ l1 = [] ∧ l2 = [].
Proof. split; [apply app_eq_nil|by intros [-> ->]]. Qed.

(* ------------------------------------------------------------------ *)
(** ** The report *)

(** The facts and the margin are unsigned 64-bit numbers, as in the program. *)
Definition sizes_ok (facts : HostFacts) (policy : PreflightPolicy) : Prop :=
  is_u64 (required_download_bytes facts) ∧ is_u64 (required_transaction_bytes facts)
  ∧ is_u64 (required_snapshot_bytes facts) ∧ is_u64 (free_space_margin_bytes policy).

Lemma evaluate_blockers_nil facts policy :
  sizes_ok facts policy →
  blockers (evaluate_preflight facts policy) = [] ↔ host_ready facts policy.
Proof.
  intros (H1 & H2 & H3 & H4). rewrite no_elem_nil.
  setoid_rewrite evaluate_blockers_elem; [|done..].
  split; [apply no_issue_ready|]. intros Hr i. by apply ready_no_issue.
Qed.

(** The report lists exactly the issues that hold of the host, in the derived
    order and each once; the space it requires is the exact sum of the three
    sizes and the margin kept within 64 bits, and no less than the floor of the
    policy. *)
Theorem preflight_blockers_exact facts policy :
  sizes_ok facts policy →
  (∀ i, i ∈ blockers (evaluate_preflight facts policy) ↔ issue_holds facts policy i)
  ∧ StronglySorted (λ i j, le_of i j = true ∧ i ≠ j)
      (blockers (evaluate_preflight facts policy))
  ∧ report_required_bytes (evaluate_preflight facts policy) = bytes_needed facts policy.
Proof.
  intros (H1 & H2 & H3 & H4). split; [by intros; apply evaluate_blockers_elem|].
  split; [apply sort_dedup_strict|]. by apply bytes_needed_spec.
Qed.

(** A host passes the preflight exactly when it is ready: a known, writable and
    isolated storage layout with room in /boot and the ESP, a desktop on x86_64
    and Btrfs with Snapper, a healthy and free package database, enough space,
    enough battery when on it, a known Secure Boot state when the policy wants
    it, and valid metadata and a trusted key for every enabled repository. *)
Theorem preflight_passed_iff facts policy :
  sizes_ok facts policy →
  passed (evaluate_preflight facts policy) = true ↔ host_ready facts policy.
Proof. intros H. by rewrite passed_true, evaluate_blockers_nil. Qed.

(** The facts with their lists replaced. *)
Definition with_lists (facts : HostFacts) (rs : list RepositoryFact)
    (held orphaned : list string) : HostFacts := {|
  release := release facts; root_filesystem := root_filesystem facts;
  snapper_root_configured := snapper_root_configured facts;
  rpm_database_healthy := rpm_database_healthy facts;
  package_lock_free := package_lock_free facts; available_bytes := available_bytes facts;
  required_download_bytes := required_download_bytes facts;
  required_transaction_bytes := required_transaction_bytes facts;
  required_snapshot_bytes := required_snapshot_bytes facts;
  on_battery := on_battery facts; battery_percent := battery_percent facts;
  secure_boot_enabled := secure_boot_enabled facts; repositories := rs;
  held_packages := held; installed_packages := installed_packages facts;
  storage := storage facts; orphaned_packages := orphaned |}.

(** The report reads the lists of the facts as sets. *)
Lemma evaluate_preflight_ext facts policy rs held orphaned :
  (∀ r, r ∈ rs ↔ r ∈ repositories facts) →
  (∀ p, p ∈ held ↔ p ∈ held_packages facts) →
  (∀ p, p ∈ orphaned ↔ p ∈ orphaned_packages facts) →
  evaluate_preflight (with_lists facts rs held orphaned) policy
  = evaluate_preflight facts policy.
Proof.
  intros Hr Hh Ho. unfold evaluate_preflight. simpl.
  assert (∀ r, r ∈ enabled_repositories rs ↔ r ∈ enabled_repositories (repositories facts))
    as He by (intros r; by rewrite !enabled_repositories_elem, Hr).
  f_equal; apply sort_dedup_ext; try done.
  - intros i. rewrite !elem_of_app, !elem_of_concat_map. by setoid_rewrite He.
  - intros a. rewrite !list_elem_of_fmap. setoid_rewrite list_elem_of_In.
    setoid_rewrite filter_In. setoid_rewrite <-list_elem_of_In. by setoid_rewrite He.
Qed.

(* ------------------------------------------------------------------ *)
(** ** A concrete host *)

Definition sample_repository (a : string) : RepositoryFact := {|
  alias := a; enabled := true; official := true; metadata_valid := true;
  signing_key_trusted := true |}.
Definition sample_facts : HostFacts := {|
  release := sample_release; root_filesystem := "btrfs"; snapper_root_configured := true;
  rpm_database_healthy := true; package_lock_free := true;
  available_bytes := 20000000000; required_download_bytes := 500;
  required_transaction_bytes := 600; required_snapshot_bytes := 700;
  on_battery := true; battery_percent := Some 80%Z; secure_boot_enabled := Some true;
  repositories := [sample_repository "oss"; sample_repository "update"];
  held_packages := ["b"; "a"; "b"]; installed_packages := [];
  storage := Some {| root_writable := true; home_isolated := true;
    boot_available_bytes := 300000000; esp_available_bytes := Some 40000000%Z |};
  orphaned_packages := [] |}.

Lemma sample_sizes_ok : sizes_ok sample_facts default_policy.
Proof. unfold sizes_ok, is_u64, u64_max. simpl. lia. Qed.

Lemma preflight_blockers_exact_witness :
  report_required_bytes (evaluate_preflight sample_facts default_policy) = 1073743624%Z.
Proof.
  destruct (preflight_blockers_exact sample_facts default_policy sample_sizes_ok)
    as (_ & _ & ->). vm_compute. reflexivity.
Defined.

Lemma preflight_passed_iff_witness : host_ready sample_facts default_policy.
Proof.
  apply (preflight_passed_iff sample_facts default_policy sample_sizes_ok).
  vm_compute. reflexivity.
Defined.
