(* ===== verification/Solver.v ===== *)
(** * Solver policy (src/core/src/solver.rs)

    The changes the package solver proposes, the policy of a release on removals,
    vendor changes and packages that move together, and the evaluation of a
    solver result against the policy and the preflight of the host. *)

From S2P Require Import Prelude RustStr State Preflight.

Open Scope bool_scope.
Open Scope lyra_scope.

(* ------------------------------------------------------------------ *)
(** ** Data *)

Inductive PackageAction : Set := Install | Upgrade | Downgrade | Remove | Reinstall.

Record PackageChange := {
  change_name : string;
  change_architecture : string;
  action : PackageAction;
  current_version : option string;
  proposed_version : option string;
  current_vendor : option string;
  proposed_vendor : option string;
  repository_alias : option string;
  change_download_bytes : Z;
  installed_size_before : Z;
  installed_size_after : Z;
}.

Record SolverResult := {
  solver_schema_version : Z;
  successful : bool;
  problems : list string;
  solver_metadata_valid_repositories : list string;
  changes : list PackageChange;
  download_bytes : Z;
  transaction_size_increase : Z;
  estimated_snapshot_bytes : Z;
  solver_reboot_required : bool;
}.

Record VendorTransition := {
  from : string;
  to : string;
  (** [None] grants the pair of vendors, [Some] only the named packages. *)
  packages : option (list string);
}.

Record SolverPolicy := {
  allowed_removals : list string;
  allowed_vendor_transitions : list VendorTransition;
  lockstep_packages : list (list string);
}.

#[export] Instance PackageAction_eq_dec : EqDecision PackageAction.
Proof. solve_decision. Defined.
#[export] Instance PackageChange_eq_dec : EqDecision PackageChange.
Proof. solve_decision. Defined.

Definition action_index (a : PackageAction) : Z :=
  match a with Install => 0 | Upgrade => 1 | Downgrade => 2 | Remove => 3 | Reinstall => 4 end.
#[export] Instance ord_action : Ord PackageAction := ord_via action_index.
#[export] Instance action_index_inj : Inj (=) (=) action_index.
Proof. by intros [] []. Qed.
#[export] Instance ord_laws_action : OrdLaws PackageAction := ord_laws_via action_index.

(** The derived order of a change: its fields in declaration order. *)
Definition change_key (c : PackageChange) :=
  (change_name c, (change_architecture c, (action c, (current_version c,
    (proposed_version c, (current_vendor c, (proposed_vendor c, (repository_alias c,
      (change_download_bytes c, (installed_size_before c, installed_size_after c)))))))))).
#[export] Instance ord_change : Ord PackageChange := ord_via change_key.
#[export] Instance change_key_inj : Inj (=) (=) change_key.
Proof. intros [] [] [=]. simpl in *. congruence. Qed.
#[export] Instance ord_laws_change : OrdLaws PackageChange := ord_laws_via change_key.

(* ------------------------------------------------------------------ *)
(** ** Vendors *)

Definition valid_vendor (value : string) : bool :=
  negb (is_empty (trim value)) && (str_len value <=? 512)%Z
  && negb (list_any is_control (chars value)).

(** [valid_package] of src/core/src/manifest.rs. *)
Definition valid_package (value : string) : bool :=
  negb (is_empty value)
  && bytes_all (λ byte, is_ascii_alphanumeric byte || byte_in "+.-_" byte) value.

(** The checks of one rule that do not depend on the others. *)
Definition valid_rule (rule : VendorTransition) : bool :=
  if negb (valid_vendor (from rule)) || negb (valid_vendor (to rule)) then false
  else
    match packages rule with
    | Some ps =>
        let unique : gset string := list_to_set ps in
        if match ps with [] => true | _ => false end
           || negb (size unique =? length ps)%nat
           || list_any (λ name, negb (valid_package name)) ps
        then false else true
    | None => true
    end.

(** [rules.iter().all(...)] with the map of the pairs seen so far. *)
Fixpoint valid_rules_from (pairs : gmap (string * string) bool)
    (rules : list VendorTransition) : bool :=
  match rules with
  | [] => true
  | rule :: rules' =>
      if negb (valid_rule rule) then false
      else
        let scoped := is_some (packages rule) in
        is_none_or (pairs !! (from rule, to rule)) (λ previous, previous ==? scoped)
        && valid_rules_from (<[(from rule, to rule) := scoped]> pairs) rules'
  end.
Definition valid_vendor_transitions (rules : list VendorTransition) : bool :=
  valid_rules_from ∅ rules.

Definition change_permitted (valid_rules : bool) (policy : SolverPolicy)
    (change : PackageChange) : bool :=
  let from_v := opt_filter valid_vendor (current_vendor change) in
  let to_v := opt_filter valid_vendor (proposed_vendor change) in
  match action change with
  | Install => is_none from_v && is_none (current_vendor change) && is_some to_v
  | Remove => is_some from_v && is_none (proposed_vendor change)
  | _ =>
      match from_v, to_v with
      | Some f, Some t =>
          (f ==? t)
          || (valid_rules
              && list_any (λ allowed,
                   (from allowed ==? f) && (to allowed ==? t)
                   && is_none_or (packages allowed)
                        (λ ps, contains ps (change_name change)))
                 (allowed_vendor_transitions policy))
      | _, _ => false
      end
  end.

Definition vendor_policy_blockers (changes : list PackageChange) (policy : SolverPolicy)
  : list PreflightIssue :=
  let valid_rules := valid_vendor_transitions (allowed_vendor_transitions policy) in
  omap (λ change,
    if negb (change_permitted valid_rules policy change)
    then Some (UnauthorizedVendorChange (change_name change)) else None) changes.

(* ------------------------------------------------------------------ *)
(** ** Evaluation *)

(** The facts with what the solver measured. *)
Definition with_metadata (valid : gset string) (r : RepositoryFact) : RepositoryFact :=
  if enabled r then {|
    alias := alias r; enabled := enabled r; official := official r;
    metadata_valid := bool_decide (alias r ∈ valid);
    signing_key_trusted := signing_key_trusted r |}
  else r.

Definition enrich (facts : HostFacts) (solver : SolverResult) : HostFacts := {|
  release := release facts; root_filesystem := root_filesystem facts;
  snapper_root_configured := snapper_root_configured facts;
  rpm_database_healthy := rpm_database_healthy facts;
  package_lock_free := package_lock_free facts; available_bytes := available_bytes facts;
  required_download_bytes := download_bytes solver;
  required_transaction_bytes := transaction_size_increase solver;
  required_snapshot_bytes := estimated_snapshot_bytes solver;
  on_battery := on_battery facts; battery_percent := battery_percent facts;
  secure_boot_enabled := secure_boot_enabled facts;
  repositories :=
    map (with_metadata (list_to_set (solver_metadata_valid_repositories solver)))
      (repositories facts);
  held_packages := held_packages facts; installed_packages := installed_packages facts;
  storage := storage facts; orphaned_packages := orphaned_packages facts |}.

Definition change_blockers (policy : SolverPolicy) (change : PackageChange)
  : list PreflightIssue :=
  push_if (action change ==? Downgrade) (UnauthorizedDowngrade (change_name change))
  ++ push_if ((action change ==? Remove)
              && negb (contains (allowed_removals policy) (change_name change)))
       (UnauthorizedRemoval (change_name change)).

Definition lockstep_blockers (changes : list PackageChange) (group : list string)
  : list PreflightIssue :=
  let changed :=
    List.filter (λ package, list_any (λ change, change_name change ==? package) changes) group in
  push_if (match changed with [] => false | _ => true end
           && negb (length changed =? length group)%nat) LockstepViolation.

Definition with_blockers (report : PreflightReport) (l : list PreflightIssue)
  : PreflightReport := {|
  report_required_bytes := report_required_bytes report;
  report_available_bytes := report_available_bytes report; blockers := l;
  third_party_repositories := third_party_repositories report;
  report_held_packages := report_held_packages report;
  report_orphaned_packages := report_orphaned_packages report |}.

Definition evaluate_solver_preflight (facts : HostFacts)
    (preflight_policy : PreflightPolicy) (solver : SolverResult)
    (solver_policy : SolverPolicy) : PreflightReport :=
  let report := evaluate_preflight (enrich facts solver) preflight_policy in
  with_blockers report (dedup (sort
    (blockers report
     ++ push_if (negb (solver_schema_version solver =? 1)%Z) UnsupportedSolverSchema
     ++ push_if (negb (successful solver)
                 || match problems solver with [] => false | _ => true end) SolverFailed
     ++ concat (map (change_blockers solver_policy) (changes solver))
     ++ vendor_policy_blockers (changes solver) solver_policy
     ++ concat (map (lockstep_blockers (changes solver)) (lockstep_packages solver_policy))))).

(* ------------------------------------------------------------------ *)
(** ** Rules *)

Lemma size_insert_set (x : string) (X : gset string) :
  size ({[x]} ∪ X) = if decide (x ∈ X) then size X else S (size X).
Proof.
  destruct (decide (x ∈ X)) as [Hx|Hx].
  - f_equal. apply leibniz_equiv. set_solver.
  - rewrite size_union by set_solver. by rewrite size_singleton.
Qed.

Lemma size_list_to_set_le (l : list string) :
  size (list_to_set l : gset string) ≤ length l.
Proof.
  induction l as [|x l IH]; [done|]. rewrite list_to_set_cons, size_insert_set.
  simpl. destruct (decide _); lia.
Qed.

Lemma size_list_to_set_NoDup (l : list string) :
  size (list_to_set l : gset string) = length l ↔ NoDup l.
Proof.
  split; [|apply size_list_to_set].
  induction l as [|x l IH]; [constructor|]. rewrite list_to_set_cons, size_insert_set.
  pose proof (size_list_to_set_le l). simpl. destruct (decide _) as [Hx|Hx]; [lia|].
  intros [= Hl]. constructor; [|by apply IH]. by rewrite elem_of_list_to_set in Hx.
Qed.

(** A rule names two known vendors and, when it is restricted, a non-empty list
    of distinct package names. *)
Definition rule_ok (rule : VendorTransition) : Prop :=
  valid_vendor (from rule) = true ∧ valid_vendor (to rule) = true
  ∧ ∀ ps, packages rule = Some ps →
      ps ≠ [] ∧ NoDup ps ∧ ∀ name, name ∈ ps → valid_package name = true.

Lemma valid_rule_ok rule : valid_rule rule = true ↔ rule_ok rule.
Proof.
  unfold valid_rule, rule_ok.
  destruct (valid_vendor (from rule)); simpl; [|intuition congruence].
  destruct (valid_vendor (to rule)); simpl; [|intuition congruence].
  destruct (packages rule) as [ps|].
  2: { split; [|done]. by repeat split. }
  destruct ps as [|p ps]; simpl.
  { split; [done|]. intros (_ & _ & H). by destruct (H [] eq_refl). }
  set (l := p :: ps). change (S (length ps)) with (length l).
  change ({[p]} ∪ list_to_set ps) with (list_to_set l : gset string).
  destruct (Nat.eqb_spec (size (list_to_set l : gset string)) (length l)) as [Hs|Hs]; simpl;
    rewrite size_list_to_set_NoDup in Hs.
  - destruct (list_any _ _) eqn:Ha.
    + split; [done|]. intros (_ & _ & H). destruct (H l eq_refl) as (_ & _ & Hv).
      apply list_any_true in Ha as (n & Hn & Hb). by rewrite (Hv n Hn) in Hb.
    + split; [|done]. intros _. split; [done|]. split; [done|]. intros ? [= <-].
      split; [done|]. split; [done|]. intros n Hn. rewrite list_any_false in Ha.
      by apply negb_false_iff, Ha.
  - split; [done|]. intros (_ & _ & H). by destruct (H l eq_refl) as (_ & ? & _).
Qed.

(** Rules that may be used: each is well formed, and no pair of vendors is
    granted both as a whole and for some packages only. *)
Definition rules_ok (rules : list VendorTransition) : Prop :=
  (∀ r, r ∈ rules → rule_ok r)
  ∧ (∀ r r', r ∈ rules → r' ∈ rules → from r = from r' → to r = to r' →
       is_some (packages r) = is_some (packages r')).

Lemma valid_rules_from_spec pairs rules :
  valid_rules_from pairs rules = true ↔
    rules_ok rules
    ∧ (∀ r b, r ∈ rules → pairs !! (from r, to r) = Some b → b = is_some (packages r)).
Proof.
  revert pairs. induction rules as [|rule rules IH]; intros pairs; simpl.
  { split; [|done]. intros _. split; [|set_solver]. split; set_solver. }
  destruct (valid_rule rule) eqn:Hv; simpl.
  2: { split; [done|]. intros [[H _] _]. specialize (H rule ltac:(left)).
       apply valid_rule_ok in H. congruence. }
  apply valid_rule_ok in Hv. rewrite andb_true_iff, is_none_or_true, IH.
  setoid_rewrite eqb_true. split.
  - intros (Hp & [Hok Hcons] & Hpairs).
    assert (∀ r, r ∈ rules → from r = from rule → to r = to rule →
      is_some (packages r) = is_some (packages rule)) as Hr.
    { intros r Hr E1 E2. symmetry. apply Hpairs; [done|]. rewrite E1, E2. apply lookup_insert_eq. }
    split; [split|].
    + intros r [->|Hin]%elem_of_cons; auto.
    + intros r r' [->|H1]%elem_of_cons [->|H2]%elem_of_cons E1 E2; eauto.
      symmetry. by apply Hr.
    + intros r b [->|Hin]%elem_of_cons Hb; [by apply Hp|].
      destruct (decide ((from rule, to rule) = (from r, to r))) as [[= E1 E2]|Hne].
      * rewrite Hr by done. apply Hp. by rewrite E1, E2.
      * apply Hpairs; [done|]. by rewrite lookup_insert_ne.
  - intros ([Hok Hcons] & Hpairs). split; [|split; [split|]].
    + intros b. apply Hpairs. left.
    + intros r Hr. apply Hok. by right.
    + intros r r' H1 H2. apply Hcons; by right.
    + intros r b Hr. destruct (decide ((from rule, to rule) = (from r, to r))) as [E|Hne].
      * rewrite E, lookup_insert_eq. intros [= <-]. injection E as E1 E2.
        apply Hcons; [left|by right|done..].
      * rewrite lookup_insert_ne by done. apply Hpairs. by right.
Qed.

Lemma valid_vendor_transitions_ok rules :
  valid_vendor_transitions rules = true ↔ rules_ok rules.
Proof.
  unfold valid_vendor_transitions. rewrite valid_rules_from_spec. split; [by intros []|].
  intros H. split; [done|]. intros r b _. by rewrite lookup_empty.
Qed.

(* ------------------------------------------------------------------ *)
(** ** Vendor changes *)

(** The vendor identities a change may have under a policy. *)
Definition vendor_permitted (policy : SolverPolicy) (c : PackageChange) : Prop :=
  match action c with
  | Install =>
      current_vendor c = None ∧ ∃ t, proposed_vendor c = Some t ∧ valid_vendor t = true
  | Remove =>
      proposed_vendor c = None ∧ ∃ f, current_vendor c = Some f ∧ valid_vendor f = true
  | _ =>
      ∃ f t, current_vendor c = Some f ∧ proposed_vendor c = Some t
        ∧ valid_vendor f = true ∧ valid_vendor t = true
        ∧ (f = t
           ∨ rules_ok (allowed_vendor_transitions policy)
             ∧ ∃ rule, rule ∈ allowed_vendor_transitions policy
                 ∧ from rule = f ∧ to rule = t
                 ∧ ∀ ps, packages rule = Some ps → change_name c ∈ ps)
  end.

Lemma opt_filter_is_none {A} (p : A → bool) (o : option A) :
  is_none (opt_filter p o) = true ↔ ∀ a, o = Some a → p a = false.
Proof.
  rewrite is_none_true. split.
  - intros H a ->. simpl in H. by destruct (p a).
  - intros H. destruct o as [a|]; [|done]. simpl. by rewrite (H a eq_refl).
Qed.

Lemma opt_filter_is_some {A} (p : A → bool) (o : option A) :
  is_some (opt_filter p o) = true ↔ ∃ a, o = Some a ∧ p a = true.
Proof. rewrite is_some_true. by setoid_rewrite opt_filter_Some. Qed.

Lemma granted_spec rules name f t :
  valid_vendor_transitions rules
    && list_any (λ allowed, (from allowed ==? f) && (to allowed ==? t)
         && is_none_or (packages allowed) (λ ps, contains ps name)) rules = true ↔
  rules_ok rules ∧ ∃ rule, rule ∈ rules ∧ from rule = f ∧ to rule = t
    ∧ ∀ ps, packages rule = Some ps → name ∈ ps.
Proof.
  rewrite andb_true_iff, valid_vendor_transitions_ok, list_any_true.
  repeat setoid_rewrite andb_true_iff. repeat setoid_rewrite eqb_true.
  setoid_rewrite is_none_or_true. setoid_rewrite contains_true. naive_solver.
Qed.

Lemma change_permitted_spec policy c :
  change_permitted (valid_vendor_transitions (allowed_vendor_transitions policy)) policy c
    = true ↔ vendor_permitted policy c.
Proof.
  unfold change_permitted, vendor_permitted.
  assert (match opt_filter valid_vendor (current_vendor c),
                opt_filter valid_vendor (proposed_vendor c) with
          | Some f, Some t => (f ==? t) || (valid_vendor_transitions
              (allowed_vendor_transitions policy)
              && list_any (λ allowed, (from allowed ==? f) && (to allowed ==? t)
                   && is_none_or (packages allowed) (λ ps, contains ps (change_name c)))
                 (allowed_vendor_transitions policy))
          | _, _ => false end = true ↔
    ∃ f t, current_vendor c = Some f ∧ proposed_vendor c = Some t
      ∧ valid_vendor f = true ∧ valid_vendor t = true
      ∧ (f = t ∨ rules_ok (allowed_vendor_transitions policy)
         ∧ ∃ rule, rule ∈ allowed_vendor_transitions policy ∧ from rule = f ∧ to rule = t
             ∧ ∀ ps, packages rule = Some ps → change_name c ∈ ps)) as Hother.
  { destruct (current_vendor c) as [f|]; simpl; [|naive_solver].
    destruct (valid_vendor f) eqn:Hf; [|naive_solver].
    destruct (proposed_vendor c) as [t|]; simpl; [|naive_solver].
    destruct (valid_vendor t) eqn:Ht; [|naive_solver].
    rewrite orb_true_iff, eqb_true, granted_spec. naive_solver. }
  destruct (action c); [|exact Hother|exact Hother| |exact Hother].
  - rewrite !andb_true_iff, opt_filter_is_some, opt_filter_is_none, is_none_true.
    naive_solver.
  - rewrite andb_true_iff, opt_filter_is_some, is_none_true. naive_solver.
Qed.

Lemma vendor_blockers_elem changes policy i :
  i ∈ vendor_policy_blockers changes policy ↔
    ∃ c, c ∈ changes ∧ ¬ vendor_permitted policy c
         ∧ i = UnauthorizedVendorChange (change_name c).
Proof.
  unfold vendor_policy_blockers. rewrite list_elem_of_omap. split.
  - intros (c & Hc & H). destruct (change_permitted _ _ c) eqn:Hp; [done|].
    injection H as <-. exists c. split; [done|]. split; [|done].
    rewrite <-change_permitted_spec. by rewrite Hp.
  - intros (c & Hc & Hn & ->). exists c. split; [done|].
    rewrite <-change_permitted_spec in Hn. by destruct (change_permitted _ _ c).
Qed.

(* ------------------------------------------------------------------ *)
(** ** Lockstep groups *)

Definition changed (cs : list PackageChange) (p : string) : Prop :=
  ∃ c, c ∈ cs ∧ change_name c = p.

Lemma filter_length_all {A} (p : A → bool) l :
  length (List.filter p l) = length l ↔ ∀ x, x ∈ l → p x = true.
Proof.
  induction l as [|x l IH]; simpl; [set_solver|].
  pose proof (filter_length_le p l).
  destruct (p x) eqn:Hx; simpl; split.
  - intros [= Hl] y [->|Hy]%elem_of_cons; [done|]. by apply IH.
  - intros Ha. f_equal. apply IH. intros y Hy. apply Ha. by right.
  - lia.
  - intros Ha. rewrite (Ha x) in Hx by left. done.
Qed.

Lemma filter_nil_none {A} (p : A → bool) l :
  List.filter p l = [] ↔ ∀ x, x ∈ l → p x = false.
Proof.
  induction l as [|x l IH]; simpl; [set_solver|].
  destruct (p x) eqn:Hx; split.
  - done.
  - intros Ha. rewrite (Ha x) in Hx by left. done.
  - intros Hl y [->|Hy]%elem_of_cons; [done|]. by apply IH.
  - intros Ha. apply IH. intros y Hy. apply Ha. by right.
Qed.

Lemma lockstep_blockers_nil cs group :
  lockstep_blockers cs group = [] ↔
    (∀ p, p ∈ group → changed cs p) ∨ (∀ p, p ∈ group → ¬ changed cs p).
Proof.
  unfold lockstep_blockers.
  rewrite push_if_nil, andb_false_iff, negb_false_iff, Nat.eqb_eq, filter_length_all.
  set (f := λ package, list_any _ cs).
  assert (∀ p, f p = true ↔ changed cs p) as Hf.
  { intros p. unfold f, changed. rewrite list_any_true. by setoid_rewrite eqb_true. }
  setoid_rewrite <-Hf. setoid_rewrite not_true_iff_false. rewrite <-filter_nil_none.
  destruct (List.filter f group); intuition congruence.
Qed.

(* ------------------------------------------------------------------ *)
(** ** Acceptance *)

(** What the transaction of a solver must satisfy to be planned. *)
Record solver_accepts (facts : HostFacts) (preflight : PreflightPolicy)
    (solver : SolverResult) (policy : SolverPolicy) : Prop := {
  accepts_host : host_ready (enrich facts solver) preflight;
  accepts_schema : solver_schema_version solver = 1%Z;
  accepts_solution : successful solver = true ∧ problems solver = [];
  accepts_changes : ∀ c, c ∈ changes solver →
    action c ≠ Downgrade
    ∧ (action c = Remove → change_name c ∈ allowed_removals policy)
    ∧ vendor_permitted policy c;
  accepts_lockstep : ∀ group, group ∈ lockstep_packages policy →
    (∀ p, p ∈ group → changed (changes solver) p)
    ∨ (∀ p, p ∈ group → ¬ changed (changes solver) p);
}.

Lemma enrich_sizes_ok facts preflight solver :
  is_u64 (download_bytes solver) → is_u64 (transaction_size_increase solver) →
  is_u64 (estimated_snapshot_bytes solver) → is_u64 (free_space_margin_bytes preflight) →
  sizes_ok (enrich facts solver) preflight.
Proof. intros H1 H2 H3 H4. exact (conj H1 (conj H2 (conj H3 H4))). Qed.

Lemma change_blockers_nil policy c :
  change_blockers policy c = [] ↔
    action c ≠ Downgrade ∧ (action c = Remove → change_name c ∈ allowed_removals policy).
Proof.
  unfold change_blockers.
  rewrite app_nil_iff, !push_if_nil, andb_false_iff, !eqb_false, negb_false_iff, contains_true.
  destruct (decide (action c = Remove)); intuition congruence.
Qed.

Lemma vendor_blockers_nil changes policy :
  vendor_policy_blockers changes policy = [] ↔
    ∀ c, c ∈ changes → vendor_permitted policy c.
Proof.
  rewrite no_elem_nil. setoid_rewrite vendor_blockers_elem. split; [|naive_solver].
  intros H c Hc. rewrite <-change_permitted_spec.
  destruct (change_permitted _ _ c) eqn:E; [done|]. exfalso.
  apply (H (UnauthorizedVendorChange (change_name c))). exists c. split; [done|].
  split; [|done]. rewrite <-change_permitted_spec. by rewrite E.
Qed.

(** A solver result passes exactly when the host, with the sizes and the
    repository metadata the solver reports, is ready; the result has the known
    schema, succeeded and has no problem; no package is downgraded; only allowed
    packages are removed; every change keeps its vendor or follows a rule of a
    coherent vendor policy; and every lockstep group moves as a whole or not at
    all. *)
Theorem solver_passed_iff facts preflight solver policy :
  sizes_ok (enrich facts solver) preflight →
  passed (evaluate_solver_preflight facts preflight solver policy) = true ↔
    solver_accepts facts preflight solver policy.
Proof.
  intros Hsz. rewrite passed_true. unfold evaluate_solver_preflight, with_blockers.
  cbv zeta. cbn [blockers]. rewrite sort_dedup_nil.
  rewrite !app_nil_iff, !push_if_nil, evaluate_blockers_nil by done.
  rewrite !concat_map_nil, vendor_blockers_nil, negb_false_iff, Z.eqb_eq, orb_false_iff,
    negb_false_iff.
  setoid_rewrite change_blockers_nil. setoid_rewrite lockstep_blockers_nil.
  assert (match problems solver with [] => false | _ => true end = false ↔
          problems solver = []) as -> by by destruct (problems solver).
  split.
  - intros (Hh & Hs & Hp & Hc & Hv & Hl). split; try done.
    intros c Hin. destruct (Hc c Hin). by repeat split; auto.
  - intros [Hh Hs Hp Hc Hl]. split; [done|]. split; [done|]. split; [done|].
    split; [by intros c Hin; destruct (Hc c Hin) as (? & ? & _)|].
    split; [by intros c Hin; apply Hc|done].
Qed.

(* ------------------------------------------------------------------ *)
(** ** A concrete solution *)

Definition sample_change (name : string) (a : PackageAction) : PackageChange := {|
  change_name := name; change_architecture := "x86_64"; action := a;
  current_version := Some "1"; proposed_version := Some "2";
  current_vendor := Some "Lyra"; proposed_vendor := Some "Lyra";
  repository_alias := Some "oss"; change_download_bytes := 10;
  installed_size_before := 1; installed_size_after := 2 |}.
Definition sample_solver : SolverResult := {|
  solver_schema_version := 1; successful := true; problems := [];
  solver_metadata_valid_repositories := ["oss"; "update"];
  changes := [sample_change "kernel-default" Upgrade; sample_change "bash" Upgrade];
  download_bytes := 10; transaction_size_increase := 20; estimated_snapshot_bytes := 30;
  solver_reboot_required := false |}.
Definition sample_policy : SolverPolicy := {|
  allowed_removals := []; lockstep_packages := [["kernel-default"; "bash"]];
  allowed_vendor_transitions :=
    [{| from := "openSUSE"; to := "Lyra"; packages := Some ["bash"] |}] |}.

Lemma solver_passed_iff_witness :
  solver_accepts sample_facts default_policy sample_solver sample_policy.
Proof.
  apply (solver_passed_iff sample_facts default_policy sample_solver sample_policy).
  - unfold sizes_ok, is_u64, u64_max. simpl. lia.
  - vm_compute. reflexivity.
Defined.
