(* ===== verification/Plan.v ===== *)
(** * The reviewed plan (src/core/src/preflight.rs, UpgradePlan and build_plan)

    The plan an operation confirms, the admission checks of [build_plan], the
    canonical form of its lists, and its digest over the parameters [to_vec]
    (the JSON serializer) and [digest] (SHA-256 in hexadecimal). *)

From S2P Require Import Prelude RustStr Recovery State Fs Persistence Preflight Solver.

Open Scope bool_scope.
Open Scope lyra_scope.

(* ------------------------------------------------------------------ *)
(** ** Data *)

Definition PLAN_SCHEMA_VERSION : Z := 3.

Record UpgradePlan := {
  plan_schema_version : Z;
  plan_operation : OperationKind;
  plan_source : ReleaseIdentity;
  plan_target : option ReleaseIdentity;
  plan_manifest_sha256 : option string;
  plan_required_bytes : Z;
  plan_facts : gmap string string;
  plan_repositories : list RepositoryFact;
  metadata_valid_repositories : list string;
  plan_third_party_repositories : list string;
  plan_held_packages : list string;
  plan_installed_packages : list InstalledPackage;
  plan_orphaned_packages : list string;
  package_changes : list PackageChange;
  reboot_required : bool;
}.

Inductive PlanError : Set :=
  | Plan_Blocked (issues : list PreflightIssue)
  | TargetRequired | ManifestRequired | TargetNotAllowed.

#[export] Instance UpgradePlan_eq_dec : EqDecision UpgradePlan.
Proof. solve_decision. Defined.
#[export] Instance PlanError_eq_dec : EqDecision PlanError.
Proof. solve_decision. Defined.

(* ------------------------------------------------------------------ *)
(** ** Construction *)

Definition plan_is_sha256 (value : string) : bool :=
  (str_len value =? 64)%Z && bytes_all lower_hex value.

(** The checks on the target and the manifest of a plan. *)
Definition check_target (operation : OperationKind) (release : ReleaseIdentity)
    (target : option ReleaseIdentity) (manifest_sha256 : option string)
  : result PlanError unit :=
  if is_signed_offline operation then
    target_release ← ok_or TargetRequired target;
    if (edition target_release !=? edition release)
       || (architecture target_release !=? architecture release)
       || ((operation ==? ReleaseUpgrade) && (version target_release ==? version release))
       || ((operation ==? PackageMigration) && (target_release !=? release))
    then Err TargetNotAllowed
    else if is_none_or manifest_sha256 (λ hash, negb (plan_is_sha256 hash))
    then Err ManifestRequired
    else Ok ()
  else if is_some target || is_some manifest_sha256 then Err TargetNotAllowed
  else Ok ().

Definition secure_boot_text (o : option bool) : string :=
  match o with Some true => "true" | Some false => "false" | None => "unknown" end.

Definition build_plan (operation : OperationKind) (facts : HostFacts)
    (report : PreflightReport) (target : option ReleaseIdentity)
    (manifest_sha256 : option string) (solver : SolverResult)
  : result PlanError UpgradePlan :=
  if negb (passed report) then Err (Plan_Blocked (blockers report))
  else
    _ ← check_target operation (release facts) target manifest_sha256;
    Ok {|
      plan_schema_version := PLAN_SCHEMA_VERSION;
      plan_operation := operation;
      plan_source := release facts;
      plan_target := target;
      plan_manifest_sha256 := manifest_sha256;
      plan_required_bytes := report_required_bytes report;
      plan_facts :=
        <["root_filesystem" := root_filesystem facts]>
          (<["secure_boot" := secure_boot_text (secure_boot_enabled facts)]> ∅);
      plan_repositories := sort_by_key alias (repositories facts);
      metadata_valid_repositories :=
        dedup (sort (solver_metadata_valid_repositories solver));
      plan_third_party_repositories := third_party_repositories report;
      plan_held_packages := report_held_packages report;
      plan_installed_packages := sort (installed_packages facts);
      plan_orphaned_packages := report_orphaned_packages report;
      package_changes := sort (changes solver);
      reboot_required := solver_reboot_required solver || is_signed_offline operation |}.

Section digest.
Context {E : Type} (to_vec : UpgradePlan → result E string) (digest : string → string).

Definition canonical_json (self : UpgradePlan) : result E string := to_vec self.
Definition sha256 (self : UpgradePlan) : result E string :=
  text ← canonical_json self; Ok (digest text).
End digest.

(* ------------------------------------------------------------------ *)
(** ** Admission *)

(** The targets and manifests each kind of operation may have. *)
Definition target_allowed (operation : OperationKind) (release : ReleaseIdentity)
    (target : option ReleaseIdentity) (manifest_sha256 : option string) : Prop :=
  match operation with
  | UpdateWithinRelease => target = None ∧ manifest_sha256 = None
  | ReleaseUpgrade =>
      ∃ t h, target = Some t ∧ manifest_sha256 = Some h ∧ plan_is_sha256 h = true
        ∧ edition t = edition release ∧ architecture t = architecture release
        ∧ version t ≠ version release
  | PackageMigration =>
      ∃ h, target = Some release ∧ manifest_sha256 = Some h ∧ plan_is_sha256 h = true
  end.

Ltac refute :=
  let H := fresh in
  split; [discriminate|];
  intros H; repeat match type of H with
                   | ex _ => destruct H as [? H]
                   | _ ∧ _ => let H' := fresh in destruct H as [H' H]
                   end; simplify_eq; congruence.

Lemma check_target_Ok operation release target manifest u :
  check_target operation release target manifest = Ok u ↔
    target_allowed operation release target manifest.
Proof.
  unfold check_target, target_allowed. destruct u, operation; simpl.
  - destruct target, manifest; simpl; intuition congruence.
  - destruct target as [t|]; simpl; [|refute].
    destruct (eqb (edition t) _) eqn:E1; simpl; tests; [|refute].
    destruct (eqb (architecture t) _) eqn:E2; simpl; tests; [|refute].
    destruct (eqb (version t) _) eqn:E3; simpl; tests; [refute|].
    destruct manifest as [h|]; simpl; [|refute].
    destruct (plan_is_sha256 h) eqn:Hh; simpl; [|refute]. split; [eauto 10|done].
  - destruct target as [t|]; simpl; [|refute].
    destruct (eqb (edition t) _) eqn:E1; simpl; tests; [|refute].
    destruct (eqb (architecture t) _) eqn:E2; simpl; tests; [|refute].
    destruct (eqb t release) eqn:E3; simpl; tests; [subst|refute].
    destruct manifest as [h|]; simpl; [|refute].
    destruct (plan_is_sha256 h) eqn:Hh; simpl; [|refute]. split; [eauto 10|done].
Qed.

(* ------------------------------------------------------------------ *)
(** ** The plan does not depend on the order of its inputs *)

(** The same host and the same solution, listed in another order. *)
Definition relist (facts : HostFacts) (rs : list RepositoryFact)
    (held orphaned : list string) (pkgs : list InstalledPackage) : HostFacts := {|
  release := release facts; root_filesystem := root_filesystem facts;
  snapper_root_configured := snapper_root_configured facts;
  rpm_database_healthy := rpm_database_healthy facts;
  package_lock_free := package_lock_free facts; available_bytes := available_bytes facts;
  required_download_bytes := required_download_bytes facts;
  required_transaction_bytes := required_transaction_bytes facts;
  required_snapshot_bytes := required_snapshot_bytes facts;
  on_battery := on_battery facts; battery_percent := battery_percent facts;
  secure_boot_enabled := secure_boot_enabled facts; repositories := rs;
  held_packages := held; installed_packages := pkgs;
  storage := storage facts; orphaned_packages := orphaned |}.

Definition resolve (solver : SolverResult) (valid : list string)
    (cs : list PackageChange) : SolverResult := {|
  solver_schema_version := solver_schema_version solver;
  successful := successful solver; problems := problems solver;
  solver_metadata_valid_repositories := valid; changes := cs;
  download_bytes := download_bytes solver;
  transaction_size_increase := transaction_size_increase solver;
  estimated_snapshot_bytes := estimated_snapshot_bytes solver;
  solver_reboot_required := solver_reboot_required solver |}.

Lemma list_any_ext {A} (p : A → bool) l l' :
  (∀ x, x ∈ l ↔ x ∈ l') → list_any p l = list_any p l'.
Proof.
  intros H. apply eq_true_iff_eq. rewrite !list_any_true. by setoid_rewrite H.
Qed.

Lemma lockstep_blockers_ext cs cs' group :
  (∀ c, c ∈ cs ↔ c ∈ cs') → lockstep_blockers cs group = lockstep_blockers cs' group.
Proof.
  intros H. unfold lockstep_blockers. cbv zeta.
  assert (List.filter (λ p, list_any (λ c, change_name c ==? p) cs) group
          = List.filter (λ p, list_any (λ c, change_name c ==? p) cs') group) as ->; [|done].
  apply List.filter_ext. intros p. by apply list_any_ext.
Qed.

Lemma vendor_blockers_ext cs cs' policy i :
  (∀ c, c ∈ cs ↔ c ∈ cs') →
  i ∈ vendor_policy_blockers cs policy ↔ i ∈ vendor_policy_blockers cs' policy.
Proof. intros H. rewrite !vendor_blockers_elem. by setoid_rewrite H. Qed.

Lemma evaluate_solver_ext facts pre solver policy rs held orphaned pkgs valid cs :
  (∀ r, r ∈ rs ↔ r ∈ repositories facts) →
  (∀ p, p ∈ held ↔ p ∈ held_packages facts) →
  (∀ p, p ∈ orphaned ↔ p ∈ orphaned_packages facts) →
  (∀ a, a ∈ valid ↔ a ∈ solver_metadata_valid_repositories solver) →
  (∀ c, c ∈ cs ↔ c ∈ changes solver) →
  evaluate_solver_preflight (relist facts rs held orphaned pkgs) pre
    (resolve solver valid cs) policy
  = evaluate_solver_preflight facts pre solver policy.
Proof.
  intros Hr Hh Ho Hv Hc. unfold evaluate_solver_preflight. cbv zeta.
  assert (evaluate_preflight (enrich (relist facts rs held orphaned pkgs)
            (resolve solver valid cs)) pre
          = evaluate_preflight (enrich facts solver) pre) as ->.
  { rewrite <-(evaluate_preflight_ext (enrich facts solver) pre
      (map (with_metadata (list_to_set (solver_metadata_valid_repositories solver))) rs)
      held orphaned).
    - assert ((list_to_set valid : gset string)
        = list_to_set (solver_metadata_valid_repositories solver)) as Hs.
      { apply leibniz_equiv. intros a. by rewrite !elem_of_list_to_set. }
      unfold evaluate_preflight, enrich, with_lists, relist, resolve. simpl. by rewrite Hs.
    - intros r. simpl. rewrite !list_elem_of_fmap. by setoid_rewrite Hr.
    - done.
    - done. }
  simpl changes. unfold with_blockers. f_equal. apply sort_dedup_ext. intros i.
  rewrite !elem_of_app, !elem_of_concat_map. setoid_rewrite Hc.
  rewrite (vendor_blockers_ext cs (changes solver)) by done.
  by setoid_rewrite (lockstep_blockers_ext cs (changes solver)); [|done].
Qed.

(** The reviewed plan is a function of what was found, not of the order in
    which the probes and the solver listed it: with distinct repository aliases,
    reordering the repositories, the installed, held and orphaned packages, the
    repositories with valid metadata and the package changes leaves the result
    of evaluating and building the plan, and with it the digest that is
    confirmed, unchanged. *)
Theorem plan_order_irrelevant operation facts pre solver policy target manifest
    rs held orphaned pkgs valid cs :
  NoDup (map alias (repositories facts)) →
  rs ≡ₚ repositories facts → held ≡ₚ held_packages facts →
  orphaned ≡ₚ orphaned_packages facts → pkgs ≡ₚ installed_packages facts →
  valid ≡ₚ solver_metadata_valid_repositories solver → cs ≡ₚ changes solver →
  let facts' := relist facts rs held orphaned pkgs in
  let solver' := resolve solver valid cs in
  build_plan operation facts' (evaluate_solver_preflight facts' pre solver' policy)
    target manifest solver'
  = build_plan operation facts (evaluate_solver_preflight facts pre solver policy)
      target manifest solver.
Proof.
  intros Hnd Hr Hh Ho Hp Hv Hc. cbv zeta.
  rewrite evaluate_solver_ext;
    [|by intros; rewrite ?Hr, ?Hh, ?Ho, ?Hv, ?Hc..].
  unfold build_plan. simpl.
  rewrite (sort_unique pkgs (installed_packages facts)) by done.
  rewrite (sort_unique cs (changes solver)) by done.
  rewrite (sort_unique valid (solver_metadata_valid_repositories solver)) by done.
  rewrite (sort_by_key_unique alias rs (repositories facts)); [done| |done].
  intros x y Hx Hy E. rewrite Hr in Hx, Hy.
  apply list_elem_of_lookup in Hx as [i Hi], Hy as [j Hj].
  assert (i = j) as ->; [|congruence].
  eapply NoDup_lookup; [exact Hnd| |];
    (rewrite list_lookup_fmap; rewrite ?Hi, ?Hj; simpl; by rewrite ?E).
Qed.

(** A plan is built exactly when nothing blocks the host and the solution, and
    the target and manifest fit the kind of the operation: none for an update,
    another version of the same edition and architecture with a manifest digest
    for a release upgrade, the very same release with a manifest digest for a
    package migration. A plan then holds, in canonical order, exactly the
    packages and changes it was built from. *)
Theorem build_plan_spec operation facts report target manifest solver :
  ((∃ plan, build_plan operation facts report target manifest solver = Ok plan) ↔
   passed report = true ∧ target_allowed operation (release facts) target manifest)
  ∧ ∀ plan, build_plan operation facts report target manifest solver = Ok plan →
      plan_target plan = target ∧ plan_manifest_sha256 plan = manifest
      ∧ package_changes plan ≡ₚ changes solver
      ∧ StronglySorted (λ c c', le_of c c' = true) (package_changes plan)
      ∧ plan_installed_packages plan ≡ₚ installed_packages facts
      ∧ StronglySorted (λ p p', le_of p p' = true) (plan_installed_packages plan)
      ∧ (is_signed_offline operation = true → reboot_required plan = true).
Proof.
  unfold build_plan. split.
  - destruct (passed report); simpl; [|split; [by intros []|by intros []]]. split.
    + intros [plan H]. apply bind_Ok in H as (u & H & _). by apply check_target_Ok in H.
    + intros [_ H]. rewrite (proj2 (check_target_Ok _ _ _ _ ()) H). simpl. eauto.
  - intros plan H. destruct (negb (passed report)); [done|].
    apply bind_Ok in H as (u & _ & H). injection H as <-. simpl.
    repeat split; try apply sort_perm; try apply sort_sorted.
    intros ->. apply orb_true_r.
Qed.

(* ------------------------------------------------------------------ *)
(** ** A concrete plan *)

Lemma plan_order_irrelevant_witness :
  build_plan UpdateWithinRelease
    (relist sample_facts (reverse (repositories sample_facts)) ["a"; "b"; "b"] [] [])
    (evaluate_solver_preflight
       (relist sample_facts (reverse (repositories sample_facts)) ["a"; "b"; "b"] [] [])
       default_policy (resolve sample_solver ["update"; "oss"] (changes sample_solver))
       sample_policy) None None
    (resolve sample_solver ["update"; "oss"] (changes sample_solver))
  = build_plan UpdateWithinRelease sample_facts
      (evaluate_solver_preflight sample_facts default_policy sample_solver sample_policy)
      None None sample_solver.
Proof.
  apply plan_order_irrelevant; simpl.
  - apply NoDup_cons. split; [|apply NoDup_singleton]. set_solver.
  - by rewrite reverse_Permutation.
  - apply (perm_trans (l' := ["b"; "a"; "b"])); [apply perm_swap|done].
  - done.
  - done.
  - apply perm_swap.
  - done.
Defined.

Example sample_plan_is_built :
  is_ok (build_plan UpdateWithinRelease sample_facts
    (evaluate_solver_preflight sample_facts default_policy sample_solver sample_policy)
    None None sample_solver) = true.
Proof. vm_compute. reflexivity. Qed.
