(* ===== verification/ManifestData.v ===== *)
(** * Release manifests (src/core/src/manifest.rs and migration.rs, data)

    The signed description of a release route: its repositories, its policy and,
    for package maintenance, the exact package migrations. *)

From S2P Require Import Prelude RustStr State Preflight Solver.

Open Scope bool_scope.
Open Scope lyra_scope.

Definition MANIFEST_SCHEMA_VERSION : Z := 1.

Inductive ManifestStatus : Set := Testing | Status_Available | Paused | Withdrawn.
Inductive ManifestChannelPolicy : Set := Channel_Stable | Channel_Testing.

Record RepositoryTransition := {
  repo_alias : string;
  base_url : string;
  signing_key_url : string;
  signing_key_fingerprint : string;
  priority : Z;
}.

Record VendorTransitionWire := {
  wire_from : string;
  wire_to : string;
  wire_packages : option (list string);
}.

Record PackageMigration := {
  mig_name : string;
  mig_architecture : string;
  from_version : string;
  from_vendor : string;
  to_version : string;
  to_vendor : string;
  mig_repository_alias : string;
  mig_sha256 : string;
  (** Absent translations stay absent. *)
  if_installed : bool;
}.

Record ReleaseManifest := {
  man_schema_version : Z;
  man_sequence : Z;
  status : ManifestStatus;
  valid_from : string;
  valid_until : string;
  man_source : ReleaseIdentity;
  man_target : ReleaseIdentity;
  minimum_updater_version : string;
  man_minimum_free_space_bytes : Z;
  man_repositories : list RepositoryTransition;
  man_allowed_removals : list string;
  man_allowed_vendor_transitions : list VendorTransitionWire;
  man_lockstep_packages : list (list string);
  package_migration : option (list PackageMigration);
}.

#[export] Instance ManifestStatus_eq_dec : EqDecision ManifestStatus.
Proof. solve_decision. Defined.
#[export] Instance ManifestChannelPolicy_eq_dec : EqDecision ManifestChannelPolicy.
Proof. solve_decision. Defined.
#[export] Instance RepositoryTransition_eq_dec : EqDecision RepositoryTransition.
Proof. solve_decision. Defined.
#[export] Instance VendorTransitionWire_eq_dec : EqDecision VendorTransitionWire.
Proof. solve_decision. Defined.
#[export] Instance PackageMigration_eq_dec : EqDecision PackageMigration.
Proof. solve_decision. Defined.
#[export] Instance ReleaseManifest_eq_dec : EqDecision ReleaseManifest.
Proof. solve_decision. Defined.

Definition operation (self : ReleaseManifest) : OperationKind :=
  if is_some (package_migration self) then State.PackageMigration else ReleaseUpgrade.

Definition solver_policy (self : ReleaseManifest) : SolverPolicy := {|
  allowed_removals := man_allowed_removals self;
  allowed_vendor_transitions :=
    map (λ t, {| from := wire_from t; to := wire_to t; packages := wire_packages t |})
      (man_allowed_vendor_transitions self);
  lockstep_packages := man_lockstep_packages self |}.
