(* ===== verification/Migration.v ===== *)
(** * Signed package maintenance (src/core/src/migration.rs and
      src/service/src/migration.rs)

    The validation of the migrations of a manifest, the migrations still pending
    on a host, the check of a solver's transaction against them, and the
    arguments of the package manager. *)

From S2P Require Import Prelude RustStr State Preflight Solver ManifestData.

Open Scope bool_scope.
Open Scope lyra_scope.

(* ------------------------------------------------------------------ *)
(** ** Validation *)

Inductive MigrationError : Set :=
  | InvalidPolicy | InstalledIdentity (name : string)
  | UnexpectedTransaction | AlreadyApplied.

#[export] Instance MigrationError_eq_dec : EqDecision MigrationError.
Proof. solve_decision. Defined.

Definition valid_edition (value : string) : bool :=
  match value with
  | EmptyString => false
  | String b _ =>
      (str_len value <=? 256)%Z && is_ascii_alphanumeric b
      && bytes_all (λ b, is_ascii_alphanumeric b || byte_in "._:+~^-" b) value
  end.

Definition migration_digest (value : string) : bool :=
  (str_len value =? 64)%Z
  && bytes_all (λ b, is_ascii_digit b || in_range 97 102 b) value.

(** The refusal of one migration, apart from the uniqueness of its name. *)
Definition invalid_migration (manifest : ReleaseManifest) (first : PackageMigration)
    (p : PackageMigration) : bool :=
  negb (contains ["x86_64"; "noarch"] (mig_architecture p))
  || negb (valid_edition (from_version p)) || negb (valid_edition (to_version p))
  || negb (valid_vendor (from_vendor p)) || negb (valid_vendor (to_vendor p))
  || (from_version p ==? to_version p)
  || negb (migration_digest (mig_sha256 p))
  || negb (list_any (λ r, repo_alias r ==? mig_repository_alias p)
             (man_repositories manifest))
  || (mig_repository_alias p !=? mig_repository_alias first).

(** [packages.iter().any(...)] with the set of names seen so far. *)
Fixpoint any_invalid (manifest : ReleaseManifest) (first : PackageMigration)
    (names : gset string) (ps : list PackageMigration) : bool :=
  match ps with
  | [] => false
  | p :: ps' =>
      negb (valid_package (mig_name p)) || bool_decide (mig_name p ∈ names)
      || invalid_migration manifest first p
      || any_invalid manifest first ({[mig_name p]} ∪ names) ps'
  end.

Definition unscoped_rule (ps : list PackageMigration) (rule : VendorTransitionWire) : bool :=
  is_none_or (wire_packages rule) (λ scope,
    list_any (λ name,
      negb (list_any (λ p, (mig_name p ==? name) && (from_vendor p ==? wire_from rule)
                           && (to_vendor p ==? wire_to rule)) ps)) scope).

Definition validate_migration (manifest : ReleaseManifest) : result MigrationError unit :=
  match package_migration manifest with
  | None => Ok ()
  | Some ps =>
      match ps with
      | [] => Err InvalidPolicy
      | first :: _ =>
          if (man_source manifest !=? man_target manifest)
             || (64 <? length ps)%nat
             || list_all if_installed ps
             || negb (man_allowed_removals manifest ==? [])
             || negb (man_lockstep_packages manifest ==? [])
             || any_invalid manifest first ∅ ps
             || list_any (unscoped_rule ps) (man_allowed_vendor_transitions manifest)
          then Err InvalidPolicy else Ok ()
      end
  end.

(* ------------------------------------------------------------------ *)
(** ** Pending migrations *)

(** The decision on one migration: skip it or keep it, or refuse. *)
Definition classify (installed : list InstalledPackage) (package : PackageMigration)
  : result MigrationError bool :=
  let matching := List.filter (λ p, pkg_name p ==? mig_name package) installed in
  match matching with
  | [] =>
      if if_installed package then Ok false else Err (InstalledIdentity (mig_name package))
  | [current] =>
      if pkg_architecture current !=? mig_architecture package
      then Err (InstalledIdentity (mig_name package))
      else if (pkg_version current ==? to_version package)
              && (pkg_vendor current ==? to_vendor package)
      then Ok false
      else if (pkg_version current !=? from_version package)
              || (pkg_vendor current !=? from_vendor package)
      then Err (InstalledIdentity (mig_name package))
      else Ok true
  | _ => Err (InstalledIdentity (mig_name package))
  end.

Fixpoint pending_of (installed : list InstalledPackage) (ps : list PackageMigration)
  : result MigrationError (list PackageMigration) :=
  match ps with
  | [] => Ok []
  | package :: ps' =>
      keep ← classify installed package;
      pending ← pending_of installed ps';
      Ok (if keep : bool then package :: pending else pending)
  end.

Definition pending_migration (manifest : ReleaseManifest)
    (installed : list InstalledPackage) : result MigrationError (list PackageMigration) :=
  _ ← validate_migration manifest;
  pending_of installed (default [] (package_migration manifest)).

(* ------------------------------------------------------------------ *)
(** ** The transaction *)

Definition change_matches (change : PackageChange) (p : PackageMigration) : bool :=
  (change_name change ==? mig_name p)
  && (change_architecture change ==? mig_architecture p)
  && contains [Upgrade; Reinstall] (action change)
  && (current_version change ==? Some (from_version p))
  && (current_vendor change ==? Some (from_vendor p))
  && (proposed_version change ==? Some (to_version p))
  && (proposed_vendor change ==? Some (to_vendor p))
  && (repository_alias change ==? Some (mig_repository_alias p)).

Fixpoint any_unexpected (pending : list PackageMigration) (seen : gset string)
    (changes : list PackageChange) : bool :=
  match changes with
  | [] => false
  | change :: changes' =>
      bool_decide (change_name change ∈ seen)
      || negb (list_any (change_matches change) pending)
      || any_unexpected pending ({[change_name change]} ∪ seen) changes'
  end.

Definition validate_migration_plan (manifest : ReleaseManifest)
    (installed : list InstalledPackage) (changes : list PackageChange)
  : result MigrationError unit :=
  if is_none (package_migration manifest) then Ok ()
  else
    pending ← pending_migration manifest installed;
    if negb (length changes =? length pending)%nat || any_unexpected pending ∅ changes
    then Err UnexpectedTransaction else Ok ().

(* ------------------------------------------------------------------ *)
(** ** Arguments of the package manager *)

Inductive TransactionMode : Set := Mode_Plan | Mode_Download | Mode_Apply.

Definition package_argument (p : PackageMigration) : string :=
  mig_name p +:+ "." +:+ mig_architecture p +:+ "=" +:+ to_version p.

Definition mode_arguments (mode : TransactionMode) : list string :=
  match mode with
  | Mode_Plan => ["--dry-run"]
  | Mode_Download => ["--download-only"]
  | Mode_Apply => []
  end.

Definition policy_arguments : list string :=
  ["--details"; "--no-allow-downgrade"; "--no-allow-name-change";
   "--no-allow-arch-change"; "--allow-vendor-change"].

Definition transaction_arguments (manifest : ReleaseManifest)
    (installed : list InstalledPackage) (mode : TransactionMode)
  : result MigrationError (list string) :=
  if is_some (package_migration manifest) then
    pending ← pending_migration manifest installed;
    match pending with
    | [] => Err AlreadyApplied
    | first :: _ =>
        Ok (["install"; "--name"; "--no-recommends"; "--from"; mig_repository_alias first]
            ++ mode_arguments mode ++ policy_arguments
            ++ "--" :: map package_argument pending)
    end
  else Ok ("dist-upgrade" :: mode_arguments mode ++ policy_arguments).

(* ------------------------------------------------------------------ *)
(** ** Payloads *)

(** A directory of the package cache as [read_dir] lists it. Symbolic links and
    everything that is neither a directory nor a regular file are [Special]. *)
Inductive entry : Set :=
  | Directory (name : string) (children : list entry)
  | Regular (name : string) (content : string)
  | Special (name : string).

(** [path.extension() == Some("rpm")]: what follows the last dot, if something
    comes before that dot. *)
Definition is_rpm (name : string) : bool :=
  match strip_suffix ".rpm" name with Some stem => negb (is_empty stem) | None => false end.

Fixpoint collect (depth : nat) (e : entry) (files : list string)
  : result string (list string) :=
  match e with
  | Directory _ children =>
      if (8 <? depth)%nat then Err "invalid cache directory"
      else
        (fix each (es : list entry) (files : list string) : result string (list string) :=
           match es with
           | [] => Ok files
           | e' :: es' =>
               match collect (S depth) e' files with
               | Ok files' => each es' files'
               | Err err => Err err
               end
           end) children files
  | Special _ => Err "nonregular cache entry"
  | Regular name content =>
      if is_rpm name then
        if (64 <=? length files)%nat then Err "too many RPMs" else Ok (files ++ [content])
      else Ok files
  end.

Section payloads.
(** The SHA-256 digest in hexadecimal. *)
Context (digest : string → string).

Fixpoint remove_all (remaining : gset string) (files : list string)
  : result string (gset string) :=
  match files with
  | [] => Ok remaining
  | content :: files' =>
      if bool_decide (digest content ∈ remaining)
      then remove_all (remaining ∖ {[digest content]}) files'
      else Err "unexpected or altered RPM payload"
  end.

(** [is_link]: whether the directory itself is a symbolic link. *)
Definition verify_payloads (manifest : ReleaseManifest)
    (installed : list InstalledPackage) (is_link : bool) (directory : list entry)
  : result string unit :=
  if is_none (package_migration manifest) then Ok ()
  else
    pending ← map_err (λ _, "migration") (pending_migration manifest installed);
    let remaining : gset string := list_to_set (map mig_sha256 pending) in
    if negb (size remaining =? length pending)%nat || bool_decide (remaining = ∅)
    then Err "invalid payload set"
    else
      files ← (if is_link then Err "invalid cache directory"
               else collect 0 (Directory "" directory) []);
      rest ← remove_all remaining files;
      if bool_decide (rest = ∅) then Ok () else Err "missing RPM payload".
End payloads.

(* ------------------------------------------------------------------ *)
(** ** Lemmas on the validation *)

(** What makes the migrations of a manifest acceptable. *)
Record migrations_ok (manifest : ReleaseManifest) (ps : list PackageMigration) : Prop := {
  mo_same_release : man_source manifest = man_target manifest;
  mo_count : 1 ≤ length ps ≤ 64;
  mo_mandatory : ∃ p, p ∈ ps ∧ if_installed p = false;
  mo_no_removal : man_allowed_removals manifest = [];
  mo_no_lockstep : man_lockstep_packages manifest = [];
  mo_names : NoDup (map mig_name ps);
  mo_each : ∀ p, p ∈ ps →
    valid_package (mig_name p) = true
    ∧ from_version p ≠ to_version p
    ∧ valid_edition (from_version p) = true ∧ valid_edition (to_version p) = true
    ∧ valid_vendor (from_vendor p) = true ∧ valid_vendor (to_vendor p) = true
    ∧ migration_digest (mig_sha256 p) = true
    ∧ (mig_architecture p = "x86_64" ∨ mig_architecture p = "noarch")
    ∧ (∃ r, r ∈ man_repositories manifest ∧ repo_alias r = mig_repository_alias p);
  mo_one_repository : ∀ p q, p ∈ ps → q ∈ ps →
    mig_repository_alias p = mig_repository_alias q;
  mo_rules : ∀ rule, rule ∈ man_allowed_vendor_transitions manifest →
    ∃ scope, wire_packages rule = Some scope ∧ ∀ name, name ∈ scope →
      ∃ p, p ∈ ps ∧ mig_name p = name ∧ from_vendor p = wire_from rule
           ∧ to_vendor p = wire_to rule;
}.

Lemma invalid_migration_false manifest first p :
  invalid_migration manifest first p = false ↔
    from_version p ≠ to_version p
    ∧ valid_edition (from_version p) = true ∧ valid_edition (to_version p) = true
    ∧ valid_vendor (from_vendor p) = true ∧ valid_vendor (to_vendor p) = true
    ∧ migration_digest (mig_sha256 p) = true
    ∧ (mig_architecture p = "x86_64" ∨ mig_architecture p = "noarch")
    ∧ (∃ r, r ∈ man_repositories manifest ∧ repo_alias r = mig_repository_alias p)
    ∧ mig_repository_alias p = mig_repository_alias first.
Proof.
  unfold invalid_migration.
  rewrite !orb_false_iff, !negb_false_iff, contains_true, list_any_true, eqb_false, eqb_true.
  setoid_rewrite eqb_true. rewrite !elem_of_cons, elem_of_nil. tauto.
Qed.

Lemma any_invalid_false manifest first names ps :
  any_invalid manifest first names ps = false ↔
    NoDup (map mig_name ps)
    ∧ (∀ p, p ∈ ps → mig_name p ∉ names ∧ valid_package (mig_name p) = true
                     ∧ invalid_migration manifest first p = false).
Proof.
  revert names. induction ps as [|p ps IH]; intros names; simpl.
  { split; [|done]. intros _. split; [constructor|set_solver]. }
  rewrite !orb_false_iff, negb_false_iff, bool_decide_eq_false, IH, NoDup_cons.
  rewrite list_elem_of_fmap. setoid_rewrite elem_of_cons. split.
  - intros (((Hv & Hn) & Hi) & Hnd & Hps). split; [split; [|done]|].
    + intros (q & E & Hq). destruct (Hps q Hq) as [Hq' _]. set_solver.
    + intros q [->|Hq]; [done|]. destruct (Hps q Hq) as [? ?]. set_solver.
  - intros ((Hn & Hnd) & Hps). destruct (Hps p) as (H1 & H2 & H3); [by left|].
    split; [done|]. split; [done|]. intros q Hq.
    destruct (Hps q) as (Q1 & Q2 & Q3); [by right|]. split; [|done].
    intros [E%elem_of_singleton|?]%elem_of_union; [|done]. apply Hn. by exists q.
Qed.

Lemma unscoped_rule_false ps rule :
  unscoped_rule ps rule = false ↔
    ∃ scope, wire_packages rule = Some scope ∧ ∀ name, name ∈ scope →
      ∃ p, p ∈ ps ∧ mig_name p = name ∧ from_vendor p = wire_from rule
           ∧ to_vendor p = wire_to rule.
Proof.
  unfold unscoped_rule. rewrite is_none_or_false.
  setoid_rewrite list_any_false. setoid_rewrite negb_false_iff.
  setoid_rewrite list_any_true. repeat setoid_rewrite andb_true_iff.
  repeat setoid_rewrite eqb_true. by setoid_rewrite <-(assoc and).
Qed.

Lemma list_all_false {A} (p : A → bool) l :
  list_all p l = false ↔ ∃ x, x ∈ l ∧ p x = false.
Proof.
  induction l as [|x l IH].
  - split; [done|]. by intros (? & ?%elem_of_nil & _).
  - change (list_all p (x :: l)) with (p x && list_all p l).
    rewrite andb_false_iff, IH. setoid_rewrite elem_of_cons. naive_solver.
Qed.

Lemma validate_migration_Ok manifest ps u :
  package_migration manifest = Some ps →
  validate_migration manifest = Ok u ↔ migrations_ok manifest ps.
Proof.
  intros Hps. unfold validate_migration. rewrite Hps. destruct u, ps as [|first ps'].
  { split; [done|]. intros H. destruct (mo_count _ _ H). simpl in *. lia. }
  set (ps := first :: ps'). destruct (_ || _) eqn:Hx; (split; [|intros H]).
  - done.
  - exfalso. rewrite <-not_false_iff_true in Hx. apply Hx.
    rewrite !orb_false_iff, !negb_false_iff, !eqb_true, Nat.ltb_ge, list_all_false,
      any_invalid_false, list_any_false. setoid_rewrite unscoped_rule_false.
    setoid_rewrite invalid_migration_false.
    destruct H as [H1 H2 H3 H4 H5 H6 H7 H8 H9].
    split; [split; [repeat split; done || lia|]|done].
    split; [done|]. intros p Hp. split; [set_solver|].
    destruct (H7 p Hp) as (?&?&?&?&?&?&?&?&?). repeat (split; [done|]).
    apply H8; [done|left].
  - intros _.
    rewrite !orb_false_iff, !negb_false_iff, !eqb_true, Nat.ltb_ge, list_all_false,
      any_invalid_false, list_any_false in Hx. setoid_rewrite unscoped_rule_false in Hx.
    setoid_rewrite invalid_migration_false in Hx.
    destruct Hx as ((((((H1 & H2) & H3) & H4) & H5) & (H6 & H7)) & H8).
    split; try done.
    + split; [simpl; lia|done].
    + intros p Hp. destruct (H7 p Hp) as (?&?&?&?&?&?&?&?&?&?&?). auto 10.
    + intros p q Hp Hq. destruct (H7 p Hp) as (?&?&?&?&?&?&?&?&?&?&->).
      by destruct (H7 q Hq) as (?&?&?&?&?&?&?&?&?&?&->).
  - done.
Qed.

(* ------------------------------------------------------------------ *)
(** ** Lemmas on pending migrations *)

Definition is_pending (installed : list InstalledPackage) (p : PackageMigration) : bool :=
  match classify installed p with Ok true => true | _ => false end.

Lemma pending_of_Ok installed ps l :
  pending_of installed ps = Ok l ↔
    (∀ p, p ∈ ps → is_ok (classify installed p) = true)
    ∧ l = List.filter (is_pending installed) ps.
Proof.
  revert l. induction ps as [|p ps IH]; intros l; simpl.
  { split; [intros [= <-]; split; [set_solver|done]|by intros [_ ->]]. }
  unfold is_pending at 1. rewrite bind_Ok. split.
  - intros (b & Hb & H). apply bind_Ok in H as (l' & Hl & H). apply IH in Hl as [Ha ->].
    injection H as <-. rewrite Hb. split; [|by destruct b].
    intros q [->|Hq]%elem_of_cons; [by rewrite Hb|auto].
  - intros [Ha ->]. assert (is_ok (classify installed p) = true) as [b Hb]%is_ok_true
      by (apply Ha; left).
    exists b. split; [done|]. rewrite bind_Ok.
    exists (List.filter (is_pending installed) ps). rewrite Hb. split; [|by destruct b].
    apply IH. split; [|done]. intros q Hq. apply Ha. by right.
Qed.

Lemma pending_migration_Ok manifest installed ps l :
  package_migration manifest = Some ps →
  pending_migration manifest installed = Ok l ↔
    migrations_ok manifest ps
    ∧ (∀ p, p ∈ ps → is_ok (classify installed p) = true)
    ∧ l = List.filter (is_pending installed) ps.
Proof.
  intros Hps. unfold pending_migration. rewrite bind_Ok, Hps. simpl. split.
  - intros (u & Hv & Hp). rewrite (validate_migration_Ok _ ps) in Hv by done.
    by rewrite pending_of_Ok in Hp.
  - intros [Hv Hp]. exists (). by rewrite (validate_migration_Ok _ ps), pending_of_Ok.
Qed.

Lemma pending_sub installed ps p :
  p ∈ List.filter (is_pending installed) ps ↔ p ∈ ps ∧ is_pending installed p = true.
Proof. by rewrite !list_elem_of_In, filter_In. Qed.

Lemma NoDup_map_filter {A B} (f : A → B) (p : A → bool) l :
  NoDup (map f l) → NoDup (map f (List.filter p l)).
Proof.
  induction l as [|x l IH]; simpl; [done|]. rewrite NoDup_cons. intros [Hx Hl].
  destruct (p x); simpl; [|auto]. rewrite NoDup_cons. split; [|auto].
  rewrite list_elem_of_fmap in Hx |- *. intros (y & E & Hy). apply Hx.
  exists y. split; [done|]. apply list_elem_of_In, filter_In in Hy as [? _].
  by apply list_elem_of_In.
Qed.

Lemma NoDup_map_inj {A B} (f : A → B) l x y :
  NoDup (map f l) → x ∈ l → y ∈ l → f x = f y → x = y.
Proof.
  intros Hnd [i Hi]%list_elem_of_lookup [j Hj]%list_elem_of_lookup E.
  assert (i = j) as ->; [|congruence].
  eapply NoDup_lookup; [exact Hnd| |]; rewrite list_lookup_fmap;
    [by rewrite Hi|rewrite Hj; simpl; by rewrite E].
Qed.

Lemma any_unexpected_false pending seen changes :
  any_unexpected pending seen changes = false ↔
    NoDup (map change_name changes)
    ∧ (∀ c, c ∈ changes → change_name c ∉ seen
         ∧ ∃ p, p ∈ pending ∧ change_matches c p = true).
Proof.
  revert seen. induction changes as [|c cs IH]; intros seen; simpl.
  { split; [|done]. intros _. split; [constructor|set_solver]. }
  rewrite !orb_false_iff, negb_false_iff, bool_decide_eq_false, list_any_true, IH, NoDup_cons.
  rewrite list_elem_of_fmap. setoid_rewrite elem_of_cons. split.
  - intros ((Hn & Hm) & Hnd & Hcs). split; [split; [|done]|].
    + intros (q & E & Hq). destruct (Hcs q Hq) as [Hq' _]. set_solver.
    + intros q [->|Hq]; [done|]. destruct (Hcs q Hq) as [? ?]. split; [set_solver|done].
  - intros ((Hn & Hnd) & Hcs). destruct (Hcs c) as (H1 & H2); [by left|].
    split; [done|]. split; [done|]. intros q Hq.
    destruct (Hcs q) as (Q1 & Q2); [by right|]. split; [|done].
    intros [E%elem_of_singleton|?]%elem_of_union; [|done]. apply Hn. by exists q.
Qed.

Lemma match_all {A B} (R : A → B → Prop) (l : list A) (m : list B) :
  (∀ x, x ∈ l → ∃ y, y ∈ m ∧ R x y) →
  ∃ m' : list B, Forall2 R l m' ∧ ∀ y, y ∈ m' → y ∈ m.
Proof.
  induction l as [|x l IH]; intros H.
  { exists []. split; [constructor|set_solver]. }
  destruct (H x ltac:(left)) as (y & Hy & Hr). destruct IH as (m' & Hm & Hs).
  { intros z Hz. apply H. by right. }
  exists (y :: m'). split; [by constructor|]. intros z [->|Hz]%elem_of_cons; auto.
Qed.

Lemma change_matches_name c p : change_matches c p = true → change_name c = mig_name p.
Proof.
  unfold change_matches. rewrite !andb_true_iff, eqb_true. by intros (((((((? & _) & _) & _) & _) & _) & _) & _).
Qed.

Lemma matches_names changes ps :
  Forall2 (λ c p, change_matches c p = true) changes ps →
  map change_name changes = map mig_name ps.
Proof.
  induction 1 as [|c p cs ps Hc _ IH]; [done|]. simpl. f_equal; [|done].
  by apply change_matches_name.
Qed.

(** A transaction is accepted for a maintenance manifest exactly when the
    migrations are valid and computable on the host and the changes are the
    pending migrations, each once, in some order, with their exact name,
    architecture, versions, vendors and repository, and no other change. *)
Theorem migration_plan_exact manifest installed changes ps :
  package_migration manifest = Some ps →
  validate_migration_plan manifest installed changes = Ok () ↔
    ∃ pending order,
      pending_migration manifest installed = Ok pending
      ∧ order ≡ₚ pending
      ∧ Forall2 (λ c p, change_matches c p = true) changes order.
Proof.
  intros Hps. unfold validate_migration_plan. rewrite Hps. simpl. split.
  - intros H. apply bind_Ok in H as (pending & Hp & H). exists pending.
    destruct (Nat.eqb_spec (length changes) (length pending)) as [Hl|]; [|done]. simpl in H.
    destruct (any_unexpected pending ∅ changes) eqn:Hu; [done|].
    apply any_unexpected_false in Hu as [Hnd Hm].
    destruct (match_all (λ c p, change_matches c p = true) changes pending)
      as (order & Ho & Hsub); [intros c Hc; by apply Hm|].
    exists order. split; [done|]. split; [|done].
    rewrite (matches_names _ _ Ho) in Hnd.
    apply submseteq_length_Permutation; [|by rewrite <-(Forall2_length _ _ _ Ho), Hl].
    apply NoDup_submseteq; [by apply NoDup_fmap_1 in Hnd|exact Hsub].
  - intros (pending & order & Hp & Ho & Hm). rewrite Hp. simpl.
    pose proof Hp as Hp'. rewrite (pending_migration_Ok _ _ ps) in Hp' by done.
    destruct Hp' as (Hok & _ & ->).
    rewrite (Forall2_length _ _ _ Hm), Ho, Nat.eqb_refl. simpl.
    rewrite (proj2 (any_unexpected_false _ _ _)); [done|]. split.
    + rewrite (matches_names _ _ Hm), Ho. apply NoDup_map_filter, (mo_names _ _ Hok).
    + intros c Hc. split; [set_solver|].
      apply list_elem_of_lookup in Hc as [i Hi].
      destruct (Forall2_lookup_l _ _ _ _ _ Hm Hi) as (p & Hp1 & Hp2).
      exists p. split; [|done]. rewrite <-Ho. by apply list_elem_of_lookup; exists i.
Qed.

(* ------------------------------------------------------------------ *)
(** ** After the maintenance *)

(** What a completed transaction leaves of an installed package. *)
Definition migrated (pending : list PackageMigration) (q : InstalledPackage)
  : InstalledPackage :=
  match List.find (λ p, mig_name p ==? pkg_name q) pending with
  | Some p => {| pkg_name := pkg_name q; pkg_version := to_version p;
                 pkg_architecture := pkg_architecture q; pkg_vendor := to_vendor p |}
  | None => q
  end.

Lemma migrated_name pending q : pkg_name (migrated pending q) = pkg_name q.
Proof. unfold migrated. by destruct (List.find _ _). Qed.

Lemma filter_migrated pending n l :
  List.filter (λ q, pkg_name q ==? n) (map (migrated pending) l)
  = map (migrated pending) (List.filter (λ q, pkg_name q ==? n) l).
Proof.
  induction l as [|q l IH]; simpl; [done|]. rewrite migrated_name.
  destruct (eqb (pkg_name q) n); simpl; by rewrite IH.
Qed.

Lemma find_name_in (l : list PackageMigration) p :
  NoDup (map mig_name l) → p ∈ l →
  List.find (λ q, mig_name q ==? mig_name p) l = Some p.
Proof.
  intros Hnd Hp. destruct (List.find _ l) as [q|] eqn:E.
  - apply List.find_some in E as [Hq Hn]. rewrite eqb_true in Hn.
    f_equal. eapply NoDup_map_inj; [exact Hnd|by apply list_elem_of_In|done|done].
  - rewrite list_elem_of_In in Hp. apply (List.find_none _ _ E) in Hp.
    by rewrite eqb_refl in Hp.
Qed.

Lemma find_name_out (l : list PackageMigration) n :
  (∀ q, q ∈ l → mig_name q ≠ n) → List.find (λ q, mig_name q ==? n) l = None.
Proof.
  intros H. destruct (List.find _ l) as [q|] eqn:E; [|done].
  apply List.find_some in E as [Hq Hn]. rewrite eqb_true in Hn.
  by destruct (H q); [by apply list_elem_of_In|].
Qed.

Lemma named_in_filter installed n q :
  q ∈ List.filter (λ p, pkg_name p ==? n) installed → pkg_name q = n.
Proof. rewrite list_elem_of_In, filter_In, eqb_true. by intros []. Qed.

Lemma migrated_same pending (l : list InstalledPackage) n :
  (∀ q, q ∈ pending → mig_name q ≠ n) → (∀ q, q ∈ l → pkg_name q = n) →
  map (migrated pending) l = l.
Proof.
  intros Hp Hl. induction l as [|q l IH]; [done|]. simpl. f_equal.
  - unfold migrated. rewrite find_name_out; [done|]. rewrite (Hl q) by left. done.
  - apply IH. intros r Hr. apply Hl. by right.
Qed.

(** A migration, once applied, is not pending any more and causes no refusal. *)
Lemma classify_migrated installed ps p :
  NoDup (map mig_name ps) → p ∈ ps → is_ok (classify installed p) = true →
  classify (map (migrated (List.filter (is_pending installed) ps)) installed) p = Ok false.
Proof.
  intros Hnd Hp Hok. set (pending := List.filter (is_pending installed) ps).
  unfold classify at 1. rewrite filter_migrated. destruct (is_pending installed p) eqn:Hpend.
  - assert (p ∈ pending) as Hin by (by apply pending_sub).
    assert (NoDup (map mig_name pending)) as Hnd' by (by apply NoDup_map_filter).
    unfold is_pending, classify in Hpend.
    destruct (List.filter (λ q, pkg_name q ==? mig_name p) installed) as [|c [|]] eqn:Hf;
      [by destruct (if_installed p)| |done].
    simpl. assert (pkg_name c = mig_name p) as Hc
      by (apply (named_in_filter installed); rewrite Hf; left).
    destruct (eqb (pkg_architecture c) _) eqn:Ha; [|done]. rewrite eqb_true in Ha.
    unfold migrated. rewrite Hc, find_name_in by done. simpl.
    by rewrite Ha, !eqb_refl.
  - assert (∀ q, q ∈ pending → mig_name q ≠ mig_name p) as Hout.
    { intros q [Hq Hqp]%pending_sub E.
      assert (q = p) as -> by (by eapply NoDup_map_inj). congruence. }
    rewrite (migrated_same _ _ (mig_name p)); [|done|apply named_in_filter].
    fold (classify installed p). unfold is_pending in Hpend.
    destruct (classify installed p) as [[]|]; done.
Qed.

(** Maintenance converges: on the host a completed transaction leaves behind,
    the same manifest has nothing pending, and every later plan, download or
    application of it is refused as already applied. *)
Theorem migration_converges manifest installed ps pending mode :
  package_migration manifest = Some ps →
  pending_migration manifest installed = Ok pending →
  let installed' := map (migrated pending) installed in
  pending_migration manifest installed' = Ok []
  ∧ transaction_arguments manifest installed' mode = Err AlreadyApplied.
Proof.
  intros Hps Hp. rewrite (pending_migration_Ok _ _ ps) in Hp by done.
  destruct Hp as (Hok & Hc & ->). cbv zeta.
  assert (pending_migration manifest (map (migrated (List.filter (is_pending installed) ps))
    installed) = Ok []) as Hnil.
  { rewrite (pending_migration_Ok _ _ ps) by done. split; [done|].
    assert (∀ p, p ∈ ps → classify (map (migrated (List.filter (is_pending installed) ps))
      installed) p = Ok false) as Hf.
    { intros p Hin. apply classify_migrated; [apply (mo_names _ _ Hok)|done|by apply Hc]. }
    split; [intros p Hin; by rewrite Hf|].
    symmetry. apply filter_nil_none. intros p Hin. unfold is_pending. by rewrite Hf. }
  split; [done|]. unfold transaction_arguments. rewrite Hps. simpl. by rewrite Hnil.
Qed.

(** The arguments say in which mode zypper runs. *)
Lemma transaction_arguments_mode manifest installed mode arguments :
  transaction_arguments manifest installed mode = Ok arguments →
  mode_arguments mode ⊆ arguments.
Proof.
  unfold transaction_arguments. destruct (is_some _).
  - intros (pending & _ & H)%bind_Ok. destruct pending as [|m pending]; [done|].
    injection H as <-. set_solver.
  - intros [= <-]. set_solver.
Qed.

(* ------------------------------------------------------------------ *)
(** ** Payloads *)

(** The packages below a directory, in the order they are listed. *)
Fixpoint rpms (e : entry) : list string :=
  match e with
  | Directory _ children => concat (map rpms children)
  | Regular name content => if is_rpm name then [content] else []
  | Special _ => []
  end.

Lemma entry_nested_ind (P : entry → Prop) :
  (∀ n cs, Forall P cs → P (Directory n cs)) → (∀ n c, P (Regular n c)) →
  (∀ n, P (Special n)) → ∀ e, P e.
Proof.
  intros Hd Hr Hs. fix IH 1. intros [n cs|n c|n]; [|apply Hr|apply Hs].
  apply Hd. induction cs as [|c cs IHcs]; constructor; [apply IH|exact IHcs].
Qed.

Lemma collect_Ok e depth files files' :
  collect depth e files = Ok files' → files' = files ++ rpms e.
Proof.
  revert depth files files'. induction e as [n cs IH|n c|n] using entry_nested_ind;
    intros depth files files' H; cbn [collect rpms] in *.
  - destruct (8 <? depth)%nat; [done|]. revert files H.
    induction IH as [|e es He _ IHes]; simpl; intros files H.
    { injection H as <-. by rewrite app_nil_r. }
    destruct (collect (S depth) e files) as [files1|] eqn:E; [|done].
    rewrite (He _ _ _ E) in H. rewrite (IHes _ H). by rewrite app_assoc.
  - destruct (is_rpm n); [|injection H as <-; by rewrite app_nil_r].
    destruct (64 <=? length files)%nat; [done|]. by injection H as <-.
  - done.
Qed.

Lemma remove_all_Ok digest remaining files rest :
  remove_all digest remaining files = Ok rest ↔
    NoDup (map digest files) ∧ (∀ f, f ∈ files → digest f ∈ remaining)
    ∧ rest = remaining ∖ list_to_set (map digest files).
Proof.
  revert remaining. induction files as [|f files IH]; intros remaining.
  { simpl. split.
    - intros [= <-]. split; [constructor|]. split; [set_solver|]. apply leibniz_equiv. set_solver.
    - intros (_ & _ & ->). f_equal. apply leibniz_equiv. set_solver. }
  cbn [remove_all map list_to_set]. rewrite NoDup_cons.
  destruct (bool_decide_reflect (digest f ∈ remaining)) as [Hf|Hf].
  - rewrite IH, list_elem_of_fmap. setoid_rewrite elem_of_cons. split.
    + intros (Hnd & Hin & ->). split; [split; [|done]|].
      * intros (g & E & Hg). specialize (Hin g Hg). set_solver.
      * split; [|apply leibniz_equiv; set_solver].
        intros g [->|Hg]; [done|]. specialize (Hin g Hg). set_solver.
    + intros ((Hn & Hnd) & Hin & ->). split; [done|].
      split; [|apply leibniz_equiv; set_solver].
      intros g Hg. apply elem_of_difference. split; [auto|].
      intros E%elem_of_singleton. apply Hn. exists g. auto.
  - split; [done|]. intros (_ & Hin & _). destruct Hf. apply Hin. left.
Qed.

Lemma remove_all_exact digest (files shas : list string) :
  NoDup shas →
  remove_all digest (list_to_set shas) files = Ok ∅ ↔ map digest files ≡ₚ shas.
Proof.
  intros Hs. rewrite remove_all_Ok. split.
  - intros (Hf & Hin & He). apply NoDup_Permutation; [done..|]. intros d. split.
    + intros (f & -> & Hfile)%list_elem_of_fmap.
      by specialize (Hin f Hfile); rewrite elem_of_list_to_set in Hin.
    + intros Hd. destruct (decide (d ∈ map digest files)) as [|Hn]; [done|].
      assert (d ∈ (∅ : gset string)) as Hx; [|set_solver].
      rewrite He. by rewrite elem_of_difference, !elem_of_list_to_set.
  - intros Hp. split; [by rewrite Hp|]. split.
    + intros f Hf. rewrite elem_of_list_to_set, <-Hp. apply list_elem_of_fmap. eauto.
    + apply leibniz_equiv. intros d. rewrite elem_of_difference, !elem_of_list_to_set, Hp.
      set_solver.
Qed.

(** C35 Payload verification succeeds exactly when there are pending migrations
    with distinct digests, the cache directory is no link, its tree can be listed
    (no special file, no more than 64 packages, bounded depth), and the digests
    of the packages found in it are the authorised digests, each exactly once:
    nothing missing, added, altered or duplicated. *)
Theorem payloads_exact digest manifest installed ps is_link dir :
  package_migration manifest = Some ps →
  verify_payloads digest manifest installed is_link dir = Ok () ↔
    ∃ pending,
      pending_migration manifest installed = Ok pending ∧ pending ≠ []
      ∧ NoDup (map mig_sha256 pending) ∧ is_link = false
      ∧ is_ok (collect 0 (Directory "" dir) []) = true
      ∧ map digest (rpms (Directory "" dir)) ≡ₚ map mig_sha256 pending.
Proof.
  intros Hps. unfold verify_payloads. rewrite Hps. cbn [is_none is_some negb].
  rewrite bind_Ok. apply exist_proper. intros pending. rewrite map_err_Ok.
  apply and_iff_compat_l.
  pose proof (size_list_to_set_NoDup (map mig_sha256 pending)) as Hsize.
  rewrite length_map in Hsize.
  assert ((list_to_set (map mig_sha256 pending) : gset string) = ∅ ↔ pending = []) as Hempty.
  { split; [|by intros ->]. destruct pending; [done|]. intros E. set_solver. }
  rewrite <-Hsize, <-Hempty. clear Hsize.
  set (remaining := list_to_set (map mig_sha256 pending) : gset string).
  destruct (Nat.eqb_spec (size remaining) (length pending)) as [Hs|Hs];
    [|simpl; intuition congruence].
  destruct (bool_decide_reflect (remaining = ∅)) as [He|He]; [simpl; intuition congruence|].
  cbn [negb orb]. destruct is_link; [simpl; intuition congruence|].
  destruct (collect 0 (Directory "" dir) []) as [files|e] eqn:Hc;
    [|cbn; intuition congruence].
  rewrite <-(collect_Ok _ _ _ _ Hc : files = rpms (Directory "" dir)).
  assert (is_ok (Ok files : result string (list string)) = true) as Hok by done.
  change ((Ok files ≫= λ fs, rest ← remove_all digest remaining fs;
    if bool_decide (rest = ∅) then Ok () else Err "missing RPM payload") = Ok () ↔
    remaining ≠ ∅ ∧ size remaining = length pending ∧ false = false
    ∧ is_ok (Ok files : result string (list string)) = true
    ∧ map digest files ≡ₚ map mig_sha256 pending).
  rewrite <-remove_all_exact by (apply size_list_to_set_NoDup; by rewrite length_map).
  fold remaining. cbn [mbind result_bind].
  destruct (remove_all digest remaining files) as [rest|e]; [|cbn; intuition congruence].
  cbn. destruct (bool_decide_reflect (rest = ∅)); intuition congruence.
Qed.

(* ------------------------------------------------------------------ *)
(** ** A concrete maintenance *)

Definition sample_migration (name : string) (optional : bool) : PackageMigration := {|
  mig_name := name; mig_architecture := "noarch"; from_version := "1.0-1";
  from_vendor := "openSUSE"; to_version := "1.1-1"; to_vendor := "Lyra";
  mig_repository_alias := "lyra"; mig_sha256 := zeros 64; if_installed := optional |}.
Definition sample_transition : RepositoryTransition := {|
  repo_alias := "lyra"; base_url := "https://example.org/lyra";
  signing_key_url := "https://example.org/key"; signing_key_fingerprint := zeros 40;
  priority := 90 |}.
Definition sample_migrations : list PackageMigration :=
  [sample_migration "calendar" false; sample_migration "calendar-lang" true].
Definition sample_manifest : ReleaseManifest := {|
  man_schema_version := 1; man_sequence := 7; status := Status_Available;
  valid_from := "2026-01-01T00:00:00Z"; valid_until := "2027-01-01T00:00:00Z";
  man_source := sample_release; man_target := sample_release;
  minimum_updater_version := "0.2.7"; man_minimum_free_space_bytes := 1;
  man_repositories := [sample_transition]; man_allowed_removals := [];
  man_allowed_vendor_transitions :=
    [{| wire_from := "openSUSE"; wire_to := "Lyra"; wire_packages := Some ["calendar"] |}];
  man_lockstep_packages := []; package_migration := Some sample_migrations |}.
Definition sample_installed : list InstalledPackage :=
  [{| pkg_name := "bash"; pkg_version := "5"; pkg_architecture := "x86_64";
      pkg_vendor := "openSUSE" |};
   {| pkg_name := "calendar"; pkg_version := "1.0-1"; pkg_architecture := "noarch";
      pkg_vendor := "openSUSE" |}].
Definition sample_transaction : list PackageChange := [{|
  change_name := "calendar"; change_architecture := "noarch"; action := Upgrade;
  current_version := Some "1.0-1"; proposed_version := Some "1.1-1";
  current_vendor := Some "openSUSE"; proposed_vendor := Some "Lyra";
  repository_alias := Some "lyra"; change_download_bytes := 1;
  installed_size_before := 1; installed_size_after := 1 |}].

Lemma migration_plan_exact_witness :
  validate_migration_plan sample_manifest sample_installed sample_transaction = Ok ().
Proof.
  apply (migration_plan_exact _ _ _ sample_migrations); [reflexivity|].
  exists [sample_migration "calendar" false], [sample_migration "calendar" false].
  split; [vm_compute; reflexivity|]. split; [reflexivity|].
  repeat constructor.
Defined.

Lemma migration_converges_witness :
  transaction_arguments sample_manifest
    (map (migrated [sample_migration "calendar" false]) sample_installed) Mode_Apply
  = Err AlreadyApplied.
Proof.
  apply (migration_converges _ _ sample_migrations _ Mode_Apply); [reflexivity|].
  vm_compute. reflexivity.
Defined.

Lemma payloads_exact_witness :
  verify_payloads (λ content, content) sample_manifest sample_installed false
    [Directory "lyra" [Regular "calendar.rpm" (zeros 64)]; Regular "cookie" "x"] = Ok ().
Proof.
  apply (payloads_exact _ _ _ sample_migrations); [reflexivity|].
  exists [sample_migration "calendar" false]. split; [vm_compute; reflexivity|].
  split; [discriminate|]. split; [apply NoDup_singleton|].
  split; [reflexivity|]. split; [vm_compute; reflexivity|]. reflexivity.
Defined.
