(* ===== verification/Manifest.v ===== *)
(** * Validation of a release route (src/core/src/manifest.rs)

    The checks a signed manifest passes before it is offered: channel, exact
    source, newer target, replay, updater version, repositories and policy. The
    parser of URLs is the parameter [parse_url]. *)

From S2P Require Import Prelude RustStr State Preflight Solver ManifestData Migration.

Open Scope bool_scope.
Open Scope lyra_scope.

(* ------------------------------------------------------------------ *)
(** ** Versions *)

Inductive ManifestError : Set :=
  | Manifest_UnsupportedSchema | NotAvailable | PrereleaseNotAllowed | SourceMismatch
  | TargetNotNewer | UnsupportedTarget | Replay | MigrationAlreadyApplied
  | InvalidMinimumUpdaterVersion | UpdaterTooOld | InvalidRepository
  | DuplicateRepository | InvalidFingerprint | Manifest_InvalidPolicy.

#[export] Instance ManifestError_eq_dec : EqDecision ManifestError.
Proof. solve_decision. Defined.

Abbreviation triple := (Z * (Z * Z))%type.

Definition semantic_version (value : string) : option triple :=
  match split "." value with
  | major :: minor :: rest =>
      major ← parse_u64 major;
      minor ← parse_u64 minor;
      match rest with
      | [] => Some (major, (minor, 0%Z))
      | [patch] => patch ← parse_u64 patch; Some (major, (minor, patch))
      | patch :: _ => _ ← parse_u64 patch; None
      end
  | _ => None
  end.

Definition is_legacy_calendar_version (value : string) : bool :=
  contains ["27.02"; "27.06"; "28.02"] value
  || starts_with "2026.08" value || starts_with "27.02-" value.

Definition release_version (value : string) : option (triple * bool) :=
  match split_once "-" value with
  | None => v ← semantic_version value; Some (v, false)
  | Some (version, suffix) =>
      if negb (is_empty suffix)
         && bytes_all (λ byte, is_ascii_alphanumeric byte || byte_in ".-" byte) suffix
      then v ← semantic_version version; Some (v, true)
      else None
  end.

Definition is_prerelease (value : string) : bool :=
  is_some_and (release_version value) snd.

Definition valid_version_transition (source target : string) : bool :=
  if (source ==? target) || is_legacy_calendar_version target then false
  else
    match release_version target with
    | None => false
    | Some (t, _) =>
        if is_legacy_calendar_version source then true
        else is_some_and (release_version source) (λ s, lt_of s.1 t)
    end.

(* ------------------------------------------------------------------ *)
(** ** Fields *)

(** What [url::Url] exposes of a parsed URL. *)
Record Url := {
  scheme : string;
  host_str : option string;
  username : string;
  password : option string;
  query : option string;
  fragment : option string;
  url_path : string;
}.

Definition valid_alias (value : string) : bool :=
  negb (is_empty value)
  && bytes_all (λ byte, is_ascii_alphanumeric byte || byte_in ".-_:" byte) value.

Definition valid_build_id (value : string) : bool :=
  negb (is_empty value)
  && bytes_all (λ b, is_ascii_alphanumeric b || byte_in ".-_" b) value.

Definition valid_fingerprint (value : string) : bool :=
  (str_len value =? 40)%Z
  && bytes_all (λ byte, is_ascii_hexdigit byte && negb (is_ascii_lowercase byte)) value.

Definition valid_group (group : list string) : bool :=
  negb ((length group <? 2)%nat
        || list_any (λ package, negb (valid_package package)) group
        || negb (size (list_to_set group : gset string) =? length group)%nat).

Section route.
Context (parse_url : string → option Url).

Definition valid_https_url (value : string) : bool :=
  negb (list_any is_whitespace (chars value))
  && is_some_and (parse_url value) (λ url,
       (scheme url ==? "https") && is_some (host_str url) && is_empty (username url)
       && is_none (password url) && is_none (query url) && is_none (fragment url)).

Fixpoint check_repositories (aliases : gset string) (rs : list RepositoryTransition)
  : result ManifestError unit :=
  match rs with
  | [] => Ok ()
  | r :: rs' =>
      if negb (valid_alias (repo_alias r)) || negb (valid_https_url (base_url r))
         || negb (valid_https_url (signing_key_url r))
         || negb ((1 <=? priority r)%Z && (priority r <=? 200)%Z)
      then Err InvalidRepository
      else if bool_decide (repo_alias r ∈ aliases) then Err DuplicateRepository
      else if negb (valid_fingerprint (signing_key_fingerprint r)) then Err InvalidFingerprint
      else check_repositories ({[repo_alias r]} ∪ aliases) rs'
  end.

Definition check_route_kind (manifest : ReleaseManifest) (installed : ReleaseIdentity)
  : result ManifestError unit :=
  if is_some (package_migration manifest) then
    map_err (λ _, Manifest_InvalidPolicy) (validate_migration manifest)
  else if negb (valid_version_transition (version installed) (version (man_target manifest)))
  then Err TargetNotNewer else Ok ().

Definition check_updater (manifest : ReleaseManifest) (updater_version : string)
  : result ManifestError unit :=
  minimum ← ok_or InvalidMinimumUpdaterVersion
              (semantic_version (minimum_updater_version manifest));
  current ← ok_or InvalidMinimumUpdaterVersion (semantic_version updater_version);
  if lt_of current minimum then Err UpdaterTooOld
  else if is_some (package_migration manifest) && lt_of minimum (0, (2, 7))%Z
  then Err InvalidMinimumUpdaterVersion
  else if list_any (λ rule, is_some (wire_packages rule))
            (man_allowed_vendor_transitions manifest)
          && lt_of minimum (0, (2, 6))%Z
  then Err InvalidMinimumUpdaterVersion
  else Ok ().

Definition policy_invalid (manifest : ReleaseManifest) : bool :=
  negb (valid_vendor_transitions (allowed_vendor_transitions (solver_policy manifest)))
  || (man_minimum_free_space_bytes manifest =? 0)%Z
  || list_any (λ name, negb (valid_package name)) (man_allowed_removals manifest)
  || list_any (λ group, negb (valid_group group)) (man_lockstep_packages manifest).

Definition validate_manifest_route (manifest : ReleaseManifest)
    (installed : ReleaseIdentity) (last_sequence : option Z)
    (updater_version : string) (channel : ManifestChannelPolicy)
  : result ManifestError unit :=
  _ ← reject_if (man_schema_version manifest !=? MANIFEST_SCHEMA_VERSION)
        Manifest_UnsupportedSchema;
  _ ← reject_if ((status manifest !=? Status_Available)
                 && negb ((status manifest ==? Testing) && (channel ==? Channel_Testing)))
        NotAvailable;
  _ ← reject_if (man_source manifest !=? installed) SourceMismatch;
  _ ← reject_if ((edition (man_target manifest) !=? "desktop")
                 || (architecture (man_target manifest) !=? "x86_64")
                 || negb (valid_build_id (build_id (man_target manifest))))
        UnsupportedTarget;
  _ ← check_route_kind manifest installed;
  _ ← reject_if (is_prerelease (version (man_target manifest))
                 && (channel !=? Channel_Testing)) PrereleaseNotAllowed;
  _ ← reject_if ((0 <? man_sequence manifest)%Z && is_some (package_migration manifest)
                 && (last_sequence ==? Some (man_sequence manifest)))
        MigrationAlreadyApplied;
  _ ← reject_if ((man_sequence manifest =? 0)%Z
                 || is_some_and last_sequence (λ s, (man_sequence manifest <=? s)%Z))
        Replay;
  _ ← check_updater manifest updater_version;
  _ ← reject_if (man_repositories manifest ==? []) InvalidRepository;
  _ ← check_repositories ∅ (man_repositories manifest);
  reject_if (policy_invalid manifest) Manifest_InvalidPolicy.
End route.

(* ------------------------------------------------------------------ *)
(** ** Version order *)

Lemma lt_of_irrefl {A} `{OrdLaws A} (x : A) : lt_of x x = false.
Proof. unfold lt_of. by rewrite cmp_refl. Qed.

Lemma lt_of_trans {A} `{OrdLaws A} (x y z : A) :
  lt_of x y = true → lt_of y z = true → lt_of x z = true.
Proof.
  unfold lt_of. destruct (cmp x y) eqn:E1; try done. destruct (cmp y z) eqn:E2; try done.
  by rewrite (cmp_lt_trans x y z).
Qed.

Lemma valid_version_transition_spec a b :
  valid_version_transition a b = true →
  is_legacy_calendar_version b = false
  ∧ ∃ t p, release_version b = Some (t, p)
      ∧ (is_legacy_calendar_version a = false →
         ∃ s q, release_version a = Some (s, q) ∧ lt_of s t = true).
Proof.
  unfold valid_version_transition. destruct (_ || _) eqn:Hx; [done|].
  apply orb_false_iff in Hx as [_ Hl]. destruct (release_version b) as [[t p]|]; [|done].
  intros H. split; [done|]. exists t, p. split; [done|]. intros Ha. rewrite Ha in H.
  apply is_some_and_true in H as ([s q] & Hs & Hlt). eauto.
Qed.

(** Upgrades from a version lead only to later ones. *)
Lemma transitions_increase a b :
  tc (λ x y, valid_version_transition x y = true) a b →
  is_legacy_calendar_version b = false
  ∧ ∃ t p, release_version b = Some (t, p)
      ∧ (is_legacy_calendar_version a = false →
         ∃ s q, release_version a = Some (s, q) ∧ lt_of s t = true).
Proof.
  induction 1 as [a b H|a b c H Hbc IH]; [by apply valid_version_transition_spec|].
  apply valid_version_transition_spec in H as (Hb & t & p & Ht & Ha).
  destruct IH as (Hc & u & r & Hu & Hb'). split; [done|]. exists u, r. split; [done|].
  intros Hna. destruct (Ha Hna) as (s & q & Hs & Hst).
  destruct (Hb' Hb) as (t' & p' & Ht' & Htu). exists s, q. split; [done|].
  simplify_eq. by eapply lt_of_trans.
Qed.

(* ------------------------------------------------------------------ *)
(** ** Accepted routes *)

Section accepted.
Context (parse_url : string → option Url).

Record repository_ok (r : RepositoryTransition) : Prop := {
  ro_alias : valid_alias (repo_alias r) = true;
  ro_base : valid_https_url parse_url (base_url r) = true;
  ro_key : valid_https_url parse_url (signing_key_url r) = true;
  ro_priority : (1 ≤ priority r ≤ 200)%Z;
  ro_fingerprint : valid_fingerprint (signing_key_fingerprint r) = true;
}.

Definition group_ok (group : list string) : Prop :=
  2 ≤ length group ∧ NoDup group ∧ ∀ p, p ∈ group → valid_package p = true.

Record route_ok (manifest : ReleaseManifest) (installed : ReleaseIdentity)
    (last_sequence : option Z) (updater_version : string)
    (channel : ManifestChannelPolicy) : Prop := {
  ok_schema : man_schema_version manifest = MANIFEST_SCHEMA_VERSION;
  ok_channel : status manifest = Status_Available
               ∨ status manifest = Testing ∧ channel = Channel_Testing;
  ok_source : man_source manifest = installed;
  ok_target : is_supported_desktop (man_target manifest) = true
              ∧ valid_build_id (build_id (man_target manifest)) = true;
  ok_kind : match package_migration manifest with
            | None => valid_version_transition (version installed)
                        (version (man_target manifest)) = true
            | Some ps => migrations_ok manifest ps
            end;
  ok_prerelease : is_prerelease (version (man_target manifest)) = true →
                  channel = Channel_Testing;
  ok_sequence : man_sequence manifest ≠ 0%Z
                ∧ ∀ s, last_sequence = Some s → (s < man_sequence manifest)%Z;
  ok_updater : ∃ minimum current,
    semantic_version (minimum_updater_version manifest) = Some minimum
    ∧ semantic_version updater_version = Some current
    ∧ lt_of current minimum = false
    ∧ (package_migration manifest ≠ None → lt_of minimum (0, (2, 7))%Z = false)
    ∧ ((∃ rule, rule ∈ man_allowed_vendor_transitions manifest
                ∧ wire_packages rule ≠ None) → lt_of minimum (0, (2, 6))%Z = false);
  ok_repositories : man_repositories manifest ≠ []
    ∧ NoDup (map repo_alias (man_repositories manifest))
    ∧ ∀ r, r ∈ man_repositories manifest → repository_ok r;
  ok_policy : rules_ok (allowed_vendor_transitions (solver_policy manifest))
    ∧ man_minimum_free_space_bytes manifest ≠ 0%Z
    ∧ (∀ p, p ∈ man_allowed_removals manifest → valid_package p = true)
    ∧ (∀ g, g ∈ man_lockstep_packages manifest → group_ok g);
}.

Lemma valid_group_ok group : valid_group group = true ↔ group_ok group.
Proof.
  unfold valid_group, group_ok.
  rewrite negb_true_iff, !orb_false_iff, negb_false_iff, Nat.ltb_ge, Nat.eqb_eq,
    size_list_to_set_NoDup, list_any_false. setoid_rewrite negb_false_iff. tauto.
Qed.

Lemma check_repositories_Ok aliases rs u :
  check_repositories parse_url aliases rs = Ok u ↔
    NoDup (map repo_alias rs)
    ∧ ∀ r, r ∈ rs → repo_alias r ∉ aliases ∧ repository_ok r.
Proof.
  revert aliases. induction rs as [|r rs IH]; intros aliases; simpl.
  { destruct u. split; [|done]. intros _. split; [constructor|set_solver]. }
  assert (negb (valid_alias (repo_alias r)) || negb (valid_https_url parse_url (base_url r))
    || negb (valid_https_url parse_url (signing_key_url r))
    || negb ((1 <=? priority r)%Z && (priority r <=? 200)%Z) = false ∧
    negb (valid_fingerprint (signing_key_fingerprint r)) = false ↔ repository_ok r) as Hr.
  { rewrite !orb_false_iff, !negb_false_iff, andb_true_iff, !Z.leb_le. split.
    - by intros [(((? & ?) & ?) & ?) ?].
    - by intros [? ? ? ? ?]. }
  rewrite NoDup_cons, list_elem_of_fmap. setoid_rewrite elem_of_cons.
  destruct (_ || _) eqn:E1.
  { split; [done|]. intros (_ & H). destruct (H r) as (_ & Hok); [by left|].
    apply Hr in Hok as [? _]. done. }
  destruct (bool_decide_reflect (repo_alias r ∈ aliases)) as [Hin|Hin].
  { split; [done|]. intros (_ & H). by destruct (H r) as (? & _); [left|]. }
  destruct (negb (valid_fingerprint _)) eqn:E2.
  { split; [done|]. intros (_ & H). destruct (H r) as (_ & Hok); [by left|].
    apply Hr in Hok as [_ ?]. done. }
  rewrite IH. split.
  - intros (Hnd & H). split; [split; [|done]|].
    + intros (q & E & Hq). destruct (H q Hq) as [Hq' _]. set_solver.
    + intros q [->|Hq]; [by rewrite <-Hr|]. destruct (H q Hq). set_solver.
  - intros ((Hn & Hnd) & H). split; [done|]. intros q Hq.
    destruct (H q) as [Hqa Hqo]; [by right|]. split; [|done].
    intros [E%elem_of_singleton|?]%elem_of_union; [|done]. apply Hn. by exists q.
Qed.

Lemma check_updater_Ok manifest updater u :
  check_updater manifest updater = Ok u ↔
    ∃ minimum current,
      semantic_version (minimum_updater_version manifest) = Some minimum
      ∧ semantic_version updater = Some current
      ∧ lt_of current minimum = false
      ∧ (package_migration manifest ≠ None → lt_of minimum (0, (2, 7))%Z = false)
      ∧ ((∃ rule, rule ∈ man_allowed_vendor_transitions manifest
                  ∧ wire_packages rule ≠ None) → lt_of minimum (0, (2, 6))%Z = false).
Proof.
  unfold check_updater. rewrite bind_Ok. apply exist_proper. intros minimum.
  rewrite ok_or_Ok, bind_Ok.
  assert (list_any (λ rule, is_some (wire_packages rule))
    (man_allowed_vendor_transitions manifest) = true ↔
    ∃ rule, rule ∈ man_allowed_vendor_transitions manifest ∧ wire_packages rule ≠ None) as Hs.
  { rewrite list_any_true. apply exist_proper. intros rule. apply and_iff_compat_l.
    by destruct (wire_packages rule). }
  setoid_rewrite <-Hs. clear Hs. setoid_rewrite ok_or_Ok. destruct u. split.
  - intros (Hm & current & Hc & H). exists current. split; [done|]. split; [done|].
    destruct (lt_of current minimum); [done|]. split; [done|].
    destruct (is_some (package_migration manifest) && lt_of minimum (0, (2, 7))%Z) eqn:E1;
      [done|].
    destruct (list_any _ _ && lt_of minimum (0, (2, 6))%Z) eqn:E2; [done|].
    apply andb_false_iff in E1, E2. split.
    + intros Hn. destruct E1 as [E1|E1]; [|done]. by apply is_some_false in E1.
    + intros Hn. destruct E2 as [E2|E2]; [|done]. congruence.
  - intros (current & Hm & Hc & Hlt & H1 & H2). split; [done|]. exists current.
    split; [done|]. rewrite Hlt.
    destruct (package_migration manifest); simpl; [rewrite H1 by done; simpl|];
      (destruct (list_any _ _); simpl; [by rewrite H2|done]).
Qed.
End accepted.

Lemma policy_invalid_false manifest :
  policy_invalid manifest = false ↔
    rules_ok (allowed_vendor_transitions (solver_policy manifest))
    ∧ man_minimum_free_space_bytes manifest ≠ 0%Z
    ∧ (∀ p, p ∈ man_allowed_removals manifest → valid_package p = true)
    ∧ (∀ g, g ∈ man_lockstep_packages manifest → group_ok g).
Proof.
  unfold policy_invalid.
  rewrite !orb_false_iff, negb_false_iff, valid_vendor_transitions_ok, Z.eqb_neq,
    !list_any_false.
  setoid_rewrite negb_false_iff. setoid_rewrite valid_group_ok. tauto.
Qed.

Lemma check_route_kind_Ok manifest installed u :
  check_route_kind manifest installed = Ok u ↔
    match package_migration manifest with
    | None => valid_version_transition (version installed)
                (version (man_target manifest)) = true
    | Some ps => migrations_ok manifest ps
    end.
Proof.
  unfold check_route_kind. destruct (package_migration manifest) as [ps|] eqn:Hps; simpl.
  - by rewrite map_err_Ok, (validate_migration_Ok _ ps).
  - destruct (valid_version_transition _ _), u; simpl; split; done.
Qed.

Lemma unit_step {E B} (m : result E unit) (f : unit → result E B) b :
  m ≫= f = Ok b ↔ m = Ok () ∧ f () = Ok b.
Proof. rewrite bind_Ok. split; [by intros ([] & ? & ?)|eauto]. Qed.

(** C33 A route is accepted exactly when the manifest has the known schema and an
    offered status for the channel, describes the very release installed, targets
    a supported desktop by a newer version or by valid migrations, goes to a
    prerelease only on the testing channel, has a sequence number above every one
    consumed, is for this updater, and has distinct, well-formed repositories over
    HTTPS with fingerprints and a coherent policy. *)
Theorem route_accepted_iff parse_url manifest installed last updater channel :
  validate_manifest_route parse_url manifest installed last updater channel = Ok () ↔
    route_ok parse_url manifest installed last updater channel.
Proof.
  unfold validate_manifest_route.
  rewrite !unit_step, !reject_if_Ok, check_route_kind_Ok, check_updater_Ok,
    check_repositories_Ok, policy_invalid_false.
  rewrite !orb_false_iff, !negb_false_iff, !andb_false_iff, !negb_false_iff, andb_true_iff,
    !eqb_true, !eqb_false, is_some_and_false, Z.eqb_neq.
  split.
  - intros (Hs & Hst & Hsrc & ((He & Ha) & Hb) & Hk & Hp & _ & (Hq0 & Hq) & Hu & Hr & (Hnd & Hrs) & Hpol).
    split; try done.
    + unfold is_supported_desktop. by rewrite He, Ha.
    + intros Hpre. destruct Hp as [Hp|Hp]; [congruence|done].
    + split; [done|]. intros s Hl. by apply Z.leb_gt, Hq.
    + split; [done|]. split; [done|]. intros r Hr'. by apply Hrs.
  - intros [Hs Hst Hsrc [Hd Hb] Hk Hp [Hq0 Hq] Hu (Hr & Hnd & Hrs) Hpol].
    unfold is_supported_desktop in Hd. rewrite andb_true_iff, !eqb_true in Hd.
    split; [done|]. split; [done|]. split; [done|]. split; [done|]. split; [done|].
    split.
    { destruct (is_prerelease _); [right; by apply Hp|by left]. }
    split.
    { right. intros E. specialize (Hq _ E). lia. }
    split; [split; [done|]; intros s Hl; apply Z.leb_gt; by apply Hq|].
    split; [done|]. split; [done|]. split; [|done]. split; [done|].
    intros r Hr'. split; [set_solver|auto].
Qed.

(** A consumed manifest is not accepted again: once its sequence number is
    recorded, the same manifest on the same release is refused, as already applied
    when it is a package maintenance and as a replay when it is an upgrade. *)
Theorem route_consumed_once parse_url manifest installed last updater channel :
  (0 ≤ man_sequence manifest)%Z →
  validate_manifest_route parse_url manifest installed last updater channel = Ok () →
  validate_manifest_route parse_url manifest installed (Some (man_sequence manifest))
    updater channel
  = Err (if is_some (package_migration manifest) then MigrationAlreadyApplied else Replay).
Proof.
  unfold validate_manifest_route. intros Hpos.
  rewrite !unit_step, !reject_if_Ok.
  intros (-> & -> & -> & -> & Hk & -> & _ & Hq & _). rewrite Hk.
  apply orb_false_iff in Hq as [Hq _]. rewrite Z.eqb_neq in Hq.
  unfold reject_if, mbind, result_bind. cbv beta iota.
  destruct (is_some (package_migration manifest)).
  - rewrite eqb_refl. rewrite (proj2 (Z.ltb_lt 0 (man_sequence manifest))) by lia. done.
  - rewrite andb_false_r. simpl. rewrite Z.leb_refl, orb_true_r. done.
Qed.

(** Release upgrades never come back: along any chain of accepted version
    transitions no version occurs twice, so no sequence of upgrades downgrades a
    host or loops. *)
Theorem version_transitions_acyclic a :
  ¬ tc (λ x y, valid_version_transition x y = true) a a.
Proof.
  intros H. apply transitions_increase in H as (Hl & t & p & Ht & Hlt).
  destruct (Hlt Hl) as (s & q & Hs & Hst). simplify_eq. by rewrite lt_of_irrefl in Hst.
Qed.

(* ------------------------------------------------------------------ *)
(** ** A concrete route *)

Definition sample_parse_url (s : string) : option Url :=
  if starts_with "https://" s then
    Some {| scheme := "https"; host_str := Some "example.org"; username := "";
            password := None; query := None; fragment := None;
            url_path := "/" |}
  else None.

Lemma route_accepted_iff_witness :
  route_ok sample_parse_url sample_manifest sample_release (Some 6%Z) "0.3.0" Channel_Testing.
Proof. apply route_accepted_iff. vm_compute. reflexivity. Defined.

Lemma route_consumed_once_witness :
  validate_manifest_route sample_parse_url sample_manifest sample_release (Some 7%Z) "0.3.0"
    Channel_Testing = Err MigrationAlreadyApplied.
Proof.
  apply (route_consumed_once sample_parse_url sample_manifest sample_release None "0.3.0"
    Channel_Testing); [vm_compute; discriminate|vm_compute; reflexivity].
Defined.

Example version_transition_ex :
  valid_version_transition "27.02" "1.0" = true
  ∧ valid_version_transition "1.0-alpha.7" "1.0" = false
  ∧ valid_version_transition "1.0.1" "1.1" = true.
Proof. vm_compute. done. Qed.
