(* ===== verification/Discovery.v ===== *)
(** * Host discovery (src/core/src/discovery.rs)

    The read-only probes of a host and the parsers of their output. The backend
    is an interface: any implementation of its four operations; [SystemBackend]
    is the one that refuses commands outside the closed list. Every call made
    through the interface is recorded, so that what is asked of the system is
    part of the result. The JSON parser of mount tables is the parameter
    [parse_mounts]. *)

From S2P Require Import Prelude RustStr State Preflight.

Open Scope bool_scope.
Open Scope lyra_scope.

(* ------------------------------------------------------------------ *)
(** ** Data and interface *)

Record CommandOutput := { success : bool; stdout : string }.

Inductive DiscoverError : Set :=
  | ReadFailed (what : string)
  | CommandFailed (program : string)
  | CommandNotAllowed
  | InvalidRelease
  | Discover_InvalidRepository (alias : string)
  | InvalidPowerState
  | InvalidPackageManagerState
  | InvalidPackageInventory.

#[export] Instance CommandOutput_eq_dec : EqDecision CommandOutput.
Proof. solve_decision. Defined.
#[export] Instance DiscoverError_eq_dec : EqDecision DiscoverError.
Proof. solve_decision. Defined.

(** [DiscoveryBackend]. *)
Class DiscoveryBackend := {
  backend_read : string → result DiscoverError string;
  backend_read_dir : string → result DiscoverError (list string);
  backend_available_bytes : string → result DiscoverError Z;
  backend_run : string → list string → result DiscoverError CommandOutput;
}.

Inductive call : Set :=
  | Read (path : string) | ReadDir (path : string) | AvailableBytes (path : string)
  | Run (program : string) (arguments : list string).

Abbreviation M := (ST (list call) DiscoverError).

Definition logged {A} (c : call) (r : result DiscoverError A) : M A :=
  λ trace, (r, trace ++ [c]).

(* ------------------------------------------------------------------ *)
(** ** The closed command surface *)

Definition mounts_arguments (target : string) : list string :=
  ["--json"; "--target"; target; "--output"; "TARGET,OPTIONS,MAJ:MIN"].

Definition allowed_probe (program : string) (arguments : list string) : bool :=
  contains
    [ ("findmnt", ["--noheadings"; "--output"; "FSTYPE"; "/"]);
      ("findmnt", mounts_arguments "/");
      ("findmnt", mounts_arguments "/home");
      ("findmnt", mounts_arguments "/boot/efi");
      ("snapper", ["--no-dbus"; "--config"; "root"; "get-config"]);
      ("rpm", ["--verifydb"]);
      ("mokutil", ["--sb-state"]);
      ("zypper", ["--non-interactive"; "--no-refresh"; "lr"; "--details"]);
      ("zypper", ["--non-interactive"; "--no-refresh"; "locks"]);
      ("zypper", ["--non-interactive"; "--no-refresh"; "packages"; "--orphaned"]) ]
    (program, arguments).

Section system.
(** The operating system: files, directories (their entries, [None] for one that
    cannot be read, [Some None] for a name that is not UTF-8), free space and
    command execution. *)
Context (os_read : string → option string)
        (os_read_dir : string → option (list (option (option string))))
        (os_statvfs : string → option (Z * Z))
        (os_run : string → list string → option (bool * string)).

Fixpoint collect_names (names : list (option (option string)))
  : result DiscoverError (list string) :=
  match names with
  | [] => Ok []
  | None :: _ => Err (ReadFailed "system-directory-entry")
  | Some None :: _ => Err (ReadFailed "non-utf8-directory-entry")
  | Some (Some name) :: names' => l ← collect_names names'; Ok (name :: l)
  end.

Definition SystemBackend : DiscoveryBackend := {|
  backend_read := λ path, ok_or (ReadFailed "system-file") (os_read path);
  backend_read_dir := λ path,
    names ← ok_or (ReadFailed "system-directory") (os_read_dir path);
    entries ← collect_names names;
    Ok (sort entries);
  backend_available_bytes := λ path,
    '(bavail, frsize) ← ok_or (ReadFailed "filesystem-space") (os_statvfs path);
    Ok (Z.min (bavail * frsize) u64_max);
  backend_run := λ program arguments,
    if negb (allowed_probe program arguments) then Err CommandNotAllowed
    else
      '(ok, bytes) ← ok_or (CommandFailed program) (os_run program arguments);
      text ← ok_or (CommandFailed program) (from_utf8 bytes);
      Ok {| success := ok; stdout := text |} |}.
End system.

(* ------------------------------------------------------------------ *)
(** ** Parsers *)

Record ParsedRelease := {
  rel_version : string;
  rel_architecture : string;
  rel_build_id : string;
}.

Definition parse_assignment (content name : string) : option string :=
  match omap (strip_prefix (name +:+ "=")) (lines content) with
  | [value] => v ← strip_prefix "'" value; strip_suffix "'" v
  | _ => None
  end.

Definition is_safe_release_byte (byte : ascii) : bool :=
  is_ascii_alphanumeric byte || byte_in ".-_" byte.

Definition parse_release (content : string) : result DiscoverError ParsedRelease :=
  if parse_assignment content "LYRA_EDITION" !=? Some "desktop" then Err InvalidRelease
  else
    version ← ok_or InvalidRelease (parse_assignment content "LYRA_VERSION_ID");
    architecture ← ok_or InvalidRelease (parse_assignment content "LYRA_ARCHITECTURE");
    build_id ← ok_or InvalidRelease (parse_assignment content "LYRA_BUILD_ID");
    if is_empty version || is_empty architecture || is_empty build_id
       || negb (bytes_all is_safe_release_byte version)
       || negb (bytes_all is_safe_release_byte architecture)
       || negb (bytes_all is_safe_release_byte build_id)
    then Err InvalidRelease
    else Ok {| rel_version := version; rel_architecture := architecture;
               rel_build_id := build_id |}.

Record Mount := { target : string; options : string; device : string }.

Definition has_option (m : Mount) (name : string) : bool :=
  list_any (λ option, option ==? name) (split "," (options m)).

(** The first option [subvolid=] whose number parses. *)
Definition subvolume (m : Mount) : option Z :=
  head (omap (λ option, strip_prefix "subvolid=" option ≫= parse_u64)
         (split "," (options m))).

Definition home_isolated (root home : Mount) : bool :=
  if (target home !=? "/home") || is_empty (device root) || is_empty (device home) then false
  else if device root !=? device home then true
  else match subvolume root, subvolume home with
       | Some r, Some h => negb (r =? h)%Z
       | _, _ => false
       end.

Definition successful_stdout (output : CommandOutput) (command : string)
  : result DiscoverError string :=
  if success output then Ok (stdout output) else Err (CommandFailed command).

Inductive InventoryKind : Set := Locks | Orphans.
#[export] Instance InventoryKind_eq_dec : EqDecision InventoryKind.
Proof. solve_decision. Defined.

Definition inventory_header (kind : InventoryKind) : list string :=
  match kind with
  | Locks => ["#"; "Name"; "Type"; "Repository"; "Comment"]
  | Orphans => ["S"; "Repository"; "Name"; "Version"; "Arch"]
  end.
Definition inventory_empty (kind : InventoryKind) : string :=
  match kind with
  | Locks => "There are no package locks defined."
  | Orphans => "No packages found."
  end.
Definition name_index (kind : InventoryKind) : nat :=
  match kind with Locks => 1 | Orphans => 2 end.

Definition field (fields : list string) (i : nat) : string := default "" (fields !! i).

Definition valid_row (kind : InventoryKind) (fields : list string) : bool :=
  (length fields =? 5)%nat
  && negb (is_empty (field fields (name_index kind)))
  && negb (list_any is_control (chars (field fields (name_index kind))))
  && match kind with
     | Locks => is_some_and (parse_usize (field fields 0)) (λ v, (0 <? v)%Z)
     | Orphans =>
         starts_with "i" (field fields 0) && negb (is_empty (field fields 3))
         && negb (is_empty (field fields 4))
     end.

(** The loop over the trimmed lines: whether the header and the empty message
    were seen, and the names so far. *)
Fixpoint inventory_rows (kind : InventoryKind) (table empty_seen : bool)
    (values : list string) (ls : list string)
  : result DiscoverError (bool * bool * list string) :=
  match ls with
  | [] => Ok (table, empty_seen, values)
  | line :: ls' =>
      if line ==? inventory_empty kind then inventory_rows kind table true values ls'
      else
        let fields := map trim (splitn 5 "|" line) in
        if fields ==? inventory_header kind then
          if table then Err InvalidPackageInventory
          else inventory_rows kind true empty_seen values ls'
        else if negb table || bytes_all (byte_in "-+") line then
          inventory_rows kind table empty_seen values ls'
        else if valid_row kind fields then
          inventory_rows kind table empty_seen
            (values ++ [field fields (name_index kind)]) ls'
        else Err InvalidPackageInventory
  end.

Definition package_inventory (output : CommandOutput) (kind : InventoryKind)
  : result DiscoverError (list string) :=
  text ← successful_stdout output "zypper-inventory";
  '(table, empty_seen, values) ←
    inventory_rows kind false false []
      (List.filter (λ line, negb (is_empty line)) (map trim (lines text)));
  if (negb table && negb empty_seen)
     || (empty_seen && match values with [] => false | _ => true end)
  then Err InvalidPackageInventory
  else Ok (dedup (sort values)).

Definition official_aliases : list string :=
  ["repo-oss"; "repo-non-oss"; "repo-lyra"; "repo-vega"; "repo-fina"].

Definition alias_byte (byte : ascii) : bool :=
  is_ascii_alphanumeric byte || byte_in ".-_:" byte.

Definition repository_of (fields : list string) : RepositoryFact :=
  let enabled := eq_ignore_ascii_case (field fields 3) "yes" in
  let gpg_check := ends_with "yes" (to_ascii_lowercase (field fields 4)) in
  {| alias := field fields 1; enabled := enabled;
     official := contains official_aliases (field fields 1);
     metadata_valid := negb enabled;
     signing_key_trusted := negb enabled || gpg_check |}.

Fixpoint parse_repositories (ls : list string)
  : result DiscoverError (list RepositoryFact) :=
  match ls with
  | [] => Ok []
  | line :: ls' =>
      let fields := map trim (split "|" line) in
      if (length fields <? 8)%nat || is_none (parse_usize (field fields 0))
      then parse_repositories ls'
      else
        let alias := field fields 1 in
        if is_empty alias || negb (bytes_all alias_byte alias)
        then Err (Discover_InvalidRepository alias)
        else
          rs ← parse_repositories ls';
          Ok (repository_of fields :: rs)
  end.

(* ------------------------------------------------------------------ *)
(** ** Probes *)

Section probes.
Context `{DiscoveryBackend}.
Context (parse_mounts : string → option (list Mount)).

Definition read (path : string) : M string := logged (Read path) (backend_read path).
Definition read_dir (path : string) : M (list string) :=
  logged (ReadDir path) (backend_read_dir path).
Definition available (path : string) : M Z :=
  logged (AvailableBytes path) (backend_available_bytes path).
Definition run (program : string) (arguments : list string) : M CommandOutput :=
  logged (Run program arguments) (backend_run program arguments).

Definition discover_package_lock : M bool :=
  r ← st_try (read "/run/zypp.pid");
  match r with
  | Err _ => mret true
  | Ok marker =>
      let marker := trim marker in
      if is_empty marker then mret true
      else
        pid ← st_lift (ok_or InvalidPackageManagerState
                (opt_filter (λ pid, (0 <? pid)%Z) (parse_u32 marker)));
        comm ← st_try (read ("/proc/" +:+ to_string pid +:+ "/comm"));
        mret (negb (is_ok comm))
  end.

Definition probe_mount (target : string) : M Mount :=
  output ← run "findmnt" (mounts_arguments target);
  if negb (success output) then st_throw (ReadFailed "mount-layout")
  else
    match parse_mounts (stdout output) with
    | Some [mount] => mret mount
    | _ => st_throw (ReadFailed "mount-layout")
    end.

Definition discover_esp : M (option Z) :=
  firmware ← read_dir "/sys/firmware";
  if contains firmware "efi" then
    esp ← probe_mount "/boot/efi";
    if (target esp !=? "/boot/efi") || negb (has_option esp "rw")
    then st_throw (ReadFailed "esp-not-writable")
    else bytes ← available "/boot/efi"; mret (Some bytes)
  else mret None.

Definition discover_storage : M StorageFacts :=
  root ← probe_mount "/";
  home ← probe_mount "/home";
  esp ← discover_esp;
  boot ← available "/boot";
  mret {|
    root_writable :=
      (target root ==? "/") && has_option root "rw" && negb (has_option root "degraded");
    Preflight.home_isolated := home_isolated root home;
    boot_available_bytes := boot;
    esp_available_bytes := esp |}.

Definition supply_byte (byte : ascii) : bool :=
  is_ascii_alphanumeric byte || byte_in "-_:" byte.

(** The loop over the power supplies: the capacities, whether external power is
    online and whether a battery hides its capacity. *)
Fixpoint power_supplies (batteries : list Z) (external unknown : bool)
    (entries : list string) : M (list Z * bool * bool) :=
  match entries with
  | [] => mret (batteries, external, unknown)
  | entry :: entries' =>
      if negb (bytes_all supply_byte entry) then st_throw InvalidPowerState
      else
        let base := "/sys/class/power_supply/" +:+ entry in
        kind ← st_map_err (λ _, InvalidPowerState) (read (base +:+ "/type"));
        if trim kind ==? "Battery" then
          capacity ← st_try (read (base +:+ "/capacity"));
          match capacity with
          | Ok text =>
              percent ← st_lift (ok_or InvalidPowerState
                (opt_filter (λ v, (v <=? 100)%Z) (parse_u8 (trim text))));
              power_supplies (batteries ++ [percent]) external unknown entries'
          | Err _ => power_supplies batteries external true entries'
          end
        else if contains ["Mains"; "USB"; "USB_C"] (trim kind) then
          online ← st_try (read (base +:+ "/online"));
          power_supplies batteries
            (external || match online with Ok v => trim v ==? "1" | Err _ => false end)
            unknown entries'
        else power_supplies batteries external unknown entries'
  end.

Definition minimum (l : list Z) : option Z :=
  match l with [] => None | x :: l' => Some (foldl Z.min x l') end.

Definition discover_power : M (bool * option Z) :=
  entries ← st_map_err (λ _, InvalidPowerState) (read_dir "/sys/class/power_supply");
  '(batteries, external, unknown) ← power_supplies [] false false entries;
  if unknown : bool then mret (negb external, None)
  else match batteries with
       | [] => mret (false, None)
       | _ => mret (negb external, minimum batteries)
       end.

Definition discover_secure_boot : M (option bool) :=
  r ← st_try (run "mokutil" ["--sb-state"]);
  mret (output ← opt_filter success (res_ok r);
        let normalized := to_ascii_lowercase (stdout output) in
        if contains_str "secureboot enabled" normalized then Some true
        else if contains_str "secureboot disabled" normalized then Some false
        else None).

Definition discover_repositories : M (list RepositoryFact) :=
  output ← run "zypper" ["--non-interactive"; "--no-refresh"; "lr"; "--details"];
  text ← st_lift (successful_stdout output "zypper-lr");
  rs ← st_lift (parse_repositories (lines text));
  mret (sort_by_key alias rs).

Definition discover_host : M HostFacts :=
  content ← read "/usr/lib/lyra-os/product-release";
  release ← st_lift (parse_release content);
  fstype ← run "findmnt" ["--noheadings"; "--output"; "FSTYPE"; "/"];
  fstype ← st_lift (successful_stdout fstype "findmnt");
  snapper ← run "snapper" ["--no-dbus"; "--config"; "root"; "get-config"];
  rpm ← run "rpm" ["--verifydb"];
  lock_free ← discover_package_lock;
  available_bytes ← available "/";
  '(on_battery, battery_percent) ← discover_power;
  secure_boot ← discover_secure_boot;
  repositories ← discover_repositories;
  locks ← run "zypper" ["--non-interactive"; "--no-refresh"; "locks"];
  held ← st_lift (package_inventory locks Locks);
  orphans ← run "zypper" ["--non-interactive"; "--no-refresh"; "packages"; "--orphaned"];
  orphaned ← st_lift (package_inventory orphans Orphans);
  storage ← discover_storage;
  mret {|
    release := {| version := rel_version release; edition := "desktop";
                  architecture := rel_architecture release;
                  build_id := rel_build_id release |};
    root_filesystem := to_ascii_lowercase (trim fstype);
    snapper_root_configured := success snapper;
    rpm_database_healthy := success rpm;
    package_lock_free := lock_free;
    available_bytes := available_bytes;
    required_download_bytes := 0;
    required_transaction_bytes := 0;
    required_snapshot_bytes := 0;
    on_battery := on_battery; battery_percent := battery_percent;
    secure_boot_enabled := secure_boot;
    repositories := repositories;
    held_packages := held;
    installed_packages := [];
    storage := Some storage;
    orphaned_packages := orphaned |}.

(** The identity in the release file below a root, [Path::join] on its text. *)
Definition release_identity_at (root : string) : result DiscoverError ReleaseIdentity :=
  content ← backend_read (root +:+ (if ends_with "/" root then "" else "/") +:+ "usr/lib/lyra-os/product-release");
  release ← parse_release content;
  Ok {| version := rel_version release; edition := "desktop";
        architecture := rel_architecture release; build_id := rel_build_id release |}.
End probes.

(* ------------------------------------------------------------------ *)
(** ** What discovery asks of the system *)

(** The calls discovery may make: fixed files and directories, the process of the
    package manager, the attributes of power supplies with names that cannot
    leave their directory, and the closed list of commands. *)
Inductive allowed_call : call → Prop :=
  | allowed_fixed path :
      path ∈ ["/usr/lib/lyra-os/product-release"; "/run/zypp.pid"] →
      allowed_call (Read path)
  | allowed_process pid :
      (0 < pid ≤ u32_max)%Z → allowed_call (Read ("/proc/" +:+ to_string pid +:+ "/comm"))
  | allowed_supply entry file :
      bytes_all supply_byte entry = true → file ∈ ["/type"; "/capacity"; "/online"] →
      allowed_call (Read (("/sys/class/power_supply/" +:+ entry) +:+ file))
  | allowed_directory path :
      path ∈ ["/sys/firmware"; "/sys/class/power_supply"] → allowed_call (ReadDir path)
  | allowed_space path :
      path ∈ ["/"; "/boot"; "/boot/efi"] → allowed_call (AvailableBytes path)
  | allowed_run program arguments :
      allowed_probe program arguments = true → allowed_call (Run program arguments).

Definition asks (w w' : list call) : Prop :=
  ∃ cs, w' = w ++ cs ∧ Forall allowed_call cs.

#[export] Instance asks_reflexive : Reflexive asks.
Proof. intros w. exists []. by rewrite app_nil_r. Qed.
#[export] Instance asks_transitive : Transitive asks.
Proof.
  intros w1 w2 w3 (c1 & -> & H1) (c2 & -> & H2). exists (c1 ++ c2).
  rewrite app_assoc. split; [done|]. by apply Forall_app.
Qed.

Lemma logged_asks {A} c (r : result DiscoverError A) :
  allowed_call c → st_rel asks (logged c r).
Proof. intros Hc w. exists [c]. split; [done|]. by constructor. Qed.

Section asking.
Context `{DiscoveryBackend} (parse_mounts : string → option (list Mount)).

Lemma run_asks program arguments :
  allowed_probe program arguments = true → st_rel asks (run program arguments).
Proof. intros Hc. by apply logged_asks, allowed_run. Qed.

Ltac ask :=
  repeat first
    [ apply st_rel_bind; [apply _| |intros ?]
    | apply st_rel_ret, _ | apply st_rel_lift, _ | apply st_rel_throw, _
    | apply st_rel_try | apply st_rel_map_err
    | apply run_asks; reflexivity
    | apply logged_asks, allowed_fixed; set_solver
    | apply logged_asks, allowed_directory; set_solver
    | apply logged_asks, allowed_space; set_solver
    | case_match ].

Lemma package_lock_asks : st_rel asks discover_package_lock.
Proof.
  unfold discover_package_lock.
  apply st_rel_bind; [apply _|ask|intros [marker|e]; [|ask]].
  cbv zeta. destruct (is_empty (trim marker)); [ask|].
  destruct (opt_filter _ (parse_u32 (trim marker))) as [pid|] eqn:Hp; [|by intros w].
  apply opt_filter_Some in Hp as [Hp Hpos].
  change (st_rel asks (comm ← st_try (read ("/proc/" +:+ to_string pid +:+ "/comm"));
    mret (M:=M) (negb (is_ok comm)))).
  apply st_rel_bind; [apply _| |intros ?; ask].
  apply st_rel_try, logged_asks, allowed_process.
  apply Z.ltb_lt in Hpos. apply parse_unsigned_range in Hp. lia.
Qed.

Lemma probe_mount_asks t :
  t ∈ ["/"; "/home"; "/boot/efi"] → st_rel asks (probe_mount parse_mounts t).
Proof.
  intros Ht. unfold probe_mount. apply st_rel_bind; [apply _| |intros o; ask].
  apply run_asks. rewrite !elem_of_cons, elem_of_nil in Ht.
  by destruct Ht as [->|[->|[->|[]]]].
Qed.

Lemma storage_asks : st_rel asks (discover_storage parse_mounts).
Proof.
  unfold discover_storage, discover_esp.
  repeat first [apply st_rel_bind; [apply _| |intros ?] | apply probe_mount_asks; set_solver];
    ask; apply probe_mount_asks; set_solver.
Qed.

Lemma power_supplies_asks batteries external unknown entries :
  st_rel asks (power_supplies batteries external unknown entries).
Proof.
  revert batteries external unknown.
  induction entries as [|entry entries IH]; intros batteries external unknown; cbn [power_supplies];
    [ask|].
  destruct (bytes_all supply_byte entry) eqn:He; cbn [negb]; [|ask].
  assert (∀ f, f ∈ ["/type"; "/capacity"; "/online"] →
    st_rel asks (read (("/sys/class/power_supply/" +:+ entry) +:+ f))) as Hr
    by (intros f Hf; by apply logged_asks, allowed_supply).
  cbv zeta. apply st_rel_bind; [apply _|apply st_rel_map_err, Hr; set_solver|intros kind].
  destruct (trim kind ==? "Battery").
  - apply st_rel_bind; [apply _|apply st_rel_try, Hr; set_solver|intros [text|e]; [|apply IH]].
    apply st_rel_bind; [apply _|ask|intros p; apply IH].
  - destruct (contains _ _); [|apply IH].
    apply st_rel_bind; [apply _|apply st_rel_try, Hr; set_solver|intros o; apply IH].
Qed.

Lemma discover_host_asks : st_rel asks (discover_host parse_mounts).
Proof.
  unfold discover_host, discover_power, discover_secure_boot, discover_repositories.
  repeat first
    [ apply package_lock_asks | apply storage_asks | apply power_supplies_asks
    | apply st_rel_bind; [apply _| |intros ?]
    | apply st_rel_map_err | apply st_rel_try | apply st_rel_lift, _ | apply st_rel_ret, _
    | apply run_asks; reflexivity
    | apply logged_asks; first [apply allowed_fixed|apply allowed_directory|apply allowed_space];
      set_solver
    | case_match ].
Qed.
End asking.

(** Whatever the system answers, discovery reads only its fixed files, the
    process named by the package manager's lock and the attributes of power
    supplies with safe names, lists two directories, measures three file systems,
    and runs only commands of the closed list. *)
Theorem discovery_surface `{DiscoveryBackend} parse_mounts :
  Forall allowed_call (discover_host parse_mounts []).2.
Proof. destruct (discover_host_asks parse_mounts []) as (cs & -> & Hcs). exact Hcs. Qed.

(* ------------------------------------------------------------------ *)
(** ** What discovery reports *)

Definition safe_field (s : string) : Prop :=
  s ≠ "" ∧ bytes_all is_safe_release_byte s = true.

Lemma is_empty_false s : is_empty s = false ↔ s ≠ "".
Proof. destruct s; simpl; split; congruence. Qed.

Lemma parse_release_Ok content r :
  parse_release content = Ok r ↔
    parse_assignment content "LYRA_EDITION" = Some "desktop"
    ∧ parse_assignment content "LYRA_VERSION_ID" = Some (rel_version r)
    ∧ parse_assignment content "LYRA_ARCHITECTURE" = Some (rel_architecture r)
    ∧ parse_assignment content "LYRA_BUILD_ID" = Some (rel_build_id r)
    ∧ safe_field (rel_version r) ∧ safe_field (rel_architecture r)
    ∧ safe_field (rel_build_id r).
Proof.
  unfold parse_release, safe_field.
  destruct (eqb (parse_assignment content "LYRA_EDITION") _) eqn:E; simpl negb; cbn iota.
  2: { apply eqb_false in E. split; [done|]. by intros []. }
  rewrite eqb_true in E. split.
  - intros H. res_inv. destruct (_ || _) eqn:Hx; [done|]. injection H as <-. simpl.
    rewrite !orb_false_iff, !negb_false_iff, !is_empty_false in Hx. tauto.
  - intros (_ & Hv & Ha & Hb & [Sv1 Sv2] & [Sa1 Sa2] & [Sb1 Sb2]).
    rewrite Hv, Ha, Hb. simpl.
    rewrite Sv2, Sa2, Sb2. rewrite (proj2 (is_empty_false _) Sv1),
      (proj2 (is_empty_false _) Sa1), (proj2 (is_empty_false _) Sb1). simpl. by destruct r.
Qed.

Definition discovered_repository (r : RepositoryFact) : Prop :=
  alias r ≠ "" ∧ bytes_all alias_byte (alias r) = true
  ∧ metadata_valid r = negb (enabled r)
  ∧ official r = contains official_aliases (alias r)
  ∧ (enabled r = false → signing_key_trusted r = true).

Lemma parse_repositories_Ok ls rs r :
  parse_repositories ls = Ok rs → r ∈ rs → discovered_repository r.
Proof.
  revert rs. induction ls as [|line ls IH]; simpl; intros rs H Hr.
  { injection H as <-. by apply elem_of_nil in Hr. }
  destruct (_ || is_none _); [eauto|].
  destruct (is_empty _ || _) eqn:Hv; [done|]. apply bind_Ok in H as (rs' & Hrs & H).
  injection H as <-. apply elem_of_cons in Hr as [->|Hr]; [|eauto].
  apply orb_false_iff in Hv as [Hv1 Hv2]. rewrite is_empty_false in Hv1.
  apply negb_false_iff in Hv2. repeat split; try done. simpl. by intros ->.
Qed.

Lemma power_supplies_range `{DiscoveryBackend} batteries external unknown entries w x w' :
  Forall (λ p, 0 ≤ p ≤ 100)%Z batteries →
  power_supplies batteries external unknown entries w = (Ok x, w') →
  Forall (λ p, 0 ≤ p ≤ 100)%Z x.1.1.
Proof.
  revert batteries external unknown w.
  induction entries as [|entry entries IH]; intros batteries external unknown w Hb Hx;
    cbn [power_supplies] in Hx.
  { by injection Hx as <- _. }
  destruct (negb _); [done|]. cbv zeta in Hx.
  apply st_bind_Ok in Hx as (kind & w1 & _ & Hx).
  destruct (trim kind ==? "Battery"); [|destruct (contains _ _); [|by eapply IH]].
  - apply st_bind_try in Hx as ([text|e] & w2 & _ & Hx); [|by eapply IH].
    apply st_bind_Ok in Hx as (p & w3 & Hp & Hx). injection Hp as Hp _.
    apply ok_or_Ok, opt_filter_Some in Hp as [Hp Hle].
    eapply IH; [|exact Hx]. apply Forall_app. split; [done|]. constructor; [|done].
    apply parse_unsigned_range in Hp. apply Z.leb_le in Hle. lia.
  - apply st_bind_try in Hx as (o & w2 & _ & Hx). by eapply IH.
Qed.

Lemma minimum_range l p :
  Forall (λ p, 0 ≤ p ≤ 100)%Z l → minimum l = Some p → (0 ≤ p ≤ 100)%Z.
Proof.
  destruct l as [|x l]; [done|]. simpl. rewrite Forall_cons. intros [Hx Hl] [= <-].
  revert x Hx. induction Hl as [|y l Hy Hl IH]; intros x Hx; simpl; [done|].
  apply IH. lia.
Qed.

Lemma discover_power_range `{DiscoveryBackend} w b p w' :
  discover_power w = (Ok (b, Some p), w') → (0 ≤ p ≤ 100)%Z.
Proof.
  unfold discover_power. intros Hx. apply st_bind_Ok in Hx as (entries & w1 & _ & Hx).
  apply st_bind_Ok in Hx as ([[l external] unknown] & w2 & Hl & Hx).
  apply power_supplies_range in Hl; [|constructor].
  destruct unknown; [discriminate Hx|]. destruct l as [|x l]; [discriminate Hx|].
  injection Hx as _ Hp _. apply (minimum_range (x :: l)); [done|]. simpl. by rewrite Hp.
Qed.

Lemma package_inventory_strict output kind values :
  package_inventory output kind = Ok values →
  success output = true ∧ StronglySorted (λ x y, le_of x y = true ∧ x ≠ y) values.
Proof.
  unfold package_inventory, successful_stdout. destruct (success output); [|done].
  intros H. apply bind_Ok in H as (text & _ & H).
  apply bind_Ok in H as ([[table seen] vs] & _ & H).
  destruct (_ || _); [done|]. injection H as <-. split; [done|]. apply sort_dedup_strict.
Qed.

(** The facts discovery vouches for. *)
Record discovered (facts : HostFacts) : Prop := {
  disc_edition : edition (release facts) = "desktop";
  disc_version : safe_field (version (release facts));
  disc_architecture : safe_field (architecture (release facts));
  disc_build : safe_field (build_id (release facts));
  disc_sizes : required_download_bytes facts = 0%Z
    ∧ required_transaction_bytes facts = 0%Z ∧ required_snapshot_bytes facts = 0%Z;
  disc_battery : ∀ p, battery_percent facts = Some p → (0 ≤ p ≤ 100)%Z;
  disc_repositories : ∀ r, r ∈ repositories facts → discovered_repository r;
  disc_held : StronglySorted (λ x y, le_of x y = true ∧ x ≠ y) (held_packages facts);
  disc_orphaned : StronglySorted (λ x y, le_of x y = true ∧ x ≠ y) (orphaned_packages facts);
  disc_storage : storage facts ≠ None;
}.

(** Both ways to read the release of the machine agree. *)
Lemma release_identity_discovered `{DiscoveryBackend} parse_mounts w facts w' :
  discover_host parse_mounts w = (Ok facts, w') → release_identity_at "/" = Ok (release facts).
Proof.
  unfold discover_host, release_identity_at. intros Hx.
  apply st_bind_Ok in Hx as (content & w1 & Hc & Hx).
  apply st_bind_Ok in Hx as (rel & w2 & Hrel & Hx). injection Hrel as Hrel _.
  change ("/" +:+ (if ends_with "/" "/" then "" else "/") +:+ "usr/lib/lyra-os/product-release")
    with "/usr/lib/lyra-os/product-release".
  injection Hc as -> _. cbn. rewrite Hrel. cbn.
  do 6 (apply st_bind_Ok in Hx as (? & ? & _ & Hx)). apply st_bind_Ok in Hx as ([] & ? & _ & Hx).
  do 7 (apply st_bind_Ok in Hx as (? & ? & _ & Hx)). by injection Hx as <- _.
Qed.

Lemma discover_host_discovered `{DiscoveryBackend} parse_mounts w facts w' :
  discover_host parse_mounts w = (Ok facts, w') → discovered facts.
Proof.
  unfold discover_host. intros Hx.
  apply st_bind_Ok in Hx as (content & w1 & _ & Hx).
  apply st_bind_Ok in Hx as (rel & w2 & Hrel & Hx). injection Hrel as Hrel _.
  apply parse_release_Ok in Hrel as (_ & _ & _ & _ & Hv & Ha & Hb).
  do 6 (apply st_bind_Ok in Hx as (? & ? & _ & Hx)).
  apply st_bind_Ok in Hx as ([onb bat] & w9 & Hbat & Hx).
  apply st_bind_Ok in Hx as (? & ? & _ & Hx).
  apply st_bind_Ok in Hx as (rs & w10 & Hrs & Hx).
  apply st_bind_Ok in Hx as (? & ? & _ & Hx).
  apply st_bind_Ok in Hx as (held & ? & Hheld & Hx). injection Hheld as Hheld _.
  apply st_bind_Ok in Hx as (? & ? & _ & Hx).
  apply st_bind_Ok in Hx as (orph & ? & Horph & Hx). injection Horph as Horph _.
  apply st_bind_Ok in Hx as (? & ? & _ & Hx). injection Hx as <- _.
  split; simpl; try done.
  - intros p ->. by eapply discover_power_range.
  - unfold discover_repositories in Hrs.
    do 2 (apply st_bind_Ok in Hrs as (? & ? & _ & Hrs)).
    apply st_bind_Ok in Hrs as (rs0 & ? & Hp & Hrs). injection Hp as Hp _.
    injection Hrs as <- _. intros r Hr. unfold sort_by_key in Hr.
    rewrite sort_by_elem in Hr. by eapply parse_repositories_Ok.
  - by apply package_inventory_strict in Hheld as [_ ?].
  - by apply package_inventory_strict in Horph as [_ ?].
Qed.


(* ------------------------------------------------------------------ *)
(** ** The release file *)

(** A release file as it is installed. *)
Definition assignment (name value : string) : string :=
  name +:+ "=" +:+ "'" +:+ value +:+ "'".
Definition render_release (r : ParsedRelease) : string :=
  foldr (λ l s, l +:+ String nl s) ""
    [assignment "LYRA_EDITION" "desktop"; assignment "LYRA_ARCHITECTURE" (rel_architecture r);
     assignment "LYRA_VERSION_ID" (rel_version r); assignment "LYRA_BUILD_ID" (rel_build_id r)].

Lemma safe_line (name value : string) :
  bytes_all is_safe_release_byte value = true →
  bytes_all is_safe_release_byte name = true →
  bytes_all (λ b, negb (Ascii.eqb b nl) && negb (Ascii.eqb b cr)) (assignment name value) = true.
Proof.
  assert (∀ s, bytes_all is_safe_release_byte s = true →
    bytes_all (λ b, negb (Ascii.eqb b nl) && negb (Ascii.eqb b cr)) s = true) as Hs.
  { intros s. apply bytes_all_impl. intros b Hb.
    destruct (Ascii.eqb_spec b nl) as [->|]; [discriminate Hb|].
    destruct (Ascii.eqb_spec b cr) as [->|]; [discriminate Hb|done]. }
  intros Hv Hn. unfold assignment. rewrite !bytes_all_app. rewrite (Hs name Hn), (Hs value Hv).
  reflexivity.
Qed.

(** Reading back an installed release file gives its version, architecture and
    build identity, for every identity with safe, non-empty fields. *)
Theorem parse_release_roundtrip r :
  safe_field (rel_version r) → safe_field (rel_architecture r) →
  safe_field (rel_build_id r) →
  parse_release (render_release r) = Ok r.
Proof.
  intros Hv Ha Hb.
  assert (lines (render_release r) =
    [assignment "LYRA_EDITION" "desktop"; assignment "LYRA_ARCHITECTURE" (rel_architecture r);
     assignment "LYRA_VERSION_ID" (rel_version r);
     assignment "LYRA_BUILD_ID" (rel_build_id r)]) as Hlines.
  { unfold render_release. cbn [foldr].
    destruct Hv as [_ Hv], Ha as [_ Ha], Hb as [_ Hb].
    by rewrite !lines_cons by (by apply safe_line). }
  apply parse_release_Ok. unfold parse_assignment. rewrite Hlines.
  assert (∀ v, strip_suffix "'" (v +:+ "'") = Some v) as Hsuf
    by (intros v; by apply strip_suffix_Some).
  repeat split; try done; try apply Hv; try apply Ha; try apply Hb; simpl; apply Hsuf.
Qed.

(* ------------------------------------------------------------------ *)
(** ** A concrete host *)

Definition sample_backend : DiscoveryBackend := {|
  backend_read := λ path,
    if path ==? "/usr/lib/lyra-os/product-release" then
      Ok (render_release {| rel_version := "1.0"; rel_architecture := "x86_64";
                            rel_build_id := "lyra-release-1.0" |})
    else Err (ReadFailed "fixture");
  backend_read_dir := λ path, Ok [];
  backend_available_bytes := λ path, Ok 10000000000%Z;
  backend_run := λ program arguments,
    Ok {| success := true;
          stdout :=
            if program ==? "findmnt" then "btrfs"
            else if contains arguments "lr" then
              "1 | repo-lyra | Lyra | Yes | Yes | Yes | 1 | rpm-md | https://example.invalid"
            else if contains arguments "locks" then "There are no package locks defined."
            else "No packages found." |} |}.
Definition sample_mounts (text : string) : option (list Mount) :=
  Some [{| target := "/"; options := "rw,subvolid=256"; device := "0:30" |}].

Definition sample_discovered : HostFacts :=
  match (@discover_host sample_backend sample_mounts []).1 with
  | Ok facts => facts
  | Err _ => sample_facts
  end.

Lemma sample_discovery_ok :
  @discover_host sample_backend sample_mounts []
  = (Ok sample_discovered, (@discover_host sample_backend sample_mounts []).2).
Proof. apply pair_with_fst. vm_compute. reflexivity. Qed.


Lemma parse_release_roundtrip_witness :
  parse_release (render_release {| rel_version := "1.0"; rel_architecture := "x86_64";
                                   rel_build_id := "b-1" |})
  = Ok {| rel_version := "1.0"; rel_architecture := "x86_64"; rel_build_id := "b-1" |}.
Proof. apply parse_release_roundtrip; (split; [discriminate|reflexivity]). Defined.
