(* ===== verification/Protocol.v ===== *)
(** * The protocol of clients and service (src/protocol/src/lib.rs)

    Requests, responses, events and the predicates that gate a request: the
    protocol version, its identifier and whether it needs authorization. *)

From S2P Require Import Prelude RustStr Recovery State Preflight Solver Plan ManifestData.

Open Scope bool_scope.
Open Scope lyra_scope.

Definition PROTOCOL_VERSION : Z := 3.

Inductive RecoveryAction : Set := ShowDiagnostics | Rollback | KeepCurrent.
Inductive EventLevel : Set := Info | Warning | Level_Error.
Inductive EventSource : Set := Source_Service | ZypperStdout | ZypperStderr.

Record TechnicalLine := {
  line_source : EventSource;
  line_text : string;
  line_truncated : bool;
}.

Record OperationEvent := {
  event_operation_id : string;
  event_sequence : Z;
  occurred_at : string;
  event_state : OperationState;
  level : EventLevel;
  message_id : string;
  fields : gmap string string;
  technical : option TechnicalLine;
}.

Record PlannedUpdate := {
  planned_facts : HostFacts;
  planned_solver : SolverResult;
  planned_preflight : PreflightReport;
  planned_plan : UpgradePlan;
  planned_sha256 : string;
  planned_manifest : option ReleaseManifest;
}.

#[export] Instance RecoveryAction_eq_dec : EqDecision RecoveryAction.
Proof. solve_decision. Defined.
#[export] Instance EventLevel_eq_dec : EqDecision EventLevel.
Proof. solve_decision. Defined.
#[export] Instance EventSource_eq_dec : EqDecision EventSource.
Proof. solve_decision. Defined.
#[export] Instance TechnicalLine_eq_dec : EqDecision TechnicalLine.
Proof. solve_decision. Defined.
#[export] Instance OperationEvent_eq_dec : EqDecision OperationEvent.
Proof. solve_decision. Defined.
#[export] Instance HostFacts_eq_dec : EqDecision HostFacts.
Proof. solve_decision. Defined.
#[export] Instance SolverResult_eq_dec : EqDecision SolverResult.
Proof. solve_decision. Defined.
#[export] Instance PreflightReport_eq_dec : EqDecision PreflightReport.
Proof. solve_decision. Defined.
#[export] Instance PlannedUpdate_eq_dec : EqDecision PlannedUpdate.
Proof. solve_decision. Defined.

Inductive Request : Type :=
  | CheckRelease (version : Z) (id : string)
  | ReadTrustState (version : Z) (id : string)
  | ReadRecoveryReadiness (version : Z) (id : string)
  | Inspect (version : Z) (id : string)
  | PlanUpdate (version : Z) (id : string)
  | PlanReleaseUpgrade (version : Z) (id manifest_sha256 : string)
  | Start (version : Z) (id operation_id plan_sha256 : string) (confirmed : bool)
      (planned : PlannedUpdate)
  | Status (version : Z) (id operation_id : string) (after_sequence : option Z)
  | Cancel (version : Z) (id operation_id : string)
  | AcknowledgeRecovery (version : Z) (id operation_id : string)
      (recovery_action : RecoveryAction).

Inductive Response : Type :=
  | PreflightBlocked (id : string) (issues : list PreflightIssue)
  | ReleaseOffer (id manifest_sha256 : string) (manifest : ReleaseManifest) (cached : bool)
  | TrustState (id : string) (last_manifest_sequence : option Z)
  | RecoveryReadiness (id : string) (snapper_root_configured : bool)
  | Rejected (id error_code : string)
  | Accepted (id : string) (operation_id : option string)
  | Inspection (id : string) (facts : HostFacts) (preflight : PreflightReport)
  | Response_Plan (id operation_id plan_sha256 : string) (plan : UpgradePlan)
      (preflight : PreflightReport) (planned : PlannedUpdate)
  | Response_Status (id operation_id : string) (sequence : Z) (state : OperationState)
      (snapshot_number : option Z) (recovered : bool) (error_code : option string)
      (events : list OperationEvent) (report : option InventoryReport).

Definition protocol_version (self : Request) : Z :=
  match self with
  | CheckRelease v _ | ReadTrustState v _ | ReadRecoveryReadiness v _ | Inspect v _
  | PlanUpdate v _ | PlanReleaseUpgrade v _ _ | Start v _ _ _ _ _ | Status v _ _ _
  | Cancel v _ _ | AcknowledgeRecovery v _ _ _ => v
  end.

Definition is_supported (self : Request) : bool :=
  (protocol_version self =? PROTOCOL_VERSION)%Z.

Definition request_id (self : Request) : string :=
  match self with
  | CheckRelease _ i | ReadTrustState _ i | ReadRecoveryReadiness _ i | Inspect _ i
  | PlanUpdate _ i | PlanReleaseUpgrade _ i _ | Start _ i _ _ _ _ | Status _ i _ _
  | Cancel _ i _ | AcknowledgeRecovery _ i _ _ => i
  end.

Definition needs_authorization (self : Request) : bool :=
  match self with
  | Start _ _ _ _ _ _ | Cancel _ _ _ => true
  | AcknowledgeRecovery _ _ _ (Rollback | KeepCurrent) => true
  | _ => false
  end.
