(* ===== verification/EventLog.v ===== *)
(** * The event log (src/service/src/event_log.rs)

    The type [EventLog]: the events of an operation in memory, with a bounded
    share of technical lines. The file of the events is in EventFile.v. *)

From S2P Require Import Prelude RustStr State Sanitize Protocol.

Open Scope bool_scope.
Open Scope lyra_scope.

Definition MAX_TECHNICAL_LINES : Z := 10000.
Definition MAX_TECHNICAL_BYTES : Z := 4 * 1024 * 1024.
Record EventLog := {
  events : list OperationEvent;
  technical_lines : Z;
  technical_bytes : Z;
  last_sequence : Z;
  persistence_failed : bool;
}.

Definition default_log : EventLog := {|
  events := []; technical_lines := 0; technical_bytes := 0; last_sequence := 0;
  persistence_failed := false |}.

Definition next_sequence (self : EventLog) : Z := saturating_add (last_sequence self) 1.

Definition is_technical (e : OperationEvent) : bool := is_some (technical e).
Definition technical_size (e : OperationEvent) : Z :=
  match technical e with Some line => str_len (line_text line) | None => 0 end.

(** [position] and [remove]: the first technical event and the list without it. *)
Fixpoint remove_first_technical (l : list OperationEvent)
  : option (OperationEvent * list OperationEvent) :=
  match l with
  | [] => None
  | e :: l' =>
      if is_technical e then Some (e, l')
      else '(x, r) ← remove_first_technical l'; Some (x, e :: r)
  end.

Definition over_limit (self : EventLog) : bool :=
  (MAX_TECHNICAL_LINES <? technical_lines self)%Z
  || (MAX_TECHNICAL_BYTES <? technical_bytes self)%Z.

(** The loop of [trim_technical]; one event leaves the log at every turn but the
    last, so that the number of events and one is enough fuel. *)
Fixpoint trim_from (fuel : nat) (self : EventLog) : EventLog :=
  match fuel with
  | O => self
  | S fuel' =>
      if over_limit self then
        match remove_first_technical (events self) with
        | None => {| events := events self; technical_lines := 0; technical_bytes := 0;
                     last_sequence := last_sequence self;
                     persistence_failed := persistence_failed self |}
        | Some (e, rest) =>
            trim_from fuel' {|
              events := rest;
              technical_lines := saturating_sub (technical_lines self) 1;
              technical_bytes := saturating_sub (technical_bytes self) (technical_size e);
              last_sequence := last_sequence self;
              persistence_failed := persistence_failed self |}
        end
      else self
  end.
Definition trim_technical (self : EventLog) : EventLog :=
  trim_from (S (length (events self))) self.

Definition high_sequence (e : OperationEvent) : option Z :=
  fields e !! "high_sequence" ≫= parse_u64.

Definition restore_event (log : EventLog) (event : OperationEvent) : EventLog := {|
  events := events log ++ [event];
  technical_lines := technical_lines log + (if is_technical event then 1 else 0);
  technical_bytes := technical_bytes log + technical_size event;
  last_sequence :=
    let high := Z.max (last_sequence log) (event_sequence event) in
    if (event_sequence event =? 0)%Z then Z.max high (default 0%Z (high_sequence event))
    else high;
  persistence_failed := persistence_failed log |}.
Definition restore (l : list OperationEvent) : EventLog :=
  trim_technical (foldl restore_event default_log l).

Definition push_normative (self : EventLog) (event : OperationEvent) : EventLog := {|
  events := events self ++ [event];
  technical_lines := technical_lines self; technical_bytes := technical_bytes self;
  last_sequence := Z.max (last_sequence self) (event_sequence event);
  persistence_failed := persistence_failed self |}.

Definition with_technical (e : OperationEvent) (t : option TechnicalLine) : OperationEvent := {|
  event_operation_id := event_operation_id e; event_sequence := event_sequence e;
  occurred_at := occurred_at e; event_state := event_state e; level := level e;
  message_id := message_id e; fields := fields e; technical := t |}.

Definition push_technical (self : EventLog) (event : OperationEvent)
    (source : EventSource) (raw : string) : option (EventLog * OperationEvent) :=
  sanitized ← sanitize_technical_line raw;
  let event := with_technical event (Some {|
    line_source := source; line_text := text sanitized;
    line_truncated := truncated sanitized |}) in
  Some (trim_technical {|
    events := events self ++ [event];
    technical_lines := saturating_add (technical_lines self) 1;
    technical_bytes := saturating_add (technical_bytes self) (str_len (text sanitized));
    last_sequence := Z.max (last_sequence self) (event_sequence event);
    persistence_failed := persistence_failed self |}, event).

Definition after (self : EventLog) (sequence : Z) : list OperationEvent :=
  List.filter (λ event, (sequence <? event_sequence event)%Z) (events self).

(* ------------------------------------------------------------------ *)
(** ** Counting technical lines *)

Definition tcount (l : list OperationEvent) : Z :=
  Z.of_nat (length (List.filter is_technical l)).
Definition tsize (l : list OperationEvent) : Z := foldr (λ e n, technical_size e + n)%Z 0%Z l.
Definition normative (l : list OperationEvent) : list OperationEvent :=
  List.filter (λ e, negb (is_technical e)) l.
Definition technical_of (l : list OperationEvent) : list OperationEvent :=
  List.filter is_technical l.

Lemma technical_size_nonneg e : (0 ≤ technical_size e)%Z.
Proof. unfold technical_size, str_len. destruct (technical e); lia. Qed.

Lemma tsize_app l1 l2 : tsize (l1 ++ l2) = (tsize l1 + tsize l2)%Z.
Proof. induction l1 as [|e l1 IH]; simpl; [done|]. rewrite IH. lia. Qed.

Lemma tsize_nonneg l : (0 ≤ tsize l)%Z.
Proof. induction l as [|e l IH]; simpl; [done|]. pose proof (technical_size_nonneg e). lia. Qed.

Lemma tcount_app l1 l2 : tcount (l1 ++ l2) = (tcount l1 + tcount l2)%Z.
Proof. unfold tcount. rewrite List.filter_app, length_app. lia. Qed.

Lemma normative_size e : is_technical e = false → technical_size e = 0%Z.
Proof. unfold is_technical, technical_size. by destruct (technical e). Qed.

Lemma remove_first_None l :
  remove_first_technical l = None → tcount l = 0%Z ∧ tsize l = 0%Z.
Proof.
  induction l as [|e l IH]; simpl; [done|]. unfold tcount. simpl.
  destruct (is_technical e) eqn:He; [done|].
  destruct (remove_first_technical l) as [[x r]|]; [done|]. intros _.
  destruct IH as [IH1 IH2]; [done|]. rewrite (normative_size e He), IH2. done.
Qed.

Lemma remove_first_Some l e rest :
  remove_first_technical l = Some (e, rest) →
  is_technical e = true
  ∧ ∃ a b, l = a ++ e :: b ∧ rest = a ++ b ∧ technical_of a = [].
Proof.
  revert rest. induction l as [|x l IH]; simpl; [done|]. intros rest.
  destruct (is_technical x) eqn:Hx.
  - intros [= <- <-]. split; [done|]. by exists [], l.
  - destruct (remove_first_technical l) as [[y r]|] eqn:E; [|done]. intros [= <- <-].
    destruct (IH _ eq_refl) as (Hy & a & b & -> & -> & Ha). split; [done|].
    exists (x :: a), b. split; [done|]. split; [done|]. unfold technical_of. simpl.
    by rewrite Hx.
Qed.

(** The counters are those of the events. *)
Definition counted (log : EventLog) : Prop :=
  technical_lines log = tcount (events log) ∧ technical_bytes log = tsize (events log).

(** What trimming does: the oldest technical lines go, everything else stays. *)
Record trimmed (log log' : EventLog) : Prop := {
  trim_counted : counted log';
  trim_bounded : over_limit log' = false;
  trim_normative : normative (events log') = normative (events log);
  trim_oldest : ∃ dropped, technical_of (events log) = dropped ++ technical_of (events log');
  trim_elem : ∀ e, e ∈ events log' → e ∈ events log;
  trim_sequence : last_sequence log' = last_sequence log;
}.

Lemma trim_from_spec fuel log :
  counted log → length (events log) < fuel → trimmed log (trim_from fuel log).
Proof.
  revert log. induction fuel as [|fuel IH]; intros log Hc Hf; [lia|]. simpl.
  destruct (over_limit log) eqn:Ho.
  2: { split; try done. by exists []. }
  destruct (remove_first_technical (events log)) as [[e rest]|] eqn:Hr.
  2: { apply remove_first_None in Hr as [H1 H2]. destruct Hc as [Hc1 Hc2]. exfalso.
       unfold over_limit in Ho. rewrite Hc1, Hc2, H1, H2 in Ho. done. }
  apply remove_first_Some in Hr as (He & a & b & Hl & -> & Ha). destruct Hc as [Hc1 Hc2].
  match goal with |- trimmed _ (trim_from _ ?l) => set (log1 := l) end.
  assert (counted log1) as Hc'.
  { split; simpl; unfold saturating_sub; rewrite ?Hc1, ?Hc2, Hl.
    - rewrite !tcount_app. unfold tcount at 2 4. simpl. rewrite He. simpl.
      unfold tcount. lia.
    - rewrite !tsize_app. simpl.
      pose proof (tsize_nonneg a). pose proof (tsize_nonneg b). lia. }
  destruct (IH log1 Hc') as [H1 H2 H3 H4 H5 H6].
  { simpl. rewrite Hl in Hf. rewrite !length_app in *. simpl in Hf. lia. }
  split; try done.
  - rewrite H3, Hl. simpl. unfold normative. rewrite !List.filter_app. simpl. by rewrite He.
  - destruct H4 as [d Hd]. exists (e :: d). rewrite Hl. unfold technical_of in *.
    rewrite List.filter_app. simpl. rewrite He, Ha. simpl. f_equal. rewrite <-Hd. simpl.
    by rewrite List.filter_app, Ha.
  - intros x Hx. apply H5 in Hx. simpl in Hx. rewrite Hl. set_solver.
Qed.

Lemma trim_technical_spec log : counted log → trimmed log (trim_technical log).
Proof. intros H. apply trim_from_spec; [done|lia]. Qed.

(* ------------------------------------------------------------------ *)
(** ** Every log the service builds *)

(** What the service pushes: a milestone, or a raw line of a program. *)
Inductive push : Type :=
  | Normative (event : OperationEvent)
  | Technical (event : OperationEvent) (source : EventSource) (raw : string).

Definition push_step (log : EventLog) (p : push) : option EventLog :=
  match p with
  | Normative event => Some (push_normative log event)
  | Technical event source raw => fst <$> push_technical log event source raw
  end.
Fixpoint push_all (log : EventLog) (ps : list push) : option EventLog :=
  match ps with [] => Some log | p :: ps' => log' ← push_step log p; push_all log' ps' end.

(** The event a push is stored as. *)
Definition pushed (p : push) (e : OperationEvent) : Prop :=
  match p with
  | Normative event => e = event
  | Technical event source raw =>
      ∃ line, sanitize_technical_line raw = Some line
      ∧ e = with_technical event (Some {|
          line_source := source; line_text := text line; line_truncated := truncated line |})
  end.

(** [log] is what is kept of the events [es]. *)
Record keeps_log (es : list OperationEvent) (log : EventLog) : Prop := {
  kl_counted : counted log;
  kl_bounded : over_limit log = false;
  kl_normative : normative (events log) = normative es;
  kl_suffix : ∃ dropped, technical_of es = dropped ++ technical_of (events log);
  kl_sequence : ∀ e, e ∈ es → (event_sequence e ≤ last_sequence log)%Z;
}.

Lemma keeps_log_trim es log log' :
  trimmed log log' → normative (events log) = normative es →
  (∃ d, technical_of es = d ++ technical_of (events log)) →
  (∀ e, e ∈ es → (event_sequence e ≤ last_sequence log)%Z) → keeps_log es log'.
Proof.
  intros [H1 H2 H3 [d Hd] _ H6] Hn [d' Hd'] Hs. split; try done.
  - by rewrite H3.
  - exists (d' ++ d). by rewrite Hd', Hd, app_assoc.
  - intros e He. rewrite H6. auto.
Qed.

Lemma restore_foldl l log :
  let log' := foldl restore_event log l in
  (counted log → counted log') ∧ events log' = events log ++ l
  ∧ (last_sequence log ≤ last_sequence log')%Z
  ∧ ∀ e, e ∈ l → (event_sequence e ≤ last_sequence log')%Z.
Proof.
  revert log. induction l as [|e l IH]; intros log; simpl.
  { rewrite app_nil_r. split; [done|]. split; [done|]. split; [done|]. by intros e He%elem_of_nil. }
  destruct (IH (restore_event log e)) as (H1 & H2 & H3 & H4).
  assert (last_sequence log ≤ last_sequence (restore_event log e)
          ∧ event_sequence e ≤ last_sequence (restore_event log e))%Z as [Hm1 Hm2].
  { simpl. destruct (_ =? 0)%Z; lia. }
  split; [|split; [|split; [lia|]]].
  - intros [Hc1 Hc2]. apply H1. split; simpl.
    + rewrite Hc1, tcount_app. f_equal. unfold tcount. simpl. by destruct (is_technical e).
    + rewrite Hc2, tsize_app. simpl. lia.
  - rewrite H2. simpl. by rewrite <-app_assoc.
  - intros x [->|Hx]%elem_of_cons; [lia|auto].
Qed.

Lemma restore_keeps l : keeps_log l (restore l).
Proof.
  unfold restore. pose proof (restore_foldl l default_log) as (H1 & H2 & _ & H4). simpl in *.
  eapply keeps_log_trim; [by apply trim_technical_spec, H1| | |done].
  - by rewrite H2.
  - exists []. by rewrite H2.
Qed.

Lemma tcount_snoc l e :
  tcount (l ++ [e]) = (tcount l + (if is_technical e then 1 else 0))%Z.
Proof. rewrite tcount_app. f_equal. unfold tcount. simpl. by destruct (is_technical e). Qed.
Lemma tsize_snoc l e : tsize (l ++ [e]) = (tsize l + technical_size e)%Z.
Proof. rewrite tsize_app. simpl. lia. Qed.

Lemma push_keeps es log p log' :
  (match p with Normative e => technical e = None | _ => True end) →
  keeps_log es log → push_step log p = Some log' →
  ∃ e, pushed p e ∧ keeps_log (es ++ [e]) log'.
Proof.
  intros Hp [[Hc1 Hc2] Hb Hn [d Hd] Hs] Hstep. destruct p as [event|event source raw].
  - injection Hstep as <-. exists event. split; [done|].
    assert (is_technical event = false) as Ht by (by unfold is_technical; rewrite Hp).
    split; simpl.
    + split; simpl; [rewrite tcount_snoc, Ht|rewrite tsize_snoc, (normative_size _ Ht)]; lia.
    + done.
    + unfold normative in *. by rewrite !List.filter_app, Hn.
    + exists d. unfold technical_of in *. rewrite !List.filter_app, Hd. simpl.
      by rewrite Ht, !app_nil_r.
    + intros e [He| ->%list_elem_of_singleton]%elem_of_app; [|lia].
      specialize (Hs e He). lia.
  - simpl in Hstep. unfold push_technical in Hstep.
    destruct (sanitize_technical_line raw) as [line|] eqn:El; simpl in Hstep; [|done].
    injection Hstep as <-.
    eexists. split; [exists line; by split|].
    eapply keeps_log_trim; [apply trim_technical_spec|..]; simpl.
    + pose proof (sanitize_length raw line El) as Hl.
      assert (str_len (text line) ≤ 4096)%Z as Hl'.
      { unfold str_len. change 4096%Z with (Z.of_nat MAX_TECHNICAL_LINE_BYTES). lia. }
      unfold over_limit in Hb. apply orb_false_iff in Hb as [Hb1%Z.ltb_ge Hb2%Z.ltb_ge].
      unfold MAX_TECHNICAL_LINES, MAX_TECHNICAL_BYTES in *.
      split; cbn [technical_lines technical_bytes events]; unfold saturating_add, u64_max.
      * rewrite tcount_snoc, <-Hc1. cbn. lia.
      * rewrite tsize_snoc, <-Hc2. cbn [technical_size with_technical technical line_text]. lia.
    + unfold normative in *. by rewrite !List.filter_app, Hn.
    + exists d. unfold technical_of in *. by rewrite !List.filter_app, Hd, app_assoc.
    + intros e [He| ->%list_elem_of_singleton]%elem_of_app; simpl; [|lia].
      specialize (Hs e He). lia.
Qed.

(** A log restored from any history and fed any sequence of events keeps
    every normative event in order and the most recent technical lines, at most
    10000 of them and 4 MiB, with counters that are exact; its next sequence
    number is above that of every event it was ever given. *)
Theorem log_bounded l ps log :
  (∀ e, Normative e ∈ ps → technical e = None) → push_all (restore l) ps = Some log →
  ∃ es, Forall2 pushed ps es
  ∧ normative (events log) = normative (l ++ es)
  ∧ (∃ dropped, technical_of (l ++ es) = dropped ++ technical_of (events log))
  ∧ technical_lines log = Z.of_nat (length (technical_of (events log)))
  ∧ technical_bytes log = tsize (events log)
  ∧ (technical_lines log ≤ MAX_TECHNICAL_LINES)%Z
  ∧ (technical_bytes log ≤ MAX_TECHNICAL_BYTES)%Z
  ∧ ∀ e, e ∈ l ++ es → (event_sequence e < u64_max)%Z → (event_sequence e < next_sequence log)%Z.
Proof.
  intros Hps Hall. assert (∃ es, Forall2 pushed ps es ∧ keeps_log (l ++ es) log) as (es & Hes & Hk).
  { revert Hps Hall. generalize (restore_keeps l). generalize (restore l) as log0.
    revert l. induction ps as [|p ps IH]; intros l log0 Hk Hps Hall.
    { injection Hall as <-. exists []. by rewrite app_nil_r. }
    simpl in Hall. destruct (push_step log0 p) as [log1|] eqn:Ep; [|done].
    destruct (push_keeps l log0 p log1) as (e & He & Hk1); [|done..|].
    { destruct p; [apply Hps; set_solver|done]. }
    destruct (IH (l ++ [e]) log1) as (es & Hes & Hk2); [done|set_solver|done|].
    exists (e :: es). split; [by constructor|]. by rewrite <-app_assoc in Hk2. }
  exists es. destruct Hk as [[H1 H2] H3 H4 H5 H6]. rewrite H1, H2 in *.
  unfold over_limit in H3. apply orb_false_iff in H3 as [Hb1%Z.ltb_ge Hb2%Z.ltb_ge].
  rewrite H1 in Hb1. rewrite H2 in Hb2. repeat split; try done.
  intros e He Hm. specialize (H6 e He). unfold next_sequence, saturating_add, u64_max in *. lia.
Qed.

Definition sample_line_event : OperationEvent := {|
  event_operation_id := "id"; event_sequence := 7; occurred_at := "now";
  event_state := Applying; level := Info; message_id := "technical-line"; fields := ∅;
  technical := None |}.
Definition sample_pushes : list push :=
  [Normative sample_line_event; Technical sample_line_event ZypperStdout "token=abc ok"].

Lemma log_bounded_witness :
  ∃ log, push_all (restore [sample_line_event]) sample_pushes = Some log
         ∧ (technical_lines log ≤ MAX_TECHNICAL_LINES)%Z.
Proof.
  destruct (push_all (restore [sample_line_event]) sample_pushes) as [log|] eqn:E.
  - exists log. split; [done|].
    destruct (log_bounded [sample_line_event] sample_pushes log) as (es & _ & _ & _ & _ & _ & H & _).
    + intros e He. unfold sample_pushes in He. apply elem_of_cons in He as [He|He]; [by inversion He|].
      apply list_elem_of_singleton in He. discriminate.
    + exact E.
    + exact H.
  - exfalso. vm_compute in E. discriminate.
Defined.
