(* ===== verification/EventFile.v ===== *)
(** * The file of the events (src/service/src/event_log.rs)

    One JSON line per event, appended under a lock, read back as far as it is
    well formed, compacted through a temporary file when it would exceed 8 MiB.
    The serializer and the parser of an event are the parameters [to_vec] and
    [from_slice], the name the temporary file gets the parameter [temporary]. *)

From stdpp Require Import finite.
From S2P Require Import Prelude RustStr State Sanitize Protocol Fs EventLog.

Open Scope bool_scope.
Open Scope lyra_scope.

Definition MAX_PERSISTED_EVENT_BYTES : Z := 8 * 1024 * 1024.
Definition MAX_RECORD_BYTES : Z := 16 * 1024.
Definition MAX_LEGACY_BYTES : Z := MAX_PERSISTED_EVENT_BYTES + MAX_RECORD_BYTES.
Definition TRUNCATED_MESSAGE : string := "history-truncated".

Inductive EventLogError : Set :=
  | UnsafePath | TooLarge | Io (e : IoError) | Json | InvalidHistory.

(** How a call ends without a value: an error, or a panic. *)
Inductive stop : Set := Error (e : EventLogError) | Panicked.

#[export] Instance EventLogError_eq_dec : EqDecision EventLogError.
Proof. solve_decision. Defined.
#[export] Instance stop_eq_dec : EqDecision stop.
Proof. solve_decision. Defined.

(** The text of a file without its first [n] bytes, and its first [n] bytes. *)
Fixpoint skip_bytes (n : Z) (s : string) : string :=
  match s with
  | EmptyString => ""
  | String _ s' => if (n <=? 0)%Z then s else skip_bytes (n - 1) s'
  end.

Fixpoint take_bytes (n : Z) (s : string) : string :=
  match s with
  | EmptyString => ""
  | String b s' => if (n <=? 0)%Z then "" else String b (take_bytes (n - 1) s')
  end.

(** [take(n).read_until(b'\n')]: the bytes read and the rest. *)
Fixpoint read_until (n : Z) (s : string) : string * string :=
  match s with
  | EmptyString => ("", "")
  | String b s' =>
      if (n <=? 0)%Z then ("", s)
      else if Ascii.eqb b nl then (String b "", s')
      else let '(x, y) := read_until (n - 1) s' in (String b x, y)
  end.

Fixpoint ends_nl (s : string) : bool :=
  match s with
  | EmptyString => false
  | String b EmptyString => Ascii.eqb b nl
  | String _ s' => ends_nl s'
  end.

Definition valid_operation_id (value : string) : bool :=
  (str_len value =? 36)%Z
  && bytes_alli (λ index byte,
       match index with
       | 8 | 13 | 18 | 23 => Ascii.eqb byte "-"
       | _ => is_ascii_hexdigit byte && negb (is_ascii_uppercase byte)
       end) value.

Record EventHistory := { history_events : list OperationEvent; incomplete : bool }.

(* ------------------------------------------------------------------ *)
(** ** Compaction *)

Section persisted.
Context (to_vec : OperationEvent → string) (from_slice : string → option OperationEvent).

Definition encode (event : OperationEvent) : result EventLogError string :=
  let bytes := to_vec event +:+ String nl "" in
  if (MAX_RECORD_BYTES <? str_len bytes)%Z then Err TooLarge else Ok bytes.

Fixpoint encode_all (l : list OperationEvent)
  : result EventLogError (list (OperationEvent * string)) :=
  match l with
  | [] => Ok []
  | event :: l' =>
      bytes ← encode event;
      records ← encode_all l';
      Ok ((event, bytes) :: records)
  end.

(** [records.retain(...)] with the size left and the count of dropped lines. *)
Fixpoint retain (target size dropped : Z) (records : list (OperationEvent * string))
  : Z * list (OperationEvent * string) :=
  match records with
  | [] => (dropped, [])
  | (event, bytes) :: records' =>
      if (target <? size)%Z && is_technical event
      then retain target (size - str_len bytes) (saturating_add dropped 1) records'
      else
        let '(d, kept) := retain target size dropped records' in
        (d, (event, bytes) :: kept)
  end.

Definition truncation_marker (incoming : OperationEvent) (dropped : Z) : OperationEvent := {|
  event_operation_id := event_operation_id incoming; event_sequence := 0;
  occurred_at := occurred_at incoming; event_state := event_state incoming;
  level := Warning; message_id := TRUNCATED_MESSAGE;
  fields := <["lines" := to_string dropped]>
              (<["high_sequence" := to_string (event_sequence incoming)]> ∅);
  technical := None |}.

(** The count of a marker at the front of the history and the events after it;
    a marker without the field [lines] panics. *)
Definition take_marker (l : list OperationEvent) : result stop (Z * list OperationEvent) :=
  match l with
  | e :: l' =>
      if (event_sequence e =? 0)%Z then
        lines ← ok_or Panicked (fields e !! "lines");
        d ← ok_or (Error InvalidHistory) (parse_u64 lines);
        Ok (d, l')
      else Ok (0%Z, l)
  | [] => Ok (0%Z, [])
  end.

Definition sizes (records : list (OperationEvent * string)) : Z :=
  foldr (λ r n, str_len r.2 + n)%Z 0%Z records.
Definition record_bytes (records : list (OperationEvent * string)) : string :=
  foldr (λ r s, r.2 +:+ s) "" records.

Definition compact (history : list OperationEvent) (incoming : OperationEvent)
  : result stop string :=
  '(dropped, l) ← take_marker history;
  records ← map_err Error (encode_all (l ++ [incoming]));
  let '(dropped, kept) :=
    retain (MAX_PERSISTED_EVENT_BYTES / 2) (sizes records) dropped records in
  head ← (if (dropped =? 0)%Z then Ok []
          else
            let marker := truncation_marker incoming dropped in
            bytes ← map_err Error (encode marker); Ok [(marker, bytes)]);
  let output := record_bytes (head ++ kept) in
  if (MAX_PERSISTED_EVENT_BYTES <? str_len output)%Z then Err (Error TooLarge)
  else Ok output.

(* ------------------------------------------------------------------ *)
(** ** Reading *)

Context (euid umask : Z) (fault : nat → option (IoError * nat)) (temporary : string).
#[local] Abbreviation M := (ST world stop).

Definition io {A} (m : ST world IoError A) : M A := st_map_err (λ e, Error (Io e)) m.
Definition throw {A} (e : EventLogError) : M A := st_throw (Error e).

Definition require_dir (p : path) : M unit :=
  n ← io (symlink_metadata fault p);
  if is_dir n then mret () else throw UnsafePath.

Definition operation_directory (root : path) (id : string) : M path :=
  if negb (valid_operation_id id) then throw UnsafePath
  else
    _ ← require_dir root;
    _ ← require_dir (join root id);
    mret (join root id).

Definition is_file (n : node) : bool := match n with File _ _ _ => true | _ => false end.

(** The lock excludes other processes; it is acquired when the call returns. *)
Definition lock_file (directory : path) (create : bool) : M unit :=
  n ← io (open_nofollow euid umask fault (join directory ".events.lock") create create 384);
  if negb (is_file n) then throw UnsafePath
  else io (file_call fault).

Definition open_events (p : path) (append : bool) : M string :=
  n ← io (open_nofollow euid umask fault p append append 384);
  match n with File _ _ content => mret content | _ => throw UnsafePath end.

Definition is_marker (event : OperationEvent) (first : bool) : bool :=
  (event_sequence event =? 0)%Z && first
  && (message_id event ==? TRUNCATED_MESSAGE) && is_none (technical event)
  && is_some_and (fields event !! "lines") (λ n, is_some (parse_u64 n))
  && is_some_and (fields event !! "high_sequence") (λ n, is_some (parse_u64 n)).

(** The loop of [read_history]; every turn but the last consumes at least one
    byte, so that the length of the text and one is enough fuel. *)
Fixpoint read_records (fuel : nat) (id : string) (total previous : Z)
    (events : list OperationEvent) (rest : string) : M EventHistory :=
  match fuel with
  | O => mret {| history_events := events; incomplete := true |}
  | S fuel' =>
      let stop_here := mret {| history_events := events; incomplete := true |} in
      size ← st_try (E':=stop) (file_call fault);
      match size with
      | Err _ => stop_here
      | Ok _ =>
          let '(bytes, rest) := read_until (MAX_RECORD_BYTES + 1) rest in
          let size := str_len bytes in
          if (size =? 0)%Z
          then mret {| history_events := events; incomplete := false |}
          else
            let total := (total + size)%Z in
            if (MAX_RECORD_BYTES <? size)%Z || (MAX_LEGACY_BYTES <? total)%Z
               || negb (ends_nl bytes)
            then stop_here
            else
              match from_slice bytes with
              | None => stop_here
              | Some event =>
                  let marker := is_marker event (bool_decide (events = [])) in
                  if (event_operation_id event !=? id)
                     || (negb marker && ((event_sequence event =? 0)%Z
                                         || (event_sequence event <=? previous)%Z))
                  then stop_here
                  else read_records fuel' id total (event_sequence event)
                         (events ++ [event]) rest
              end
      end
  end.

Definition read_history (content id : string) : M EventHistory :=
  let text := take_bytes (MAX_LEGACY_BYTES + 1) content in
  read_records (S (String.length text)) id 0 0 [] text.

Definition load_events_mode (root : path) (id : string) (after : Z) (read_only : bool)
  : M EventHistory :=
  directory ← operation_directory root id;
  lock ← st_try (E':=stop) (lock_file directory (negb read_only));
  _ ← match lock with
      | Ok _ => mret ()
      | Err (Error (Io NotFound)) => if read_only then mret () else st_lift lock
      | Err e => st_throw e
      end;
  file ← st_try (E':=stop) (open_events (join directory "events.jsonl") false);
  match file with
  | Err (Error (Io NotFound)) => mret {| history_events := []; incomplete := false |}
  | Err e => st_throw e
  | Ok content =>
      history ← read_history content id;
      mret {| history_events :=
                List.filter (λ event, (event_sequence event =? 0)%Z
                                      || (after <? event_sequence event)%Z)
                  (history_events history);
              incomplete := incomplete history |}
  end.
Definition load_events (root : path) (id : string) (after : Z) : M EventHistory :=
  load_events_mode root id after false.
Definition load_events_read_only (root : path) (id : string) (after : Z) : M EventHistory :=
  load_events_mode root id after true.

(* ------------------------------------------------------------------ *)
(** ** Appending *)

(** The checks of [append_event] on a file that is not empty. *)
Definition check_head (event : OperationEvent) (content : string) : result stop unit :=
  let '(head, _) := read_until MAX_RECORD_BYTES content in
  first ← ok_or (Error Json) (from_slice head);
  reject_if
    ((event_sequence first =? 0)%Z
     && ((message_id first !=? TRUNCATED_MESSAGE)
         || is_none_or (fields first !! "high_sequence" ≫= parse_u64)
              (λ high, (event_sequence event <=? high)%Z)))
    (Error InvalidHistory).

Definition check_tail (id : string) (event : OperationEvent) (content : string)
  : result stop unit :=
  let tail := skip_bytes (saturating_sub (str_len content) MAX_RECORD_BYTES) content in
  _ ← reject_if (negb (ends_nl tail)) (Error InvalidHistory);
  let body := String.substring 0 (String.length tail - 1) tail in
  piece ← ok_or (Error InvalidHistory) (last (split nl body));
  previous ← ok_or (Error Json) (from_slice piece);
  reject_if ((event_operation_id previous !=? id)
             || (event_sequence event <=? event_sequence previous)%Z)
    (Error InvalidHistory).

Definition replace_events (directory p : path) (output : string) : M unit :=
  let t := join directory temporary in
  _ ← io (create_new euid umask fault t 384);
  persisted ← st_try (E':=stop) (
    _ ← io (write_all fault t output);
    _ ← io (sync_all fault);
    io (rename fault t p));
  match persisted with
  | Ok _ => _ ← io (open_any fault directory); io (sync_all fault)
  | Err e =>
      _ ← st_try (E':=stop) (remove_file fault t);
      st_throw e
  end.

Definition append_event (root : path) (id : string) (event : OperationEvent) : M unit :=
  if (event_operation_id event !=? id) || (event_sequence event =? 0)%Z
  then throw UnsafePath
  else
    bytes ← st_lift (map_err Error (encode event));
    directory ← operation_directory root id;
    _ ← lock_file directory true;
    let p := join directory "events.jsonl" in
    content ← open_events p true;
    _ ← io (file_call fault);
    let size := str_len content in
    _ ← (if (size =? 0)%Z then mret ()
         else
           _ ← io (file_call fault);
           _ ← st_lift (check_head event content);
           _ ← io (file_call fault);
           _ ← io (file_call fault);
           st_lift (check_tail id event content));
    if (saturating_add size (str_len bytes) <=? MAX_PERSISTED_EVENT_BYTES)%Z
    then
      _ ← io (write_all fault p bytes);
      _ ← io (sync_all fault);
      if (size =? 0)%Z then _ ← io (open_any fault directory); io (sync_all fault)
      else mret ()
    else
      _ ← io (file_call fault);
      history ← read_history content id;
      if incomplete history then throw InvalidHistory
      else
        output ← st_lift (compact (history_events history) event);
        replace_events directory p output.

(** The reports on standard error are not part of the world. *)
Definition record_write_failure (root : path) (id : string) : M unit :=
  directory ← st_try (E':=stop) (operation_directory root id);
  match directory with
  | Err _ => mret ()
  | Ok directory =>
      _ ← st_try (E':=stop)
            (replace_events directory (join directory "events.error")
               ("EVENT_LOG_WRITE_FAILED" +:+ String nl ""));
      mret ()
  end.

Definition has_write_failure (root : path) (id : string) : M bool :=
  n ← st_try (E':=stop) (symlink_metadata fault (join (join root id) "events.error"));
  mret (is_ok n).
End persisted.

Definition technical_event (id : string) (sequence : Z) (at_time : string)
    (state : OperationState) : OperationEvent := {|
  event_operation_id := id; event_sequence := sequence; occurred_at := at_time;
  event_state := state; level := Info; message_id := "technical-line"; fields := ∅;
  technical := None |}.

(* ------------------------------------------------------------------ *)
(** ** Text of records *)

Lemma str_len_app s t : str_len (s +:+ t) = (str_len s + str_len t)%Z.
Proof. unfold str_len. induction s as [|b s IH]; [done|]. rewrite string_app_cons. simpl. lia. Qed.

Lemma str_len_nonneg s : (0 ≤ str_len s)%Z.
Proof. unfold str_len. lia. Qed.

Lemma str_len_String b s : str_len (String b s) = (1 + str_len s)%Z.
Proof. unfold str_len. simpl. lia. Qed.

Lemma take_bytes_all n s : (str_len s ≤ n)%Z → take_bytes n s = s.
Proof.
  revert n. induction s as [|b s IH]; intros n Hn; [done|]. rewrite str_len_String in Hn.
  pose proof (str_len_nonneg s). cbn [take_bytes].
  rewrite (proj2 (Z.leb_gt n 0)) by lia. rewrite IH; [done|lia].
Qed.

Definition no_nl (s : string) : bool := bytes_all (λ b, negb (Ascii.eqb b nl)) s.

(** A line, or the unfinished end of the text, is read in one piece. *)
Lemma read_until_line n l rest :
  no_nl l = true → (str_len l < n)%Z →
  read_until n (l +:+ String nl rest) = (l +:+ String nl "", rest).
Proof.
  revert n. induction l as [|b l IH]; intros n Hl Hn.
  - change ("" +:+ String nl rest) with (String nl rest). cbn [read_until].
    unfold str_len in Hn. simpl in Hn. rewrite (proj2 (Z.leb_gt n 0)) by lia. done.
  - rewrite !string_app_cons. cbn [read_until]. rewrite str_len_String in Hn.
    pose proof (str_len_nonneg l). rewrite (proj2 (Z.leb_gt n 0)) by lia.
    apply andb_true_iff in Hl as [Hb%negb_true_iff Hl]. rewrite Hb, IH by (done || lia). done.
Qed.

Lemma read_until_end n t : no_nl t = true → (str_len t < n)%Z → read_until n t = (t, "").
Proof.
  revert n. induction t as [|b t IH]; intros n Ht Hn; [done|]. cbn [read_until].
  rewrite str_len_String in Hn. pose proof (str_len_nonneg t).
  rewrite (proj2 (Z.leb_gt n 0)) by lia.
  apply andb_true_iff in Ht as [Hb%negb_true_iff Ht]. rewrite Hb, IH by (done || lia). done.
Qed.

Lemma ends_nl_app s : ends_nl (s +:+ String nl "") = true.
Proof.
  induction s as [|b s IH]; [done|]. rewrite string_app_cons.
  destruct s; [done|]. rewrite string_app_cons in *. exact IH.
Qed.

Lemma ends_nl_spec s : ends_nl s = true ↔ ∃ t, s = t +:+ String nl "".
Proof.
  split; [|intros [t ->]; apply ends_nl_app].
  induction s as [|b s IH]; [done|]. destruct s as [|c s].
  - simpl. intros ->%Ascii.eqb_eq. by exists "".
  - intros H. destruct (IH H) as [t Ht]. exists (String b t). by rewrite string_app_cons, <-Ht.
Qed.

Lemma no_nl_ends t : no_nl t = true → ends_nl t = false.
Proof.
  intros H. destruct (ends_nl t) eqn:E; [|done]. apply ends_nl_spec in E as [u ->].
  unfold no_nl in H. rewrite bytes_all_app in H. by apply andb_true_iff in H as [_ ?].
Qed.

Lemma skip_bytes_app n a b :
  (n ≤ str_len a)%Z → skip_bytes n (a +:+ b) = skip_bytes n a +:+ b.
Proof.
  revert n. induction a as [|c a IH]; intros n Hn.
  - change ("" +:+ b) with b. change (str_len "") with 0%Z in Hn. destruct b as [|d b]; [done|]. cbn.
    by rewrite (proj2 (Z.leb_le n 0)) by lia.
  - rewrite string_app_cons. cbn [skip_bytes]. rewrite str_len_String in Hn.
    destruct (Z.leb_spec n 0); [done|]. apply IH. lia.
Qed.

Lemma skip_bytes_ends n s :
  ends_nl s = true → skip_bytes n s = "" ∨ ends_nl (skip_bytes n s) = true.
Proof.
  revert n. induction s as [|b s IH]; intros n Hs; [by left|]. cbn [skip_bytes].
  destruct (Z.leb_spec n 0); [by right|]. destruct s as [|c s]; [by left|]. apply IH. done.
Qed.

Lemma split_no_nl s : no_nl s = true → split nl s = [s].
Proof.
  induction s as [|b s IH]; [done|]. intros [Hb%negb_true_iff Hs]%andb_true_iff.
  cbn [split]. by rewrite Hb, IH.
Qed.

Lemma split_concat c u l : split c (u +:+ String c l) = split c u ++ split c l.
Proof.
  induction u as [|b u IH].
  - change ("" +:+ String c l) with (String c l). cbn [split]. by rewrite Ascii.eqb_refl.
  - rewrite string_app_cons. cbn [split]. rewrite IH. destruct (Ascii.eqb b c); [done|].
    pose proof (split_nonempty c u). by destruct (split c u).
Qed.

Lemma last_split_line u l : no_nl l = true → last (split nl (u +:+ String nl l)) = Some l.
Proof. intros Hl. by rewrite split_concat, (split_no_nl l Hl), last_snoc. Qed.

Lemma substring_all s t :
  String.substring 0 (String.length (s +:+ t) - String.length t) (s +:+ t) = s.
Proof.
  replace (String.length (s +:+ t) - String.length t) with (String.length s).
  2: { pose proof (str_len_app s t). unfold str_len in *. lia. }
  induction s as [|b s IH]; [by destruct t|]. rewrite string_app_cons. simpl. by rewrite IH.
Qed.

(* ------------------------------------------------------------------ *)
(** ** Histories *)

(** The sequence numbers of the events of [id] after [previous], in order. *)
Fixpoint increasing (id : string) (previous : Z) (es : list OperationEvent) : Prop :=
  match es with
  | [] => True
  | e :: es' =>
      event_operation_id e = id ∧ (previous < event_sequence e)%Z
      ∧ increasing id (event_sequence e) es'
  end.

(** A history as the service writes it: a truncation marker may come first. *)
Definition valid_history (id : string) (es : list OperationEvent) : Prop :=
  match es with
  | [] => True
  | e :: es' =>
      if is_marker e true then event_operation_id e = id ∧ increasing id 0 es'
      else increasing id 0 es
  end.

(** The events without the marker, and the highest sequence number known. *)
Definition body (es : list OperationEvent) : list OperationEvent :=
  match es with e :: es' => if is_marker e true then es' else es | [] => [] end.
Definition high (es : list OperationEvent) : Z :=
  foldr (λ e n, Z.max (Z.max (event_sequence e)
                         (if (event_sequence e =? 0)%Z then default 0%Z (high_sequence e) else 0)) n)
    0%Z es.

Lemma increasing_weaken id p q es : (p ≤ q)%Z → increasing id q es → increasing id p es.
Proof. destruct es as [|e es]; [done|]. simpl. intros H (? & ? & ?). split; [done|]. split; [lia|done]. Qed.

Lemma increasing_sublist id p es es' :
  es' `sublist_of` es → increasing id p es → increasing id p es'.
Proof.
  intros H. revert p. induction H as [|e l1 l2 _ IH|e l1 l2 _ IH]; intros p; simpl; [done|..].
  - intros (? & ? & ?). auto.
  - intros (? & ? & H). apply (increasing_weaken id p (event_sequence e)); [lia|auto].
Qed.

Lemma increasing_snoc id p es e :
  increasing id p es → event_operation_id e = id → (p < event_sequence e)%Z →
  (high es < event_sequence e)%Z → increasing id p (es ++ [e]).
Proof.
  revert p. induction es as [|x es IH]; intros p; simpl; [done|].
  intros (? & ? & ?) He Hp Hm. split; [done|]. split; [done|]. apply IH; try done; lia.
Qed.

Lemma increasing_body id es : valid_history id es → increasing id 0 (body es).
Proof. destruct es as [|e es]; [done|]. simpl. destruct (is_marker e true); [tauto|done]. Qed.

Lemma marker_zero e b : is_marker e b = true → event_sequence e = 0%Z.
Proof. unfold is_marker. rewrite !andb_true_iff, Z.eqb_eq. tauto. Qed.

Lemma nonzero_marker e b : (0 < event_sequence e)%Z → is_marker e b = false.
Proof.
  intros H. destruct (is_marker e b) eqn:E; [|done]. apply marker_zero in E. lia.
Qed.

Lemma valid_history_snoc id es e :
  valid_history id es → event_operation_id e = id → (0 < event_sequence e)%Z →
  (high es < event_sequence e)%Z → valid_history id (es ++ [e]).
Proof.
  destruct es as [|x es]; simpl.
  - intros _ He Hp _. by rewrite nonzero_marker.
  - intros Hv He Hp Hm. destruct (is_marker x true).
    + split; [tauto|]. apply increasing_snoc; [tauto|done|done|lia].
    + destruct Hv as (? & ? & ?). split; [done|]. split; [done|].
      apply increasing_snoc; try done; lia.
Qed.

(* ------------------------------------------------------------------ *)
(** ** What is read from a file of records *)

Section codec.
Context (to_vec : OperationEvent → string) (from_slice : string → option OperationEvent).

(** What the code relies on of the JSON library: parsing gives back what was
    serialized, with or without white space after it, and the compact form has no
    line break. *)
Context (Hcodec : ∀ e, from_slice (to_vec e) = Some e
                       ∧ from_slice (to_vec e +:+ String nl "") = Some e).
Context (Hline : ∀ e, no_nl (to_vec e) = true).

Definition line (e : OperationEvent) : string := to_vec e +:+ String nl "".
Definition file_of (es : list OperationEvent) : string :=
  foldr (λ e s, line e +:+ s) "" es.
Definition record_fits (e : OperationEvent) : Prop := (str_len (line e) ≤ MAX_RECORD_BYTES)%Z.

Lemma line_len e : (0 < str_len (line e))%Z.
Proof. unfold line. rewrite str_len_app. pose proof (str_len_nonneg (to_vec e)). change (str_len (String nl "")) with 1%Z. lia. Qed.

Lemma line_app e s : line e +:+ s = to_vec e +:+ String nl s.
Proof. unfold line. by rewrite <-string_app_assoc. Qed.

Lemma file_of_app l1 l2 : file_of (l1 ++ l2) = file_of l1 +:+ file_of l2.
Proof.
  induction l1 as [|e l1 IH]; [done|]. cbn [file_of foldr app].
  rewrite <-string_app_assoc. f_equal. exact IH.
Qed.

Lemma file_of_snoc l e : file_of (l ++ [e]) = file_of l +:+ line e.
Proof. rewrite file_of_app. cbn. by rewrite string_app_nil_r. Qed.

Lemma file_of_length l : (Z.of_nat (length l) ≤ str_len (file_of l))%Z.
Proof.
  induction l as [|e l IH]; [done|]. cbn [file_of foldr length]. rewrite str_len_app.
  pose proof (line_len e). unfold file_of in IH. lia.
Qed.

Lemma file_of_empty l : str_len (file_of l) = 0%Z ↔ l = [].
Proof.
  split; [|by intros ->]. pose proof (file_of_length l). destruct l; [done|]. simpl in *. lia.
Qed.

(** The start of a line: all of it, or text without a line break. *)
Lemma line_prefix k e :
  String.substring 0 k (line e) = line e
  ∨ (no_nl (String.substring 0 k (line e)) = true
     ∧ (str_len (String.substring 0 k (line e)) < str_len (line e))%Z).
Proof.
  unfold line. generalize (Hline e). generalize (to_vec e) as s. clear. intros s. revert k.
  induction s as [|b s IH]; intros k Hs.
  - destruct k as [|k]; [by right|]. left. by destruct k.
  - destruct k as [|k]; [right; split; [done|]|].
    { rewrite str_len_app, str_len_String. pose proof (str_len_nonneg s).
      change (str_len (String nl "")) with 1%Z. rewrite string_app_cons.
      change (str_len _) with 0%Z at 1. lia. }
    rewrite string_app_cons. cbn [String.substring].
    apply andb_true_iff in Hs as [Hb Hs]. destruct (IH k Hs) as [->|[H1 H2]]; [by left|right].
    split; [by apply andb_true_iff|]. rewrite !str_len_String. lia.
Qed.

Lemma read_records_tail fuel id total previous acc es t w :
  increasing id previous es → (0 ≤ previous)%Z → Forall record_fits es →
  no_nl t = true → (str_len t ≤ MAX_RECORD_BYTES)%Z →
  (total + str_len (file_of es) ≤ MAX_LEGACY_BYTES)%Z → length es < fuel →
  (read_records from_slice no_fault fuel id total previous acc (file_of es +:+ t) w).1
  = Ok {| history_events := acc ++ es; incomplete := negb (is_empty t) |}.
Proof.
  intros Hinc Hp Hfit Ht Htl. revert total previous acc es w Hinc Hp Hfit.
  induction fuel as [|fuel IH]; intros total previous acc es w Hinc Hp Hfit Htot Hf; [lia|].
  cbn [read_records]. unfold mbind, st_bind at 1. cbn -[read_until MAX_RECORD_BYTES MAX_LEGACY_BYTES].
  destruct es as [|e es].
  - cbn [file_of foldr]. change ("" +:+ t) with t. rewrite app_nil_r.
    rewrite read_until_end by (done || lia). destruct t as [|b t]; [done|].
    rewrite (proj2 (Z.eqb_neq _ 0)) by (rewrite str_len_String; pose proof (str_len_nonneg t); lia).
    rewrite (no_nl_ends _ Ht), orb_true_r. done.
  - destruct Hinc as (Hid & Hseq & Hinc). apply Forall_cons in Hfit as [Hfe Hfit].
    cbn [file_of foldr] in *. rewrite str_len_app in Htot. pose proof (line_len e) as Hl.
    assert ((line e +:+ foldr (λ e s, line e +:+ s) "" es) +:+ t
            = to_vec e +:+ String nl (file_of es +:+ t)) as ->.
    { rewrite <-string_app_assoc. apply line_app. }
    unfold record_fits, line in Hfe. rewrite str_len_app in Hfe.
    change (str_len (String nl "")) with 1%Z in Hfe.
    rewrite read_until_line; [|done|lia]. fold (line e).
    rewrite (proj2 (Z.eqb_neq _ 0)) by lia.
    rewrite (proj2 (Z.ltb_ge MAX_RECORD_BYTES _)).
    2: { unfold line. rewrite str_len_app. change (str_len (String nl "")) with 1%Z. lia. }
    rewrite (proj2 (Z.ltb_ge MAX_LEGACY_BYTES _)).
    2: { pose proof (str_len_nonneg (file_of es)). unfold file_of in *. lia. }
    unfold line at 1. rewrite ends_nl_app. cbn [negb orb].
    unfold line at 1. rewrite (proj2 (Hcodec e)). rewrite Hid, eqb_refl.
    rewrite nonzero_marker by lia.
    rewrite (proj2 (Z.eqb_neq _ 0)), (proj2 (Z.leb_gt _ _)) by lia. cbn [negb orb andb].
    rewrite IH; [by rewrite <-app_assoc|done|lia|done|unfold file_of in *; lia|simpl in Hf; lia].
Qed.

Lemma read_history_tail id es t w :
  valid_history id es → Forall record_fits es →
  no_nl t = true → (str_len t ≤ MAX_RECORD_BYTES)%Z →
  (str_len (file_of es) + str_len t ≤ MAX_LEGACY_BYTES)%Z →
  (read_history from_slice no_fault (file_of es +:+ t) id w).1
  = Ok {| history_events := es; incomplete := negb (is_empty t) |}.
Proof.
  intros Hv Hfit Ht Htl Htot. unfold read_history.
  rewrite take_bytes_all by (rewrite str_len_app; lia).
  pose proof (file_of_length es) as Hlen.
  assert (length es ≤ String.length (file_of es +:+ t)) as Hf.
  { pose proof (str_len_app (file_of es) t). unfold str_len in *. lia. }
  pose proof (str_len_nonneg t) as Htn.
  destruct es as [|e es]; [apply read_records_tail; (done || lia)|]. simpl in Hv.
  destruct (is_marker e true) eqn:Hm; [|by apply read_records_tail; (done || lia)].
  destruct Hv as [Hid Hinc]. apply Forall_cons in Hfit as [Hfe Hfit].
  cbn [read_records]. unfold mbind, st_bind at 1. cbn -[read_until MAX_RECORD_BYTES MAX_LEGACY_BYTES].
  cbn [file_of foldr] in *. rewrite str_len_app in Htot. pose proof (line_len e) as Hl.
  assert ((line e +:+ foldr (λ e s, line e +:+ s) "" es) +:+ t
          = to_vec e +:+ String nl (file_of es +:+ t)) as E.
  { rewrite <-string_app_assoc. apply line_app. }
  rewrite E in *. unfold record_fits in Hfe.
  assert (str_len (line e) = str_len (to_vec e) + 1)%Z as Hle by (unfold line; by rewrite str_len_app).
  rewrite read_until_line; [|done|lia]. fold (line e).
  rewrite (proj2 (Z.eqb_neq _ 0)) by lia.
  rewrite (proj2 (Z.ltb_ge MAX_RECORD_BYTES _)) by lia.
  rewrite (proj2 (Z.ltb_ge MAX_LEGACY_BYTES _)).
  2: { pose proof (str_len_nonneg (file_of es)). unfold file_of in *. lia. }
  unfold line at 1. rewrite ends_nl_app. cbn [negb orb].
  unfold line at 1. rewrite (proj2 (Hcodec e)). rewrite Hid, eqb_refl.
  rewrite Hm. cbn [negb orb andb].
  rewrite (marker_zero e true Hm).
  rewrite read_records_tail; try done; unfold file_of in *; simpl in Hf; lia.
Qed.

(* ------------------------------------------------------------------ *)
(** ** The checks before an append *)

Lemma head_accepted id es event :
  valid_history id es → Forall record_fits es → (high es < event_sequence event)%Z →
  es ≠ [] → check_head from_slice event (file_of es) = Ok ().
Proof.
  destruct es as [|e es]; [done|]. intros Hv Hfit Hhigh _.
  apply Forall_cons in Hfit as [Hfe _]. unfold check_head. cbn [file_of foldr].
  rewrite line_app. unfold record_fits, line in Hfe. rewrite str_len_app in Hfe.
  change (str_len (String nl "")) with 1%Z in Hfe.
  rewrite read_until_line; [|done|lia]. rewrite (proj2 (Hcodec e)). simpl in Hv |- *.
  destruct (is_marker e true) eqn:Hm.
  - assert (event_sequence e = 0%Z) as Hz by (by apply (marker_zero e true)).
    unfold is_marker in Hm. rewrite !andb_true_iff, eqb_true, !is_some_and_true in Hm.
    destruct Hm as (((((_ & _) & Hmsg) & _) & _) & (h & Hh & Hp)).
    rewrite Hmsg, eqb_refl, Hh. simpl. apply is_some_true in Hp as [n Hn]. rewrite Hn. simpl.
    cbn [high foldr] in Hhigh. rewrite Hz in Hhigh. unfold high_sequence in Hhigh.
    rewrite Hh in Hhigh. simpl in Hhigh. rewrite Hn in Hhigh. simpl in Hhigh.
    rewrite (proj2 (Z.leb_gt _ _)) by lia. by rewrite andb_false_r.
  - destruct Hv as (_ & Hs & _). by rewrite (proj2 (Z.eqb_neq _ 0)) by lia.
Qed.

Lemma valid_history_last id es e :
  valid_history id (es ++ [e]) → event_operation_id e = id.
Proof.
  assert (∀ p l, increasing id p (l ++ [e]) → event_operation_id e = id) as H.
  { intros p l. revert p. induction l as [|x l IH]; intros p; simpl; [tauto|].
    intros (_ & _ & Hl). by eapply IH. }
  destruct es as [|x es]; simpl.
  - by destruct (is_marker e true); intros (? & _).
  - destruct (is_marker x true).
    + intros [_ Hi]. by eapply H.
    + intros (_ & _ & Hi). by eapply H.
Qed.

Lemma high_snoc es e : (event_sequence e ≤ high (es ++ [e]))%Z.
Proof. induction es as [|x es IH]; simpl in *; lia. Qed.

Lemma file_of_ends es : es ≠ [] → ends_nl (file_of es) = true.
Proof.
  intros Hne. destruct es as [|x es _] using rev_ind; [done|]. rewrite file_of_snoc.
  unfold line. rewrite string_app_assoc. apply ends_nl_app.
Qed.

Lemma skip_bytes_0 n s : (n ≤ 0)%Z → skip_bytes n s = s.
Proof. intros Hn. destruct s; [done|]. cbn. by rewrite (proj2 (Z.leb_le n 0)). Qed.

Lemma tail_accepted id es event :
  valid_history id es → Forall record_fits es → (high es < event_sequence event)%Z →
  es ≠ [] → check_tail from_slice id event (file_of es) = Ok ().
Proof.
  destruct es as [|e es _] using rev_ind; [done|]. intros Hv Hfit Hhigh _.
  apply Forall_app in Hfit as [_ Hfe]. apply Forall_cons in Hfe as [Hfe _]. unfold record_fits in Hfe.
  pose proof (high_snoc es e) as Hhe. apply valid_history_last in Hv.
  unfold check_tail. rewrite file_of_snoc, str_len_app, skip_bytes_app.
  2: { unfold saturating_sub. pose proof (str_len_nonneg (file_of es)). lia. }
  set (n := saturating_sub _ _). rewrite <-(string_app_nil_r (line e)), line_app.
  assert (ends_nl (skip_bytes n (file_of es) +:+ to_vec e +:+ String nl "") = true) as He
    by (rewrite string_app_assoc; apply ends_nl_app).
  unfold mbind at 1. cbn -[String.substring ends_nl mbind]. rewrite He.
  cbn -[String.substring mbind].
  rewrite string_app_assoc. change 1 with (String.length (String nl "")).
  rewrite substring_all.
  assert (last (split nl (skip_bytes n (file_of es) +:+ to_vec e)) = Some (to_vec e)) as Hl.
  { destruct es as [|x es _] using rev_ind.
    - change (skip_bytes n (file_of [])) with "". change ("" +:+ to_vec e) with (to_vec e).
      by rewrite split_no_nl.
    - destruct (skip_bytes_ends n (file_of (es ++ [x]))) as [->|H];
        [apply file_of_ends; by destruct es|change ("" +:+ to_vec e) with (to_vec e); by rewrite split_no_nl|].
      apply ends_nl_spec in H as [u ->]. rewrite <-string_app_assoc. by apply last_split_line. }
  rewrite Hl. cbn. rewrite (proj1 (Hcodec e)). cbn. rewrite Hv, eqb_refl.
  by rewrite (proj2 (Z.leb_gt _ _)) by lia.
Qed.

(* ------------------------------------------------------------------ *)
(** ** Compaction *)

(** A new history made of an old one and an event: the marker counts what is
    missing, which is the oldest technical events. *)
Record compacted (es : list OperationEvent) (event : OperationEvent)
    (es' : list OperationEvent) : Prop := {
  cp_normative : normative (body es') = normative (body es ++ [event]);
  cp_oldest : ∃ dropped, technical_of (body es ++ [event]) = dropped ++ technical_of (body es');
  cp_sublist : body es' `sublist_of` body es ++ [event];
  cp_marker : es' = body es ++ [event] ∨
    ∃ d, es' = truncation_marker event d :: body es' ∧ (0 < d)%Z;
}.

Lemma retain_done target size d records :
  (size ≤ target)%Z → retain target size d records = (d, records).
Proof.
  intros H. induction records as [|[e b] records IH]; [done|]. cbn [retain].
  rewrite (proj2 (Z.ltb_ge _ _)) by lia. cbn [andb]. by rewrite IH.
Qed.

Lemma normative_cons e l :
  normative (e :: l) = if is_technical e then normative l else e :: normative l.
Proof. unfold normative. cbn. by destruct (is_technical e). Qed.
Lemma technical_cons e l :
  technical_of (e :: l) = if is_technical e then e :: technical_of l else technical_of l.
Proof. unfold technical_of. cbn. by destruct (is_technical e). Qed.

Lemma saturating_succ d :
  is_u64 d → is_u64 (saturating_add d 1) ∧ (0 < saturating_add d 1)%Z.
Proof. unfold is_u64, saturating_add, u64_max. lia. Qed.

Lemma retain_spec target records size d d' kept :
  retain target size d records = (d', kept) → is_u64 d →
  kept `sublist_of` records
  ∧ normative kept.*1 = normative records.*1
  ∧ ∃ dropped, technical_of records.*1 = dropped ++ technical_of kept.*1
    ∧ is_u64 d' ∧ (d' = 0%Z → d = 0%Z ∧ kept = records).
Proof.
  revert size d kept. induction records as [|[e b] records IH]; intros size d kept.
  { intros [= -> <-] Hd. split; [done|]. split; [done|]. exists []. by split. }
  cbn [retain]. destruct (Z.ltb_spec target size) as [Hs|Hs].
  2: { cbn [andb]. rewrite retain_done by lia. intros [= -> <-] Hd.
       split; [done|]. split; [done|]. exists []. by split. }
  destruct (is_technical e) eqn:He; cbn [andb].
  - intros H Hd. pose proof (saturating_succ d Hd) as [Hu Hpos].
    destruct (IH _ _ _ H) as (H1 & H2 & dr & H3 & H4 & H5); [done|].
    rewrite fmap_cons. cbn [fst]. rewrite normative_cons, technical_cons, He.
    split; [by constructor|]. split; [done|]. exists (e :: dr). rewrite H3. split; [done|].
    split; [done|]. intros Hz. apply H5 in Hz as [Hz _]. lia.
  - destruct (retain target size d records) as [d1 k1] eqn:Er. intros [= <- <-] Hd.
    destruct (IH _ _ _ Er Hd) as (H1 & H2 & dr & H3 & H4 & H5).
    rewrite !fmap_cons. cbn [fst]. rewrite !normative_cons, !technical_cons, He, H2.
    split; [by constructor|]. split; [done|]. exists dr. split; [done|].
    split; [done|]. intros Hz. destruct (H5 Hz) as [-> ->]. done.
Qed.

Lemma encode_Ok e b : encode to_vec e = Ok b → b = line e ∧ record_fits e.
Proof.
  unfold encode, record_fits, line. destruct (Z.ltb_spec MAX_RECORD_BYTES (str_len (to_vec e +:+ String nl "")));
    [done|]. intros [= <-]. auto.
Qed.

Lemma encode_fits e : record_fits e → encode to_vec e = Ok (line e).
Proof.
  unfold encode, record_fits, line. intros H. by rewrite (proj2 (Z.ltb_ge _ _)) by lia.
Qed.

Lemma encode_all_Ok l records :
  encode_all to_vec l = Ok records →
  records = (λ e, (e, line e)) <$> l ∧ Forall record_fits l.
Proof.
  revert records. induction l as [|e l IH]; intros records; simpl.
  { intros [= <-]. done. }
  intros (b & Hb & (rs & Hrs & Hr)%bind_Ok)%bind_Ok. injection Hr as <-.
  apply encode_Ok in Hb as [-> He]. destruct (IH _ Hrs) as [-> Hl]. auto.
Qed.

Lemma record_bytes_file l : record_bytes ((λ e, (e, line e)) <$> l) = file_of l.
Proof. induction l as [|e l IH]; [done|]. cbn. by f_equal. Qed.

Lemma sublist_records (l : list OperationEvent) kept :
  kept `sublist_of` (λ e, (e, line e)) <$> l → kept = (λ e, (e, line e)) <$> kept.*1.
Proof.
  revert kept. induction l as [|e l IH]; intros kept H; simpl in H.
  - apply sublist_nil_r in H as ->. done.
  - apply sublist_cons_r in H as [H|(l' & -> & H)]; [by apply IH|]. simpl. f_equal. by apply IH.
Qed.

Lemma fields_lines event d :
  fields (truncation_marker event d) !! "lines" = Some (to_string d).
Proof. cbn. by rewrite lookup_insert_eq. Qed.
Lemma fields_high event d :
  fields (truncation_marker event d) !! "high_sequence" = Some (to_string (event_sequence event)).
Proof. cbn. rewrite lookup_insert_ne by done. by rewrite lookup_insert_eq. Qed.

Lemma marker_is_marker event d :
  is_u64 d → is_u64 (event_sequence event) → is_marker (truncation_marker event d) true = true.
Proof.
  intros Hd He. unfold is_marker. rewrite fields_lines, fields_high. cbn [is_some_and].
  unfold parse_u64. rewrite !parse_to_string by (done || apply Hd || apply He). done.
Qed.

Lemma take_marker_valid id es :
  valid_history id es → ∃ d, is_u64 d ∧ take_marker es = Ok (d, body es).
Proof.
  destruct es as [|e es]; simpl; [by exists 0%Z|]. destruct (is_marker e true) eqn:Hm.
  - intros _. pose proof (marker_zero e true Hm) as ->. cbn [Z.eqb].
    unfold is_marker in Hm. rewrite !andb_true_iff, !is_some_and_true in Hm.
    destruct Hm as ((_ & (h & Hh & Hp)) & _). apply is_some_true in Hp as [n Hn].
    rewrite Hh. cbn. rewrite Hn. exists n. split; [|done]. by apply parse_unsigned_range in Hn.
  - intros (_ & Hs & _). exists 0%Z. by rewrite (proj2 (Z.eqb_neq _ 0)) by lia.
Qed.

Lemma body_valid id l : increasing id 0 l → valid_history id l ∧ body l = l.
Proof.
  destruct l as [|e l]; simpl; [done|]. intros (Hid & Hs & Hl).
  by rewrite (nonzero_marker e) by lia.
Qed.

Lemma compact_shape id es event out :
  valid_history id es → event_operation_id event = id →
  is_u64 (event_sequence event) → (0 < event_sequence event)%Z →
  (high es < event_sequence event)%Z → compact to_vec es event = Ok out →
  ∃ es', out = file_of es' ∧ valid_history id es' ∧ Forall record_fits es'
  ∧ (str_len out ≤ MAX_PERSISTED_EVENT_BYTES)%Z ∧ compacted es event es'.
Proof.
  intros Hv Hid Hu Hpos Hhigh Hc. unfold compact in Hc.
  destruct (take_marker_valid id es Hv) as (d & Hd & Hm). rewrite Hm in Hc. cbn [mbind result_bind] in Hc.
  apply bind_Ok in Hc as (records & Hr & Hc). apply map_err_Ok, encode_all_Ok in Hr as [-> Hfit].
  destruct (retain _ _ d _) as [d' kept] eqn:Er.
  apply retain_spec in Er as (Hsub & Hn & (dr & Ht & Hd' & Hz)); [|done].
  apply bind_Ok in Hc as (hd & Hh & Hc).
  destruct (Z.ltb_spec MAX_PERSISTED_EVENT_BYTES (str_len (record_bytes (hd ++ kept))));
    [done|]. injection Hc as <-.
  rewrite <-!list_fmap_compose in Hn, Ht. cbn in Hn, Ht. rewrite list_fmap_id in Hn, Ht.
  pose proof (sublist_records _ _ Hsub) as Hk. set (l := kept.*1) in *.
  assert (l `sublist_of` body es ++ [event]) as Hl.
  { apply (fmap_sublist fst) in Hsub. rewrite <-list_fmap_compose in Hsub.
    cbn in Hsub. by rewrite list_fmap_id in Hsub. }
  assert (increasing id 0 (body es ++ [event])) as Hinc.
  { apply increasing_snoc; [by apply increasing_body|done|done|].
    destruct es as [|e es]; simpl in *; [done|]. destruct (is_marker e true); simpl; lia. }
  destruct (body_valid id l) as [Hvl Hbl]; [by eapply increasing_sublist|].
  assert (Forall record_fits l) as Hfl.
  { apply Forall_forall. intros x Hx. apply (proj1 (Forall_forall _ _) Hfit). by eapply elem_of_sublist. }
  destruct (Z.eqb_spec d' 0) as [Hd0|Hd0].
  - injection Hh as <-. destruct (Hz Hd0) as [_ Hall].
    assert (l = body es ++ [event]) as El.
    { unfold l. rewrite Hall, <-list_fmap_compose. cbn. apply list_fmap_id. }
    exists l. cbn [app] in *. rewrite Hk, record_bytes_file in *. repeat split; try done; rewrite ?Hbl; eauto.
  - apply bind_Ok in Hh as (b & Hb & Hh). apply map_err_Ok, encode_Ok in Hb as [-> Hfm].
    injection Hh as <-. pose proof (marker_is_marker event d' Hd' Hu) as Him.
    exists (truncation_marker event d' :: l). cbn [app record_bytes foldr] in *.
    rewrite Hk in *. unfold record_bytes in *. pose proof (record_bytes_file l) as Hrb.
    unfold record_bytes in Hrb. rewrite Hrb in *. cbn [snd] in *.
    assert (body (truncation_marker event d' :: l) = l) as Hb by (cbn [body]; by rewrite Him).
    split; [done|]. split; [cbn [valid_history]; rewrite Him; split; [done|by eapply increasing_sublist]|].
    split; [by constructor|]. split; [done|].
    split; rewrite ?Hb; eauto. right. exists d'. split; [done|]. destruct Hd'. lia.
Qed.

Lemma compact_no_panic id es event :
  valid_history id es → compact to_vec es event ≠ Err Panicked.
Proof.
  intros Hv Hc. destruct (take_marker_valid id es Hv) as (d & _ & Hm).
  unfold compact in Hc. rewrite Hm in Hc. cbn [mbind result_bind] in Hc.
  apply bind_Err in Hc as [(e & _ & He)%map_err_Err|(records & _ & Hc)]; [done|].
  destruct (retain _ _ d records) as [d' kept].
  apply bind_Err in Hc as [Hc|(hd & _ & Hc)].
  - destruct (d' =? 0)%Z; [done|]. apply bind_Err in Hc as [(e & _ & He)%map_err_Err|(b & _ & ?)]; done.
  - by destruct (_ <? _)%Z.
Qed.

(* ------------------------------------------------------------------ *)
(** ** The directory of an operation *)

Section directory.
Context (root : path) (id temporary : string) (euid umask : Z).
Context (Hid : valid_operation_id id = true).
(** The temporary name is a fresh one, of another form than the two names. *)
Context (Hevents : temporary ≠ "events.jsonl") (Hlock : temporary ≠ ".events.lock").

#[local] Abbreviation dir := (join root id).
#[local] Abbreviation file := (join dir "events.jsonl").
#[local] Abbreviation lock := (join dir ".events.lock").

(** The directories exist, the lock is a file if it exists, and the events are
    the text [c]; a missing file counts as empty. *)
Record prepared (c : string) (w : world) : Prop := {
  pr_root : ∃ u m, nodes w !! root = Some (Dir u m);
  pr_dir : ∃ u m, nodes w !! dir = Some (Dir u m);
  pr_lock : ∀ n, nodes w !! lock = Some n → is_file n = true;
  pr_file : (∃ u m, nodes w !! file = Some (File u m c)) ∨ (nodes w !! file = None ∧ c = "");
}.

Lemma prepared_nodes c w w' : nodes w' = nodes w → prepared c w → prepared c w'.
Proof. intros E [H1 H2 H3 H4]. by split; rewrite E. Qed.

Lemma prepared_touches c w w' t :
  t ≠ "events.jsonl" → t ≠ ".events.lock" → touches (λ q, q = join dir t) w w' →
  prepared c w → prepared c w'.
Proof.
  intros Ht1 Ht2 Ht [H1 H2 H3 H4].
  assert (root ≠ join dir t) as Hr by (intros E%(f_equal length); simpl in E; lia).
  assert (dir ≠ join dir t) as Hd by (intros E%(f_equal length); simpl in E; lia).
  assert (lock ≠ join dir t) as Hl by (intros [= E]; congruence).
  assert (file ≠ join dir t) as Hf by (intros [= E]; congruence).
  split; rewrite Ht; done.
Qed.

Section calls.
Context (fault : nat → option (IoError * nat)).

Lemma quiet {A} (f : gmap path node → result IoError A) c w r w' :
  syscall fault (λ ns, (f ns, ns)) w = (r, w') → prepared c w → prepared c w'.
Proof.
  intros H. apply prepared_nodes. revert H. unfold syscall.
  by destruct (fault (calls w)) as [[]|]; intros [= <- <-].
Qed.

Lemma io_quiet {A} (m : ST world IoError A) c w r w' :
  io m w = (r, w') → (∀ r w', m w = (r, w') → prepared c w → prepared c w') →
  prepared c w → prepared c w'.
Proof.
  unfold io, st_map_err. destruct (m w) as [[a|e] w1]; intros [= <- <-] H; by eapply H.
Qed.

Lemma file_call_quiet c w r w' :
  io (file_call fault) w = (r, w') → prepared c w → prepared c w'.
Proof. intros H. eapply io_quiet; [exact H|]. intros r1 w1. apply (quiet (λ _, Ok ())). Qed.

Lemma sync_quiet c w r w' : io (sync_all fault) w = (r, w') → prepared c w → prepared c w'.
Proof. intros H. eapply io_quiet; [exact H|]. intros r1 w1. apply (quiet (λ _, Ok ())). Qed.

Lemma open_any_quiet c q w r w' :
  io (open_any fault q) w = (r, w') → prepared c w → prepared c w'.
Proof.
  intros H. eapply io_quiet; [exact H|]. intros r1 w1 H1. apply prepared_nodes. revert H1.
  unfold open_any, syscall. destruct (fault (calls w)) as [[]|]; [by intros [= <- <-]|].
  by destruct (nodes w !! q) as [[]|]; intros [= <- <-].
Qed.

Lemma require_dir_quiet c q w r w' :
  require_dir fault q w = (r, w') → prepared c w → prepared c w'.
Proof.
  intros H. apply st_bind_cases in H as [(e & H & _)|(n & w1 & H & H1)].
  - eapply io_quiet; [exact H|]. intros r1 w1. apply quiet.
  - assert (w' = w1) as -> by (revert H1; by destruct (is_dir n); intros [= _ <-]).
    eapply io_quiet; [exact H|]. intros r1 w2. apply quiet.
Qed.

Lemma operation_directory_quiet c w r w' :
  operation_directory fault root id w = (r, w') → prepared c w →
  prepared c w' ∧ (∀ d, r = Ok d → d = dir).
Proof.
  unfold operation_directory. rewrite Hid. cbn [negb]. intros H Hp.
  apply st_bind_cases in H as [(e & H & ->)|(u1 & w1 & H1 & H)].
  { split; [|done]. by eapply require_dir_quiet. }
  apply st_bind_cases in H as [(e & H & ->)|(u2 & w2 & H2 & H)].
  { split; [|done]. do 2 (eapply require_dir_quiet; [done|]). done. }
  injection H as <- <-. split; [|congruence]. do 2 (eapply require_dir_quiet; [done|]). done.
Qed.

Lemma open_create c name w r w' :
  name = "events.jsonl" ∨ name = ".events.lock" →
  open_nofollow euid umask fault (join dir name) true true 384 w = (r, w') → prepared c w →
  prepared c w' ∧ ∀ n, r = Ok n → is_file n = true
    ∧ (name = "events.jsonl" → ∃ u m, n = File u m c ∧ nodes w' !! file = Some (File u m c)).
Proof.
  intros Hname. unfold open_nofollow, syscall.
  destruct (fault (calls w)) as [[]|].
  { intros [= <- <-] Hp. split; [|done]. by apply (prepared_nodes c w). }
  intros H Hp. destruct Hp as [Hr Hd Hl Hf].
  assert (in_dir (nodes w) (join dir name) = true) as Hin.
  { destruct Hd as (u & m & Hd). unfold in_dir. simpl. by rewrite Hd. }
  destruct (nodes w !! join dir name) as [[u m|u m c'|t]|] eqn:E.
  - injection H as <- <-. by split.
  - injection H as <- <-. split; [by split|]. intros n [= <-]. split; [done|]. intros ->.
    destruct Hf as [(u' & m' & Hf)|[Hf _]]; rewrite E in Hf; [|done].
    injection Hf as <- <- <-. eauto.
  - injection H as <- <-. by split.
  - rewrite Hin in H. cbn [negb] in H. injection H as <- <-.
    assert (root ≠ join dir name) as Hrn by (intros E'%(f_equal length); simpl in E'; lia).
    assert (dir ≠ join dir name) as Hdn by (intros E'%(f_equal length); simpl in E'; lia).
    assert (name = "events.jsonl" → c = "") as Hc.
    { intros ->. destruct Hf as [(? & ? & Hf)|[_ ?]]; [|done]. by rewrite E in Hf. }
    split; [split|]; cbn [nodes].
    + by rewrite lookup_insert_ne.
    + by rewrite lookup_insert_ne.
    + intros n. destruct Hname as [->| ->]; [rewrite lookup_insert_ne by done; apply Hl|].
      rewrite lookup_insert_eq. by intros [= <-].
    + destruct Hname as [->| ->]; [|by rewrite lookup_insert_ne].
      left. rewrite lookup_insert_eq, (Hc eq_refl). eauto.
    + intros n [= <-]. split; [done|]. intros ->. rewrite lookup_insert_eq, (Hc eq_refl). eauto.
Qed.

Lemma lock_quiet c w r w' :
  lock_file euid umask fault dir true w = (r, w') → prepared c w → prepared c w'.
Proof.
  unfold lock_file. intros H Hp.
  apply st_bind_cases in H as [(e & H & ->)|(n & w1 & H1 & H)].
  - unfold io in H. apply st_map_err_Err in H as (e0 & H & _).
    by eapply open_create in H as [? _]; [|right|].
  - apply st_map_err_Ok in H1. eapply open_create in H1 as [Hp1 Hn]; [|by right|done].
    destruct (Hn n eq_refl) as [Hfile _]. rewrite Hfile in H. cbn [negb] in H.
    by eapply file_call_quiet.
Qed.

Lemma open_events_quiet c w r w' :
  open_events euid umask fault file true w = (r, w') → prepared c w →
  prepared c w' ∧ ∀ c', r = Ok c' →
    c' = c ∧ ∃ u m, nodes w' !! file = Some (File u m c).
Proof.
  unfold open_events. intros H Hp.
  apply st_bind_cases in H as [(e & H & ->)|(n & w1 & H1 & H)].
  - unfold io in H. apply st_map_err_Err in H as (e0 & H & _).
    by eapply open_create in H as [? _]; [|left|].
  - apply st_map_err_Ok in H1. eapply open_create in H1 as [Hp1 Hn]; [|by left|done].
    destruct (Hn n eq_refl) as [_ (u & m & -> & Hf)]; [done|].
    injection H as <- <-. split; [done|]. intros c' [= <-]. eauto.
Qed.

Lemma read_records_nodes fuel total previous acc rest w :
  nodes (read_records from_slice fault fuel id total previous acc rest w).2 = nodes w.
Proof.
  revert total previous acc rest w. induction fuel as [|fuel IH]; intros; [done|].
  cbn [read_records]. unfold mbind, st_bind, st_try, file_call, syscall.
  destruct (fault (calls w)) as [[]|]; [done|].
  repeat case_match; rewrite ?IH; done.
Qed.

Lemma read_records_fault fuel total previous acc rest w w' h :
  (read_records from_slice fault fuel id total previous acc rest w).1 = Ok h →
  incomplete h = false →
  (read_records from_slice no_fault fuel id total previous acc rest w').1 = Ok h.
Proof.
  revert total previous acc rest w w'. induction fuel as [|fuel IH]; intros total previous acc rest w w'.
  { by intros [= <-]. }
  cbn [read_records]. unfold mbind, st_bind, st_try, file_call, syscall.
  destruct (fault (calls w)) as [[]|]; [by intros [= <-]|]. cbn [no_fault].
  destruct (read_until (MAX_RECORD_BYTES + 1) rest) as [b r].
  destruct (str_len b =? 0)%Z; [done|]. destruct (_ || _); [by intros [= <-]|].
  destruct (from_slice b) as [event|]; [|by intros [= <-]].
  destruct (_ || _); [by intros [= <-]|]. apply IH.
Qed.

Lemma read_history_quiet content w r w' :
  read_history from_slice fault content id w = (r, w') →
  nodes w' = nodes w
  ∧ ∀ h, r = Ok h → incomplete h = false →
      ∀ v, (read_history from_slice no_fault content id v).1 = Ok h.
Proof.
  intros H. split.
  - rewrite <-(read_records_nodes (S (String.length (take_bytes (MAX_LEGACY_BYTES + 1) content)))
      0 0 [] (take_bytes (MAX_LEGACY_BYTES + 1) content) w). unfold read_history in H. by rewrite H.
  - intros h -> Hh v. apply (read_records_fault _ _ _ _ _ w); [|done].
    unfold read_history in H. by rewrite H.
Qed.

Lemma not_below (q : path) name : q ≠ join q name ∧ root ≠ join dir name.
Proof. split; intros E%(f_equal length); simpl in E; lia. Qed.

(** The rename puts the new text in place, or changes nothing. *)
Lemma rename_quiet c output w r w' u m u' m' :
  io (rename fault (join dir temporary) file) w = (r, w') →
  nodes w !! join dir temporary = Some (File u m output) →
  nodes w !! file = Some (File u' m' c) → prepared c w →
  (prepared c w' ∧ r ≠ Ok ()) ∨ (prepared output w' ∧ r = Ok ()).
Proof.
  intros H Ht Hf Hp. unfold io, st_map_err, rename, syscall in H.
  destruct (fault (calls w)) as [[]|].
  { injection H as <- <-. left. split; [|done]. by apply (prepared_nodes c w). }
  destruct Hp as [Hr Hd Hl _]. rewrite Ht, Hf in H. cbn [is_some_and is_dir] in H.
  assert (in_dir (nodes w) file = true) as Hin.
  { destruct Hd as (ud & md & Hd). unfold in_dir. simpl. by rewrite Hd. }
  rewrite Hin in H. cbn [negb] in H. injection H as <- <-. right. split; [|done].
  destruct (not_below dir temporary) as [Hdt Hrt].
  destruct (not_below dir "events.jsonl") as [Hdf Hrf].
  assert (lock ≠ join dir temporary) as Hlt by (intros [= E']; congruence).
  split; cbn [nodes]; rewrite ?lookup_insert_ne, ?lookup_delete_ne by done; try done.
  left. rewrite lookup_insert_eq. eauto.
Qed.

Lemma temporary_created w u w' :
  io (create_new euid umask fault (join dir temporary) 384) w = (Ok u, w') →
  nodes w' !! join dir temporary = Some (File euid (Z.land 384 (Z.lnot umask)) "").
Proof.
  intros (_ & H & _)%st_map_err_Ok%syscall_Ok.
  destruct (is_some (nodes w !! join dir temporary)); [done|].
  destruct (negb (in_dir (nodes w) (join dir temporary))); [done|]. injection H as _ H.
  by rewrite <-H, lookup_insert_eq.
Qed.

Lemma temporary_written s w u w' v m :
  io (write_all fault (join dir temporary) s) w = (Ok u, w') →
  nodes w !! join dir temporary = Some (File v m "") →
  nodes w' !! join dir temporary = Some (File v m s).
Proof.
  intros H%st_map_err_Ok Ht. unfold write_all in H. destruct (fault (calls w)) as [[]|]; [done|].
  injection H as _ H. rewrite <-H. cbn [nodes]. unfold append. rewrite Ht.
  by rewrite lookup_insert_eq.
Qed.

(** Calls on the temporary file leave the rest. *)
Lemma io_temporary {A} (m : ST world IoError A) c w r w' :
  io m w = (r, w') → st_rel (touches (λ q, q = join dir temporary)) m → prepared c w →
  prepared c w' ∧ nodes w' !! file = nodes w !! file.
Proof.
  intros H T Hp. pose proof (st_rel_map_err _ (λ e, Error (Io e)) m T w) as T'.
  unfold io in H. rewrite H in T'. cbn [snd] in T'.
  split; [by eapply (prepared_touches c w)|]. apply T'. intros [= E]. congruence.
Qed.

Lemma write_and_rename c output w r w' u m v n :
  (_ ← io (write_all fault (join dir temporary) output);
   _ ← io (sync_all fault);
   io (rename fault (join dir temporary) file)) w = (r, w') →
  nodes w !! join dir temporary = Some (File u m "") →
  nodes w !! file = Some (File v n c) → prepared c w →
  (prepared c w' ∧ r ≠ Ok ()) ∨ (prepared output w' ∧ r = Ok ()).
Proof.
  intros H Ht Hf Hp. apply st_bind_cases in H as [(e & H & ->)|(u1 & w1 & H1 & H)].
  { left. split; [|done]. by apply io_temporary with (c := c) in H as [? _]; auto with frames. }
  pose proof (temporary_written _ _ _ _ _ _ H1 Ht) as Ht1.
  apply io_temporary with (c := c) in H1 as [Hp1 Hf1]; [|auto with frames|done].
  apply st_bind_cases in H as [(e & H & ->)|(u2 & w2 & H2 & H)].
  { left. split; [|done]. by eapply sync_quiet. }
  pose proof H2 as E2. apply st_map_err_Ok in E2. apply syscall_Ok in E2 as (_ & E2 & _).
  injection E2 as _ E2. apply sync_quiet with (c := c) in H2; [|done].
  eapply rename_quiet; [done|by rewrite <-E2|rewrite <-E2, Hf1; done|done].
Qed.

(** Replacing the file leaves the old text or the new one. *)
Lemma replace_quiet c output w r w' u m :
  replace_events euid umask fault temporary dir file output w = (r, w') →
  nodes w !! file = Some (File u m c) → prepared c w →
  (prepared c w' ∧ r ≠ Ok ()) ∨ prepared output w'.
Proof.
  unfold replace_events. intros H Hf Hp.
  apply st_bind_cases in H as [(e & H & ->)|(u1 & w1 & H1 & H)].
  { left. split; [|done]. by apply io_temporary with (c := c) in H as [? _]; auto with frames. }
  pose proof (temporary_created _ _ _ H1) as Ht.
  apply io_temporary with (c := c) in H1 as [Hp1 Hf1]; [|auto with frames|done].
  apply st_bind_try in H as (pr & w2 & H2 & H).
  eapply write_and_rename in H2 as [[Hp2 Hne]|[Hp2 ->]]; [..|rewrite Hf1; done|done]; [|..|done].
  - left. destruct pr as [[]|e]; [done|].
    apply st_bind_try in H as (r3 & w3 & H3 & H). injection H as <- <-. split; [|done].
    eapply (prepared_touches c w2); [done|done| |done].
    pose proof (remove_file_touches fault (join dir temporary) w2) as T. by rewrite H3 in T.
  - right. apply st_bind_cases in H as [(e & H & ->)|(u3 & w3 & H3 & H)].
    + by eapply open_any_quiet.
    + eapply sync_quiet; [done|]. by eapply open_any_quiet.
Qed.

Lemma write_outcome c s w r w' u m :
  io (write_all fault file s) w = (r, w') → nodes w !! file = Some (File u m c) →
  prepared c w → ∃ k, prepared (c +:+ String.substring 0 k s) w'
    ∧ (r = Ok () → String.substring 0 k s = s).
Proof.
  intros H Hf [Hr Hd Hl _]. destruct (not_below dir "events.jsonl") as [Hdf Hrf].
  assert (∀ k, append (nodes w) file (String.substring 0 k s)
               = <[file := File u m (c +:+ String.substring 0 k s)]> (nodes w)) as Ha.
  { intros k. unfold append. by rewrite Hf. }
  assert (∀ k w', nodes w' = append (nodes w) file (String.substring 0 k s) →
                  prepared (c +:+ String.substring 0 k s) w') as Hprep.
  { intros k v E. rewrite Ha in E.
    split; rewrite E; rewrite ?lookup_insert_ne by done; try done.
    left. rewrite lookup_insert_eq. eauto. }
  assert (String.substring 0 (String.length s) s = s) as Hall.
  { clear. induction s as [|b s IH]; [done|]. simpl. by rewrite IH. }
  unfold io, st_map_err, write_all in H. destruct (fault (calls w)) as [[e k]|].
  - injection H as <- <-. exists k. split; [by apply Hprep|done].
  - injection H as <- <-. exists (String.length s). split; [|done]. apply Hprep. by rewrite Hall.
Qed.

(** The text of the file after an append, whatever fails. *)
Definition appended (es : list OperationEvent) (event : OperationEvent)
    (r : result stop unit) (w' : world) : Prop :=
  (∃ k, prepared (file_of es +:+ String.substring 0 k (line event)) w'
   ∧ (k ≠ 0 → record_fits event
      ∧ (str_len (file_of es) + str_len (line event) ≤ MAX_PERSISTED_EVENT_BYTES)%Z)
   ∧ (r = Ok () → String.substring 0 k (line event) = line event))
  ∨ (∃ es', prepared (file_of es') w' ∧ valid_history id es' ∧ Forall record_fits es'
     ∧ (str_len (file_of es') ≤ MAX_PERSISTED_EVENT_BYTES)%Z ∧ compacted es event es'
     ∧ (MAX_PERSISTED_EVENT_BYTES < str_len (file_of es) + str_len (line event))%Z).

Lemma unchanged es event r w' :
  prepared (file_of es) w' → r ≠ Ok () → appended es event r w'.
Proof.
  intros Hp Hr. left. exists 0. replace (String.substring 0 0 (line event)) with ""
    by (by destruct (line event)). rewrite string_app_nil_r. split; [done|]. by split.
Qed.

Lemma st_lift_cases {W E A} (x : result E A) (w : W) r w' :
  st_lift x w = (r, w') → r = x ∧ w' = w.
Proof. unfold st_lift. by intros [= <- <-]. Qed.

(** The checks of the file change nothing. *)
Lemma checks_quiet c event (b : bool) w r w' :
  (if b then mret ()
   else
     _ ← io (file_call fault);
     _ ← st_lift (check_head from_slice event c);
     _ ← io (file_call fault);
     _ ← io (file_call fault);
     st_lift (check_tail from_slice id event c)) w = (r, w') →
  prepared c w → prepared c w' ∧ (∀ q, nodes w' !! q = nodes w !! q).
Proof.
  assert (∀ q, st_rel (touches (λ x, x ≠ q)) (io (file_call fault))) as Tio.
  { intros q. apply st_rel_map_err, file_call_touches. }
  intros H Hp. assert (∀ q, nodes w' !! q = nodes w !! q) as E.
  { intros q. assert (touches (λ x, x ≠ q) w w') as T; [|by apply T; intros []].
    assert (w' = (r, w').2) as -> by done. rewrite <-H. clear H. revert w Hp.
    intros w _. revert w. destruct b; [apply (st_rel_ret (W:=world) (E:=stop)), _|].
    repeat (apply st_rel_bind; [apply _| |intros ?]); try apply Tio;
      apply st_rel_lift, _. }
  split; [|done]. destruct Hp as [H1 H2 H3 H4]. by split; rewrite E.
Qed.

Lemma saturating_fits a b :
  (saturating_add a b ≤ MAX_PERSISTED_EVENT_BYTES)%Z → (a + b ≤ MAX_PERSISTED_EVENT_BYTES)%Z.
Proof. unfold saturating_add, u64_max, MAX_PERSISTED_EVENT_BYTES. lia. Qed.

(** The part of [append_event] after the checks. *)
Lemma write_phase es event w r w' u m :
  (if (saturating_add (str_len (file_of es)) (str_len (line event))
       <=? MAX_PERSISTED_EVENT_BYTES)%Z
   then
     _ ← io (write_all fault file (line event));
     _ ← io (sync_all fault);
     if (str_len (file_of es) =? 0)%Z
     then _ ← io (open_any fault dir); io (sync_all fault)
     else mret ()
   else
     _ ← io (file_call fault);
     history ← read_history from_slice fault (file_of es) id;
     if incomplete history then throw InvalidHistory
     else
       output ← st_lift (compact to_vec (history_events history) event);
       replace_events euid umask fault temporary dir file output) w = (r, w') →
  nodes w !! file = Some (File u m (file_of es)) → prepared (file_of es) w →
  valid_history id es → Forall record_fits es →
  (str_len (file_of es) ≤ MAX_LEGACY_BYTES)%Z →
  event_operation_id event = id → event_sequence event ≠ 0%Z → record_fits event →
  is_u64 (event_sequence event) → (high es < event_sequence event)%Z →
  appended es event r w'.
Proof.
  intros H Hf Hp Hv Hfit Hsize Hide Hne Hfe Hu Hhigh.
  destruct (Z.leb_spec (saturating_add (str_len (file_of es)) (str_len (line event)))
              MAX_PERSISTED_EVENT_BYTES) as [Hle|Hgt].
  - assert (str_len (file_of es) + str_len (line event) ≤ MAX_PERSISTED_EVENT_BYTES)%Z as Hfits.
    { by apply saturating_fits. }
    apply st_bind_cases in H as [(e & H & ->)|(u1 & w1 & H1 & H)].
    { eapply write_outcome in H as (k & Hp' & Hr); [|done..]. left. by exists k. }
    eapply write_outcome in H1 as (k & Hp1 & Hr); [|done..]. destruct u1. rewrite (Hr eq_refl) in *.
    left. exists k. rewrite (Hr eq_refl). split; [|done].
    apply st_bind_cases in H as [(e & H & ->)|(u2 & w2 & H2 & H)]; [by eapply sync_quiet|].
    apply sync_quiet with (c := file_of es +:+ line event) in H2; [|done].
    destruct (str_len (file_of es) =? 0)%Z; [|by injection H as <- <-].
    apply st_bind_cases in H as [(e & H & ->)|(u3 & w3 & H3 & H)]; [by eapply open_any_quiet|].
    eapply sync_quiet; [done|]. by eapply open_any_quiet.
  - apply st_bind_cases in H as [(e & H & ->)|(u1 & w1 & H1 & H)].
    { apply unchanged; [|done]. by eapply file_call_quiet. }
    assert (nodes w1 = nodes w) as E1.
    { apply st_map_err_Ok in H1. apply syscall_Ok in H1 as (_ & H1 & _). by injection H1 as _ ->. }
    apply st_bind_cases in H as [(e & H & ->)|(h & w2 & H2 & H)].
    { apply unchanged; [|done]. apply read_history_quiet in H as [E2 _].
      apply (prepared_nodes _ w); [congruence|done]. }
    apply read_history_quiet in H2 as [E2 Hread].
    assert (prepared (file_of es) w2) as Hp2 by (apply (prepared_nodes _ w); [congruence|done]).
    destruct (incomplete h) eqn:Hinc; [injection H as <- <-; by apply unchanged|].
    pose proof (Hread h eq_refl Hinc w) as Hh.
    pose proof (read_history_tail id es "" w Hv Hfit eq_refl) as Ht.
    rewrite string_app_nil_r in Ht. rewrite Ht in Hh; [|done|change (str_len "") with 0%Z; lia].
    injection Hh as <-. cbn [history_events] in H.
    apply st_bind_cases in H as [(e & H & ->)|(out & w3 & H3 & H)].
    { apply st_lift_cases in H as [_ ->]. by apply unchanged. }
    apply st_lift_cases in H3 as [H3 ->]. symmetry in H3.
    apply (compact_shape id) in H3 as (es' & -> & Hv' & Hf' & Hs' & Hc'); try done; [|destruct Hu; lia].
    eapply replace_quiet in H as [[Hq Hr]|Hq]; [by apply unchanged| |by rewrite E2, E1|done].
    right. exists es'. do 5 (split; [done|]). unfold saturating_add in Hgt. lia.
Qed.

Lemma append_outcome es event w r w' :
  append_event to_vec from_slice euid umask fault temporary root id event w = (r, w') →
  prepared (file_of es) w → valid_history id es → Forall record_fits es →
  (str_len (file_of es) ≤ MAX_LEGACY_BYTES)%Z →
  is_u64 (event_sequence event) → (high es < event_sequence event)%Z →
  appended es event r w'.
Proof.
  unfold append_event. intros H Hp Hv Hfit Hsize Hu Hhigh.
  destruct (eqb (event_operation_id event) id) eqn:Hide.
  2: { injection H as <- <-. by apply unchanged. }
  rewrite eqb_true in Hide. cbn [negb orb] in H.
  destruct (Z.eqb_spec (event_sequence event) 0) as [|Hne].
  { injection H as <- <-. by apply unchanged. }
  apply st_bind_cases in H as [(e & H & ->)|(bytes & w0 & H0 & H)].
  { apply st_lift_cases in H as [_ ->]. by apply unchanged. }
  apply st_lift_cases in H0 as [H0 ->]. symmetry in H0. apply map_err_Ok, encode_Ok in H0 as [-> Hfe].
  apply st_bind_cases in H as [(e & H & ->)|(d & w1 & H1 & H)].
  { apply operation_directory_quiet with (c := file_of es) in H as [H _]; [|done].
    by apply unchanged. }
  apply operation_directory_quiet with (c := file_of es) in H1 as [Hp1 Hd]; [|done].
  rewrite (Hd d eq_refl) in H. clear Hd d.
  apply st_bind_cases in H as [(e & H & ->)|(u2 & w2 & H2 & H)].
  { apply unchanged; [|done]. by eapply lock_quiet. }
  apply lock_quiet with (c := file_of es) in H2; [|done].
  apply st_bind_cases in H as [(e & H & ->)|(content & w3 & H3 & H)].
  { apply open_events_quiet with (c := file_of es) in H as [H _]; [|done]. by apply unchanged. }
  apply open_events_quiet with (c := file_of es) in H3 as [Hp3 Hc]; [|done].
  destruct (Hc content eq_refl) as (-> & u & m & Hf3). clear Hc.
  apply st_bind_cases in H as [(e & H & ->)|(u4 & w4 & H4 & H)].
  { apply unchanged; [|done]. by eapply file_call_quiet. }
  assert (nodes w4 !! file = nodes w3 !! file) as E4.
  { apply st_map_err_Ok in H4. apply syscall_Ok in H4 as (_ & H4 & _). by injection H4 as _ ->. }
  apply file_call_quiet with (c := file_of es) in H4; [|done].
  apply st_bind_cases in H as [(e & H & ->)|(u5 & w5 & H5 & H)].
  { apply unchanged; [|done]. by apply checks_quiet with (c := file_of es) in H as [H _]. }
  apply checks_quiet with (c := file_of es) in H5 as [Hp5 E5]; [|done].
  specialize (E5 file). rewrite E4 in E5. rewrite <-E5 in Hf3. by eapply write_phase.
Qed.
End calls.

(* ------------------------------------------------------------------ *)
(** ** Reading back without failures *)

Lemma opens_directory c w :
  prepared c w → ∃ w', operation_directory no_fault root id w = (Ok dir, w') ∧ nodes w' = nodes w.
Proof.
  intros [(u & m & Hr) (u' & m' & Hd) _ _]. unfold operation_directory. rewrite Hid. cbn [negb].
  assert (∀ q w u m, nodes w !! q = Some (Dir u m) →
            require_dir no_fault q w = (Ok (), {| nodes := nodes w; calls := S (calls w) |})) as Hreq.
  { intros q v a b Hq. unfold require_dir, mbind, st_bind, io, st_map_err, symlink_metadata, syscall.
    cbn [no_fault]. by rewrite Hq. }
  erewrite st_bind_eq by (by eapply Hreq). erewrite st_bind_eq by (by eapply Hreq).
  by eexists.
Qed.

Lemma opens_lock c w :
  prepared c w → ∃ w', lock_file euid umask no_fault dir true w = (Ok (), w') ∧ prepared c w'.
Proof.
  intros Hp. assert (∃ n w', io (open_nofollow euid umask no_fault lock true true 384) w = (Ok n, w'))
    as (n & w1 & H1).
  { unfold io, st_map_err, open_nofollow, syscall. cbn [no_fault].
    destruct (nodes w !! lock) as [[]|] eqn:E; try (by eexists _, _);
      try (by apply (pr_lock c w Hp) in E).
    destruct (pr_dir c w Hp) as (u & m & Hd).
    assert (in_dir (nodes w) lock = true) as -> by (unfold in_dir; simpl; by rewrite Hd).
    by eexists _, _. }
  pose proof H1 as H2. apply st_map_err_Ok in H2.
  eapply open_create in H2 as [Hp1 Hn]; [|by right|done]. destruct (Hn n eq_refl) as [Hf _].
  unfold lock_file. rewrite (st_bind_eq _ _ _ _ _ H1), Hf. cbn [negb].
  eexists. split; [reflexivity|]. by apply (prepared_nodes c w1).
Qed.

Lemma load_complete es t after w :
  prepared (file_of es +:+ t) w → valid_history id es → Forall record_fits es →
  no_nl t = true → (str_len t ≤ MAX_RECORD_BYTES)%Z →
  (str_len (file_of es) + str_len t ≤ MAX_LEGACY_BYTES)%Z →
  (load_events from_slice euid umask no_fault root id after w).1
  = Ok {| history_events :=
            List.filter (λ e, (event_sequence e =? 0)%Z || (after <? event_sequence e)%Z) es;
          incomplete := negb (is_empty t) |}.
Proof.
  intros Hp Hv Hfit Ht Htl Htot. unfold load_events, load_events_mode.
  destruct (opens_directory _ _ Hp) as (w1 & H1 & E1). rewrite (st_bind_eq _ _ _ _ _ H1).
  destruct (opens_lock _ w1 ltac:(by apply (prepared_nodes _ w))) as (w2 & H2 & Hp2).
  assert (∀ (f : result stop unit → ST world stop EventHistory),
            (st_try (lock_file euid umask no_fault dir (negb false)) ≫= f) w1 = f (Ok ()) w2) as ->.
  { intros f. unfold mbind, st_bind, st_try. cbn [negb]. by rewrite H2. }
  unfold mbind at 1, st_bind at 1, mret at 1, st_ret at 1.
  unfold mbind at 1, st_bind at 1. unfold st_try, open_events.
  unfold mbind at 1, st_bind at 1, io, st_map_err, open_nofollow, syscall. cbn [no_fault].
  destruct (pr_file _ _ Hp2) as [(u & m & ->)|[-> Hc]].
  - unfold mret, st_ret, mbind, st_bind.
    rewrite (pair_with_fst (read_history _ _ _ _ _) _ (read_history_tail id es t _ Hv Hfit Ht Htl Htot)).
    done.
  - cbn [negb]. assert (str_len (file_of es) = 0 ∧ str_len t = 0)%Z as [Hes Hte].
    { apply (f_equal str_len) in Hc. rewrite str_len_app in Hc. change (str_len "") with 0%Z in Hc.
      pose proof (str_len_nonneg t). pose proof (str_len_nonneg (file_of es)). lia. }
    apply file_of_empty in Hes as ->. by destruct t.
Qed.

Lemma opens_file c w :
  prepared c w →
  ∃ w' u m, open_events euid umask no_fault file true w = (Ok c, w') ∧ prepared c w'
  ∧ nodes w' !! file = Some (File u m c).
Proof.
  intros Hp.
  assert (∃ r w', open_events euid umask no_fault file true w = (Ok r, w')) as (r & w1 & H1).
  { unfold open_events, mbind, st_bind, io, st_map_err, open_nofollow, syscall. cbn [no_fault].
    destruct (pr_file c w Hp) as [(u & m & ->)|[-> _]]; [by eexists _, _|].
    destruct (pr_dir c w Hp) as (u & m & Hd).
    assert (in_dir (nodes w) file = true) as -> by (unfold in_dir; simpl; by rewrite Hd).
    by eexists _, _. }
  pose proof H1 as H2. apply open_events_quiet with (c := c) in H2 as [Hp1 Hc]; [|done].
  destruct (Hc r eq_refl) as (-> & u & m & Hf). by exists w1, u, m.
Qed.

Lemma file_call_succeeds w :
  io (file_call no_fault) w = (Ok (), {| nodes := nodes w; calls := S (calls w) |}).
Proof. done. Qed.

Lemma write_succeeds s w :
  ∃ w', io (write_all no_fault file s) w = (Ok (), w') ∧ nodes w' !! dir = nodes w !! dir.
Proof.
  eexists. split; [reflexivity|]. cbn [nodes]. unfold append.
  destruct (nodes w !! file) as [[]|]; [done| |done..].
  apply lookup_insert_ne, not_eq_sym, not_below.
Qed.

Lemma append_succeeds es event w :
  prepared (file_of es) w → valid_history id es → Forall record_fits es →
  event_operation_id event = id → event_sequence event ≠ 0%Z → record_fits event →
  (high es < event_sequence event)%Z →
  (str_len (file_of es) + str_len (line event) ≤ MAX_PERSISTED_EVENT_BYTES)%Z →
  ∃ w', append_event to_vec from_slice euid umask no_fault temporary root id event w = (Ok (), w').
Proof.
  intros Hp Hv Hfit Hide Hne Hfe Hhigh Hle. unfold append_event.
  rewrite Hide, eqb_refl, (proj2 (Z.eqb_neq _ _) Hne), (encode_fits _ Hfe). cbn [negb orb map_err].
  rewrite (st_bind_eq (st_lift (Ok (line event))) _ w (line event) w eq_refl).
  destruct (opens_directory _ _ Hp) as (w1 & H1 & E1). rewrite (st_bind_eq _ _ _ _ _ H1).
  destruct (opens_lock _ w1 ltac:(by apply (prepared_nodes _ w))) as (w2 & H2 & Hp2).
  rewrite (st_bind_eq _ _ _ _ _ H2).
  destruct (opens_file _ _ Hp2) as (w3 & u & m & H3 & Hp3 & Hf3).
  rewrite (st_bind_eq _ _ _ _ _ H3), (st_bind_eq _ _ _ _ _ (file_call_succeeds w3)).
  set (w4 := {| nodes := nodes w3; calls := _ |}).
  match goal with |- ∃ w', (?checks ≫= _) _ = _ =>
    assert (∃ w5, checks w4 = (Ok (), w5) ∧ nodes w5 = nodes w3) as (w5 & H5 & E5) end.
  { destruct (Z.eqb_spec (str_len (file_of es)) 0) as [|Hnz]; [by eexists|].
    rewrite file_of_empty in Hnz.
    pose proof (head_accepted id es event Hv Hfit Hhigh Hnz) as Hh.
    pose proof (tail_accepted id es event Hv Hfit Hhigh Hnz) as Ht. rewrite Hh, Ht.
    by eexists. }
  rewrite (st_bind_eq _ _ _ _ _ H5).
  rewrite (proj2 (Z.leb_le _ _)).
  2: { unfold saturating_add. lia. }
  destruct (write_succeeds (line event) w5) as (w6 & H6 & E6). rewrite (st_bind_eq _ _ _ _ _ H6).
  erewrite st_bind_eq by reflexivity. destruct (_ =? 0)%Z; [|by eexists].
  destruct (pr_dir _ _ Hp3) as (u' & m' & Hd).
  unfold mbind, st_bind, io, st_map_err, open_any, syscall. cbn [no_fault nodes].
  rewrite E6, E5, Hd. by eexists.
Qed.
End directory.
End codec.

(* ------------------------------------------------------------------ *)
(** ** What holds of the file *)

(** What the code relies on of the JSON library: parsing gives back what was
    serialized, with or without a line break after it, and the compact form has
    no line break. *)
Class JsonCodec (to_vec : OperationEvent → string) (from_slice : string → option OperationEvent)
    : Prop := {
  json_parse e : from_slice (to_vec e) = Some e;
  json_parse_line e : from_slice (to_vec e +:+ String nl "") = Some e;
  json_one_line e : no_nl (to_vec e) = true;
}.

(** The events a client that has seen [after] is given. *)
Definition since (after : Z) (es : list OperationEvent) : list OperationEvent :=
  List.filter (λ e, (event_sequence e =? 0)%Z || (after <? event_sequence e)%Z) es.

(** The directory of [id] with the well-formed history [es], and a next event. *)
Record appendable (to_vec : OperationEvent → string) (root : path) (id : string)
    (es : list OperationEvent) (event : OperationEvent) (w : world) : Prop := {
  ap_id : valid_operation_id id = true;
  ap_prepared : prepared root id (file_of to_vec es) w;
  ap_history : valid_history id es;
  ap_fit : Forall (record_fits to_vec) es;
  ap_size : (str_len (file_of to_vec es) ≤ MAX_LEGACY_BYTES)%Z;
  ap_sequence : is_u64 (event_sequence event);
  ap_next : (high es < event_sequence event)%Z;
}.

(** A fresh name for the temporary file. *)
Definition fresh_name (temporary : string) : Prop :=
  temporary ≠ "events.jsonl" ∧ temporary ≠ ".events.lock".

Section results.
Context {to_vec : OperationEvent → string} {from_slice : string → option OperationEvent}.
Context `{HJ : !JsonCodec to_vec from_slice}.

Lemma json_codec e :
  from_slice (to_vec e) = Some e ∧ from_slice (to_vec e +:+ String nl "") = Some e.
Proof. split; [apply json_parse|apply json_parse_line]. Qed.

(** Reading back after an append, whatever failed in it. *)
Lemma load_appended root id euid umask es event w r w' after :
  appendable to_vec root id es event w → event_operation_id event = id →
  (0 < event_sequence event)%Z →
  appended to_vec root id es event r w' →
  ∃ es' cut, (load_events from_slice euid umask no_fault root id after w').1
             = Ok {| history_events := since after es'; incomplete := cut |}
  ∧ (es' = es ∨ es' = es ++ [event] ∨ compacted es event es')
  ∧ (r = Ok () → cut = false ∧ (es' = es ++ [event] ∨ compacted es event es')).
Proof.
  intros [Hid Hp Hv Hfit Hsize Hu Hnext] Hide Hpos Happ.
  pose proof (load_complete to_vec from_slice json_codec json_one_line root id euid umask) as Hload.
  destruct Happ as [(k & Hk & Hfits & Hr)|(es' & Hp' & Hv' & Hf' & Hs' & Hc & _)].
  2: { exists es', false. rewrite <-(string_app_nil_r (file_of to_vec es')) in Hp'.
       rewrite (Hload Hid es' "" after w' Hp' Hv' Hf'); [by auto|done|done|].
       change (str_len "") with 0%Z. unfold MAX_LEGACY_BYTES, MAX_RECORD_BYTES in *. lia. }
  destruct (decide (k = 0)) as [->|Hk0].
  { exists es, false. replace (String.substring 0 0 (line to_vec event)) with "" in *
      by (by destruct (line to_vec event)).
    rewrite (Hload Hid es "" after w' Hk Hv Hfit); [|done|done|change (str_len "") with 0%Z; lia].
    split; [done|]. split; [by left|]. intros E%Hr. exfalso.
    pose proof (line_len to_vec event) as Hl. rewrite <-E in Hl. done. }
  destruct (Hfits Hk0) as [Hfe Htot].
  destruct (line_prefix to_vec json_one_line k event) as [E|[Hn Hlt]].
  - exists (es ++ [event]), false. rewrite E in Hk.
    rewrite <-file_of_snoc, <-(string_app_nil_r (file_of to_vec _)) in Hk.
    rewrite (Hload Hid (es ++ [event]) "" after w' Hk);
      [by auto|by apply valid_history_snoc|by apply Forall_app; auto|done|done|].
    rewrite file_of_snoc, str_len_app. change (str_len "") with 0%Z.
    unfold MAX_LEGACY_BYTES, MAX_RECORD_BYTES in *. lia.
  - eexists es, _. split; [apply (Hload Hid es _ after w' Hk Hv Hfit Hn)|].
    + unfold record_fits in Hfe. lia.
    + unfold MAX_LEGACY_BYTES, MAX_RECORD_BYTES in *. lia.
    + split; [by left|]. intros E%Hr. rewrite E in Hlt. lia.
Qed.


(** Without failures an event that follows the history and fits into it is
    appended, and a client that has seen [after] then reads exactly the events
    above [after], the new one included, in a complete history. *)
Theorem append_then_load root id temporary euid umask es event w after :
  fresh_name temporary → appendable to_vec root id es event w →
  event_operation_id event = id → event_sequence event ≠ 0%Z → record_fits to_vec event →
  (str_len (file_of to_vec es) + str_len (line to_vec event) ≤ MAX_PERSISTED_EVENT_BYTES)%Z →
  ∃ w', append_event to_vec from_slice euid umask no_fault temporary root id event w = (Ok (), w')
  ∧ (load_events from_slice euid umask no_fault root id after w').1
    = Ok {| history_events := since after (es ++ [event]); incomplete := false |}.
Proof.
  intros [Ht1 Ht2] Ha Hide Hne Hfe Htot. pose proof Ha as [Hid Hp Hv Hfit Hsize Hu Hnext].
  destruct (append_succeeds to_vec from_slice json_codec json_one_line root id temporary euid umask
    Hid es event w Hp Hv Hfit Hide Hne Hfe Hnext Htot) as [w' H].
  exists w'. split; [done|].
  assert (prepared root id (file_of to_vec (es ++ [event])) w') as Hp'.
  { apply (append_outcome to_vec from_slice json_codec json_one_line root id temporary euid umask
      Hid Ht1 Ht2 no_fault es event w) in H as [(k & Hk & _ & Hr)|(? & _ & _ & _ & _ & _ & Hgt)];
      [|lia|done..]. by rewrite (Hr eq_refl), <-file_of_snoc in Hk. }
  rewrite <-(string_app_nil_r (file_of to_vec _)) in Hp'.
  rewrite (load_complete to_vec from_slice json_codec json_one_line root id euid umask Hid _ ""
    after w' Hp'); [done|apply valid_history_snoc; try done; destruct Hu; lia
                   |by apply Forall_app; auto|done|done|].
  rewrite file_of_snoc, str_len_app. change (str_len "") with 0%Z.
  unfold MAX_LEGACY_BYTES, MAX_RECORD_BYTES. lia.
Qed.

(** Compacting a well-formed history cannot panic, and what it writes is a
    well-formed history of at most 8 MiB in which every normative event is kept
    in order, the technical events missing are the oldest ones, and a marker
    counts them when there are any. *)
Theorem compact_spec id es event :
  valid_history id es → event_operation_id event = id →
  is_u64 (event_sequence event) → (high es < event_sequence event)%Z →
  (0 < event_sequence event)%Z →
  compact to_vec es event ≠ Err Panicked
  ∧ ∀ out, compact to_vec es event = Ok out →
    ∃ es', out = file_of to_vec es' ∧ valid_history id es' ∧ compacted es event es'
    ∧ (str_len out ≤ MAX_PERSISTED_EVENT_BYTES)%Z.
Proof.
  intros Hv Hide Hu Hnext Hpos. split; [by apply (compact_no_panic to_vec id)|].
  intros out Hc. apply (compact_shape to_vec id) in Hc as (es' & ? & ? & _ & ? & ?); eauto 10.
Qed.
End results.

(* ------------------------------------------------------------------ *)
(** ** A concrete serializer *)

#[export] Instance OperationState_finite : Finite OperationState.
Proof.
  refine {| enum := [Idle; Checking; Available; State.Preflight; Planned; AwaitingConfirmation;
    Downloading; Snapshotting; Applying; ReadyToReboot; ApplyingOffline; AwaitingReboot;
    VerifyingBoot; Blocked; Failed; NeedsRecovery; Completed] |}.
  - apply (bool_decide_unpack _). reflexivity.
  - intros []; apply (bool_decide_unpack _); reflexivity.
Defined.
#[export] Instance EventLevel_finite : Finite EventLevel.
Proof.
  refine {| enum := [Info; Warning; Level_Error] |}.
  - apply (bool_decide_unpack _). reflexivity.
  - intros []; apply (bool_decide_unpack _); reflexivity.
Defined.
#[export] Instance EventSource_finite : Finite EventSource.
Proof.
  refine {| enum := [Source_Service; ZypperStdout; ZypperStderr] |}.
  - apply (bool_decide_unpack _). reflexivity.
  - intros []; apply (bool_decide_unpack _); reflexivity.
Defined.
#[export] Instance TechnicalLine_countable : Countable TechnicalLine.
Proof.
  apply (inj_countable' (λ l, (line_source l, line_text l, line_truncated l))
    (λ '(s, t, b), {| line_source := s; line_text := t; line_truncated := b |})).
  by intros [].
Defined.
#[export] Instance OperationEvent_countable : Countable OperationEvent.
Proof.
  apply (inj_countable
    (λ e, [countable.encode (event_operation_id e); countable.encode (event_sequence e); countable.encode (occurred_at e);
           countable.encode (event_state e); countable.encode (level e); countable.encode (message_id e);
           countable.encode (fields e); countable.encode (technical e)])
    (λ l, match l with
          | [i; s; o; st; l; m; f; t] =>
              i ← countable.decode i; s ← countable.decode s; o ← countable.decode o; st ← countable.decode st; l ← countable.decode l;
              m ← countable.decode m; f ← countable.decode f; t ← countable.decode t;
              Some {| event_operation_id := i; event_sequence := s; occurred_at := o;
                      event_state := st; level := l; message_id := m; fields := f;
                      technical := t |}
          | _ => None
          end)).
  intros []. cbn. by rewrite !decode_encode.
Defined.

Fixpoint bits_text (p : positive) : string :=
  match p with xH => "" | xO p => String "0" (bits_text p) | xI p => String "1" (bits_text p) end.
Fixpoint text_bits (s : string) : option positive :=
  match s with
  | EmptyString => Some xH
  | String "0" s => xO <$> text_bits s
  | String "1" s => xI <$> text_bits s
  | String b s => if Ascii.eqb b nl && is_empty s then Some xH else None
  end.
Definition sample_to_vec (e : OperationEvent) : string := bits_text (countable.encode e).
Definition sample_from_slice (s : string) : option OperationEvent := text_bits s ≫= countable.decode.

#[export] Instance sample_json : JsonCodec sample_to_vec sample_from_slice.
Proof.
  split; intros e; unfold sample_to_vec, sample_from_slice.
  - replace (text_bits (bits_text (countable.encode e))) with (Some (countable.encode e)); [apply decode_encode|].
    induction (countable.encode e) as [p IH|p IH|]; simpl; [by rewrite <-IH..|done].
  - replace (text_bits (bits_text (countable.encode e) +:+ String nl "")) with (Some (countable.encode e));
      [apply decode_encode|].
    induction (countable.encode e) as [p IH|p IH|]; [..|done]; cbn [bits_text]; rewrite string_app_cons;
      cbn [text_bits]; by rewrite <-IH.
  - induction (countable.encode e) as [p IH|p IH|]; simpl; done.
Qed.

(* ------------------------------------------------------------------ *)
(** ** Concrete histories *)

Definition sample_id : string := "01234567-89ab-cdef-0123-456789abcdef".
Definition sample_event (n : Z) : OperationEvent :=
  technical_event sample_id n "2026-01-01T00:00:00Z" Downloading.
Definition sample_directory : path := ["operations"; "lyra-upgrade"; "lib"; "var"].
Definition sample_files : world := {|
  nodes :=
    <[sample_directory := Dir 0 448]>
    (<[join sample_directory sample_id := Dir 0 448]>
    (<[join (join sample_directory sample_id) "events.jsonl" :=
         File 0 384 (file_of sample_to_vec [sample_event 1])]> ∅));
  calls := 0 |}.

Lemma sample_appendable :
  appendable sample_to_vec sample_directory sample_id [sample_event 1] (sample_event 2)
    sample_files.
Proof.
  split.
  - reflexivity.
  - split.
    + exists 0%Z, 448%Z. vm_compute. reflexivity.
    + exists 0%Z, 448%Z. vm_compute. reflexivity.
    + intros n Hn. vm_compute in Hn. discriminate.
    + left. exists 0%Z, 384%Z. vm_compute. reflexivity.
  - vm_compute. split; [reflexivity|split; [reflexivity|exact I]].
  - constructor; [|constructor]. vm_compute. discriminate.
  - vm_compute. discriminate.
  - split; vm_compute; discriminate.
  - vm_compute. reflexivity.
Qed.


Lemma append_then_load_witness :
  ∃ w', append_event sample_to_vec sample_from_slice 0 18 no_fault ".tmpA1b2C3"
          sample_directory sample_id (sample_event 2) sample_files = (Ok (), w').
Proof.
  destruct (append_then_load sample_directory sample_id ".tmpA1b2C3" 0 18 [sample_event 1]
    (sample_event 2) sample_files 0) as (w' & H & _).
  - split; discriminate.
  - apply sample_appendable.
  - reflexivity.
  - discriminate.
  - vm_compute. discriminate.
  - vm_compute. discriminate.
  - eauto.
Defined.

Lemma compact_spec_witness :
  compact sample_to_vec [sample_event 1] (sample_event 2) ≠ Err Panicked.
Proof.
  apply (compact_spec sample_id).
  - vm_compute. split; [reflexivity|split; [reflexivity|exact I]].
  - reflexivity.
  - split; vm_compute; discriminate.
  - vm_compute. reflexivity.
  - vm_compute. reflexivity.
Defined.
