(* ===== verification/Inventory.v ===== *)
(** * The package inventory after a transaction (src/service/src/inventory.rs)

    [verify_result]: whether the installed packages are those the reviewed plan
    leaves. The walk that takes an inventory is in Artifacts.v. *)

From S2P Require Import Prelude RustStr State Preflight Solver Plan.

Open Scope bool_scope.
Open Scope lyra_scope.

#[export] Instance InstalledPackage_countable : Countable InstalledPackage.
Proof.
  apply (inj_countable'
    (λ p, (pkg_name p, pkg_version p, pkg_architecture p, pkg_vendor p))
    (λ '(n, v, a, d), {| pkg_name := n; pkg_version := v; pkg_architecture := a;
                         pkg_vendor := d |})).
  by intros [].
Defined.

(** The messages of the [io::Error]s. *)
Inductive InventoryError : Set :=
  | MissingConfirmedInventory | MissingVendor | UnknownPreviousPackage
  | DiffersFromConfirmedPlan.

#[export] Instance InventoryError_eq_dec : EqDecision InventoryError.
Proof. solve_decision. Defined.

(* ------------------------------------------------------------------ *)
(** ** The result of a transaction *)

Definition identity (change : PackageChange) (version vendor : string) : InstalledPackage := {|
  pkg_name := change_name change; pkg_version := version;
  pkg_architecture := change_architecture change; pkg_vendor := vendor |}.

(** One turn of the loop: the packages required and allowed after a change. *)
Definition take_previous (change : PackageChange)
    (sets : gset InstalledPackage * gset InstalledPackage)
  : result InventoryError (gset InstalledPackage * gset InstalledPackage) :=
  let '(required, allowed) := sets in
  match current_version change with
  | None => Ok (required, allowed)
  | Some version =>
      vendor ← ok_or MissingVendor (current_vendor change);
      let previous := identity change version vendor in
      if decide (previous ∈ required)
      then Ok (required ∖ {[previous]},
               if action change ==? Remove then allowed ∖ {[previous]} else allowed)
      else Err UnknownPreviousPackage
  end.

Definition add_proposed (change : PackageChange)
    (sets : gset InstalledPackage * gset InstalledPackage)
  : result InventoryError (gset InstalledPackage * gset InstalledPackage) :=
  let '(required, allowed) := sets in
  match proposed_version change with
  | None => Ok (required, allowed)
  | Some version =>
      vendor ← ok_or MissingVendor (proposed_vendor change);
      let proposed := identity change version vendor in
      Ok ({[proposed]} ∪ required, {[proposed]} ∪ allowed)
  end.

Fixpoint account (changes : list PackageChange)
    (sets : gset InstalledPackage * gset InstalledPackage)
  : result InventoryError (gset InstalledPackage * gset InstalledPackage) :=
  match changes with
  | [] => Ok sets
  | change :: changes' =>
      sets ← take_previous change sets;
      sets ← add_proposed change sets;
      account changes' sets
  end.

Definition verify_result (plan : UpgradePlan) (report : InventoryReport)
  : result InventoryError unit :=
  if (plan_schema_version plan !=? 3%Z) || (plan_installed_packages plan ==? [])
  then Err MissingConfirmedInventory
  else
    let installed := list_to_set (plan_installed_packages plan) in
    '(required, allowed) ← account (package_changes plan) (installed, installed);
    let actual : gset InstalledPackage := list_to_set (inventory_packages report) in
    if ((plan_operation plan ==? PackageMigration) && (actual !=? required))
       || negb (bool_decide (required ⊆ actual))
       || negb (bool_decide (actual ⊆ allowed))
    then Err DiffersFromConfirmedPlan
    else Ok ().

(* ------------------------------------------------------------------ *)
(** ** What is accepted *)

Definition previous (change : PackageChange) : option InstalledPackage :=
  version ← current_version change;
  vendor ← current_vendor change;
  Some (identity change version vendor).
Definition proposed (change : PackageChange) : option InstalledPackage :=
  version ← proposed_version change;
  vendor ← proposed_vendor change;
  Some (identity change version vendor).
Definition removed (change : PackageChange) : option InstalledPackage :=
  if action change ==? Remove then previous change else None.

(** Every version a change names comes with its vendor. *)
Definition complete (change : PackageChange) : Prop :=
  (current_version change ≠ None → current_vendor change ≠ None)
  ∧ (proposed_version change ≠ None → proposed_vendor change ≠ None).

(** No change replaces what an earlier one installs. *)
Fixpoint unchained (changes : list PackageChange) : Prop :=
  match changes with
  | [] => True
  | change :: changes' =>
      (∀ q, proposed change = Some q → q ∉ omap previous changes') ∧ unchained changes'
  end.

#[local] Abbreviation pkgs := (gset InstalledPackage).

Lemma take_previous_Ok change (r a r' a' : pkgs) :
  take_previous change (r, a) = Ok (r', a') ↔
    (current_version change ≠ None → current_vendor change ≠ None)
    ∧ (∀ p, previous change = Some p → p ∈ r)
    ∧ r' = r ∖ list_to_set (option_list (previous change))
    ∧ a' = a ∖ list_to_set (option_list (removed change)).
Proof.
  unfold take_previous, removed, previous. destruct (current_version change) as [v|]; simpl.
  2: { split.
       - intros [= -> ->]. destruct (_ ==? _); simpl; repeat split; try done; set_solver.
       - destruct (_ ==? _); simpl; intros (_ & _ & -> & ->); do 2 f_equal; set_solver. }
  destruct (current_vendor change) as [d|]; simpl; [|split; [done|intros [H _]; by destruct H]].
  destruct (decide _) as [Hin|Hout].
  - split.
    + intros [= <- <-]. split; [done|]. split; [by intros p [= <-]|]. split; [set_solver|].
      destruct (_ ==? _); simpl; set_solver.
    + intros (_ & _ & -> & ->). do 2 f_equal; [set_solver|].
      destruct (_ ==? _); simpl; set_solver.
  - split; [done|]. intros (_ & H & _). destruct Hout. by apply H.
Qed.

Lemma add_proposed_Ok change (r a r' a' : pkgs) :
  add_proposed change (r, a) = Ok (r', a') ↔
    (proposed_version change ≠ None → proposed_vendor change ≠ None)
    ∧ r' = list_to_set (option_list (proposed change)) ∪ r
    ∧ a' = list_to_set (option_list (proposed change)) ∪ a.
Proof.
  unfold add_proposed, proposed. destruct (proposed_version change) as [v|]; simpl.
  2: { split; [intros [= -> ->]; repeat split; try done; set_solver|].
       intros (_ & -> & ->). do 2 f_equal; set_solver. }
  destruct (proposed_vendor change) as [d|]; simpl; [|split; [done|intros [H _]; by destruct H]].
  split; [intros [= <- <-]; repeat split; try done; set_solver|].
  intros (_ & -> & ->). do 2 f_equal; set_solver.
Qed.

Lemma omap_cons_list {A B} (f : A → option B) x l :
  omap f (x :: l) = option_list (f x) ++ omap f l.
Proof. cbn. by destruct (f x). Qed.

Lemma sets_step (r P Q Ps Qs : pkgs) :
  Q ## Ps → (Q ∪ r ∖ P) ∖ Ps ∪ Qs = r ∖ (P ∪ Ps) ∪ (Q ∪ Qs).
Proof.
  intros H. apply set_eq. intros x. specialize (H x). rewrite !elem_of_union, !elem_of_difference,
    !elem_of_union, !elem_of_difference. tauto.
Qed.

Lemma listed_step (r P Q Ps : pkgs) :
  Q ## Ps → Ps ⊆ Q ∪ r ∖ P ↔ P ## Ps ∧ Ps ⊆ r.
Proof.
  intros H. split.
  - intros Hs. split; intros x; specialize (H x); specialize (Hs x);
      rewrite elem_of_union, elem_of_difference in Hs; tauto.
  - intros [Hd Hs] x Hx. specialize (Hd x). specialize (Hs x).
    rewrite elem_of_union, elem_of_difference. tauto.
Qed.

Lemma unchained_disjoint change changes :
  unchained (change :: changes) →
  (list_to_set (option_list (proposed change)) : pkgs) ## list_to_set (omap previous changes).
Proof.
  intros [Hq _] x. rewrite !elem_of_list_to_set. destruct (proposed change) as [q|]; simpl.
  - intros ->%list_elem_of_singleton. by apply Hq.
  - by intros ?%elem_of_nil.
Qed.

Lemma removed_previous changes :
  (list_to_set (omap removed changes) : pkgs) ⊆ list_to_set (omap previous changes).
Proof.
  intros x. rewrite !elem_of_list_to_set, !list_elem_of_omap. intros (c & Hc & Hx). exists c.
  split; [done|]. unfold removed in Hx. by destruct (_ ==? _).
Qed.

Lemma NoDup_option_app {A} (o : option A) l :
  NoDup (option_list o ++ l) ↔ (∀ x, o = Some x → x ∉ l) ∧ NoDup l.
Proof.
  destruct o as [x|]; simpl; [rewrite NoDup_cons|]; split; try (by intros [? ?]; auto).
  - intros [H1 H2]. split; [by intros y [= <-]|done].
  - done.
Qed.

Lemma account_Ok changes (r a r' a' : pkgs) :
  unchained changes →
  account changes (r, a) = Ok (r', a') ↔
    Forall complete changes ∧ NoDup (omap previous changes)
    ∧ (list_to_set (omap previous changes) : pkgs) ⊆ r
    ∧ r' = (r ∖ list_to_set (omap previous changes)) ∪ list_to_set (omap proposed changes)
    ∧ a' = (a ∖ list_to_set (omap removed changes)) ∪ list_to_set (omap proposed changes).
Proof.
  revert r a. induction changes as [|change changes IH]; intros r a Hu; simpl account.
  { simpl. split.
    - intros [= <- <-]. split; [done|]. split; [constructor|]. split; [set_solver|].
      split; set_solver.
    - intros (_ & _ & _ & -> & ->). do 2 f_equal; set_solver. }
  pose proof (unchained_disjoint _ _ Hu) as Hd. destruct Hu as [_ Hu].
  pose proof (removed_previous changes) as Hrem.
  rewrite !omap_cons_list, !list_to_set_app_L, Forall_cons, NoDup_option_app.
  set (P := list_to_set (option_list (previous change)) : pkgs) in *.
  set (Q := list_to_set (option_list (proposed change)) : pkgs) in *.
  set (D := list_to_set (option_list (removed change)) : pkgs) in *.
  assert (Q ## (list_to_set (omap removed changes) : pkgs)) as Hd'
    by (intros x H1 H2; by apply (Hd x), Hrem).
  assert (P ## (list_to_set (omap previous changes) : pkgs) ↔
          ∀ x, previous change = Some x → x ∉ omap previous changes) as Hdis.
  { unfold P. split.
    - intros H x E Hx. apply (H x); apply elem_of_list_to_set; [rewrite E; constructor|done].
    - intros H x Hx Hy. apply elem_of_list_to_set in Hx, Hy.
      destruct (previous change); simpl in Hx; [|by apply elem_of_nil in Hx].
      apply list_elem_of_singleton in Hx as ->. by apply (H i). }
  assert (P ⊆ r ↔ ∀ p, previous change = Some p → p ∈ r) as HP.
  { unfold P. split.
    - intros H p E. apply H, elem_of_list_to_set. rewrite E. constructor.
    - intros H x Hx%elem_of_list_to_set. destruct (previous change); simpl in Hx;
        [|by apply elem_of_nil in Hx]. apply list_elem_of_singleton in Hx as ->. by apply H. }
  rewrite bind_Ok, union_subseteq, HP, <-Hdis, <-!(sets_step _ _ Q) by done. split.
  - intros ([r1 a1] & H1 & ([r2 a2] & H2 & H3)%bind_Ok).
    apply take_previous_Ok in H1 as (Hc1 & Hp & -> & ->).
    apply add_proposed_Ok in H2 as (Hc2 & -> & ->).
    apply IH in H3 as (Hcs & Hnd & [Hin1 Hin2]%(listed_step r P Q) & -> & ->); [|done|done].
    done.
  - intros ([[Hc1 Hc2] Hcs] & [Hnd1 Hnd2] & [Hin1 Hin2] & -> & ->).
    eexists (_, _). split; [by apply take_previous_Ok|].
    apply bind_Ok. eexists (_, _). split; [by apply add_proposed_Ok|].
    pose proof (proj2 (listed_step r P Q _ Hd) (conj Hnd1 Hin2)).
    apply IH; [done|]. split; [done|]. split; [done|]. by split.
Qed.

Lemma left_elem (l m q : list InstalledPackage) p :
  p ∈ (list_to_set l ∖ list_to_set m ∪ list_to_set q : pkgs) ↔ p ∈ q ∨ (p ∈ l ∧ p ∉ m).
Proof. rewrite elem_of_union, elem_of_difference, !elem_of_list_to_set. tauto. Qed.

(** What [verify_result] demands of the installed packages. *)
Record transaction_result (plan : UpgradePlan) (actual : pkgs) : Prop := {
  tr_schema : plan_schema_version plan = 3%Z;
  tr_inventory : plan_installed_packages plan ≠ [];
  tr_complete : Forall complete (package_changes plan);
  tr_once : NoDup (omap previous (package_changes plan));
  tr_known : ∀ p, p ∈ omap previous (package_changes plan) → p ∈ plan_installed_packages plan;
  (** Packages no change replaces are still there, and so is every new one. *)
  tr_retained : ∀ p, p ∈ plan_installed_packages plan →
    p ∉ omap previous (package_changes plan) → p ∈ actual;
  tr_proposed : ∀ p, p ∈ omap proposed (package_changes plan) → p ∈ actual;
  (** Nothing else is there, and what was to be removed is gone. *)
  tr_explained : ∀ p, p ∈ actual →
    p ∈ omap proposed (package_changes plan)
    ∨ (p ∈ plan_installed_packages plan ∧ p ∉ omap removed (package_changes plan));
  (** Package maintenance leaves no superseded version behind. *)
  tr_migration : plan_operation plan = PackageMigration → ∀ p, p ∈ actual →
    p ∈ omap proposed (package_changes plan)
    ∨ (p ∈ plan_installed_packages plan ∧ p ∉ omap previous (package_changes plan));
}.


Definition sample_package (name version : string) : InstalledPackage := {|
  pkg_name := name; pkg_version := version; pkg_architecture := "x86_64"; pkg_vendor := "Lyra" |}.
Definition sample_change : PackageChange := {|
  change_name := "kernel-default"; change_architecture := "x86_64"; action := Upgrade;
  current_version := Some "1-1"; proposed_version := Some "2-1"; current_vendor := Some "Lyra";
  proposed_vendor := Some "Lyra"; repository_alias := Some "repo-lyra";
  change_download_bytes := 0; installed_size_before := 0; installed_size_after := 0 |}.
Definition sample_plan : UpgradePlan := {|
  plan_schema_version := 3; plan_operation := UpdateWithinRelease;
  plan_source := {| version := "1.1"; edition := "desktop"; architecture := "x86_64";
                    build_id := "a" |};
  plan_target := None; plan_manifest_sha256 := None; plan_required_bytes := 0; plan_facts := ∅;
  plan_repositories := []; metadata_valid_repositories := [];
  plan_third_party_repositories := []; plan_held_packages := [];
  plan_installed_packages := [sample_package "kernel-default" "1-1"; sample_package "app" "1-1"];
  plan_orphaned_packages := []; package_changes := [sample_change]; reboot_required := true |}.
(** The old kernel may stay beside the new one. *)
Definition sample_report : InventoryReport := {|
  inventory_schema_version := 1;
  inventory_packages := [sample_package "kernel-default" "1-1"; sample_package "kernel-default" "2-1";
                         sample_package "app" "1-1"];
  configuration_artifacts := [] |}.


(** A package the plan does not mention must not disappear. *)
Example lost_package :
  verify_result sample_plan {| inventory_schema_version := 1;
    inventory_packages := [sample_package "kernel-default" "2-1"];
    configuration_artifacts := [] |} = Err DiffersFromConfirmedPlan.
Proof. vm_compute. reflexivity. Qed.
