(* ===== verification/SolverXml.v ===== *)
(** * The solver's XML (src/service/src/solver_xml.rs)

    How the output of a zypper dry run becomes a [SolverResult]. The XML reader
    is quick_xml's: the parameter [read_events] of the section gives its events
    up to the end of the text, [None] standing for a reading error; an attribute
    that cannot be parsed or decoded is a [None] of its own. *)

From S2P Require Import Prelude RustStr State Preflight Solver.

Open Scope bool_scope.
Open Scope lyra_scope.

Inductive SolverXmlError : Set :=
  | Xml | InvalidNumber | MissingSummary | InvalidPackage | ConflictingPackage
  | ArchitectureChange.

#[export] Instance SolverXmlError_eq_dec : EqDecision SolverXmlError.
Proof. solve_decision. Defined.

(** The attributes of an element: a malformed one, or its name with the decoded
    value. *)
Definition attributes : Type := list (option (string * option string)).

Inductive xml_event : Type :=
  | Start (name : string) (attrs : attributes)
  | Empty (name : string) (attrs : attributes)
  | Text (decoded : option string)
  | End (name : string)
  | DocType
  | Eof
  | OtherEvent.

Record Summary := {
  packages_to_change : Z;
  summary_download_bytes : Z;
  space_usage_diff : Z;
  snapshot_bytes : Z;
  need_reboot : bool;
}.

Fixpoint attribute (element : attributes) (name : string)
  : result SolverXmlError (option string) :=
  match element with
  | [] => Ok None
  | None :: _ => Err Xml
  | Some (key, value) :: element' =>
      if key ==? name then v ← ok_or Xml value; Ok (Some v)
      else attribute element' name
  end.

Definition required_number (element : attributes) (name : string) : result SolverXmlError Z :=
  value ← attribute element name;
  ok_or InvalidNumber (value ≫= parse_u64).
Definition required_signed_number (element : attributes) (name : string)
  : result SolverXmlError Z :=
  value ← attribute element name;
  ok_or InvalidNumber (value ≫= parse_i64).

Definition parse_summary (element : attributes) : result SolverXmlError Summary :=
  packages ← required_number element "packages-to-change";
  download ← required_number element "download-size";
  diff ← required_signed_number element "space-usage-diff";
  installed ← required_number element "space-usage-installed";
  removed ← required_number element "space-usage-removed";
  reboot ← attribute element "need-reboot";
  Ok {| packages_to_change := packages; summary_download_bytes := download;
        space_usage_diff := diff; snapshot_bytes := saturating_add installed removed;
        need_reboot := is_some_and reboot (λ v, (v ==? "true") || (v ==? "1")) |}.

Definition section_action (section : string) : option PackageAction :=
  if section ==? "to-install" then Some Install
  else if section ==? "to-remove" then Some Remove
  else if (section ==? "to-upgrade") || (section ==? "to-upgrade-change-arch")
  then Some Upgrade
  else if (section ==? "to-downgrade") || (section ==? "to-downgrade-change-arch")
  then Some Downgrade
  else if (section ==? "to-reinstall") || (section ==? "to-change-arch")
          || (section ==? "to-change-vendor")
  then Some Reinstall
  else None.

(** An attribute that must be present and not empty. *)
Definition required_text (element : attributes) (name : string) : result SolverXmlError string :=
  value ← attribute element name;
  ok_or InvalidPackage (opt_filter (λ v, negb (is_empty v)) value).

Definition ignored_type (kind : string) : bool :=
  contains ["pattern"; "product"; "patch"; "application"] kind.

Definition versions (action : PackageAction) (version : string) (old : option string)
  : result SolverXmlError (option string * option string) :=
  match action with
  | Remove => Ok (Some version, None)
  | Install => Ok (None, Some version)
  | _ => o ← ok_or InvalidPackage old; Ok (Some o, Some version)
  end.

Definition parse_solvable (element : attributes) (action : PackageAction)
  : result SolverXmlError (option PackageChange) :=
  kind ← attribute element "type";
  if is_some_and kind ignored_type then Ok None
  else if kind !=? Some "package" then Err InvalidPackage
  else
    name ← required_text element "name";
    architecture ← required_text element "arch";
    arch_old ← attribute element "arch-old";
    if is_some_and arch_old (λ old, old !=? architecture) then Err ArchitectureChange
    else
      version ← required_text element "edition";
      old ← attribute element "edition-old";
      '(current, proposed) ← versions action version old;
      repository ← (if action ==? Remove then Ok None else attribute element "repository");
      Ok (Some {|
        change_name := name; change_architecture := architecture; action := action;
        current_version := current; proposed_version := proposed; current_vendor := None;
        proposed_vendor := None; repository_alias := repository; change_download_bytes := 0;
        installed_size_before := 0; installed_size_after := 0 |}).

(* ------------------------------------------------------------------ *)
(** ** The loop over the events *)

Definition key : Type :=
  string * string * option string * option string * option string.
Definition key_of (change : PackageChange) : key :=
  (change_name change, change_architecture change, current_version change,
   proposed_version change, repository_alias change).

Definition with_action (change : PackageChange) (a : PackageAction) : PackageChange := {|
  change_name := change_name change; change_architecture := change_architecture change;
  action := a; current_version := current_version change;
  proposed_version := proposed_version change; current_vendor := current_vendor change;
  proposed_vendor := proposed_vendor change; repository_alias := repository_alias change;
  change_download_bytes := change_download_bytes change;
  installed_size_before := installed_size_before change;
  installed_size_after := installed_size_after change |}.

Record parser := {
  element_path : list string;
  found_changes : gmap (string * string * option string * option string * option string) PackageChange;
  found_problems : list string;
  found_summary : option Summary;
  in_error_message : bool;
}.

Definition initial : parser := {|
  element_path := []; found_changes := ∅; found_problems := []; found_summary := None; in_error_message := false |}.

Definition merge_change (m : gmap key PackageChange) (change : PackageChange)
  : result SolverXmlError (gmap key PackageChange) :=
  let k := key_of change in
  match m !! k with
  | None => Ok (<[k := change]> m)
  | Some existing =>
      if action existing ==? action change then Ok m
      else if action existing ==? Reinstall
      then Ok (<[k := with_action existing (action change)]> m)
      else if action change !=? Reinstall then Err ConflictingPackage
      else Ok m
  end.

Definition set_path (p : list string) (s : parser) : parser := {|
  element_path := p; found_changes := found_changes s; found_problems := found_problems s; found_summary := found_summary s;
  in_error_message := in_error_message s |}.

(** The three parts of the code for an opening or empty element. *)
Definition on_summary (name : string) (element : attributes) (s : parser)
  : result SolverXmlError parser :=
  if name ==? "install-summary" then
    if is_some (found_summary s) || (element_path s !=? ["stream"]) then Err InvalidPackage
    else
      parsed ← parse_summary element;
      Ok {| element_path := element_path s; found_changes := found_changes s; found_problems := found_problems s;
            found_summary := Some parsed; in_error_message := in_error_message s |}
  else Ok s.

Definition on_solvable (name : string) (element : attributes) (s : parser)
  : result SolverXmlError parser :=
  match element_path s with
  | [_; second; third] =>
      if (name ==? "solvable") && (second ==? "install-summary") then
        match section_action third with
        | None => Ok s
        | Some a =>
            parsed ← parse_solvable element a;
            match parsed with
            | None => Ok s
            | Some change =>
                m ← merge_change (found_changes s) change;
                Ok {| element_path := element_path s; found_changes := m; found_problems := found_problems s;
                      found_summary := found_summary s; in_error_message := in_error_message s |}
            end
        end
      else Ok s
  | _ => Ok s
  end.

Definition on_message (name : string) (element : attributes) (s : parser)
  : result SolverXmlError parser :=
  if name ==? "message" then
    kind ← attribute element "type";
    let is_error := is_some_and kind (λ kind, kind ==? "error") in
    Ok {| element_path := element_path s; found_changes := found_changes s;
          found_problems := if is_error then found_problems s ++ ["zypper reported an error"] else found_problems s;
          found_summary := found_summary s; in_error_message := is_error |}
  else Ok s.

Definition on_element (name : string) (element : attributes) (is_start : bool) (s : parser)
  : result SolverXmlError parser :=
  s ← on_summary name element s;
  s ← on_solvable name element s;
  s ← on_message name element s;
  if is_start then
    if (32 <=? length (element_path s))%nat then Err InvalidPackage
    else Ok (set_path (element_path s ++ [name]) s)
  else Ok s.

Definition step (event : xml_event) (s : parser) : result SolverXmlError parser :=
  match event with
  | Start name element => on_element name element true s
  | Empty name element => on_element name element false s
  | Text decoded =>
      if in_error_message s then
        value ← ok_or Xml decoded;
        Ok (if is_empty (trim value) then s
            else {| element_path := element_path s; found_changes := found_changes s;
                    found_problems := found_problems s ++ [trim value]; found_summary := found_summary s;
                    in_error_message := in_error_message s |})
      else Ok s
  | End name =>
      Ok {| element_path := removelast (element_path s); found_changes := found_changes s; found_problems := found_problems s;
            found_summary := found_summary s;
            in_error_message := if name ==? "message" then false else in_error_message s |}
  | DocType => Err InvalidPackage
  | Eof | OtherEvent => Ok s
  end.

Fixpoint run_events (events : list (option xml_event)) (s : parser)
  : result SolverXmlError parser :=
  match events with
  | [] | Some Eof :: _ => Ok s
  | None :: _ => Err Xml
  | Some event :: events' => s ← step event s; run_events events' s
  end.

Section reader.
Context (read_events : string → list (option xml_event)).

Definition parse_solver_xml (xml : string) (metadata : list string)
    (estimated_snapshot_bytes : Z) : result SolverXmlError SolverResult :=
  s ← run_events (read_events xml) initial;
  summary ← ok_or MissingSummary (found_summary s);
  let list := snd <$> map_to_list (found_changes s) in
  if (element_path s !=? [])
     || negb (Z.of_nat (length list) =? packages_to_change summary)%Z
     || list_any (λ change, (action change ==? Reinstall)
                            && (current_version change !=? proposed_version change)) list
  then Err ConflictingPackage
  else
    let problems := dedup (sort (found_problems s)) in
    Ok {| solver_schema_version := 1; successful := (problems ==? []);
          problems := problems; solver_metadata_valid_repositories := metadata;
          changes := sort list;
          download_bytes := summary_download_bytes summary;
          transaction_size_increase := Z.max (space_usage_diff summary) 0;
          estimated_snapshot_bytes :=
            Z.max estimated_snapshot_bytes (snapshot_bytes summary);
          solver_reboot_required := need_reboot summary |}.
End reader.

(* ------------------------------------------------------------------ *)
(** ** What a parsed change looks like *)

(** The versions a change carries fit its action; vendors are left to the
    repository metadata. *)
Record well_shaped (c : PackageChange) : Prop := {
  ws_name : change_name c ≠ "";
  ws_architecture : change_architecture c ≠ "";
  ws_current : current_version c = None ↔ action c = Install;
  ws_proposed : proposed_version c = None ↔ action c = Remove;
  ws_repository : action c = Remove → repository_alias c = None;
  ws_vendors : current_vendor c = None ∧ proposed_vendor c = None;
}.

Lemma is_empty_true s : is_empty s = true ↔ s = "".
Proof. by destruct s. Qed.

Lemma required_text_Ok element name v :
  required_text element name = Ok v → v ≠ "".
Proof.
  unfold required_text. intros (o & _ & H)%bind_Ok. apply ok_or_Ok, opt_filter_Some in H as [_ H].
  apply negb_true_iff in H. by intros ->.
Qed.

Lemma versions_Ok a version old current proposed :
  versions a version old = Ok (current, proposed) →
  (current = None ↔ a = Install) ∧ (proposed = None ↔ a = Remove).
Proof.
  destruct a; simpl; try (by intros [= <- <-]);
    intros (o & _ & H)%bind_Ok; injection H as <- <-; done.
Qed.

Lemma parse_solvable_shape element a c :
  parse_solvable element a = Ok (Some c) → well_shaped c ∧ action c = a.
Proof.
  unfold parse_solvable. intros (kind & _ & H)%bind_Ok.
  destruct (is_some_and kind _); [done|]. destruct (_ !=? _); [done|].
  apply bind_Ok in H as (name & Hname & H). apply bind_Ok in H as (arch & Harch & H).
  apply bind_Ok in H as (arch_old & _ & H). destruct (is_some_and arch_old _); [done|].
  apply bind_Ok in H as (version & _ & H). apply bind_Ok in H as (old & _ & H).
  apply bind_Ok in H as ([current proposed] & Hv & H).
  apply bind_Ok in H as (repository & Hr & H). injection H as <-.
  apply versions_Ok in Hv as [Hc Hp]. apply required_text_Ok in Hname, Harch.
  split; [|done]. split; simpl; try done. intros ->. by injection Hr as <-.
Qed.

(** The later form of a change: a reinstallation may turn out to be part of
    another action on the same versions. *)
Definition refined (c c' : PackageChange) : Prop :=
  key_of c' = key_of c ∧ (action c' = action c ∨ action c = Reinstall).

Lemma refined_refl c : refined c c.
Proof. split; auto. Qed.

Lemma refined_trans c1 c2 c3 : refined c1 c2 → refined c2 c3 → refined c1 c3.
Proof. intros [H1 H2] [H3 H4]. split; [congruence|]. intuition congruence. Qed.

Lemma shaped_with_action c d :
  well_shaped c → well_shaped d → key_of c = key_of d → well_shaped (with_action c (action d)).
Proof.
  intros [] [] E. unfold key_of in E. injection E as E1 E2 E3 E4 E5.
  split; simpl; rewrite ?E3, ?E4, ?E5; done.
Qed.

(** Every change found is stored under its key and well shaped. *)
Definition changes_ok (m : gmap key PackageChange) : Prop :=
  ∀ k c, m !! k = Some c → key_of c = k ∧ well_shaped c.

Lemma merge_change_ok m c m' :
  merge_change m c = Ok m' → changes_ok m → well_shaped c →
  changes_ok m' ∧ (∃ c', m' !! key_of c = Some c' ∧ refined c c')
  ∧ ∀ k d, m !! k = Some d → ∃ d', m' !! k = Some d' ∧ refined d d'.
Proof.
  unfold merge_change. intros H Hm Hc. destruct (m !! key_of c) as [e|] eqn:E.
  2: { injection H as <-. split; [|split].
       - intros k d. destruct (decide (k = key_of c)) as [->|Hne].
         + rewrite lookup_insert_eq. by intros [= <-].
         + rewrite lookup_insert_ne by done. apply Hm.
       - exists c. rewrite lookup_insert_eq. split; [done|apply refined_refl].
       - intros k d Hd. exists d. rewrite lookup_insert_ne by congruence.
         split; [done|apply refined_refl]. }
  destruct (Hm _ _ E) as [Hk He].
  assert (∀ k d, m !! k = Some d → ∃ d', m !! k = Some d' ∧ refined d d') as Hsame
    by (intros k d Hd; exists d; split; [done|apply refined_refl]).
  destruct (action e ==? action c) eqn:Ha.
  { rewrite eqb_true in Ha. injection H as <-. split; [done|]. split; [|done].
    exists e. split; [done|]. split; [done|]. by left. }
  destruct (action e ==? Reinstall) eqn:Hre.
  { rewrite eqb_true in Hre. injection H as <-. split; [|split].
    - intros k d. destruct (decide (k = key_of c)) as [->|Hne].
      + rewrite lookup_insert_eq. intros [= <-]. split; [done|]. by apply shaped_with_action.
      + rewrite lookup_insert_ne by done. apply Hm.
    - eexists. rewrite lookup_insert_eq. split; [done|]. split; [done|]. by left.
    - intros k d Hd. destruct (decide (k = key_of c)) as [->|Hne].
      + rewrite E in Hd. injection Hd as <-. eexists. rewrite lookup_insert_eq.
        split; [done|]. split; [done|]. by right.
      + exists d. rewrite lookup_insert_ne by done. split; [done|apply refined_refl]. }
  destruct (action c ==? Reinstall) eqn:Hrc; [|done]. rewrite eqb_true in Hrc.
  injection H as <-. split; [done|]. split; [|done]. exists e. split; [done|].
  split; [done|]. by right.
Qed.

(* ------------------------------------------------------------------ *)
(** ** The loop *)

(** What one event does to the changes and to the summary. *)
Record advanced (event : xml_event) (s s' : parser) : Prop := {
  adv_changes : changes_ok (found_changes s) → changes_ok (found_changes s');
  adv_kept : changes_ok (found_changes s) → ∀ k d, found_changes s !! k = Some d →
    ∃ d', found_changes s' !! k = Some d' ∧ refined d d';
  adv_summary : ∀ sm, found_summary s' = Some sm → found_summary s = Some sm
    ∨ ∃ element, parse_summary element = Ok sm
        ∧ (event = Start "install-summary" element ∨ event = Empty "install-summary" element);
}.

Lemma advanced_same event s s' :
  found_changes s' = found_changes s → found_summary s' = found_summary s → advanced event s s'.
Proof.
  intros E1 E2. split; rewrite ?E1, ?E2; auto.
  intros _ k d Hd. exists d. split; [done|apply refined_refl].
Qed.

Lemma on_summary_Ok name element s s' :
  on_summary name element s = Ok s' →
  found_changes s' = found_changes s ∧ element_path s' = element_path s
  ∧ ∀ sm, found_summary s' = Some sm →
      found_summary s = Some sm ∨ (parse_summary element = Ok sm ∧ name = "install-summary").
Proof.
  unfold on_summary. destruct (name ==? "install-summary") eqn:E.
  - destruct (_ || _); [done|]. intros (sm & Hp & H)%bind_Ok. injection H as <-. simpl.
    split; [done|]. split; [done|]. rewrite eqb_true in E. intros sm' [= <-]. by right.
  - intros [= <-]. auto.
Qed.

Lemma on_message_Ok name element s s' :
  on_message name element s = Ok s' →
  found_changes s' = found_changes s ∧ found_summary s' = found_summary s
  ∧ element_path s' = element_path s.
Proof.
  unfold on_message. destruct (name ==? "message"); [|by intros [= <-]].
  intros (kind & _ & H)%bind_Ok. by injection H as <-.
Qed.

Lemma on_solvable_Ok name element s s' :
  on_solvable name element s = Ok s' → changes_ok (found_changes s) →
  changes_ok (found_changes s') ∧ found_summary s' = found_summary s
  ∧ (∀ k d, found_changes s !! k = Some d →
       ∃ d', found_changes s' !! k = Some d' ∧ refined d d')
  ∧ (∀ x section a c, element_path s = [x; "install-summary"; section] → name = "solvable" →
       section_action section = Some a → parse_solvable element a = Ok (Some c) →
       ∃ c', found_changes s' !! key_of c = Some c' ∧ refined c c').
Proof.
  intros H Hm. assert (∀ k d, found_changes s !! k = Some d →
       ∃ d', found_changes s !! k = Some d' ∧ refined d d') as Hsame
    by (intros k d Hd; exists d; split; [done|apply refined_refl]).
  unfold on_solvable in H. destruct (element_path s) as [|x [|second [|third []]]] eqn:Ep;
    try (injection H as <-; split; [done|]; split; [done|]; split; [done|]; by intros).
  destruct (_ && _) eqn:Hcond.
  2: { injection H as <-. split; [done|]. split; [done|]. split; [done|].
       intros y section a c [= -> -> ->] -> _ _. by rewrite !eqb_refl in Hcond. }
  destruct (section_action third) as [a|] eqn:Ea.
  2: { injection H as <-. split; [done|]. split; [done|]. split; [done|].
       intros y section a c [= -> -> ->] _ Ha _. by rewrite Ea in Ha. }
  apply bind_Ok in H as ([c|] & Hp & H).
  - apply bind_Ok in H as (m & Hmerge & H). injection H as <-. simpl.
    destruct (parse_solvable_shape _ _ _ Hp) as [Hc _].
    destruct (merge_change_ok _ _ _ Hmerge Hm Hc) as (H1 & H2 & H3).
    split; [done|]. split; [done|]. split; [done|].
    intros y section a' c' [= -> -> ->] _ Ha Hp'. rewrite Ea in Ha. injection Ha as <-.
    rewrite Hp in Hp'. by injection Hp' as <-.
  - injection H as <-. split; [done|]. split; [done|]. split; [done|].
    intros y section a' c' [= -> -> ->] _ Ha Hp'. rewrite Ea in Ha. injection Ha as <-.
    by rewrite Hp in Hp'.
Qed.

Lemma on_element_Ok name element is_start s s' :
  on_element name element is_start s = Ok s' →
  advanced (if is_start then Start name element else Empty name element) s s'
  ∧ (changes_ok (found_changes s) → ∀ x section a c,
       element_path s = [x; "install-summary"; section] → name = "solvable" →
       section_action section = Some a → parse_solvable element a = Ok (Some c) →
       ∃ c', found_changes s' !! key_of c = Some c' ∧ refined c c').
Proof.
  unfold on_element. intros (s1 & H1 & (s2 & H2 & (s3 & H3 & H)%bind_Ok)%bind_Ok)%bind_Ok.
  apply on_summary_Ok in H1 as (E1 & P1 & S1). apply on_message_Ok in H3 as (E3 & S3 & _).
  assert (found_changes s' = found_changes s3 ∧ found_summary s' = found_summary s3) as [E4 S4].
  { destruct is_start; [|by injection H as <-]. destruct (_ <=? _)%nat; [done|].
    by injection H as <-. }
  pose proof (on_solvable_Ok _ _ _ _ H2) as Hs. rewrite E1 in Hs. split.
  - split.
    + intros Hm. rewrite E4, E3. by destruct (Hs Hm) as (? & _).
    + intros Hm k d Hd. rewrite E4, E3. destruct (Hs Hm) as (_ & _ & Hkept & _).
      by apply Hkept.
    + intros sm. rewrite S4, S3. intros Hsm.
      assert (found_summary s2 = found_summary s1) as Es2.
      { revert H2. clear. unfold on_solvable. intros H.
        repeat (case_match; try (by injection H as <-)).
        apply bind_Ok in H as ([c|] & _ & H); [|by injection H as <-].
        apply bind_Ok in H as (m & _ & H). by injection H as <-. }
      rewrite Es2 in Hsm. destruct (S1 _ Hsm) as [?|[Hp ->]]; [by left|right].
      exists element. split; [done|]. destruct is_start; auto.
  - intros Hm x section a c Hpath Hn Ha Hp. rewrite E4, E3. rewrite <-P1 in Hpath.
    destruct (Hs Hm) as (_ & _ & _ & Hfound). by eapply Hfound.
Qed.

Lemma step_Ok event s s' : step event s = Ok s' → advanced event s s'.
Proof.
  destruct event as [name element|name element|t|name| | |]; simpl; intros H.
  - by apply on_element_Ok in H as [H _].
  - by apply on_element_Ok in H as [H _].
  - destruct (in_error_message s); [|injection H as <-; by apply advanced_same].
    apply bind_Ok in H as (v & _ & H). injection H as <-.
    apply advanced_same; by destruct (is_empty (trim v)).
  - injection H as <-. by apply advanced_same.
  - done.
  - injection H as <-. by apply advanced_same.
  - injection H as <-. by apply advanced_same.
Qed.

Lemma run_events_Ok events s s' :
  run_events events s = Ok s' → changes_ok (found_changes s) →
  changes_ok (found_changes s')
  ∧ (∀ k d, found_changes s !! k = Some d →
       ∃ d', found_changes s' !! k = Some d' ∧ refined d d')
  ∧ (∀ sm, found_summary s' = Some sm → found_summary s = Some sm
     ∨ ∃ element, parse_summary element = Ok sm
        ∧ (Some (Start "install-summary" element) ∈ events
           ∨ Some (Empty "install-summary" element) ∈ events)).
Proof.
  revert s. induction events as [|event events IH]; intros s H Hm.
  { injection H as <-. split; [done|]. split; [|by left].
    intros k d Hd. exists d. split; [done|apply refined_refl]. }
  destruct event as [event|]; [|done].
  assert (∃ s1, step event s = Ok s1 ∧ (run_events events s1 = Ok s' ∨ s' = s1)) as (s1 & H1 & H2).
  { destruct event; cbn [run_events] in H;
      try (apply bind_Ok in H as (s1 & ? & ?); exists s1; by auto).
    exists s. injection H as <-. auto. }
  apply step_Ok in H1 as [A1 A2 A3]. specialize (A1 Hm). specialize (A2 Hm).
  destruct H2 as [H2| ->].
  - destruct (IH s1 H2 A1) as (I1 & I2 & I3). split; [done|]. split.
    + intros k d Hd. destruct (A2 k d Hd) as (d1 & Hd1 & R1).
      destruct (I2 k d1 Hd1) as (d2 & Hd2 & R2). exists d2. split; [done|].
      by eapply refined_trans.
    + intros sm [Hsm|(el & Hp & Hin)]%I3.
      * destruct (A3 sm Hsm) as [?|(el & Hp & [->| ->])]; [by left|right; exists el..].
        -- split; [done|]. left. constructor.
        -- split; [done|]. right. constructor.
      * right. exists el. split; [done|]. destruct Hin; [left|right]; by constructor.
  - split; [done|]. split; [done|]. intros sm Hsm.
    destruct (A3 sm Hsm) as [?|(el & Hp & [->| ->])]; [by left|right; exists el..].
    + split; [done|]. left. constructor.
    + split; [done|]. right. constructor.
Qed.

(* ------------------------------------------------------------------ *)
(** ** What the solver result says *)

Lemma changes_ok_initial : changes_ok (found_changes initial).
Proof. intros k c. cbn. by rewrite lookup_empty. Qed.

Lemma found_NoDup (m : gmap key PackageChange) :
  changes_ok m → NoDup (key_of <$> (snd <$> map_to_list m)).
Proof.
  intros Hm. replace (key_of <$> (snd <$> map_to_list m)) with (map_to_list m).*1.
  - apply NoDup_fst_map_to_list.
  - rewrite <-list_fmap_compose. apply list_fmap_ext. intros i [k c] Hi. simpl.
    apply list_elem_of_lookup_2, elem_of_map_to_list in Hi. by destruct (Hm _ _ Hi).
Qed.

Lemma parse_summary_range element sm :
  parse_summary element = Ok sm →
  is_u64 (summary_download_bytes sm) ∧ (space_usage_diff sm ≤ i64_max)%Z
  ∧ is_u64 (snapshot_bytes sm).
Proof.
  assert (∀ e n v, required_number e n = Ok v → is_u64 v) as Hu.
  { intros e n v (o & _ & H)%bind_Ok. apply ok_or_Ok in H. destruct o; [|done].
    by apply parse_unsigned_range in H. }
  assert (∀ e n v, required_signed_number e n = Ok v → (v ≤ i64_max)%Z) as Hi.
  { intros e n v (o & _ & H)%bind_Ok. apply ok_or_Ok in H. destruct o as [t|]; [|done].
    by apply parse_i64_range in H. }
  unfold parse_summary. intros H. res_inv. subst. simpl.
  repeat match goal with
  | H : required_number _ _ = Ok _ |- _ => apply Hu in H
  | H : required_signed_number _ _ = Ok _ |- _ => apply Hi in H
  end.
  split; [done|]. split; [done|]. unfold is_u64 in *. apply saturating_add_range; lia.
Qed.

Lemma run_events_app l1 l2 s :
  Some Eof ∉ l1 → run_events (l1 ++ l2) s = (s1 ← run_events l1 s; run_events l2 s1).
Proof.
  revert s. induction l1 as [|[event|] l1 IH]; intros s Hn; [done| |done].
  apply not_elem_of_cons in Hn as [Hne Hn].
  destruct event; cbn [app run_events]; try done;
    match goal with |- step ?e s ≫= _ = _ => destruct (step e s) as [s1|]; [|done] end;
    by apply IH.
Qed.

Section results.
Context {read_events : string → list (option xml_event)}.

Lemma parse_solver_xml_Ok xml metadata estimate r :
  parse_solver_xml read_events xml metadata estimate = Ok r →
  ∃ s sm, run_events (read_events xml) initial = Ok s ∧ found_summary s = Some sm
  ∧ changes_ok (found_changes s)
  ∧ changes r = sort (snd <$> map_to_list (found_changes s))
  ∧ Z.of_nat (length (changes r)) = packages_to_change sm
  ∧ (∀ c, c ∈ changes r → action c = Reinstall → current_version c = proposed_version c)
  ∧ problems r = dedup (sort (found_problems s)) ∧ successful r = (problems r ==? [])
  ∧ solver_schema_version r = 1%Z ∧ solver_metadata_valid_repositories r = metadata
  ∧ download_bytes r = summary_download_bytes sm
  ∧ transaction_size_increase r = Z.max (space_usage_diff sm) 0
  ∧ estimated_snapshot_bytes r = Z.max estimate (snapshot_bytes sm).
Proof.
  unfold parse_solver_xml. intros (s & Hrun & (sm & Hsm & H)%bind_Ok)%bind_Ok.
  apply ok_or_Ok in Hsm. destruct (_ || _) eqn:Hc in H; [done|]. injection H as <-.
  apply orb_false_iff in Hc as [[_ Hlen%negb_false_iff%Z.eqb_eq]%orb_false_iff Hre].
  destruct (run_events_Ok _ _ _ Hrun changes_ok_initial) as (Hok & _ & _).
  exists s, sm. do 3 (split; [done|]). cbn [changes problems successful].
  split; [done|]. split; [by rewrite (Permutation_length (sort_perm _))|].
  split; [|done]. intros c Hc Ha. rewrite sort_elem in Hc.
  rewrite list_any_false in Hre. specialize (Hre c Hc). rewrite Ha, eqb_refl in Hre.
  cbn [andb] in Hre. apply negb_false_iff in Hre. by rewrite eqb_true in Hre.
Qed.

(** A parsed solver result lists its changes in canonical order, each identity
    once and shaped as its action demands, with no version change hidden in a
    reinstallation; their number is the one declared by the summary element of the
    text; it is successful exactly when no problem was reported, and its sizes are
    those of the summary within 64 bits. *)
Theorem solver_xml_sound xml metadata estimate r :
  (0 ≤ estimate ≤ u64_max)%Z →
  parse_solver_xml read_events xml metadata estimate = Ok r →
  StronglySorted (λ x y, le_of x y = true) (changes r)
  ∧ NoDup (key_of <$> changes r)
  ∧ (∀ c, c ∈ changes r → well_shaped c
       ∧ (action c = Reinstall → current_version c = proposed_version c))
  ∧ (successful r = true ↔ problems r = []) ∧ NoDup (problems r)
  ∧ solver_metadata_valid_repositories r = metadata
  ∧ ∃ element sm, parse_summary element = Ok sm
      ∧ (Some (Start "install-summary" element) ∈ read_events xml
         ∨ Some (Empty "install-summary" element) ∈ read_events xml)
      ∧ Z.of_nat (length (changes r)) = packages_to_change sm
      ∧ download_bytes r = summary_download_bytes sm ∧ is_u64 (download_bytes r)
      ∧ transaction_size_increase r = Z.max (space_usage_diff sm) 0
      ∧ (0 ≤ transaction_size_increase r ≤ i64_max)%Z
      ∧ estimated_snapshot_bytes r = Z.max estimate (snapshot_bytes sm)
      ∧ is_u64 (estimated_snapshot_bytes r).
Proof.
  intros He H. apply parse_solver_xml_Ok in H
    as (s & sm & Hrun & Hsm & Hok & -> & Hlen & Hre & Hp & Hs & _ & Hm & Hd & Ht & Hx).
  split; [apply sort_sorted|]. split.
  { rewrite (sort_perm (snd <$> map_to_list (found_changes s))). by apply found_NoDup. }
  split.
  { intros c Hc. split; [|by apply Hre]. rewrite sort_elem in Hc.
    apply list_elem_of_fmap in Hc as ([k d] & -> & Hkd). apply elem_of_map_to_list in Hkd.
    by destruct (Hok _ _ Hkd). }
  split; [rewrite Hs; apply eqb_true|]. split; [rewrite Hp; apply sort_dedup_NoDup|].
  split; [done|]. destruct (run_events_Ok _ _ _ Hrun changes_ok_initial) as (_ & _ & Hsum).
  destruct (Hsum sm Hsm) as [Hno|(element & Hparse & Hin)]; [done|].
  exists element, sm. do 4 (split; [done|]).
  destruct (parse_summary_range _ _ Hparse) as (R1 & R2 & R3).
  rewrite Hd, Ht, Hx. unfold is_u64, i64_max in *. repeat split; try done; lia.
Qed.

(** No change is lost: a package listed in a section of the summary is in the
    parsed result, under its identity and with its action, or with the action
    another section gives it when this one only reinstalls it. *)
Theorem solver_xml_complete xml metadata estimate r l1 event l2 s element x section a c :
  parse_solver_xml read_events xml metadata estimate = Ok r →
  read_events xml = l1 ++ Some event :: l2 → Some Eof ∉ l1 →
  event = Start "solvable" element ∨ event = Empty "solvable" element →
  run_events l1 initial = Ok s → element_path s = [x; "install-summary"; section] →
  section_action section = Some a → parse_solvable element a = Ok (Some c) →
  ∃ c', c' ∈ changes r ∧ key_of c' = key_of c
        ∧ (action c' = a ∨ a = Reinstall).
Proof.
  intros H Hev Heof Hevent Hrun1 Hpath Ha Hc.
  apply parse_solver_xml_Ok in H as (s' & sm & Hrun & _ & _ & -> & _).
  rewrite Hev, run_events_app in Hrun by done. rewrite Hrun1 in Hrun.
  destruct (run_events_Ok _ _ _ Hrun1 changes_ok_initial) as (Hok & _ & _).
  assert (∃ s1, step event s = Ok s1 ∧ run_events l2 s1 = Ok s') as (s1 & H1 & H2).
  { apply bind_Ok. by destruct Hevent as [-> | ->]. }
  assert (∃ c', found_changes s1 !! key_of c = Some c' ∧ refined c c') as (c1 & Hc1 & R1).
  { destruct Hevent as [-> | ->]; apply on_element_Ok in H1 as [_ H1]; by eapply H1. }
  assert (changes_ok (found_changes s1)) as Hok1 by (by apply (step_Ok _ _ _ H1)).
  destruct (run_events_Ok _ _ _ H2 Hok1) as (_ & Hkept & _).
  destruct (Hkept _ _ Hc1) as (c2 & Hc2 & R2).
  pose proof (refined_trans _ _ _ R1 R2) as [Hk Hact].
  destruct (parse_solvable_shape _ _ _ Hc) as [_ Ea]. rewrite Ea in Hact.
  exists c2. split; [|done]. rewrite sort_elem. apply list_elem_of_fmap.
  exists (key_of c, c2). split; [done|]. by apply elem_of_map_to_list.
Qed.
End results.

(* ------------------------------------------------------------------ *)
(** ** A concrete dry run *)

Definition attr (name value : string) : option (string * option string) := Some (name, Some value).
Definition sample_summary : attributes :=
  [attr "download-size" "4096"; attr "space-usage-diff" "2048";
   attr "space-usage-installed" "2048"; attr "space-usage-removed" "0";
   attr "packages-to-change" "1"; attr "need-reboot" "true"].
Definition sample_solvable : attributes :=
  [attr "type" "package"; attr "name" "firefox"; attr "edition" "2"; attr "edition-old" "1";
   attr "arch" "x86_64"; attr "repository" "repo-oss"].
(** The same package in two sections, of which one only reinstalls it. *)
Definition sample_prefix : list (option xml_event) :=
  [Some (Start "stream" []); Some (Start "install-summary" sample_summary);
   Some (Start "to-change-vendor" [])].
Definition sample_suffix : list (option xml_event) :=
  [Some (End "to-change-vendor"); Some (Start "to-upgrade" []);
   Some (Empty "solvable" sample_solvable); Some (End "to-upgrade");
   Some (End "install-summary"); Some (End "stream"); Some Eof].
Definition sample_events (xml : string) : list (option xml_event) :=
  sample_prefix ++ Some (Empty "solvable" sample_solvable) :: sample_suffix.
Definition sample_upgrade (a : PackageAction) : PackageChange := {|
  change_name := "firefox"; change_architecture := "x86_64"; action := a;
  current_version := Some "1"; proposed_version := Some "2"; current_vendor := None;
  proposed_vendor := None; repository_alias := Some "repo-oss"; change_download_bytes := 0;
  installed_size_before := 0; installed_size_after := 0 |}.
Definition sample_result : SolverResult := {|
  solver_schema_version := 1; successful := true; problems := [];
  solver_metadata_valid_repositories := ["repo-oss"]; changes := [sample_upgrade Upgrade];
  download_bytes := 4096; transaction_size_increase := 2048; estimated_snapshot_bytes := 2048;
  solver_reboot_required := true |}.

Example sample_parsed :
  parse_solver_xml sample_events "" ["repo-oss"] 0 = Ok sample_result.
Proof. vm_compute. reflexivity. Qed.

Lemma solver_xml_sound_witness : NoDup (key_of <$> changes sample_result).
Proof.
  apply (solver_xml_sound (read_events := sample_events) "" ["repo-oss"] 0 sample_result).
  - split; vm_compute; discriminate.
  - vm_compute. reflexivity.
Defined.

Lemma solver_xml_complete_witness :
  ∃ c', c' ∈ changes sample_result ∧ key_of c' = key_of (sample_upgrade Reinstall).
Proof.
  destruct (solver_xml_complete (read_events := sample_events) "" ["repo-oss"] 0 sample_result
    sample_prefix (Empty "solvable" sample_solvable) sample_suffix
    {| element_path := ["stream"; "install-summary"; "to-change-vendor"]; found_changes := ∅;
       found_problems := [];
       found_summary := Some {| packages_to_change := 1; summary_download_bytes := 4096;
         space_usage_diff := 2048; snapshot_bytes := 2048; need_reboot := true |};
       in_error_message := false |}
    sample_solvable "stream" "to-change-vendor" Reinstall (sample_upgrade Reinstall))
    as (c' & Hin & Hk & _).
  - vm_compute. reflexivity.
  - reflexivity.
  - intros Hin. repeat (apply elem_of_cons in Hin as [Hin|Hin]; [discriminate|]).
    by apply elem_of_nil in Hin.
  - by right.
  - vm_compute. reflexivity.
  - reflexivity.
  - reflexivity.
  - vm_compute. reflexivity.
  - by exists c'.
Defined.
