(* ===== verification/Vendors.v ===== *)
(** * Vendor identities (src/service/src/vendor_metadata.rs)

    The part of the file that decides: which candidates a solver result needs,
    which vendor each side of a change has, and how a catalog of packages is
    filled. Reading the XML of RPM and of a repository gives the lists of rows
    that [installed_vendors] puts into a catalog, and the repository catalogs. *)

From S2P Require Import Prelude RustStr State Preflight Solver Inventory.

Open Scope bool_scope.
Open Scope lyra_scope.

(** The messages of [Invalid] name the reason. *)
Inductive VendorMetadataError : Set :=
  | Vendor_Io | Invalid (reason : string) | MissingIdentity (package : string).

#[export] Instance VendorMetadataError_eq_dec : EqDecision VendorMetadataError.
Proof. solve_decision. Defined.

(** Name, edition with its epoch, architecture. *)
Abbreviation Identity := (string * string * string)%type.
(** [None] records that an identity occurred twice. *)
Abbreviation Catalog := (gmap (string * string * string) (option string)).

Definition vendor_alias (value : string) : bool :=
  negb (is_empty value) && (value !=? ".") && (value !=? "..") && (str_len value <=? 128)%Z
  && bytes_all (λ c, is_ascii_alphanumeric c || byte_in "._:-" c) value.

Definition lookup_vendor (catalog : Catalog) (identity : Identity)
  : result VendorMetadataError string :=
  ok_or (MissingIdentity identity.1.1)
    (opt_filter valid_vendor (v ← catalog !! identity; v)).

Definition insert_vendor (catalog : Catalog) (k : Identity) (vendor : string) : Catalog :=
  match catalog !! k with
  | Some _ => <[k := None]> catalog
  | None => <[k := Some vendor]> catalog
  end.

Definition rpm_edition (epoch version release : string) : result VendorMetadataError string :=
  epoch ← ok_or (Invalid "invalid RPM epoch") (parse_u64 epoch);
  if is_empty version || is_empty release then Err (Invalid "missing RPM version/release")
  else
    Ok (if (epoch =? 0)%Z then version +:+ "-" +:+ release
        else to_string epoch +:+ ":" +:+ version +:+ "-" +:+ release).

(** The catalog of the headers, each a list of its fields. *)
Fixpoint installed_vendors (headers : list (list string)) (catalog : Catalog)
  : result VendorMetadataError Catalog :=
  match headers with
  | [] => Ok catalog
  | [name; epoch; version; release; arch; vendor] :: headers' =>
      ed ← rpm_edition epoch version release;
      installed_vendors headers' (insert_vendor catalog (name, ed, arch) vendor)
  | _ :: _ => Err (Invalid "incomplete RPM header")
  end.

Definition package_of (row : Identity * option string)
  : result VendorMetadataError InstalledPackage :=
  let '((name, ver, arch), v) := row in
  vendor ← ok_or (Invalid "ambiguous installed package") v;
  Ok {| pkg_name := name; pkg_version := ver; pkg_architecture := arch; pkg_vendor := vendor |}.

Fixpoint packages_of (rows : list (Identity * option string))
  : result VendorMetadataError (list InstalledPackage) :=
  match rows with
  | [] => Ok []
  | row :: rows' => p ← package_of row; ps ← packages_of rows'; Ok (p :: ps)
  end.

(** The rows in the order of the keys, as a [BTreeMap] yields them. *)
Definition rows_of (catalog : Catalog) : list (Identity * option string) :=
  sort_by_key (λ row, (row.1.1.1, (row.1.1.2, row.1.2))) (map_to_list catalog).

Definition installed_packages_of (catalog : Catalog)
  : result VendorMetadataError (list InstalledPackage) :=
  ps ← packages_of (rows_of catalog);
  if bool_decide (ps = []) then Err (Invalid "empty installed inventory") else Ok ps.

(* ------------------------------------------------------------------ *)
(** ** Enriching a solver result *)

Definition needed_alias (solver : SolverResult) (change : PackageChange)
  : result VendorMetadataError string :=
  ok_or (Invalid "unverified repository alias")
    (opt_filter (λ a, vendor_alias a && contains (solver_metadata_valid_repositories solver) a)
       (repository_alias change)).

(** [candidate_sets]: the identities to look up in each repository. *)
Fixpoint candidate_sets (solver : SolverResult) (cs : list PackageChange)
    (sets : gmap string (gset Identity))
  : result VendorMetadataError (gmap string (gset Identity)) :=
  match cs with
  | [] => Ok sets
  | change :: cs' =>
      if action change ==? Remove then candidate_sets solver cs' sets
      else
        alias ← needed_alias solver change;
        version ← ok_or (Invalid "missing candidate version") (proposed_version change);
        let wanted := default ∅ (sets !! alias) in
        candidate_sets solver cs'
          (<[alias := {[(change_name change, version, change_architecture change)]} ∪ wanted]> sets)
  end.

Definition side (change : PackageChange) (version : option string)
  : result VendorMetadataError Identity :=
  v ← ok_or (Invalid "missing package version") version;
  Ok (change_name change, v, change_architecture change).

Definition with_vendors (change : PackageChange) (current proposed : option string)
  : PackageChange := {|
  change_name := change_name change; change_architecture := change_architecture change;
  action := action change; current_version := current_version change;
  proposed_version := proposed_version change; current_vendor := current;
  proposed_vendor := proposed; repository_alias := repository_alias change;
  change_download_bytes := change_download_bytes change;
  installed_size_before := installed_size_before change;
  installed_size_after := installed_size_after change |}.

(** One turn of the second loop. A change without a repository would panic; the
    candidate sets have refused it before. *)
Definition enrich_change (installed : Catalog) (candidates : gmap string Catalog)
    (change : PackageChange) : result VendorMetadataError PackageChange :=
  current ← (if action change ==? Install then Ok None
             else
               i ← side change (current_version change);
               v ← lookup_vendor installed i; Ok (Some v));
  proposed ← (if action change ==? Remove then Ok None
              else
                alias ← ok_or (Invalid "panic") (repository_alias change);
                catalog ← ok_or (Invalid "missing repository catalog") (candidates !! alias);
                i ← side change (proposed_version change);
                v ← lookup_vendor catalog i; Ok (Some v));
  Ok (with_vendors change current proposed).

Fixpoint enrich_all (installed : Catalog) (candidates : gmap string Catalog)
    (cs : list PackageChange) : result VendorMetadataError (list PackageChange) :=
  match cs with
  | [] => Ok []
  | change :: cs' =>
      c ← enrich_change installed candidates change;
      rest ← enrich_all installed candidates cs';
      Ok (c :: rest)
  end.

Definition with_changes (solver : SolverResult) (cs : list PackageChange) : SolverResult := {|
  solver_schema_version := solver_schema_version solver; successful := successful solver;
  problems := problems solver;
  solver_metadata_valid_repositories := solver_metadata_valid_repositories solver;
  changes := cs; download_bytes := download_bytes solver;
  transaction_size_increase := transaction_size_increase solver;
  estimated_snapshot_bytes := estimated_snapshot_bytes solver;
  solver_reboot_required := solver_reboot_required solver |}.
