(* ===== verification/System.v ===== *)
(** * The calls to the rest of the system

    What planning and execution ask of other programs, of the package manager,
    the network and the caller. Each call is an [effect] with the type of its
    answer; an [Oracle] answers it from the history and the file system at that
    moment, so that every theorem holds of every behaviour of the environment.
    Files of the program itself are in the file system of Fs.v, which the other
    programs are assumed not to write below the state directory. *)

From S2P Require Import Prelude RustStr State Fs Preflight Solver Plan ManifestData Migration.
From S2P Require Import Manifest Discovery Inventory SolverXml Vendors Protocol.

Open Scope bool_scope.
Open Scope lyra_scope.

(** [std::process::Output]; [None] is a death by a signal. *)
Record Output := { status : option Z; stdout : string; stderr : string }.

Definition success (o : Output) : bool := status o ==? Some 0%Z.

(** [String::from_utf8_lossy]: a malformed byte becomes U+FFFD. *)
Definition from_utf8_lossy (s : string) : string := if utf8_valid s then s else utf8 (chars s).

Record CommandFailure := {
  program : string;
  code : option Z;
  failure_stdout : string;
  failure_stderr : string;
}.

Definition failure (program : string) (output : Output) : CommandFailure := {|
  program := program; code := status output;
  failure_stdout := from_utf8_lossy (stdout output);
  failure_stderr := from_utf8_lossy (stderr output) |}.

Definition require_success (program : string) (output : Output) : result CommandFailure Output :=
  if success output then Ok output else Err (failure program output).

(** [FetchError] of src/service/src/manifest_fetch.rs. *)
Inductive FetchError : Set :=
  | Fetch_Io (e : IoError) | Download | Signature | RepositoryKey | RepositoryKeyMismatch
  | Fetch_TooLarge | Fetch_Json | Route (e : ManifestError) | InvalidTime | NotYetValid | Expired
  | InvalidChannel | InvalidSequence.

Record VerifiedManifest := {
  verified_manifest : ReleaseManifest;
  document : string;
  signature : string;
}.

(** [RepositoryContext] of src/service/src/repository_context.rs. *)
Record RepositoryContext := {
  repos : path;
  cache : path;
  raw : path;
  solv : path;
  packages_dir : path;
  simulation_root : option path;
}.

Definition prepared_context (operation_dir : path) : RepositoryContext :=
  let cache := join operation_dir "cache" in {|
    repos := join operation_dir "repos.d"; cache := cache; raw := join cache "raw";
    solv := join cache "solv"; packages_dir := join cache "packages"; simulation_root := None |}.

(** A path as text. *)
Definition display (p : path) : string :=
  match p with
  | [] => "/"
  | _ => foldr (λ name s, "/" +:+ name +:+ s) "" (reverse p)
  end.

Definition context_arguments (self : RepositoryContext) : list string :=
  ["--reposd-dir"; display (repos self); "--cache-dir"; display (cache self);
   "--raw-cache-dir"; display (raw self); "--solv-cache-dir"; display (solv self);
   "--pkg-cache-dir"; display (packages_dir self)].

(** A [std::process::Command]: the environment is cleared first. *)
Record Command := {
  program_path : string;
  command_arguments : list string;
  environment : list (string * string);
}.

Definition search_path : string * string := ("PATH", "/usr/sbin:/usr/bin:/sbin:/bin").

(* ------------------------------------------------------------------ *)
(** ** Effects *)

(** How the child under GNU timeout ended: by itself, at the deadline, killed by a
    signal, or without being started; [timeout] reports 0 for the first only. *)
Inductive supervision : Set := Finished | TimedOut | KilledBy (signal : positive) | NotStarted.

(** Where a request to the broker fails once it is connected. *)
Inductive exchange_failure : Set := No_Timeout | Not_Sent | Not_Terminated | No_Answer.

Inductive effect : Type → Type :=
  (** [run_observed]: a program, its output after it ended. *)
  | Run (program : string) (arguments : list string) : effect Output
  (** zypper started through a [RepositoryContext]: its output, unless it could not
      be started or exceeded a bound. *)
  | Zypper (context : RepositoryContext) (arguments : list string)
    : effect (result IoError Output)
  (** The machine as [PreparedDiscovery] sees it. *)
  | SystemView (context : RepositoryContext) : effect DiscoveryBackend
  (** The headers of the RPM database below a root. *)
  | RpmHeaders (root : option path) : effect (result VendorMetadataError (list (list string)))
  (** [repository_vendors]. *)
  | RepositoryVendors (repository : path) (wanted : gset Identity)
    : effect (result VendorMetadataError Catalog)
  (** [Simulation::new]: the root of a disposable copy. *)
  | NewSimulation (with_current_repositories : bool) : effect (result IoError path)
  (** Writing the repository file of the simulation. *)
  | WriteRepository (p : path) (content : string) : effect (result IoError unit)
  | FetchVerifiedManifest (installed : ReleaseIdentity) (last : option Z)
      (channel : ManifestChannelPolicy) : effect (result FetchError VerifiedManifest)
  (** [verify_manifest_files] over the two signed files of an operation. *)
  | VerifyManifestFiles (operation_dir : path) (installed : ReleaseIdentity) (last : option Z)
      (channel : ManifestChannelPolicy) : effect (result FetchError VerifiedManifest)
  | ReadLastManifestSequence : effect (result FetchError (option Z))
  | ReadReleaseChannel : effect (result FetchError ManifestChannelPolicy)
  | FetchRepositoryKey (repository : RepositoryTransition) (destination : path)
    : effect (result FetchError unit)
  (** [validate_time]: the validity of the manifest now. *)
  | ValidateTime (manifest : ReleaseManifest) : effect (result FetchError unit)
  (** [inventory::capture]. *)
  | CaptureInventory : effect (result IoError InventoryReport)
  (** The package cache: whether it is a link, and its content. *)
  | ListPackages (directory : path) : effect (bool * list entry)
  (** [flock] with [LOCK_NB]. *)
  | TryLock : effect bool
  (** The running machine, as [SystemBackend] sees it. *)
  | LiveView : effect DiscoveryBackend
  (** The btrfs program, as it answers at that moment. *)
  | BtrfsView : effect (list string → string → option (bool * string))
  (** The identity in the release file below a root. *)
  | ReleaseIdentityAt (root : string) : effect (option ReleaseIdentity)
  (** A small text file outside of the state directory. *)
  | ReadText (p : string) : effect (option string)
  (** The bounded dependency check of zypper: whether it succeeded, and its output. *)
  | DependencyOutput : effect (option (bool * string))
  (** The program itself as a child under [timeout]. *)
  | Supervise (operation_id : string) : effect supervision
  | Now : effect string
  (** The observer. *)
  | CancelRequested : effect bool
  | StateChanged (s : OperationState) : effect unit
  (** The socket of the query broker: the peer behind it, and one line each way. *)
  | Connect : effect (option Z)
  | Exchange (line : string) : effect (result exchange_failure string)
  (** [fetch_release_preview], with the offer it kept in the cache file. *)
  | FetchReleasePreview (installed : ReleaseIdentity) (last : option Z)
      (channel : ManifestChannelPolicy) (cache : path)
    : effect (result FetchError (VerifiedManifest * bool))
  (** The absolute cache directory of the user, if the environment names one. *)
  | CacheHome : effect (option path)
  (** The bounded program of [process::output]. *)
  | Bounded (program : string) (arguments : list string) : effect (result IoError Output)
  | NewUuid : effect string
  (** curl with these options: whether it succeeded, and the file it stored; gpg
      with these options over a key, in a home of its own: what it printed. *)
  | Curl (options : list string) (url : string)
    : effect (result IoError (bool * option string))
  | Gpg (options : list string) (key : string) : effect (result IoError Output).

(** A call that was made, its answer, and the files at that moment. *)
Inductive occurrence : Type :=
  | Did {A : Type} (e : effect A) (answer : A) (files : gmap path node).

Definition Oracle : Type := ∀ A, list occurrence → world → effect A → A.

(** The state of an execution: the files, the calls made so far, oldest first, and
    the record of the operation, which the code passes by mutable reference. *)
Record execution := {
  disk : world;
  history : list occurrence;
  current : OperationStateRecord;
}.

Section performing.
Context (oracle : Oracle).

Definition perform {A E} (e : effect A) : ST execution E A := λ w,
  let a := oracle A (history w) (disk w) e in
  (Ok a, {| disk := disk w; history := history w ++ [Did e a (nodes (disk w))];
            current := current w |}).

(** A call whose answer may be an error. *)
Definition attempt {A E E'} (f : E → E') (e : effect (result E A)) : ST execution E' A :=
  r ← perform e; st_lift (map_err f r).

Definition on_disk {A E} (m : ST world E A) : ST execution E A := λ w,
  let '(r, d) := m (disk w) in (r, {| disk := d; history := history w; current := current w |}).

Definition set_current {E} (r : OperationStateRecord) : ST execution E unit :=
  st_modify (λ w, {| disk := disk w; history := history w; current := r |}).
End performing.

(** The serializers, parsers and digests of the libraries the program uses. *)
Class Libraries := {
  (** serde_json. *)
  plan_json : UpgradePlan → result IoError string;
  plan_pretty : UpgradePlan → result IoError string;
  manifest_json : ReleaseManifest → result IoError string;
  manifest_pretty : ReleaseManifest → result IoError string;
  record_json : OperationStateRecord → string;
  record_parse : string → option OperationStateRecord;
  inventory_json : InventoryReport → string;
  inventory_parse : string → option InventoryReport;
  plan_parse : string → option UpgradePlan;
  manifest_parse : string → option ReleaseManifest;
  mounts_json : string → option (list Mount);
  (** quick_xml. *)
  xml_events : string → list (option SolverXml.xml_event);
  (** sha2, in hexadecimal. *)
  digest : string → string;
}.
