(* ===== verification/Planner.v ===== *)
(** * Planning and revalidation (src/service/src/planner.rs)

    How a reviewed update is computed from the machine and the solver, and the
    two checks that bind every later step to the plan the user confirmed. *)

From S2P Require Import Prelude RustStr State Fs Preflight Solver Plan ManifestData Migration.
From S2P Require Import Discovery Inventory SolverXml Vendors Protocol System.

Open Scope bool_scope.
Open Scope lyra_scope.

Inductive PlannerError : Set :=
  | PlanChanged
  | Migration (e : MigrationError)
  | Discovery (e : DiscoverError)
  | Spawn (e : IoError)
  | SolverExit (code : option Z) (err : string)
  | SolverXml (e : SolverXmlError)
  | VendorMetadata (e : VendorMetadataError)
  | Planner_Blocked (issues : list PreflightIssue)
  | Plan (e : PlanError)
  | Serialize (e : IoError)
  | Planner_RepositoryKey (e : FetchError).

(* ------------------------------------------------------------------ *)
(** ** Checks of a confirmed plan *)

Section pure.
Context `{HL : !Libraries}.

Definition plan_sha256 (plan : UpgradePlan) : result PlannerError string :=
  map_err Serialize (Plan.sha256 plan_json digest plan).

Definition manifest_policy (manifest : ReleaseManifest) : PreflightPolicy := {|
  minimum_battery_percent := minimum_battery_percent default_policy;
  free_space_margin_bytes := free_space_margin_bytes default_policy;
  minimum_free_space_bytes := man_minimum_free_space_bytes manifest;
  require_secure_boot_fact := require_secure_boot_fact default_policy |}.

Definition check_confirmed_release_plan (manifest : ReleaseManifest) (confirmed : UpgradePlan)
    (expected_hash : string) : result PlannerError unit :=
  text ← map_err Serialize (manifest_json manifest);
  let manifest_hash := digest text in
  if (plan_operation confirmed !=? operation manifest)
     || (plan_source confirmed !=? man_source manifest)
     || (plan_target confirmed !=? Some (man_target manifest))
     || (plan_manifest_sha256 confirmed !=? Some manifest_hash)
  then Err PlanChanged
  else
    hash ← plan_sha256 confirmed;
    if hash !=? expected_hash then Err PlanChanged
    else
      _ ← map_err Migration
            (validate_migration_plan manifest (plan_installed_packages confirmed)
               (package_changes confirmed));
      let blockers := vendor_policy_blockers (package_changes confirmed) (solver_policy manifest) in
      if blockers !=? [] then Err (Planner_Blocked blockers) else Ok ().

Definition with_required_bytes (plan : UpgradePlan) (bytes : Z) : UpgradePlan := {|
  plan_schema_version := plan_schema_version plan; plan_operation := plan_operation plan;
  plan_source := plan_source plan; plan_target := plan_target plan;
  plan_manifest_sha256 := plan_manifest_sha256 plan; plan_required_bytes := bytes;
  plan_facts := plan_facts plan; plan_repositories := plan_repositories plan;
  metadata_valid_repositories := metadata_valid_repositories plan;
  plan_third_party_repositories := plan_third_party_repositories plan;
  plan_held_packages := plan_held_packages plan;
  plan_installed_packages := plan_installed_packages plan;
  plan_orphaned_packages := plan_orphaned_packages plan;
  package_changes := package_changes plan; reboot_required := reboot_required plan |}.

Definition revalidate_release_plan (facts : HostFacts) (solver : SolverResult)
    (manifest : ReleaseManifest) (confirmed : UpgradePlan) (expected_hash : string)
  : result PlannerError unit :=
  _ ← check_confirmed_release_plan manifest confirmed expected_hash;
  _ ← map_err Migration
        (validate_migration_plan manifest (installed_packages facts) (changes solver));
  let report :=
    evaluate_solver_preflight facts (manifest_policy manifest) solver (solver_policy manifest) in
  if negb (passed report) then Err (Planner_Blocked (blockers report))
  else
    rebuilt ← map_err Plan
      (build_plan (operation manifest) facts report (Some (man_target manifest))
         (plan_manifest_sha256 confirmed) solver);
    hash ← plan_sha256 (with_required_bytes rebuilt (plan_required_bytes confirmed));
    if hash !=? expected_hash then Err PlanChanged else Ok ().

Definition with_installed (facts : HostFacts) (ps : list InstalledPackage) : HostFacts := {|
  release := release facts; root_filesystem := root_filesystem facts;
  snapper_root_configured := snapper_root_configured facts;
  rpm_database_healthy := rpm_database_healthy facts;
  package_lock_free := package_lock_free facts; available_bytes := available_bytes facts;
  required_download_bytes := required_download_bytes facts;
  required_transaction_bytes := required_transaction_bytes facts;
  required_snapshot_bytes := required_snapshot_bytes facts; on_battery := on_battery facts;
  battery_percent := battery_percent facts; secure_boot_enabled := secure_boot_enabled facts;
  repositories := repositories facts; held_packages := held_packages facts;
  installed_packages := ps; storage := storage facts;
  orphaned_packages := orphaned_packages facts |}.

(** Every repository of a manifest. *)
Definition manifest_aliases (manifest : ReleaseManifest) : list string :=
  map repo_alias (man_repositories manifest).

(** The repository file of one repository. *)
Definition repository_file (repository : RepositoryTransition) (key_path : path) : string :=
  let line k v := k +:+ "=" +:+ v +:+ String nl "" in
  "[" +:+ repo_alias repository +:+ "]" +:+ String nl ""
  +:+ line "name" (repo_alias repository) +:+ line "enabled" "1" +:+ line "autorefresh" "0"
  +:+ line "keeppackages" "0" +:+ line "baseurl" (base_url repository)
  +:+ line "gpgkey" ("file://" +:+ display key_path) +:+ line "type" "rpm-md"
  +:+ line "gpgcheck" "1" +:+ line "priority" (to_string (priority repository)).
End pure.

(* ------------------------------------------------------------------ *)
(** ** Planning *)

Section planning.
Context `{HL : !Libraries} (oracle : Oracle).
#[local] Abbreviation M := (ST execution PlannerError).

(** [discover_host] over the machine seen through the prepared context. *)
Definition discover {E} (f : DiscoverError → E) (context : RepositoryContext)
  : ST execution E HostFacts :=
  view ← perform oracle (SystemView context);
  st_lift (map_err f (@discover_host view mounts_json []).1).

Definition installed_packages_at {E} (f : VendorMetadataError → E) (root : option path)
  : ST execution E (list InstalledPackage) :=
  headers ← attempt oracle f (RpmHeaders root);
  st_lift (map_err f (catalog ← installed_vendors headers ∅; installed_packages_of catalog)).

(** The catalogs of the repositories, in the order of their aliases. *)
Fixpoint fetch_catalogs {E} (f : VendorMetadataError → E) (raw_cache : path)
    (sets : list (string * gset Identity)) (candidates : gmap string Catalog)
  : ST execution E (gmap string Catalog) :=
  match sets with
  | [] => mret candidates
  | (alias, wanted) :: sets' =>
      catalog ← attempt oracle f (RepositoryVendors (join raw_cache alias) wanted);
      fetch_catalogs f raw_cache sets' (<[alias := catalog]> candidates)
  end.

Definition enrich_solver_vendors_at {E} (f : VendorMetadataError → E) (solver : SolverResult)
    (raw_cache : path) (root : option path) : ST execution E SolverResult :=
  headers ← attempt oracle f (RpmHeaders root);
  installed ← st_lift (map_err f (installed_vendors headers ∅));
  sets ← st_lift (map_err f (candidate_sets solver (changes solver) ∅));
  candidates ← fetch_catalogs f raw_cache (sort_by_key fst (map_to_list sets)) ∅;
  cs ← st_lift (map_err f (enrich_all installed candidates (changes solver)));
  mret (with_changes solver cs).

Definition simulation_context (root : path) : RepositoryContext :=
  let context := prepared_context
    (join (join (join root "var") "lib") "lyra-upgrade-simulation") in {|
    repos := repos context; cache := cache context; raw := raw context; solv := solv context;
    packages_dir := packages_dir context; simulation_root := Some root |}.

Definition exit_of (output : Output) : PlannerError :=
  SolverExit (status output) (from_utf8_lossy (stderr output)).

Definition update_arguments : list string :=
  ["--xmlout"; "--non-interactive"; "--no-refresh"; "update"; "--dry-run"; "--details";
   "--no-allow-downgrade"; "--no-allow-name-change"; "--no-allow-arch-change";
   "--no-allow-vendor-change"].

Definition trusted_aliases (facts : HostFacts) : list string :=
  map alias (List.filter (λ r, enabled r && signing_key_trusted r) (repositories facts)).

Definition plan_update_with_cached_metadata : M PlannedUpdate :=
  root ← attempt oracle Spawn (NewSimulation true);
  let context := simulation_context root in
  facts ← discover Discovery context;
  installed ← installed_packages_at VendorMetadata (Some root);
  let facts := with_installed facts installed in
  output ← attempt oracle Spawn (Zypper context update_arguments);
  if negb (success output) then st_throw (exit_of output)
  else
    solver ← st_lift (map_err SolverXml
      (parse_solver_xml xml_events (from_utf8_lossy (stdout output)) (trusted_aliases facts) 0));
    solver ← enrich_solver_vendors_at VendorMetadata solver (raw context) (Some root);
    let preflight := evaluate_solver_preflight facts default_policy solver
      {| allowed_removals := []; allowed_vendor_transitions := []; lockstep_packages := [] |} in
    if negb (passed preflight) then st_throw (Planner_Blocked (blockers preflight))
    else
      plan ← st_lift (map_err Plan
        (build_plan UpdateWithinRelease facts preflight None None solver));
      hash ← st_lift (plan_sha256 plan);
      mret {| planned_facts := facts; planned_solver := solver; planned_preflight := preflight;
              planned_plan := plan; planned_sha256 := hash; planned_manifest := None |}.

(** The loop over the repositories of [plan_release_upgrade]. *)
Fixpoint prepare_repositories (context : RepositoryContext) (keys_dir : path)
    (rs : list RepositoryTransition) : M unit :=
  match rs with
  | [] => mret ()
  | repository :: rs' =>
      let key_path := join keys_dir (repo_alias repository +:+ ".asc") in
      _ ← attempt oracle Planner_RepositoryKey (FetchRepositoryKey repository key_path);
      _ ← attempt oracle Spawn
            (WriteRepository (join (repos context) (repo_alias repository +:+ ".repo"))
               (repository_file repository key_path));
      prepare_repositories context keys_dir rs'
  end.

Definition run_with_simulation (context : RepositoryContext) (arguments : list string)
  : M Output :=
  attempt oracle Spawn (Zypper context ("--non-interactive" :: arguments)).

Definition plan_release_upgrade (manifest : ReleaseManifest) : M PlannedUpdate :=
  root ← attempt oracle Spawn (NewSimulation false);
  let context := simulation_context root in
  _ ← prepare_repositories context (join root "keys") (man_repositories manifest);
  refresh ← run_with_simulation context ["refresh"];
  if negb (success refresh) then st_throw (exit_of refresh)
  else
    installed ← installed_packages_at VendorMetadata (Some root);
    arguments ← st_lift (map_err Migration
      (transaction_arguments manifest installed Mode_Plan));
    dry_run ← run_with_simulation context (["--xmlout"; "--no-refresh"] ++ arguments);
    if negb (success dry_run) then st_throw (exit_of dry_run)
    else
      facts ← discover Discovery context;
      installed ← installed_packages_at VendorMetadata (Some root);
      let facts := with_installed facts installed in
      solver ← st_lift (map_err SolverXml
        (parse_solver_xml xml_events (from_utf8_lossy (stdout dry_run))
           (manifest_aliases manifest) 0));
      solver ← enrich_solver_vendors_at VendorMetadata solver (raw context) (Some root);
      _ ← st_lift (map_err Migration
            (validate_migration_plan manifest (installed_packages facts) (changes solver)));
      let preflight := evaluate_solver_preflight facts (manifest_policy manifest) solver
        (solver_policy manifest) in
      if negb (passed preflight) then st_throw (Planner_Blocked (blockers preflight))
      else
        text ← st_lift (map_err Serialize (manifest_json manifest));
        plan ← st_lift (map_err Plan
          (build_plan (operation manifest) facts preflight (Some (man_target manifest))
             (Some (digest text)) solver));
        hash ← st_lift (plan_sha256 plan);
        mret {| planned_facts := facts; planned_solver := solver;
                planned_preflight := preflight; planned_plan := plan; planned_sha256 := hash;
                planned_manifest := Some manifest |}.
End planning.

(* ------------------------------------------------------------------ *)
(** ** The confirmed plan binds the transaction *)

Section binding.
Context `{HL : !Libraries}.

(** No two plans share a digest: what the code relies on of SHA-256 and of the
    canonical JSON of a plan. *)
Definition collision_free : Prop :=
  ∀ p q h, plan_sha256 p = Ok h → plan_sha256 q = Ok h → p = q.

(** What a successful [check_confirmed_release_plan] establishes. *)
Record confirmed_for (manifest : ReleaseManifest) (confirmed : UpgradePlan) (hash : string)
    : Prop := {
  cf_kind : plan_operation confirmed = operation manifest;
  cf_source : plan_source confirmed = man_source manifest;
  cf_target : plan_target confirmed = Some (man_target manifest);
  cf_manifest : ∃ text, manifest_json manifest = Ok text
    ∧ plan_manifest_sha256 confirmed = Some (digest text);
  cf_hash : plan_sha256 confirmed = Ok hash;
  cf_migration : validate_migration_plan manifest (plan_installed_packages confirmed)
    (package_changes confirmed) = Ok ();
  cf_vendors : vendor_policy_blockers (package_changes confirmed) (solver_policy manifest) = [];
}.

Lemma check_confirmed_Ok manifest confirmed hash u :
  check_confirmed_release_plan manifest confirmed hash = Ok u →
  confirmed_for manifest confirmed hash.
Proof.
  unfold check_confirmed_release_plan. intros (text & Ht & H)%bind_Ok. apply map_err_Ok in Ht.
  destruct (_ || _) eqn:Hc; [done|]. tests.
  destruct Hc as [[[H1 H2] H3] H4].
  apply bind_Ok in H as (h & Hh & H). destruct (h ==? hash) eqn:E; [|done].
  rewrite eqb_true in E. subst h. cbn [negb] in H.
  apply bind_Ok in H as ([] & Hm & H). apply map_err_Ok in Hm.
  destruct (vendor_policy_blockers _ _ ==? []) eqn:Hv; [|done]. rewrite eqb_true in Hv.
  split; eauto.
Qed.

Lemma revalidate_Ok facts solver manifest confirmed hash u :
  revalidate_release_plan facts solver manifest confirmed hash = Ok u →
  confirmed_for manifest confirmed hash
  ∧ validate_migration_plan manifest (installed_packages facts) (changes solver) = Ok ()
  ∧ ∃ report rebuilt,
      report = evaluate_solver_preflight facts (manifest_policy manifest) solver
                 (solver_policy manifest)
      ∧ passed report = true
      ∧ build_plan (operation manifest) facts report (Some (man_target manifest))
          (plan_manifest_sha256 confirmed) solver = Ok rebuilt
      ∧ plan_sha256 (with_required_bytes rebuilt (plan_required_bytes confirmed)) = Ok hash.
Proof.
  unfold revalidate_release_plan. intros ([] & Hc & H)%bind_Ok. apply check_confirmed_Ok in Hc.
  apply bind_Ok in H as ([] & Hm & H). apply map_err_Ok in Hm.
  destruct (passed _) eqn:Hp; [|done]. cbn [negb] in H.
  apply bind_Ok in H as (rebuilt & Hb & H). apply map_err_Ok in Hb.
  apply bind_Ok in H as (h & Hh & H). destruct (h ==? hash) eqn:E; [|done].
  rewrite eqb_true in E. subst h. split; [done|]. split; [done|]. eauto 10.
Qed.

Lemma passed_blockers report : passed report = true → blockers report = [].
Proof. unfold passed. by destruct (blockers report). Qed.

Lemma build_plan_fields kind facts report target manifest_sha256 solver plan :
  build_plan kind facts report target manifest_sha256 solver = Ok plan →
  plan_source plan = release facts
  ∧ plan_installed_packages plan = sort (installed_packages facts)
  ∧ package_changes plan = sort (changes solver)
  ∧ plan_repositories plan = sort_by_key alias (repositories facts).
Proof.
  unfold build_plan. destruct (negb (passed report)); [done|].
  intros (u & _ & H2)%bind_Ok. by injection H2 as <-.
Qed.

End binding.

(* ------------------------------------------------------------------ *)
(** ** A concrete revalidation *)

Fixpoint repeated (n : nat) (s : string) : string :=
  match n with O => "" | S n' => s +:+ repeated n' s end.

Definition sample_target : ReleaseIdentity := {|
  version := version sample_release +:+ ".1"; edition := edition sample_release;
  architecture := architecture sample_release; build_id := "b" |}.
Definition sample_upgrade_manifest : ReleaseManifest := {|
  man_schema_version := 1; man_sequence := 8; ManifestData.status := Status_Available;
  valid_from := "2026-01-01T00:00:00Z"; valid_until := "2027-01-01T00:00:00Z";
  man_source := sample_release; man_target := sample_target;
  minimum_updater_version := "0.2.7"; man_minimum_free_space_bytes := 1;
  man_repositories := [sample_transition]; man_allowed_removals := [];
  man_allowed_vendor_transitions := []; man_lockstep_packages := [];
  package_migration := None |}.
Definition sample_confirmed : UpgradePlan :=
  match build_plan ReleaseUpgrade sample_facts
          (evaluate_solver_preflight sample_facts (manifest_policy sample_upgrade_manifest)
             sample_solver (solver_policy sample_upgrade_manifest))
          (Some sample_target) (Some (repeated 64 "a")) sample_solver with
  | Ok plan => plan
  | Err _ => sample_plan
  end.

(** A printer that knows one plan; the digest of every text is the same. *)
Definition sample_libraries (known : UpgradePlan) : Libraries := {|
  plan_json := λ p, if decide (p = known) then Ok "plan" else Err NotFound;
  plan_pretty := λ _, Ok "plan"; manifest_json := λ _, Ok "manifest";
  manifest_pretty := λ _, Ok "manifest"; record_json := λ _, "record"; record_parse := λ _, None;
  inventory_parse := λ _, None; plan_parse := λ _, None; manifest_parse := λ _, None;
  inventory_json := λ _, "inventory"; mounts_json := λ _, None; xml_events := λ _, [];
  digest := λ _, repeated 64 "a" |}.

Lemma sample_collision_free known : collision_free (HL := sample_libraries known).
Proof.
  assert (∀ p h, plan_sha256 (HL := sample_libraries known) p = Ok h → p = known) as H.
  { intros p h. unfold plan_sha256, Plan.sha256, canonical_json. cbn [plan_json sample_libraries].
    by destruct (decide (p = known)). }
  intros p q h Hp%H Hq%H. by subst.
Qed.

