(* ===== verification/Executor.v ===== *)
(** * Execution of an operation (src/service/src/executor.rs)

    The two workers the service starts: the online update and the staging of an
    offline transaction, each from the transaction lock to its last persisted
    state. Files are written through Fs.v and Persistence.v, every other call is
    an effect of System.v. Beyond the record the code keeps in memory, nothing is
    shared between the two. *)

From S2P Require Import Prelude RustStr State Fs Persistence Preflight Solver Plan.
From S2P Require Import ManifestData Migration Discovery Inventory SolverXml Vendors Protocol.
From S2P Require Import System Planner.

Open Scope bool_scope.
Open Scope lyra_scope.

Inductive ExecutionError : Set :=
  | Exec_PlanChanged
  | Refresh (e : CommandFailure)
  | Replan (e : PlannerError)
  | Exec_Download (e : CommandFailure)
  | Snapshot (e : CommandFailure)
  | InvalidSnapshot
  | Persist (e : PersistenceError)
  | Apply (e : CommandFailure)
  | PackageManagerRestart (e : CommandFailure)
  | Initramfs (e : CommandFailure)
  | Grub (e : CommandFailure)
  | Transition (e : TransitionError)
  (** The payload of an [io::Error] made from a message is [OtherError]. *)
  | Stage (e : IoError)
  | SystemUpdateExists
  | Busy
  | Cancelled
  | Exec_RepositoryKey (e : FetchError)
  | Exec_Inventory (e : InventoryError)
  | Exec_Capture (e : IoError).

Definition error_code (self : ExecutionError) : string :=
  match self with
  | Exec_PlanChanged => "PLAN_CHANGED"
  | Refresh _ => "METADATA_REFRESH_FAILED"
  | Replan _ => "PLAN_REVALIDATION_FAILED"
  | Exec_Download _ => "DOWNLOAD_FAILED"
  | Snapshot _ | InvalidSnapshot => "SNAPSHOT_FAILED"
  | Persist _ => "STATE_WRITE_FAILED"
  | Apply _ => "ZYPPER_APPLY_FAILED"
  | PackageManagerRestart _ => "ZYPPER_RESTART_REQUIRED"
  | Initramfs _ => "INITRAMFS_FAILED"
  | Grub _ => "BOOTLOADER_FAILED"
  | Transition _ => "INVALID_STATE_TRANSITION"
  | Stage _ => "OFFLINE_STAGE_FAILED"
  | SystemUpdateExists => "SYSTEM_UPDATE_BUSY"
  | Busy => "TRANSACTION_BUSY"
  | Cancelled => "CANCELLED"
  | Exec_RepositoryKey _ => "REPOSITORY_KEY_FAILED"
  | Exec_Inventory _ | Exec_Capture _ => "PACKAGE_PRESERVATION_FAILED"
  end.

Definition is_blocking (self : ExecutionError) : bool :=
  match self with
  | Exec_PlanChanged | Refresh _ | Replan _ | Exec_Download _ | Busy | Exec_RepositoryKey _ => true
  | _ => false
  end.

Definition failure_state (error : ExecutionError) (has_snapshot : bool) : OperationState :=
  if is_blocking error && negb has_snapshot then Blocked
  else if has_snapshot then NeedsRecovery
  else Failed.

Record ExecutionOutcome := { outcome_reboot_required : bool; package_manager_restart : bool }.

Inductive ApplyExit : Set := Exit_Completed | RebootRequired.
Inductive ApplyExitError : Set := RestartPackageManager | Exit_Failed.

Definition classify_apply_exit (code : option Z) : result ApplyExitError ApplyExit :=
  match code with
  | Some 0%Z => Ok Exit_Completed
  | Some 102%Z => Ok RebootRequired
  | Some 103%Z => Err RestartPackageManager
  | _ => Err Exit_Failed
  end.

Fixpoint find_map {A B} (f : A → option B) (l : list A) : option B :=
  match l with [] => None | x :: l' => match f x with Some y => Some y | None => find_map f l' end end.

Definition parse_snapshot_number (stdout : string) : result ExecutionError Z :=
  ok_or InvalidSnapshot
    (opt_filter (λ n, 0 <? n)%Z (find_map (λ line, parse_u64 (trim line)) (reverse (lines stdout)))).

Definition ZYPPER_UPDATE_POLICY : list string :=
  ["--no-allow-downgrade"; "--no-allow-name-change"; "--no-allow-arch-change";
   "--no-allow-vendor-change"].

Definition revalidation_error (error : PlannerError) : ExecutionError :=
  match error with Planner.PlanChanged => Exec_PlanChanged | _ => Replan error end.

Definition touches_boot_package (change : PackageChange) : bool :=
  starts_with "kernel-" (change_name change)
  || contains ["dracut"; "shim"; "grub2"; "grub2-x86_64-efi"] (change_name change).

(** [path.with_extension("tmp")] on a file name. *)
Definition tmp_name (name : string) : string :=
  match split_once "." (str_rev name) with
  | Some (_, stem) => (if is_empty stem then name else str_rev stem) +:+ ".tmp"
  | None => name +:+ ".tmp"
  end.

(* ------------------------------------------------------------------ *)
(** ** Steps shared by the workers *)

Section execution.
Context `{HL : !Libraries} (oracle : Oracle).
Context (euid umask : Z) (fault : nat → option (IoError * nat)).
(** The process, and the clock and the name of a temporary file at a call. *)
Context (pid : Z) (nonce : nat → Z) (fresh : nat → string).
#[local] Abbreviation M := (ST execution ExecutionError).

Definition stage {A} (m : ST world IoError A) : M A := on_disk (st_map_err Stage m).

Definition LOCK_PATH : path := ["lyra-upgrade.lock"; "lock"; "run"].

(** The lock is released when the worker returns. *)
Definition acquire_lock : M unit :=
  n ← stage (open_nofollow euid umask fault LOCK_PATH true true 384);
  _ ← stage (file_call fault);
  match n with
  | File _ _ _ =>
      held ← perform oracle TryLock;
      if (held : bool) then mret () else st_throw Busy
  | _ => st_throw Busy
  end.

Definition write_private (directory : path) (name content : string) : M unit :=
  stage (
    let temporary := join directory (tmp_name name) in
    _ ← create_new euid umask fault temporary 384;
    _ ← write_all fault temporary content;
    _ ← sync_all fault;
    _ ← rename fault temporary (join directory name);
    _ ← open_any fault directory;
    sync_all fault).

(** [inventory::save]: a [NamedTempFile], removed again unless it is persisted. *)
Definition save_inventory (directory : path) (name : string) (report : InventoryReport)
  : ST world IoError unit := λ w,
  let temporary := join directory (fresh (calls w)) in
  (_ ← create_new euid umask fault temporary 384;
   written ← st_try (E':=IoError) (
     _ ← set_permissions fault temporary 384;
     _ ← write_all fault temporary (inventory_json report);
     _ ← write_all fault temporary (String nl "");
     _ ← sync_all fault;
     rename fault temporary (join directory name));
   match written with
   | Ok _ => _ ← open_any fault directory; sync_all fault
   | Err e =>
       _ ← st_try (E':=IoError) (remove_file fault temporary);
       st_throw e
   end) w.

Definition capture_and_save (directory : path) (name : string) : M unit :=
  report ← attempt oracle Stage CaptureInventory;
  stage (save_inventory directory name report).

Definition save (root : path) (r : OperationStateRecord) : M unit :=
  on_disk (st_map_err Persist
    (λ w, save_state euid umask fault pid (nonce (calls w)) record_json root r w)).

Definition persist (root : path) : M unit :=
  r ← st_get current;
  _ ← save root r;
  perform oracle (StateChanged (state r)).

Definition transition (next : OperationState) : M unit :=
  r ← st_get current;
  r ← st_lift (map_err Transition (transition_to r next));
  set_current r.

Definition run_observed (program : string) (arguments : list string) : M Output :=
  perform oracle (Run program arguments).

(** A program that must succeed. *)
Definition run_required (f : CommandFailure → ExecutionError) (program : string)
    (arguments : list string) : M Output :=
  output ← run_observed program arguments;
  st_lift (map_err f (require_success program output)).

Definition stop_if_cancelled : M unit :=
  cancelled ← perform oracle CancelRequested;
  if (cancelled : bool) then st_throw Cancelled else mret ().

Definition snapper_arguments (description : string) : list string :=
  ["--no-dbus"; "--config"; "root"; "create"; "--read-only"; "--description"; description;
   "--print-number"].

(** The snapshot and its number, recorded before anything else happens. *)
Definition take_snapshot (root : path) (description : string) : M unit :=
  snapshot ← run_required Snapshot "snapper" (snapper_arguments description);
  number ← st_lift (parse_snapshot_number (from_utf8_lossy (stdout snapshot)));
  r ← st_get current;
  let r := set_snapshot_number r (Some number) in
  _ ← set_current r;
  save root r.

(* ------------------------------------------------------------------ *)
(** ** The online update *)

Definition download_arguments : list string :=
  ["--xmlout"; "--non-interactive"; "--no-refresh"; "update"; "--download-only"; "--details"]
  ++ ZYPPER_UPDATE_POLICY.
Definition apply_arguments : list string :=
  ["--xmlout"; "--non-interactive"; "--no-refresh"; "update"; "--details"]
  ++ ZYPPER_UPDATE_POLICY.

(** Up to the first persisted state. *)
Definition begin_update (root : path) (confirmed : PlannedUpdate) : M path :=
  r ← st_get current;
  let operation_dir := join root (operation_id r) in
  text ← st_lift (map_err Stage (plan_json (planned_plan confirmed)));
  _ ← write_private operation_dir "plan.json" text;
  _ ← capture_and_save operation_dir "inventory-before.json";
  _ ← transition Downloading;
  _ ← persist root;
  mret operation_dir.

(** Refresh, plan again, download, and plan once more. *)
Definition download_update (confirmed : PlannedUpdate) : M PlannedUpdate :=
  _ ← run_required Refresh "zypper" ["--non-interactive"; "refresh"];
  _ ← stop_if_cancelled;
  fresh_plan ← st_map_err Replan (plan_update_with_cached_metadata oracle);
  if planned_sha256 fresh_plan !=? planned_sha256 confirmed then st_throw Exec_PlanChanged
  else
    _ ← run_required Exec_Download "zypper" download_arguments;
    _ ← stop_if_cancelled;
    current_plan ← st_map_err Replan (plan_update_with_cached_metadata oracle);
    let current_plan := with_required_bytes (planned_plan current_plan)
      (plan_required_bytes (planned_plan confirmed)) in
    if res_ok (plan_sha256 current_plan) !=? Some (planned_sha256 confirmed)
    then st_throw Exec_PlanChanged
    else mret fresh_plan.

Definition snapshot_update (root : path) : M unit :=
  _ ← transition Snapshotting;
  _ ← persist root;
  take_snapshot root "Lyra Upgrade".

Definition apply_update (root : path) : M (option Z) :=
  _ ← transition Applying;
  _ ← persist root;
  apply ← run_observed "zypper" apply_arguments;
  match classify_apply_exit (System.status apply) with
  | Ok _ => mret (System.status apply)
  | Err RestartPackageManager => st_throw (PackageManagerRestart (failure "zypper" apply))
  | Err Exit_Failed => st_throw (Apply (failure "zypper" apply))
  end.

(** The boot files, the inventory and the last state. *)
Definition finish_update (root operation_dir : path) (confirmed fresh_plan : PlannedUpdate)
    (exit : option Z) : M ExecutionOutcome :=
  let touches_boot := list_any touches_boot_package (changes (planned_solver fresh_plan)) in
  _ ← (if touches_boot then
         _ ← run_required Initramfs "dracut" ["--regenerate-all"; "--force"];
         _ ← run_required Grub "grub2-mkconfig" ["-o"; "/boot/grub2/grub.cfg"];
         mret ()
       else mret ());
  let reboot := solver_reboot_required (planned_solver fresh_plan)
    || (exit ==? Some 102%Z) || touches_boot in
  report ← attempt oracle Exec_Capture CaptureInventory;
  _ ← stage (save_inventory operation_dir "inventory-after.json" report);
  _ ← st_lift (map_err Exec_Inventory (verify_result (planned_plan confirmed) report));
  _ ← transition (if reboot then AwaitingReboot else Completed);
  _ ← persist root;
  mret {| outcome_reboot_required := reboot; package_manager_restart := false |}.

Definition execute_update (root : path) (confirmed : PlannedUpdate) : M ExecutionOutcome :=
  _ ← acquire_lock;
  operation_dir ← begin_update root confirmed;
  fresh_plan ← download_update confirmed;
  _ ← snapshot_update root;
  exit ← apply_update root;
  finish_update root operation_dir confirmed fresh_plan exit.

(* ------------------------------------------------------------------ *)
(** ** Staging an offline transaction *)

Definition revalidate_staged_solver (xml : string) (context : RepositoryContext)
    (manifest : ReleaseManifest) (confirmed : PlannedUpdate) (expected_hash : string) : M unit :=
  facts ← discover oracle (λ e, revalidation_error (Planner.Discovery e)) context;
  installed ← installed_packages_at oracle (λ e, revalidation_error (VendorMetadata e)) None;
  let facts := with_installed facts installed in
  solver ← st_lift (map_err (λ e, revalidation_error (Planner.SolverXml e))
    (parse_solver_xml xml_events (from_utf8_lossy xml) (manifest_aliases manifest) 0));
  solver ← enrich_solver_vendors_at oracle (λ e, revalidation_error (VendorMetadata e)) solver
    (raw context) None;
  st_lift (map_err revalidation_error
    (revalidate_release_plan facts solver manifest (planned_plan confirmed) expected_hash)).

Fixpoint stage_repositories (context : RepositoryContext) (keys_dir : path)
    (rs : list RepositoryTransition) : M unit :=
  match rs with
  | [] => mret ()
  | repository :: rs' =>
      let key_path := join keys_dir (repo_alias repository +:+ ".asc") in
      _ ← attempt oracle Exec_RepositoryKey (FetchRepositoryKey repository key_path);
      _ ← write_private (repos context) (repo_alias repository +:+ ".repo")
            (repository_file repository key_path);
      stage_repositories context keys_dir rs'
  end.

Definition SYSTEM_UPDATE : path := ["system-update"].

Definition stage_system_update (operation_dir : path) : M unit :=
  metadata ← on_disk (st_try (E':=ExecutionError) (symlink_metadata fault SYSTEM_UPDATE));
  match metadata with
  | Ok (Symlink _) =>
      target ← stage (read_link fault SYSTEM_UPDATE);
      if target !=? display operation_dir then st_throw SystemUpdateExists else mret ()
  | Ok _ => st_throw SystemUpdateExists
  | Err NotFound =>
      _ ← stage (symlink fault (display operation_dir) SYSTEM_UPDATE);
      _ ← stage (open_any fault []);
      stage (sync_all fault)
  | Err e => st_throw (Stage e)
  end.

(** The arguments of a staged transaction in one mode. *)
Definition staged_arguments (context : RepositoryContext) (manifest : ReleaseManifest)
    (confirmed : PlannedUpdate) (mode : TransactionMode) : M (list string) :=
  owned ← st_lift (map_err (λ e, Replan (Migration e))
    (transaction_arguments manifest (plan_installed_packages (planned_plan confirmed)) mode));
  mret ("--non-interactive" :: context_arguments context ++ ["--xmlout"; "--no-refresh"] ++ owned).

(** The signed manifest is fetched again and must be the confirmed one. *)
Definition check_staged (confirmed : PlannedUpdate) (manifest : ReleaseManifest)
  : M VerifiedManifest :=
  r ← st_get current;
  if (State.operation r !=? ManifestData.operation manifest)
     || (plan_target (planned_plan confirmed) !=? Some (man_target manifest))
     || (plan_manifest_sha256 (planned_plan confirmed) !=? State.manifest_sha256 r)
  then st_throw Exec_PlanChanged
  else
    _ ← st_lift (map_err revalidation_error
          (check_confirmed_release_plan manifest (planned_plan confirmed) (State.plan_sha256 r)));
    last ← attempt oracle Exec_RepositoryKey ReadLastManifestSequence;
    channel ← attempt oracle Exec_RepositoryKey ReadReleaseChannel;
    verified ← attempt oracle Exec_RepositoryKey (FetchVerifiedManifest (State.source r) last channel);
    if verified_manifest verified !=? manifest then st_throw Exec_PlanChanged
    else mret verified.

(** The files the offline step will read. *)
Definition write_staged_files (operation_dir : path) (context : RepositoryContext)
    (confirmed : PlannedUpdate) (manifest : ReleaseManifest) (verified : VerifiedManifest)
  : M unit :=
  _ ← capture_and_save operation_dir "inventory-before.json";
  _ ← write_private operation_dir "manifest.signed.json" (document verified);
  _ ← write_private operation_dir "manifest.signed.json.asc" (signature verified);
  let keys_dir := join operation_dir "keys" in
  _ ← stage (create_dir_all euid umask fault (repos context));
  _ ← stage (create_dir_all euid umask fault (packages_dir context));
  _ ← stage (create_dir_all euid umask fault keys_dir);
  _ ← stage_repositories context keys_dir (man_repositories manifest);
  text ← st_lift (map_err Stage (manifest_pretty manifest));
  _ ← write_private operation_dir "manifest.json" text;
  text ← st_lift (map_err Stage (plan_pretty (planned_plan confirmed)));
  write_private operation_dir "plan.json" text.

(** One run of the solver on the staged repositories, checked against the plan. *)
Definition staged_transaction (context : RepositoryContext) (manifest : ReleaseManifest)
    (confirmed : PlannedUpdate) (mode : TransactionMode) : M unit :=
  arguments ← staged_arguments context manifest confirmed mode;
  output ← run_required Exec_Download "zypper" arguments;
  r ← st_get current;
  _ ← revalidate_staged_solver (stdout output) context manifest confirmed (State.plan_sha256 r);
  stop_if_cancelled.

Definition stage_release_upgrade (root : path) (confirmed : PlannedUpdate)
    (manifest : ReleaseManifest) : M ExecutionOutcome :=
  _ ← acquire_lock;
  verified ← check_staged confirmed manifest;
  r ← st_get current;
  let operation_dir := join root (operation_id r) in
  let context := prepared_context operation_dir in
  _ ← write_staged_files operation_dir context confirmed manifest verified;
  _ ← transition Downloading;
  _ ← persist root;
  _ ← run_required Refresh "zypper"
        ("--non-interactive" :: context_arguments context ++ ["refresh"]);
  _ ← stop_if_cancelled;
  _ ← staged_transaction context manifest confirmed Mode_Plan;
  _ ← staged_transaction context manifest confirmed Mode_Download;
  listing ← perform oracle (ListPackages (packages_dir context));
  _ ← st_lift (map_err (λ _, Stage (OtherError 0))
        (verify_payloads digest manifest (plan_installed_packages (planned_plan confirmed))
           listing.1 listing.2));
  _ ← attempt oracle Exec_RepositoryKey (ValidateTime manifest);
  _ ← transition Snapshotting;
  _ ← persist root;
  _ ← take_snapshot root "Lyra release upgrade";
  _ ← stage_system_update operation_dir;
  _ ← transition ReadyToReboot;
  _ ← persist root;
  mret {| outcome_reboot_required := true; package_manager_restart := false |}.
End execution.

(* ------------------------------------------------------------------ *)
(** ** What is watched in the history *)

Definition files_of (o : occurrence) : gmap path node := match o with Did _ _ f => f end.

(** The online transaction itself. *)
Definition is_apply (o : occurrence) : bool :=
  match o with
  | Did (Run program arguments) _ _ => (program ==? "zypper") && (arguments ==? apply_arguments)
  | _ => false
  end.

(** Snapper created a snapshot and printed its number. *)
Definition snapshot_taken (description : string) (n : Z) (o : occurrence) : Prop :=
  match o with
  | Did e a _ =>
      match e in effect A return A → Prop with
      | Run program arguments => λ output,
          program = "snapper" ∧ arguments = snapper_arguments description
          ∧ success output = true
          ∧ parse_snapshot_number (from_utf8_lossy (stdout output)) = Ok n
      | _ => λ _, False
      end a
  end.

(** A step that makes no call of a kind [P] and moves the record by steps of the
    state machine only. *)
Record quiet (P : occurrence → bool) (w w' : execution) : Prop := {
  quiet_history : ∃ l, history w' = history w ++ l ∧ Forall (λ o, P o = false) l;
  quiet_steps : rtc State.step (current w) (current w');
}.

#[export] Instance quiet_reflexive P : Reflexive (quiet P).
Proof. intros w. split; [exists []; by rewrite app_nil_r|reflexivity]. Qed.
#[export] Instance quiet_transitive P : Transitive (quiet P).
Proof.
  intros w1 w2 w3 [(l1 & E1 & H1) S1] [(l2 & E2 & H2) S2]. split; [|by etransitivity].
  exists (l1 ++ l2). rewrite E2, E1, app_assoc. split; [done|]. by apply Forall_app.
Qed.

(** A step that does nothing but move the record. *)
Lemma quiet_move P w w' :
  history w' = history w → rtc State.step (current w) (current w') → quiet P w w'.
Proof. intros Hh Hr. split; [|done]. exists []. by rewrite app_nil_r. Qed.

Lemma quiet_grows P {E A} (m : ST execution E A) w x w' :
  st_rel (quiet P) m → m w = (x, w') → history w `prefix_of` history w'.
Proof. intros H Hm. specialize (H w) as [(l & Hl & _) _]. rewrite Hm in Hl. by exists l. Qed.

Section quiet_steps.
Context {HL : Libraries} {oracle : Oracle}.
Context (P : occurrence → bool).

Lemma perform_quiet {A E} (e : effect A) :
  (∀ a f, P (Did e a f) = false) → st_rel (quiet P) (perform (E:=E) oracle e).
Proof.
  intros H w. split; cbn; [|reflexivity]. eexists. split; [reflexivity|].
  constructor; [apply H|constructor].
Qed.

Lemma on_disk_quiet {A E} (m : ST world E A) : st_rel (quiet P) (on_disk m).
Proof.
  intros w. unfold on_disk. destruct (m (disk w)) as [r d]. split; cbn; [|reflexivity].
  exists []. by rewrite app_nil_r.
Qed.

Lemma attempt_quiet {A E E'} (f : E → E') (e : effect (result E A)) :
  (∀ a g, P (Did e a g) = false) → st_rel (quiet P) (attempt oracle f e).
Proof.
  intros H. apply st_rel_bind; [apply _|by apply perform_quiet|].
  intros r. apply st_rel_lift, _.
Qed.
End quiet_steps.

#[export] Hint Resolve perform_quiet on_disk_quiet attempt_quiet : quiet.
#[export] Hint Extern 1 (st_rel (quiet _) (mret _)) => apply st_rel_ret, _ : quiet.
#[export] Hint Extern 1 (st_rel (quiet _) (st_lift _)) => apply st_rel_lift, _ : quiet.
#[export] Hint Extern 1 (st_rel (quiet _) (st_throw _)) => apply st_rel_throw, _ : quiet.
#[export] Hint Extern 1 (st_rel (quiet _) (st_get _)) => (intros ?; reflexivity) : quiet.
#[export] Hint Extern 2 (st_rel (quiet _) (_ ≫= _)) =>
  (apply st_rel_bind; [apply _| |intros ?]) : quiet.
#[export] Hint Extern 2 (st_rel (quiet _) (st_map_err _ _)) => apply st_rel_map_err : quiet.
#[export] Hint Extern 2 (st_rel (quiet _) (st_try _)) => apply st_rel_try : quiet.
#[export] Hint Extern 3 (st_rel (quiet _) (if ?b then _ else _)) => destruct b : quiet.
#[export] Hint Extern 3 (st_rel (quiet _) (match ?x with _ => _ end)) => destruct x : quiet.

(* ------------------------------------------------------------------ *)
(** ** Steps that make no such call *)

Section workers.
Context {HL : Libraries} (oracle : Oracle).
Context (euid umask : Z) (fault : nat → option (IoError * nat)).
Context (pid : Z) (nonce : nat → Z) (fresh : nat → string).
Context (P : occurrence → bool).
(** [P] watches runs of programs and of zypper only. *)
Context (HP : ∀ A (e : effect A) a f,
  (match e with Run _ _ | Zypper _ _ => False | _ => True end) → P (Did e a f) = false).

Ltac quiet := unfold write_private, stage; eauto 20 with quiet.
#[local] Hint Resolve HP : quiet.

Lemma acquire_lock_quiet : st_rel (quiet P) (acquire_lock oracle euid umask fault).
Proof. unfold acquire_lock. quiet. Qed.

Lemma write_private_quiet d name content :
  st_rel (quiet P) (write_private euid umask fault d name content).
Proof. quiet. Qed.

Lemma capture_and_save_quiet d name :
  st_rel (quiet P) (capture_and_save oracle euid umask fault fresh d name).
Proof. unfold capture_and_save. quiet. Qed.

Lemma save_quiet root r :
  st_rel (quiet P) (save euid umask fault pid nonce root r).
Proof. unfold save. quiet. Qed.
#[local] Hint Resolve save_quiet write_private_quiet capture_and_save_quiet : quiet.

Lemma run_required_current f program arguments w output w' :
  run_required oracle f program arguments w = (Ok output, w') → current w' = current w.
Proof.
  unfold run_required, run_observed, perform, mbind, st_bind, st_lift.
  destruct (map_err f (require_success _ _)); [|done]. by intros [= _ <-].
Qed.

Lemma transition_Ok next w w' :
  transition next w = (Ok (), w') →
  disk w' = disk w ∧ history w' = history w ∧ transition_to (current w) next = Ok (current w').
Proof.
  unfold transition, mbind, st_bind, st_get, st_lift, map_err.
  destruct (transition_to (current w) next) as [r|e]; [|done].
  by intros [= <-].
Qed.

Lemma persist_current root w x w' :
  persist oracle euid umask fault pid nonce root w = (x, w') → current w' = current w.
Proof.
  unfold persist, save, on_disk, perform, mbind, st_bind, st_get.
  destruct (st_map_err _ _ _) as [[[]|e] d]; by intros [= _ <-].
Qed.

Lemma persist_quiet root :
  st_rel (quiet P) (persist oracle euid umask fault pid nonce root).
Proof. unfold persist. quiet. Qed.

Lemma transition_quiet next : st_rel (quiet P) (transition next).
Proof.
  intros w. unfold transition, mbind, st_bind, st_get, st_lift, map_err.
  destruct (transition_to (current w) next) as [r|e] eqn:E; [|reflexivity].
  apply quiet_move; [done|]. by eapply rtc_once, step_transition.
Qed.

Lemma run_quiet program arguments :
  (∀ a f, P (Did (Run program arguments) a f) = false) →
  st_rel (quiet P) (run_observed oracle program arguments).
Proof. intros H. by apply perform_quiet. Qed.

Lemma run_required_quiet f program arguments :
  (∀ a g, P (Did (Run program arguments) a g) = false) →
  st_rel (quiet P) (run_required oracle f program arguments).
Proof.
  intros H. apply st_rel_bind; [apply _|by apply run_quiet|]. intros o. apply st_rel_lift, _.
Qed.

Lemma stop_if_cancelled_quiet : st_rel (quiet P) (stop_if_cancelled oracle).
Proof. unfold stop_if_cancelled. quiet. Qed.

Lemma parse_snapshot_number_range text n :
  parse_snapshot_number text = Ok n → (0 < n ≤ u64_max)%Z.
Proof.
  unfold parse_snapshot_number. intros (H & Hn)%ok_or_Ok%opt_filter_Some.
  apply Z.ltb_lt in Hn. split; [done|]. revert H.
  generalize (reverse (lines text)). intros l. induction l as [|x l IH]; [done|]. simpl.
  destruct (parse_u64 (trim x)) eqn:E; [|exact IH]. intros [= ->].
  by apply (parse_unsigned_range u64_max _ _ E).
Qed.

(** Recording a snapshot is a step of the state machine in [Snapshotting] only. *)
Lemma take_snapshot_quiet root description w :
  (∀ a f, P (Did (Run "snapper" (snapper_arguments description)) a f) = false) →
  state (current w) = Snapshotting →
  quiet P w (take_snapshot oracle euid umask fault pid nonce root description w).2.
Proof.
  intros H Hs. unfold take_snapshot.
  assert (quiet P w (run_required oracle Snapshot "snapper" (snapper_arguments description) w).2)
    as Hq by by apply run_required_quiet.
  unfold mbind at 1, st_bind at 1.
  destruct (run_required _ _ _ _ w) as [[o|e] w1] eqn:E; [|done]. etransitivity; [exact Hq|].
  apply run_required_current in E. unfold mbind at 1, st_bind at 1, st_lift.
  destruct (parse_snapshot_number _) as [n|e] eqn:En; [|reflexivity].
  unfold mbind at 1, st_bind at 1, st_get. cbv zeta beta iota.
  set (r := set_snapshot_number (current w1) (Some n)).
  transitivity {| disk := disk w1; history := history w1; current := r |}.
  - apply quiet_move; [done|]. apply rtc_once, step_snapshot; [by rewrite E|].
    by eapply parse_snapshot_number_range.
  - apply (save_quiet root r {| disk := disk w1; history := history w1; current := r |}).
Qed.

(** The phase both workers share: announce the snapshot, then take it. *)
Lemma snapshot_phase_quiet root description :
  (∀ a f, P (Did (Run "snapper" (snapper_arguments description)) a f) = false) →
  st_rel (quiet P) (_ ← transition Snapshotting;
                    _ ← persist oracle euid umask fault pid nonce root;
                    take_snapshot oracle euid umask fault pid nonce root description).
Proof.
  intros H w. pose proof (transition_quiet Snapshotting w) as Q1.
  unfold mbind at 1, st_bind at 1.
  destruct (transition Snapshotting w) as [[[]|e] w1] eqn:E1; [|done].
  etransitivity; [exact Q1|]. apply transition_Ok in E1 as (_ & _ & Ht).
  pose proof (persist_quiet root w1) as Q2. unfold mbind at 1, st_bind at 1.
  destruct (persist _ _ _ _ _ _ root w1) as [[[]|e] w2] eqn:E2; [|done].
  etransitivity; [exact Q2|]. apply persist_current in E2. apply take_snapshot_quiet; [done|].
  rewrite E2. by apply transition_to_Ok in Ht as (_ & _ & _ & ->).
Qed.

Lemma discover_quiet {E} (f : DiscoverError → E) context :
  st_rel (quiet P) (discover oracle f context).
Proof. unfold discover. quiet. Qed.

Lemma installed_quiet {E} (f : VendorMetadataError → E) root :
  st_rel (quiet P) (installed_packages_at oracle f root).
Proof. unfold installed_packages_at. quiet. Qed.

Lemma fetch_catalogs_quiet {E} (f : VendorMetadataError → E) raw_cache sets candidates :
  st_rel (quiet P) (fetch_catalogs oracle f raw_cache sets candidates).
Proof.
  revert candidates. induction sets as [|[a wanted] sets IH]; intros candidates; cbn; quiet.
Qed.
#[local] Hint Resolve discover_quiet installed_quiet fetch_catalogs_quiet : quiet.

Lemma enrich_quiet {E} (f : VendorMetadataError → E) solver raw_cache root :
  st_rel (quiet P) (enrich_solver_vendors_at oracle f solver raw_cache root).
Proof. unfold enrich_solver_vendors_at. quiet. Qed.
#[local] Hint Resolve enrich_quiet : quiet.

Lemma plan_update_quiet :
  (∀ c arguments a f, P (Did (Zypper c arguments) a f) = false) →
  st_rel (quiet P) (plan_update_with_cached_metadata oracle).
Proof. intros HZ. unfold plan_update_with_cached_metadata. cbv zeta. quiet. Qed.

Lemma revalidate_quiet xml context manifest confirmed hash :
  st_rel (quiet P) (revalidate_staged_solver oracle xml context manifest confirmed hash).
Proof. unfold revalidate_staged_solver. cbv zeta. quiet. Qed.
End workers.
