(* ===== verification/Fixture.v ===== *)
(** * A concrete machine

    A host, a solver answer, the libraries and an oracle with which both workers
    of the service run from the confirmed plan to their last state. *)

From S2P Require Import Prelude RustStr State Fs Persistence Preflight Solver Plan.
From S2P Require Import ManifestData Migration Discovery Inventory SolverXml Vendors Protocol.
From S2P Require Import System Planner Executor.

Open Scope bool_scope.
Open Scope lyra_scope.

(* ------------------------------------------------------------------ *)
(** ** A complete update *)

Definition sample_output (text : string) : Output := {|
  System.status := Some 0%Z; stdout := text; stderr := "" |}.

Definition sample_host : DiscoveryBackend := {|
  backend_read := backend_read (DiscoveryBackend := sample_backend);
  backend_read_dir := backend_read_dir (DiscoveryBackend := sample_backend);
  backend_available_bytes := backend_available_bytes (DiscoveryBackend := sample_backend);
  backend_run := λ program arguments,
    let answer text := Ok {| Discovery.success := true; Discovery.stdout := text |} in
    if contains arguments "lr" then
      answer "1 | repo-oss | Lyra | Yes | Yes | Yes | 1 | rpm-md | https://example.invalid"
    else if program ==? "mokutil" then answer "SecureBoot enabled"
    else if contains arguments "/home" then answer "home"
    else backend_run (DiscoveryBackend := sample_backend) program arguments |}.
Definition sample_layout (text : string) : option (list Mount) :=
  if text ==? "home"
  then Some [{| target := "/home"; options := "rw,subvolid=257"; device := "0:30" |}]
  else sample_mounts text.

Definition sample_update_events (xml : string) : list (option xml_event) :=
  [Some (SolverXml.Start "stream" []); Some (SolverXml.Start "install-summary" sample_summary);
   Some (SolverXml.Start "to-upgrade" []);
   Some (SolverXml.Empty "solvable"
     [attr "type" "package"; attr "name" "firefox"; attr "edition" "2-1"; attr "edition-old" "1-1";
      attr "arch" "x86_64"; attr "repository" "repo-oss"]);
   Some (SolverXml.End "to-upgrade"); Some (SolverXml.End "install-summary"); Some (SolverXml.End "stream"); Some SolverXml.Eof].

#[export] Instance online_libraries : Libraries := {|
  plan_json := λ _, Ok "plan"; plan_pretty := λ _, Ok "plan"; manifest_json := λ _, Ok "manifest";
  manifest_pretty := λ _, Ok "manifest"; record_json := sample_encode;
  record_parse := sample_decode; inventory_parse := λ _, None; plan_parse := λ _, None;
  manifest_parse := λ _, None;
  inventory_json := λ _, "inventory"; mounts_json := sample_layout; xml_events := sample_update_events;
  digest := λ _, zeros 64 |}.

Definition sample_inventory : InventoryReport := {|
  inventory_schema_version := 1; configuration_artifacts := [];
  inventory_packages := [{| pkg_name := "firefox"; pkg_version := "2-1"; pkg_architecture := "x86_64";
                            pkg_vendor := "V" |}] |}.

Definition sample_oracle : Oracle := λ A h w e,
  match e in effect B return B with
  | Run program arguments => sample_output (if program ==? "snapper" then "7" else "")
  | Zypper _ _ => Ok (sample_output "")
  | SystemView _ => sample_host
  | RpmHeaders _ => Ok [["firefox"; "0"; "1"; "1"; "x86_64"; "V"]]
  | RepositoryVendors _ _ => Ok {[("firefox", "2-1", "x86_64") := Some "V"]}
  | NewSimulation _ => Ok ["simulation"]
  | WriteRepository _ _ => Ok ()
  | FetchVerifiedManifest _ _ _ => Err Download
  | VerifyManifestFiles _ _ _ _ => Err Download
  | ReadLastManifestSequence => Ok None
  | ReadReleaseChannel => Err InvalidChannel
  | FetchRepositoryKey _ _ => Ok ()
  | ValidateTime _ => Ok ()
  | CaptureInventory => Ok sample_inventory
  | ListPackages _ => (false, [])
  | TryLock => true
  | LiveView => sample_host
  | BtrfsView => λ _ _, None
  | ReleaseIdentityAt _ => None
  | ReadText _ => None
  | DependencyOutput => None
  | Supervise _ => Finished
  | Now => "2026-08-18T00:00:00Z"
  | CancelRequested => false
  | StateChanged _ => ()
  | Connect => None
  | Exchange _ => Err No_Answer
  | FetchReleasePreview _ _ _ _ => Err Download
  | CacheHome => None
  | Bounded _ _ => Ok (sample_output "")
  | NewUuid => "00000000-0000-4000-8000-000000000000"
  | Curl _ _ => Ok (false, None)
  | Gpg _ _ => Ok (sample_output "")
  end.
(** The operation the user confirmed, stored, and the lock directory. *)
Definition sample_confirmed_record : OperationStateRecord :=
  sample_record UpdateWithinRelease AwaitingConfirmation.
Definition sample_disk : world :=
  let w := (save_state 0 18 no_fault 100 7 sample_encode sample_root sample_confirmed_record
              sample_world).2 in {|
  nodes := <[["run"] := Dir 0 493]> (<[["lock"; "run"] := Dir 0 493]> (nodes w));
  calls := calls w |}.
Definition sample_start : execution := {|
  disk := sample_disk; history := []; current := sample_confirmed_record |}.
Definition sample_planned : PlannedUpdate :=
  match (plan_update_with_cached_metadata sample_oracle sample_start).1 with
  | Ok planned => planned
  | Err _ => {| planned_facts := sample_facts; planned_solver := sample_solver;
                planned_preflight := evaluate_preflight sample_facts default_policy;
                planned_plan := sample_plan; planned_sha256 := ""; planned_manifest := None |}
  end.
Definition sample_fresh (n : nat) : string := "tmp" +:+ to_string (Z.of_nat n).

(* ------------------------------------------------------------------ *)
(** ** A release upgrade *)

Definition upgrade_source : ReleaseIdentity := {|
  version := "1.0"; edition := "desktop"; architecture := "x86_64";
  build_id := "lyra-release-1.0" |}.
Definition upgrade_target : ReleaseIdentity := {|
  version := "1.1"; edition := "desktop"; architecture := "x86_64";
  build_id := "lyra-release-1.1" |}.
Definition upgrade_manifest : ReleaseManifest := {|
  man_schema_version := 1; man_sequence := 8; ManifestData.status := Status_Available;
  valid_from := "2026-01-01T00:00:00Z"; valid_until := "2027-01-01T00:00:00Z";
  man_source := upgrade_source; man_target := upgrade_target;
  minimum_updater_version := "0.2.7"; man_minimum_free_space_bytes := 1;
  man_repositories := [{| repo_alias := "repo-oss"; base_url := "https://example.org/lyra";
    signing_key_url := "https://example.org/key"; signing_key_fingerprint := "0";
    priority := 90 |}];
  man_allowed_removals := []; man_allowed_vendor_transitions := [];
  man_lockstep_packages := []; package_migration := None |}.

(** The oracle of the update, with a channel that serves the manifest. *)
Definition upgrade_oracle : Oracle := λ A h w e,
  match e in effect B return B → B with
  | FetchVerifiedManifest _ _ _ => λ _,
      Ok {| verified_manifest := upgrade_manifest; document := "manifest"; signature := "s" |}
  | ReadReleaseChannel => λ _, Ok Channel_Stable
  | _ => λ a, a
  end (sample_oracle A h w e).

Definition upgrade_planned : PlannedUpdate :=
  match (plan_release_upgrade upgrade_oracle upgrade_manifest sample_start).1 with
  | Ok planned => planned
  | Err _ => sample_planned
  end.

(** The operation of the upgrade, stored, and the lock directory. *)
Definition upgrade_record : OperationStateRecord :=
  let r := sample_record ReleaseUpgrade AwaitingConfirmation in {|
  schema_version := schema_version r; operation_id := operation_id r;
  State.sequence := State.sequence r; State.operation := State.operation r; state := state r;
  State.source := upgrade_source; State.target := Some upgrade_target;
  State.plan_sha256 := State.plan_sha256 r; State.manifest_sha256 := State.manifest_sha256 r;
  snapshot_number := snapshot_number r; recovery := recovery r;
  last_completed_step := last_completed_step r; State.error_code := State.error_code r;
  boot_verification := boot_verification r; created_at := created_at r;
  updated_at := updated_at r |}.
Definition upgrade_start : execution := {|
  disk := {| nodes := <[["run"] := Dir 0 493]> (<[["lock"; "run"] := Dir 0 493]>
               (nodes (save_state 0 18 no_fault 100 7 sample_encode sample_root upgrade_record
                         sample_world).2));
             calls := 0 |};
  history := []; current := upgrade_record |}.
