(* ===== verification/OnlineUpdate.v ===== *)
(** * The online update (src/service/src/executor.rs)

    When the online transaction may run: the phases of [execute_update], what
    each of them leaves in the history and on disk, and a complete run. *)

From S2P Require Import Prelude RustStr State Fs Persistence Preflight Solver Plan.
From S2P Require Import ManifestData Migration Discovery Inventory SolverXml Vendors Protocol.
From S2P Require Import System Planner Executor Fixture.

Open Scope bool_scope.
Open Scope lyra_scope.

Section online.
Context {HL : Libraries} (oracle : Oracle).
Context (euid umask : Z) (fault : nat → option (IoError * nat)).
Context (pid : Z) (nonce : nat → Z) (fresh : nat → string).

(** The stored record of an operation. *)
Definition stored (root : path) (files : gmap path node) (r : OperationStateRecord) : Prop :=
  ∃ m, files !! join (join root (operation_id r)) "state.json"
       = Some (File euid m (state_text record_json r)).

(** A program ended well. *)
Definition ran_well (program : string) (arguments : list string) (o : occurrence) : Prop :=
  ∃ output f, o = Did (Run program arguments) output f ∧ success output = true.

(** The plannings before and after the download both gave the confirmed plan. *)
Definition reviewed (confirmed : PlannedUpdate) (from upto : list occurrence) : Prop :=
  ∃ w1 w2 w3 w4 first again download,
    plan_update_with_cached_metadata oracle w1 = (Ok first, w2)
    ∧ planned_sha256 first = planned_sha256 confirmed
    ∧ ran_well "zypper" download_arguments download
    ∧ plan_update_with_cached_metadata oracle w3 = (Ok again, w4)
    ∧ plan_sha256 (with_required_bytes (planned_plan again)
        (plan_required_bytes (planned_plan confirmed))) = Ok (planned_sha256 confirmed)
    ∧ from `prefix_of` history w1
    ∧ history w2 ++ [download] `prefix_of` history w3
    ∧ history w4 `prefix_of` upto.

Lemma quiet_prefix P w w' : quiet P w w' → history w `prefix_of` history w'.
Proof. intros [(l & -> & _) _]. by apply prefix_app_r. Qed.

Lemma is_apply_run A (e : effect A) a f :
  match e with Run _ _ | Zypper _ _ => False | _ => True end → is_apply (Did e a f) = false.
Proof. by destruct e. Qed.

Lemma run_required_Ok f program arguments w output w' :
  run_required oracle f program arguments w = (Ok output, w') →
  ∃ o, history w' = history w ++ [o] ∧ current w' = current w ∧ disk w' = disk w
       ∧ o = Did (Run program arguments) output (nodes (disk w)) ∧ success output = true.
Proof.
  unfold run_required, run_observed, perform, mbind, st_bind, st_lift, require_success.
  destruct (success _) eqn:E; intros [= <- <-]. eexists. eauto 10.
Qed.

#[local] Abbreviation quietly := (st_rel (quiet is_apply)).

Lemma begin_update_quiet root confirmed :
  quietly (begin_update oracle euid umask fault pid nonce fresh root confirmed).
Proof.
  unfold begin_update. apply st_rel_bind; [apply _|by intros w|intros r]. cbv zeta.
  apply st_rel_bind; [apply _|apply st_rel_lift, _|intros text].
  apply st_rel_bind; [apply _|by apply write_private_quiet|intros _].
  apply st_rel_bind; [apply _|apply capture_and_save_quiet, is_apply_run|intros _].
  apply st_rel_bind; [apply _|apply transition_quiet|intros _].
  apply st_rel_bind; [apply _|apply persist_quiet, is_apply_run|intros _].
  apply st_rel_ret, _.
Qed.

Lemma run_step_quiet f program arguments :
  (program ==? "zypper") && (arguments ==? apply_arguments) = false →
  quietly (run_required oracle f program arguments).
Proof. intros H. apply run_required_quiet. by intros a g. Qed.

Lemma plan_step_quiet :
  quietly (st_map_err Replan (plan_update_with_cached_metadata oracle)).
Proof. by apply st_rel_map_err, plan_update_quiet; [exact is_apply_run|]. Qed.

Lemma download_update_quiet confirmed : quietly (download_update oracle confirmed).
Proof.
  pose proof plan_step_quiet as Hp.
  pose proof (stop_if_cancelled_quiet oracle is_apply is_apply_run) as Hs.
  unfold download_update.
  apply st_rel_bind; [apply _|by apply run_step_quiet|intros _].
  apply st_rel_bind; [apply _|done|intros _].
  apply st_rel_bind; [apply _|done|intros first].
  destruct (_ !=? _); [apply st_rel_throw, _|].
  apply st_rel_bind; [apply _|by apply run_step_quiet|intros _].
  apply st_rel_bind; [apply _|done|intros _].
  apply st_rel_bind; [apply _|done|intros again]. cbv zeta.
  destruct (_ !=? _); [apply st_rel_throw, _|apply st_rel_ret, _].
Qed.

Lemma quietly_prefix {A} (m : ST execution ExecutionError A) w x w' :
  quietly m → m w = (x, w') → history w `prefix_of` history w'.
Proof. intros H E. specialize (H w). rewrite E in H. by eapply quiet_prefix. Qed.

Lemma download_update_Ok confirmed w p w' :
  download_update oracle confirmed w = (Ok p, w') →
  reviewed confirmed (history w) (history w').
Proof.
  pose proof plan_step_quiet as Hp.
  pose proof (stop_if_cancelled_quiet oracle is_apply is_apply_run) as Hs.
  unfold download_update. intros H.
  apply st_bind_Ok in H as (o1 & w1 & H1 & H). apply st_bind_Ok in H as ([] & w2 & H2 & H).
  apply st_bind_Ok in H as (first & w3 & H3 & H).
  destruct (planned_sha256 first !=? planned_sha256 confirmed) eqn:Eh; [done|].
  apply st_bind_Ok in H as (o4 & w4 & H4 & H). apply st_bind_Ok in H as ([] & w5 & H5 & H).
  apply st_bind_Ok in H as (again & w6 & H6 & H). cbv zeta in H.
  destruct (res_ok _ !=? _) eqn:Eg; [done|]. injection H as _ <-.
  apply st_map_err_Ok in H3, H6.
  apply run_required_Ok in H4 as (o & Ho & _ & _ & -> & Hw).
  exists w2, w3, w5, w6, first, again. eexists. split; [exact H3|].
  split; [by rewrite negb_false_iff, eqb_true in Eh|].
  split; [by eexists _, _|]. split; [exact H6|].
  split. { rewrite negb_false_iff, eqb_true in Eg. by destruct (plan_sha256 _); simplify_eq/=. }
  split; [|split; [rewrite <- Ho; by eapply quietly_prefix|done]].
  etransitivity; [|by eapply quietly_prefix].
  eapply quietly_prefix; [|exact H1]. by apply run_step_quiet.
Qed.

Lemma save_Ok root r w w' :
  save euid umask fault pid nonce root r w = (Ok (), w') →
  stored root (nodes (disk w')) r ∧ history w' = history w ∧ current w' = current w
  ∧ validate_state r = Ok ().
Proof.
  unfold save, on_disk, st_map_err.
  destruct (save_state _ _ _ _ _ _ _ _ _) as [[[]|e] d] eqn:E; intros [= <-].
  apply save_state_spec in E as (_ & H). destruct (H eq_refl) as (Hs & _ & _ & _ & _ & _ & Hv & _).
  by repeat split.
Qed.

Lemma capture_Ok {E} (f : IoError → E) w report w' :
  attempt oracle f CaptureInventory w = (Ok report, w') →
  history w' = history w ++ [Did CaptureInventory (Ok report) (nodes (disk w))]
  ∧ current w' = current w.
Proof.
  unfold attempt, perform, mbind, st_bind, st_lift.
  destruct (oracle _ _ _ CaptureInventory) as [r|e]; [|done]. by intros [= <- <-].
Qed.

Lemma on_disk_keeps {E A} (m : ST world E A) w x w' :
  on_disk m w = (x, w') → history w' = history w ∧ current w' = current w.
Proof. unfold on_disk. destruct (m (disk w)). by intros [= _ <-]. Qed.

Lemma persist_Ok root w w' :
  persist oracle euid umask fault pid nonce root w = (Ok (), w') →
  stored root (nodes (disk w')) (current w') ∧ current w' = current w
  ∧ validate_state (current w') = Ok ()
  ∧ ∃ f, history w' = history w ++ [Did (StateChanged (state (current w))) () f].
Proof.
  unfold persist. intros H. apply st_bind_Ok in H as (r & w1 & H1 & H).
  injection H1 as <- <-. apply st_bind_Ok in H as ([] & w2 & H2 & H).
  apply save_Ok in H2 as (Hs & Hh & Hc & Hv).
  unfold perform in H. injection H as _ <-. cbn. rewrite Hh, Hc.
  split; [done|]. split; [done|]. split; [done|]. by destruct (oracle _ _ _ _); eexists.
Qed.

Lemma take_snapshot_Ok root description w w' :
  take_snapshot oracle euid umask fault pid nonce root description w = (Ok (), w') →
  ∃ n o, snapshot_number (current w') = Some n ∧ (0 < n)%Z ∧ snapshot_taken description n o
    ∧ history w' = history w ++ [o]
    ∧ current w' = set_snapshot_number (current w) (Some n)
    ∧ stored root (nodes (disk w')) (current w').
Proof.
  unfold take_snapshot. intros H. apply st_bind_Ok in H as (output & w1 & H1 & H).
  apply run_required_Ok in H1 as (o & Hh1 & Hc1 & _ & Ho & Hs).
  apply st_bind_Ok in H as (n & w2 & H2 & H). unfold st_lift in H2. injection H2 as Hn <-.
  apply st_bind_Ok in H as (r & w3 & H3 & H). injection H3 as <- <-. cbv zeta in H.
  apply st_bind_Ok in H as ([] & w4 & H4 & H). injection H4 as <-.
  apply save_Ok in H as (Hst & Hh & Hc & _). cbn in Hh, Hc.
  exists n, o. rewrite Hc, Hh, Hh1, Hc1, <- Hc1. subst o. cbn.
  split; [done|]. split; [|by repeat split].
  unfold parse_snapshot_number in Hn. apply ok_or_Ok, opt_filter_Some in Hn as (_ & Hn). lia.
Qed.

Lemma snapshot_phase_Ok root description w w' :
  (_ ← transition Snapshotting;
   _ ← persist oracle euid umask fault pid nonce root;
   take_snapshot oracle euid umask fault pid nonce root description) w = (Ok (), w') →
  ∃ n o l, snapshot_number (current w') = Some n ∧ (0 < n)%Z
    ∧ snapshot_taken description n o ∧ history w' = history w ++ l ++ [o]
    ∧ stored root (nodes (disk w')) (current w') ∧ state (current w') = Snapshotting.
Proof.
  intros H. apply st_bind_Ok in H as ([] & w1 & H1 & H).
  apply transition_Ok in H1 as (_ & Hh1 & Ht).
  apply st_bind_Ok in H as ([] & w2 & H2 & H). apply persist_Ok in H2 as (_ & Hc2 & _ & f & Hh2).
  apply take_snapshot_Ok in H as (n & o & Hn & Hp & Ho & Hh & Hc & Hst). exists n, o. eexists.
  rewrite Hh, Hh2, Hh1, <- app_assoc. do 5 (split; [done|]). rewrite Hc, Hc2.
  by apply transition_to_Ok in Ht as (_ & _ & _ & ->).
Qed.

Lemma snapshot_update_Ok root w w' :
  snapshot_update oracle euid umask fault pid nonce root w = (Ok (), w') →
  ∃ n o l, snapshot_number (current w') = Some n ∧ (0 < n)%Z
    ∧ snapshot_taken "Lyra Upgrade" n o ∧ history w' = history w ++ l ++ [o].
Proof. intros (n & o & l & ? & ? & ? & ? & _)%snapshot_phase_Ok. by exists n, o, l. Qed.

Lemma snapshot_update_quiet root :
  quietly (snapshot_update oracle euid umask fault pid nonce root).
Proof. apply snapshot_phase_quiet; [exact is_apply_run|done]. Qed.

(** The transaction is the last call of this step, with the record of it stored. *)
Lemma apply_update_spec root w x w' :
  apply_update oracle euid umask fault pid nonce root w = (x, w') →
  (quiet is_apply w w' ∧ ∃ e, x = Err e)
  ∨ ∃ l o, history w' = history w ++ l ++ [o] ∧ Forall (λ o, is_apply o = false) l
      ∧ is_apply o = true ∧ rtc State.step (current w) (current w')
      ∧ stored root (files_of o) (current w') ∧ state (current w') = Applying
      ∧ snapshot_number (current w') = snapshot_number (current w).
Proof.
  unfold apply_update. intros H.
  apply st_bind_cases in H as [(e & H & ->)|([] & w1 & H1 & H)].
  { left. split; [|eauto]. pose proof (transition_quiet is_apply Applying w) as Q.
    by rewrite H in Q. }
  pose proof (transition_quiet is_apply Applying w) as Q1. rewrite H1 in Q1. cbn in Q1.
  apply transition_Ok in H1 as (_ & Hh1 & Ht).
  apply st_bind_cases in H as [(e & H & ->)|([] & w2 & H2 & H)].
  { left. split; [|eauto]. etransitivity; [exact Q1|].
    pose proof (persist_quiet oracle euid umask fault pid nonce is_apply is_apply_run root w1) as Q.
    by rewrite H in Q. }
  apply persist_Ok in H2 as (Hs & Hc & _ & f & Hh2).
  right. eexists [_], (Did (Run "zypper" apply_arguments) _ _).
  pose proof Ht as Ht1. apply transition_to_Ok in Ht as (_ & _ & _ & Ht).
  assert (w' = {| disk := disk w2; history := history w2 ++ [Did (Run "zypper" apply_arguments)
                    (oracle _ (history w2) (disk w2) (Run "zypper" apply_arguments))
                    (nodes (disk w2))]; current := current w2 |}) as ->.
  { revert H. unfold run_observed, perform, mbind, st_bind.
    destruct (classify_apply_exit _) as [[]|[]]; by intros [= _ <-]. }
  cbn. rewrite Hh2, Hh1, <- app_assoc. split; [reflexivity|].
  split; [by repeat constructor|]. split; [by rewrite !eqb_refl|].
  rewrite Hc. rewrite Hc in Hs. split; [by eapply rtc_once, step_transition, Ht1|].
  by rewrite Ht in Hs |- *.
Qed.

Lemma finish_update_quiet root dir confirmed p exit :
  quietly (finish_update oracle euid umask fault pid nonce fresh root dir confirmed p exit).
Proof.
  unfold finish_update. cbv zeta. apply st_rel_bind; [apply _| |intros _].
  { destruct (list_any _ _); [|apply st_rel_ret, _].
    apply st_rel_bind; [apply _|by apply run_step_quiet|intros _].
    apply st_rel_bind; [apply _|by apply run_step_quiet|intros _]. apply st_rel_ret, _. }
  apply st_rel_bind; [apply _|by apply attempt_quiet|intros report].
  apply st_rel_bind; [apply _|apply on_disk_quiet|intros _].
  apply st_rel_bind; [apply _|apply st_rel_lift, _|intros _].
  apply st_rel_bind; [apply _|apply transition_quiet|intros _].
  apply st_rel_bind; [apply _|apply persist_quiet, is_apply_run|intros _]. apply st_rel_ret, _.
Qed.

Definition before_transaction (root : path) (confirmed : PlannedUpdate)
  : ST execution ExecutionError (path * PlannedUpdate) :=
  _ ← acquire_lock oracle euid umask fault;
  operation_dir ← begin_update oracle euid umask fault pid nonce fresh root confirmed;
  first ← download_update oracle confirmed;
  _ ← snapshot_update oracle euid umask fault pid nonce root;
  mret (operation_dir, first).

Lemma execute_update_phases root confirmed w :
  execute_update oracle euid umask fault pid nonce fresh root confirmed w
  = (p ← before_transaction root confirmed;
     exit ← apply_update oracle euid umask fault pid nonce root;
     finish_update oracle euid umask fault pid nonce fresh root p.1 confirmed p.2 exit) w.
Proof.
  unfold execute_update, before_transaction, mbind, st_bind, mret, st_ret.
  destruct (acquire_lock _ _ _ _ w) as [[[]|e] w1]; [|done].
  destruct (begin_update _ _ _ _ _ _ _ _ _ w1) as [[dir|e] w2]; [|done].
  destruct (download_update _ _ w2) as [[first|e] w3]; [|done].
  by destruct (snapshot_update _ _ _ _ _ _ _ w3) as [[[]|e] w4].
Qed.

Lemma before_transaction_quiet root confirmed : quietly (before_transaction root confirmed).
Proof.
  unfold before_transaction.
  apply st_rel_bind; [apply _|apply acquire_lock_quiet, is_apply_run|intros _].
  apply st_rel_bind; [apply _|apply begin_update_quiet|intros dir].
  apply st_rel_bind; [apply _|apply download_update_quiet|intros first].
  apply st_rel_bind; [apply _|apply snapshot_update_quiet|intros _]. apply st_rel_ret, _.
Qed.

Lemma reviewed_upto confirmed from upto upto' :
  reviewed confirmed from upto → upto `prefix_of` upto' → reviewed confirmed from upto'.
Proof.
  intros (v1 & v2 & v3 & v4 & a & b & d & F1 & F2 & F3 & F4 & F5 & F6 & F7 & F8) H.
  exists v1, v2, v3, v4, a, b, d. repeat (split; [done|]). by etransitivity.
Qed.

Lemma reviewed_from confirmed from from' upto :
  reviewed confirmed from upto → from' `prefix_of` from → reviewed confirmed from' upto.
Proof.
  intros (v1 & v2 & v3 & v4 & a & b & d & F1 & F2 & F3 & F4 & F5 & F6 & F7 & F8) H.
  exists v1, v2, v3, v4, a, b, d. repeat (split; [done|]). split; [by etransitivity|done].
Qed.

Lemma before_transaction_Ok root confirmed w p w' :
  before_transaction root confirmed w = (Ok p, w') →
  ∃ n s l1 l2, snapshot_number (current w') = Some n ∧ (0 < n)%Z
    ∧ snapshot_taken "Lyra Upgrade" n s ∧ history w' = history w ++ l1 ++ s :: l2
    ∧ reviewed confirmed (history w) (history w').
Proof.
  unfold before_transaction. intros H.
  apply st_bind_Ok in H as ([] & w1 & H1 & H). apply st_bind_Ok in H as (dir & w2 & H2 & H).
  apply st_bind_Ok in H as (first & w3 & H3 & H). apply st_bind_Ok in H as ([] & w4 & H4 & H).
  injection H as _ <-.
  assert (history w `prefix_of` history w2) as [l E].
  { etransitivity; [eapply quietly_prefix, H1; apply acquire_lock_quiet, is_apply_run|].
    eapply quietly_prefix, H2. apply begin_update_quiet. }
  pose proof (quietly_prefix _ _ _ _ (download_update_quiet confirmed) H3) as [l' E'].
  pose proof (quietly_prefix _ _ _ _ (snapshot_update_quiet root) H4) as E4.
  apply download_update_Ok in H3.
  apply snapshot_update_Ok in H4 as (n & s & l'' & Hn & Hp & Hs & Hh).
  exists n, s, (l ++ l' ++ l''), []. split; [done|]. split; [done|]. split; [done|].
  split; [by rewrite Hh, E', E, <- !app_assoc|].
  eapply reviewed_upto, E4. eapply reviewed_from; [exact H3|].
  rewrite E. by apply prefix_app_r.
Qed.

(** C2 An online update runs the package transaction at most once, and only ever
    after it was reviewed and a snapshot exists: at that moment the stored record
    of the operation is in Applying with the number of a snapshot that Snapper
    created earlier in this run, and the plannings before and after the download
    both gave the plan the user confirmed. Without the transaction the update
    ends with an error. *)
Theorem update_applies_reviewed_after_snapshot root confirmed w x w' :
  execute_update oracle euid umask fault pid nonce fresh root confirmed w = (x, w') →
  ∃ calls, history w' = history w ++ calls
    ∧ ((Forall (λ o, is_apply o = false) calls ∧ ∃ e, x = Err e)
       ∨ ∃ before o after r n s,
           calls = before ++ o :: after ∧ is_apply o = true
           ∧ Forall (λ o, is_apply o = false) (before ++ after)
           ∧ stored root (files_of o) r ∧ state r = Applying ∧ rtc State.step (current w) r
           ∧ snapshot_number r = Some n ∧ (0 < n)%Z
           ∧ s ∈ before ∧ snapshot_taken "Lyra Upgrade" n s
           ∧ reviewed confirmed (history w) (history w ++ before)).
Proof.
  rewrite execute_update_phases. intros H.
  apply st_bind_cases in H as [(e & H & ->)|([dir first] & w1 & H1 & H)].
  { pose proof (before_transaction_quiet root confirmed w) as [(l & Hl & Hq) _].
    rewrite H in Hl. eauto 10. }
  pose proof (before_transaction_quiet root confirmed w) as [(l1 & Hl1 & Hq1) Ho1].
  rewrite H1 in Hl1, Ho1. cbn in Hl1, Ho1.
  apply before_transaction_Ok in H1 as (n & s & l0 & l2 & Hn & Hpos & Hs & Hl & Hr).
  assert (l1 = l0 ++ s :: l2) as -> by (rewrite Hl1 in Hl; by simplify_list_eq).
  assert (∃ y w2, apply_update oracle euid umask fault pid nonce root w1 = (y, w2)
    ∧ quiet is_apply w2 w' ∧ ∀ e, y = Err e → x = Err e) as (y & w2 & H2 & Hq2 & Hx).
  { apply st_bind_cases in H as [(e & H & ->)|(exit & w2 & H2 & H)].
    - exists (Err e), w'. split; [done|]. split; [reflexivity|]. by intros ? [= ->].
    - exists (Ok exit), w2. split; [exact H2|]. split; [|by intros e [=]].
      cbn in H. pose proof (finish_update_quiet root dir confirmed first exit w2) as Q.
      by rewrite H in Q. }
  destruct Hq2 as [(l3 & Hl3 & Hq3) _].
  apply apply_update_spec in H2
    as [[[(l & Hh & Hq) _] (e & ->)]|(l & o & Hh & Hq & Ho & Hop & Hst & Hap & Hsn)].
  - eexists. rewrite Hl3, Hh, Hl1, <- !app_assoc. split; [done|]. left.
    split; [|eauto]. rewrite !Forall_app, ?Forall_cons in *. tauto.
  - eexists. rewrite Hl3, Hh, Hl1, <- !app_assoc. split; [done|]. right.
    exists ((l0 ++ s :: l2) ++ l), o, l3, (current w2), n, s.
    split; [by simplify_list_eq|]. split; [done|]. split; [rewrite !Forall_app, ?Forall_cons in *; tauto|].
    split; [done|]. split; [done|]. split; [by etransitivity; [exact Ho1|exact Hop]|]. split; [by rewrite Hsn|].
    split; [done|]. split; [set_solver|]. split; [done|].
    eapply reviewed_upto; [exact Hr|]. exists l. rewrite Hl1. by simplify_list_eq.
Qed.

(** The history only grows. *)
Lemma phases_Ok root confirmed w outcome w' :
  execute_update oracle euid umask fault pid nonce fresh root confirmed w = (Ok outcome, w') →
  ∃ dir first exit w1 w2,
    before_transaction root confirmed w = (Ok (dir, first), w1)
    ∧ apply_update oracle euid umask fault pid nonce root w1 = (Ok exit, w2)
    ∧ finish_update oracle euid umask fault pid nonce fresh root dir confirmed first exit w2
      = (Ok outcome, w').
Proof.
  rewrite execute_update_phases. intros H.
  apply st_bind_Ok in H as ([dir first] & w1 & H1 & H).
  apply st_bind_Ok in H as (exit & w2 & H2 & H). eauto 10.
Qed.

Lemma before_transaction_plan root confirmed w dir first w' :
  before_transaction root confirmed w = (Ok (dir, first), w') →
  planned_sha256 first = planned_sha256 confirmed.
Proof.
  unfold before_transaction. intros H.
  apply st_bind_Ok in H as ([] & w1 & _ & H). apply st_bind_Ok in H as (d & w2 & _ & H).
  apply st_bind_Ok in H as (p & w3 & H3 & H). apply st_bind_Ok in H as ([] & w4 & _ & H).
  injection H as _ -> _. unfold download_update in H3.
  apply st_bind_Ok in H3 as (? & ? & _ & H3). apply st_bind_Ok in H3 as (? & ? & _ & H3).
  apply st_bind_Ok in H3 as (p & ? & _ & H3).
  destruct (planned_sha256 p !=? planned_sha256 confirmed) eqn:E; [done|].
  do 3 (apply st_bind_Ok in H3 as (? & ? & _ & H3)). cbv zeta in H3.
  destruct (res_ok _ !=? _); [done|]. injection H3 as -> _.
  by rewrite negb_false_iff, eqb_true in E.
Qed.

Definition dracut_arguments : list string := ["--regenerate-all"; "--force"].
Definition grub_arguments : list string := ["-o"; "/boot/grub2/grub.cfg"].

(** Programs [ps] ran well, one after another, since [w]. *)
Definition ran_all (ps : list (string * list string)) (w w' : execution) : Prop :=
  ∃ os, Forall2 (λ p o, ran_well p.1 p.2 o) ps os ∧ history w' = history w ++ os.

Lemma boot_files_Ok (touches : bool) w w' :
  (if touches then
     _ ← run_required oracle Initramfs "dracut" dracut_arguments;
     _ ← run_required oracle Grub "grub2-mkconfig" grub_arguments;
     mret ()
   else mret ()) w = (Ok (), w') →
  ran_all (if touches then [("dracut", dracut_arguments); ("grub2-mkconfig", grub_arguments)]
           else []) w w' ∧ current w' = current w.
Proof.
  destruct touches; [|intros [= <-]; split; [exists []; by rewrite app_nil_r|done]].
  intros H. apply st_bind_Ok in H as (o1 & w1 & H1 & H).
  apply st_bind_Ok in H as (o2 & w2 & H2 & H). injection H as <-.
  apply run_required_Ok in H1 as (c1 & Hh1 & Hc1 & _ & -> & Hs1).
  apply run_required_Ok in H2 as (c2 & Hh2 & Hc2 & _ & -> & Hs2).
  split; [|congruence]. eexists [_; _]. rewrite Hh2, Hh1, <- app_assoc. split; [|done].
  repeat constructor; by eexists _, _.
Qed.

(** The last phase, when it succeeds. *)
Lemma finish_update_Ok root dir confirmed first exit w outcome w' :
  finish_update oracle euid umask fault pid nonce fresh root dir confirmed first exit w
    = (Ok outcome, w') →
  stored root (nodes (disk w')) (current w') ∧ validate_state (current w') = Ok ()
  ∧ state (current w') = (if outcome_reboot_required outcome then AwaitingReboot else Completed)
  ∧ ∃ w3 report after,
      (let touches := list_any touches_boot_package (changes (planned_solver first)) in
       ran_all (if touches then [("dracut", dracut_arguments); ("grub2-mkconfig", grub_arguments)]
                else []) w w3
       ∧ (touches = true → outcome_reboot_required outcome = true))
      ∧ history w' = history w3 ++ Did CaptureInventory (Ok report) (nodes (disk w3)) :: after
      ∧ verify_result (planned_plan confirmed) report = Ok ().
Proof.
  intros H. unfold finish_update in H. cbv zeta in H. fold dracut_arguments grub_arguments in H.
  set (touches := list_any _ _) in H.
  apply st_bind_Ok in H as ([] & w3 & H3 & H). apply boot_files_Ok in H3 as (Hb & Hc3).
  apply st_bind_Ok in H as (report & w4 & H4 & H). apply capture_Ok in H4 as (Hh4 & Hc4).
  apply st_bind_Ok in H as ([] & w5 & H5 & H). apply on_disk_keeps in H5 as (Hh5 & Hc5).
  apply st_bind_Ok in H as ([] & w6 & H6 & H). injection H6 as Hv <-.
  apply map_err_Ok in Hv.
  apply st_bind_Ok in H as ([] & w7 & H7 & H). apply transition_Ok in H7 as (_ & Hh7 & Ht).
  apply st_bind_Ok in H as ([] & w8 & H8 & H). injection H as <- <-.
  apply persist_Ok in H8 as (Hst & Hc8 & Hval & f & Hh8).
  split; [done|]. split; [done|].
  split. { rewrite Hc8. by apply transition_to_Ok in Ht as (_ & _ & _ & ->). }
  eexists w3, report, _.
  split; [split; [exact Hb|intros E; fold touches in E; cbn; by rewrite E, orb_true_r]|].
  split; [|done]. by rewrite Hh8, Hh7, Hh5, Hh4, <- app_assoc.
Qed.

End online.

(* ------------------------------------------------------------------ *)
(** ** A complete update *)

Definition sample_update : result ExecutionError ExecutionOutcome * execution :=
  execute_update sample_oracle 0 18 no_fault 100 (λ n, Z.of_nat n) sample_fresh sample_root
    sample_planned sample_start.

Lemma sample_update_eq : sample_update = (Ok {| outcome_reboot_required := true;
  package_manager_restart := false |}, sample_update.2).
Proof. apply pair_with_fst. vm_compute. reflexivity. Qed.

Lemma update_applies_witness :
  ∃ before o after r n, history sample_update.2 = before ++ o :: after
    ∧ is_apply o = true ∧ stored 0 sample_root (files_of o) r ∧ snapshot_number r = Some n.
Proof.
  destruct (update_applies_reviewed_after_snapshot sample_oracle 0 18 no_fault 100
    (λ n, Z.of_nat n) sample_fresh sample_root sample_planned sample_start
    _ _ sample_update_eq) as (calls & Hh & [[_ [e H]]|H]); [discriminate H|].
  destruct H as (before & o & after & r & n & s & -> & Ha & _ & Hs & _ & _ & Hn & _).
  exists before, o, after, r, n. split; [exact Hh|]. split; [exact Ha|]. by split.
Defined.

