(* ===== verification/Staging.v ===== *)
(** * Staging an offline transaction (src/service/src/executor.rs)

    What [stage_release_upgrade] may do before the machine reboots into the
    offline target: which calls it makes, and when the link that arms the reboot
    appears. *)

From S2P Require Import Prelude RustStr State Fs Persistence Preflight Solver Plan.
From S2P Require Import ManifestData Migration Discovery Inventory SolverXml Vendors Protocol.
From S2P Require Import System Planner Executor Fixture OnlineUpdate.

Open Scope bool_scope.
Open Scope lyra_scope.

(** A call that could install packages now. *)
Definition is_transaction (o : occurrence) : bool :=
  match o with
  | Did (Run program arguments) _ _ =>
      (program ==? "zypper") && negb (contains arguments "--dry-run")
      && negb (contains arguments "--download-only") && (last arguments !=? Some "refresh")
  | _ => false
  end.

Lemma is_transaction_run A (e : effect A) a f :
  match e with Run _ _ | Zypper _ _ => False | _ => True end → is_transaction (Did e a f) = false.
Proof. by destruct e. Qed.

(* ------------------------------------------------------------------ *)
(** ** One path left alone *)

Definition kept (p : path) (w w' : execution) : Prop :=
  nodes (disk w') !! p = nodes (disk w) !! p.

#[export] Instance kept_reflexive p : Reflexive (kept p).
Proof. by intros w. Qed.
#[export] Instance kept_transitive p : Transitive (kept p).
Proof. intros w1 w2 w3 H1 H2. unfold kept in *. by rewrite H2. Qed.

Create HintDb kept.

Section kept.
Context {HL : Libraries} (oracle : Oracle).
Context (euid umask : Z) (fault : nat → option (IoError * nat)).
Context (pid : Z) (nonce : nat → Z) (fresh : nat → string).
Context (p : path).

Lemma perform_kept {A E} (e : effect A) : st_rel (kept p) (perform (E:=E) oracle e).
Proof. by intros w. Qed.

Lemma attempt_kept {A E E'} (f : E → E') (e : effect (result E A)) :
  st_rel (kept p) (attempt oracle f e).
Proof. apply st_rel_bind; [apply _|apply perform_kept|]. intros r. apply st_rel_lift, _. Qed.

Lemma on_disk_kept {A E} (T : path → Prop) (m : ST world E A) :
  st_rel (touches T) m → ¬ T p → st_rel (kept p) (on_disk m).
Proof.
  intros H HT w. specialize (H (disk w)). unfold on_disk, kept. destruct (m (disk w)) as [r d].
  by apply H.
Qed.

Lemma stage_kept {A} (T : path → Prop) (m : ST world IoError A) :
  st_rel (touches T) m → ¬ T p → st_rel (kept p) (stage m).
Proof. intros H HT. eapply on_disk_kept; [by apply st_rel_map_err|done]. Qed.

Lemma on_disk_try {E A} (m : ST world IoError A) w x w' :
  on_disk (st_try (E':=E) m) w = (x, w') →
  ∃ r, x = Ok r ∧ m (disk w) = (r, disk w') ∧ history w' = history w ∧ current w' = current w.
Proof.
  unfold on_disk, st_try. destruct (m (disk w)) as [r d]. intros [= <- <-]. eauto.
Qed.

Lemma stage_disk {A} (m : ST world IoError A) w x w' :
  stage m w = (x, w') →
  ∃ r, m (disk w) = (r, disk w') ∧ history w' = history w ∧ current w' = current w
       ∧ x = map_err Stage r.
Proof.
  unfold stage, on_disk, st_map_err. destruct (m (disk w)) as [[a|e] d]; intros [= <- <-]; eauto.
Qed.

Lemma touches_widen {A E} (T T' : path → Prop) (m : ST world E A) :
  st_rel (touches T) m → (∀ q, T q → T' q) → st_rel (touches T') m.
Proof. intros H HT w. eapply touches_weaken; [exact HT|apply H]. Qed.

Lemma create_dir_all_touches q :
  st_rel (touches (λ x, x `suffix_of` q)) (create_dir_all euid umask fault q).
Proof.
  induction q as [|name q IH]; [apply st_rel_ret, _|]. cbn [create_dir_all].
  assert (st_rel (touches (λ x, x `suffix_of` name :: q)) (create_dir_all euid umask fault q))
    as Hq by (eapply touches_widen; [exact IH|intros x; apply suffix_cons_r]).
  assert (∀ E, st_rel (touches (λ x, x `suffix_of` name :: q))
    (st_try (E':=E) (create_dir euid umask fault (name :: q)))) as Hc.
  { intros E. apply st_rel_try. eapply touches_widen; [apply create_dir_touches|by intros x ->]. }
  assert (∀ e, st_rel (touches (λ x, x `suffix_of` name :: q))
    (n ← st_try (E':=IoError) (symlink_metadata fault (name :: q));
     match n with Ok (Dir _ _) => mret () | _ => st_throw e end)) as Hs.
  { intros e. apply st_rel_bind; [apply _|apply st_rel_try, symlink_metadata_touches|].
    intros [[]|]; auto with frames. }
  apply st_rel_bind; [apply _|apply Hc|]. intros [[]|[]]; auto with frames.
  apply st_rel_bind; [apply _|exact Hq|intros _].
  apply st_rel_bind; [apply _|apply Hc|]. intros [[]|e]; auto with frames.
Qed.

(** Every file of [m] is written below a directory, [p] is not. *)
Lemma write_private_kept d name content :
  (∀ x, p ≠ x :: d) → st_rel (kept p) (write_private euid umask fault d name content).
Proof.
  intros Hp. unfold write_private. cbv zeta.
  apply (stage_kept (λ q, ∃ x, q = x :: d)); [|intros (x & E); by apply (Hp x)].
  repeat (apply st_rel_bind; [apply _| |intros _]); auto with frames.
  - eapply touches_widen; [apply create_new_touches|]. intros q ->. by eexists.
  - eapply touches_widen; [apply write_all_touches|]. intros q ->. by eexists.
  - eapply touches_widen; [apply rename_touches|]. intros q [->| ->]; by eexists.
Qed.

Lemma save_inventory_touches d name report :
  st_rel (touches (λ q, ∃ x, q = x :: d))
    (save_inventory euid umask fault fresh d name report).
Proof.
  intros w. unfold save_inventory. cbv zeta.
  set (t := join d (fresh (calls w))).
  assert (∀ q, q = t → ∃ x, q = x :: d) as Ht by (intros q ->; by eexists).
  revert w t Ht. intros w t Ht.
  match goal with |- touches _ w (?m w).2 => assert (st_rel (touches (λ q, ∃ x, q = x :: d)) m) as H end;
    [|apply H].
  apply st_rel_bind; [apply _| |intros _].
  { eapply touches_widen; [apply create_new_touches|exact Ht]. }
  apply st_rel_bind; [apply _| |intros written].
  - apply st_rel_try. repeat (apply st_rel_bind; [apply _| |intros _]).
    + eapply touches_widen; [apply set_permissions_touches|exact Ht].
    + eapply touches_widen; [apply write_all_touches|exact Ht].
    + eapply touches_widen; [apply write_all_touches|exact Ht].
    + auto with frames.
    + eapply touches_widen; [apply rename_touches|]. intros q [->| ->]; by eexists.
  - destruct written as [[]|e].
    + apply st_rel_bind; [apply _|auto with frames|intros _; auto with frames].
    + apply st_rel_bind; [apply _| |intros _; auto with frames].
      apply st_rel_try. eapply touches_widen; [apply remove_file_touches|exact Ht].
Qed.

Lemma capture_and_save_kept d name :
  (∀ x, p ≠ x :: d) → st_rel (kept p) (capture_and_save oracle euid umask fault fresh d name).
Proof.
  intros Hp. apply st_rel_bind; [apply _|apply attempt_kept|intros report].
  eapply stage_kept; [apply save_inventory_touches|]. intros (x & E). by apply (Hp x).
Qed.

Lemma save_kept root r w :
  ¬ p `suffix_of` join (join root (operation_id r)) "state.json" →
  (∀ x, p ≠ x :: join root (operation_id r)) →
  kept p w (save euid umask fault pid nonce root r w).2.
Proof.
  intros H1 H2. unfold save, on_disk, st_map_err, kept.
  pose proof (save_state_touches euid umask fault pid (nonce (calls (disk w))) record_json root r
    (disk w)) as H. destruct (save_state _ _ _ _ _ _ _ _ _) as [x d]. cbn in H.
  assert (nodes d !! p = nodes (disk w) !! p) as E by (apply H; intros [?| ->]; [done|by eapply H2]).
  by destruct x.
Qed.
End kept.

#[export] Hint Resolve perform_kept attempt_kept write_private_kept capture_and_save_kept : kept.
#[export] Hint Extern 1 (st_rel (kept _) (mret _)) => apply st_rel_ret, _ : kept.
#[export] Hint Extern 1 (st_rel (kept _) (st_lift _)) => apply st_rel_lift, _ : kept.
#[export] Hint Extern 1 (st_rel (kept _) (st_throw _)) => apply st_rel_throw, _ : kept.
#[export] Hint Extern 1 (st_rel (kept _) (st_get _)) => (intros ?; reflexivity) : kept.
#[export] Hint Extern 2 (st_rel (kept _) (_ ≫= _)) =>
  (apply st_rel_bind; [apply _| |intros ?]) : kept.
#[export] Hint Extern 2 (st_rel (kept _) (st_map_err _ _)) => apply st_rel_map_err : kept.
#[export] Hint Extern 3 (st_rel (kept _) (if ?b then _ else _)) => destruct b : kept.
#[export] Hint Extern 3 (st_rel (kept _) (match ?x with _ => _ end)) => destruct x : kept.

Lemma fetch_catalogs_kept {HL : Libraries} (oracle : Oracle) p {E} (f : VendorMetadataError → E)
    raw_cache sets candidates :
  st_rel (kept p) (fetch_catalogs oracle f raw_cache sets candidates).
Proof.
  revert candidates. induction sets as [|[a wanted] sets IH]; intros candidates; cbn;
    eauto 20 with kept.
Qed.
#[export] Hint Resolve fetch_catalogs_kept : kept.

(* ------------------------------------------------------------------ *)
(** ** Before the link *)

Section staging.
Context {HL : Libraries} (oracle : Oracle).
Context (euid umask : Z) (fault : nat → option (IoError * nat)).
Context (pid : Z) (nonce : nat → Z) (fresh : nat → string).
(** The state root is a directory elsewhere than the link. *)
Context (root : path) (Hroot : root ≠ []) (Hsu : ¬ SYSTEM_UPDATE `suffix_of` root).

#[local] Abbreviation leaves := (st_rel (kept SYSTEM_UPDATE)).
#[local] Abbreviation quietly := (st_rel (quiet is_transaction)).

Lemma link_below (names : list string) : SYSTEM_UPDATE ≠ names ++ root.
Proof.
  intros E. destruct names as [|x names].
  - apply Hsu. cbn in E. by rewrite <- E.
  - injection E as _ E. symmetry in E. by apply app_eq_nil in E as [_ ?].
Qed.

Lemma link_not_above (names : list string) : ¬ SYSTEM_UPDATE `suffix_of` names ++ root.
Proof.
  induction names as [|x names IH]; [exact Hsu|]. intros [k E].
  destruct k as [|y k]; [by apply (link_below (x :: names))|]. injection E as _ E.
  apply IH. by exists k.
Qed.

Lemma save_leaves r : leaves (save euid umask fault pid nonce root r).
Proof.
  intros w. apply save_kept.
  - apply (link_not_above ["state.json"; operation_id r]).
  - intros x E. by apply (link_below [x; operation_id r]).
Qed.
#[local] Hint Resolve save_leaves : kept.

Lemma persist_leaves : leaves (persist oracle euid umask fault pid nonce root).
Proof. unfold persist. eauto 20 with kept. Qed.

Lemma transition_leaves next : leaves (transition next).
Proof.
  intros w. unfold transition, mbind, st_bind, st_get, st_lift, map_err.
  by destruct (transition_to (current w) next).
Qed.

Lemma run_required_leaves f program arguments :
  leaves (run_required oracle f program arguments).
Proof. unfold run_required, run_observed. eauto 20 with kept. Qed.
#[local] Hint Resolve persist_leaves transition_leaves run_required_leaves : kept.

Lemma stop_leaves : leaves (stop_if_cancelled oracle).
Proof. unfold stop_if_cancelled. eauto 20 with kept. Qed.

Lemma set_current_leaves r : leaves (set_current (E:=ExecutionError) r).
Proof. by intros w. Qed.
#[local] Hint Resolve set_current_leaves : kept.

Lemma take_snapshot_leaves description :
  leaves (take_snapshot oracle euid umask fault pid nonce root description).
Proof. unfold take_snapshot. cbv zeta. eauto 20 with kept. Qed.

#[local] Hint Resolve stop_leaves take_snapshot_leaves : kept.

Lemma revalidate_leaves xml context manifest confirmed hash :
  leaves (revalidate_staged_solver oracle xml context manifest confirmed hash).
Proof.
  unfold revalidate_staged_solver, discover, installed_packages_at, enrich_solver_vendors_at.
  cbv zeta. eauto 30 with kept.
Qed.
#[local] Hint Resolve revalidate_leaves : kept.

Lemma staged_transaction_leaves context manifest confirmed mode :
  leaves (staged_transaction oracle context manifest confirmed mode).
Proof. unfold staged_transaction, staged_arguments. eauto 30 with kept. Qed.

Lemma acquire_lock_leaves : leaves (acquire_lock oracle euid umask fault).
Proof.
  unfold acquire_lock.
  apply st_rel_bind; [apply _| |intros n].
  { eapply stage_kept; [apply open_nofollow_touches|done]. }
  apply st_rel_bind; [apply _| |intros _; eauto 20 with kept].
  eapply (stage_kept _ (λ _, False)); [apply file_call_touches|tauto].
Qed.

Lemma check_staged_leaves confirmed manifest : leaves (check_staged oracle confirmed manifest).
Proof. unfold check_staged. eauto 30 with kept. Qed.

Lemma stage_repositories_leaves context keys_dir rs names :
  repos context = names ++ root →
  leaves (stage_repositories oracle euid umask fault context keys_dir rs).
Proof.
  intros Hd. induction rs as [|repository rs IH]; cbn; [eauto with kept|].
  apply st_rel_bind; [apply _|apply attempt_kept|intros _].
  apply st_rel_bind; [apply _| |intros _; exact IH].
  apply write_private_kept. intros x E. rewrite Hd in E. by apply (link_below (x :: names)).
Qed.

Lemma create_dir_all_leaves names :
  leaves (stage (create_dir_all euid umask fault (names ++ root))).
Proof. eapply stage_kept; [apply create_dir_all_touches|]. apply link_not_above. Qed.

Lemma write_staged_files_leaves id confirmed manifest verified :
  leaves (write_staged_files oracle euid umask fault fresh (join root id)
            (prepared_context (join root id)) confirmed manifest verified).
Proof.
  assert (∀ name content, leaves (write_private euid umask fault (join root id) name content)) as Hw.
  { intros name content. apply write_private_kept. intros x E. by apply (link_below [x; id]). }
  unfold write_staged_files. cbv zeta.
  apply st_rel_bind; [apply _| |intros _].
  { apply capture_and_save_kept. intros x E. by apply (link_below [x; id]). }
  do 2 (apply st_rel_bind; [apply _|apply Hw|intros _]).
  apply st_rel_bind; [apply _|apply (create_dir_all_leaves ["repos.d"; id])|intros _].
  apply st_rel_bind; [apply _|apply (create_dir_all_leaves ["packages"; "cache"; id])|intros _].
  apply st_rel_bind; [apply _|apply (create_dir_all_leaves ["keys"; id])|intros _].
  apply st_rel_bind; [apply _|by apply (stage_repositories_leaves _ _ _ ["repos.d"; id])|intros _].
  apply st_rel_bind; [apply _|apply st_rel_lift, _|intros text].
  apply st_rel_bind; [apply _|apply Hw|intros _].
  apply st_rel_bind; [apply _|apply st_rel_lift, _|intros text']. apply Hw.
Qed.

(* ------------------------------------------------------------------ *)
(** ** No transaction while staging *)

Lemma quiet_run f program arguments :
  is_transaction (Did (Run program arguments) (sample_output "") ∅) = false →
  quietly (run_required oracle f program arguments).
Proof. intros H. apply run_required_quiet. intros a g. exact H. Qed.

Lemma quiet_persist : quietly (persist oracle euid umask fault pid nonce root).
Proof. apply persist_quiet, is_transaction_run. Qed.

Lemma quiet_perform {A E} (e : effect A) :
  match e with Run _ _ | Zypper _ _ => False | _ => True end →
  quietly (perform (E:=E) oracle e).
Proof. intros H. apply perform_quiet. intros a f. by apply is_transaction_run. Qed.

Lemma quiet_attempt {A E E'} (f : E → E') (e : effect (result E A)) :
  match e with Run _ _ | Zypper _ _ => False | _ => True end → quietly (attempt oracle f e).
Proof. intros H. apply attempt_quiet. intros a g. by apply is_transaction_run. Qed.

Lemma quiet_check confirmed manifest : quietly (check_staged oracle confirmed manifest).
Proof.
  unfold check_staged. apply st_rel_bind; [apply _|by intros w|intros r].
  destruct (_ || _); [apply st_rel_throw, _|].
  apply st_rel_bind; [apply _|apply st_rel_lift, _|intros _].
  apply st_rel_bind; [apply _|by apply quiet_attempt|intros l].
  apply st_rel_bind; [apply _|by apply quiet_attempt|intros channel].
  apply st_rel_bind; [apply _|by apply quiet_attempt|intros v].
  destruct (_ !=? _); [apply st_rel_throw, _|apply st_rel_ret, _].
Qed.

Lemma quiet_repositories context keys_dir rs :
  quietly (stage_repositories oracle euid umask fault context keys_dir rs).
Proof.
  induction rs as [|r rs IH]; cbn; [apply st_rel_ret, _|].
  apply st_rel_bind; [apply _|by apply quiet_attempt|intros _].
  apply st_rel_bind; [apply _|by apply write_private_quiet|intros _]. exact IH.
Qed.

Lemma quiet_files dir context confirmed manifest verified :
  quietly (write_staged_files oracle euid umask fault fresh dir context confirmed manifest verified).
Proof.
  assert (∀ d name content, quietly (write_private euid umask fault d name content)) as Hw.
  { intros. by apply write_private_quiet. }
  assert (∀ d, quietly (stage (create_dir_all euid umask fault d))) as Hd.
  { intros. apply on_disk_quiet. }
  unfold write_staged_files. cbv zeta.
  apply st_rel_bind; [apply _|apply capture_and_save_quiet, is_transaction_run|intros _].
  do 2 (apply st_rel_bind; [apply _|apply Hw|intros _]).
  do 3 (apply st_rel_bind; [apply _|apply Hd|intros _]).
  apply st_rel_bind; [apply _|apply quiet_repositories|intros _].
  apply st_rel_bind; [apply _|apply st_rel_lift, _|intros text].
  apply st_rel_bind; [apply _|apply Hw|intros _].
  apply st_rel_bind; [apply _|apply st_rel_lift, _|intros text']. apply Hw.
Qed.

Lemma simulated_quiet program arguments mark output f :
  mark = "--dry-run" ∨ mark = "--download-only" → mark ∈ arguments →
  is_transaction (Did (Run program arguments) output f) = false.
Proof.
  intros Hm H. cbn [is_transaction]. rewrite <- contains_true in H.
  destruct Hm as [-> | ->]; rewrite H; cbn [negb]; by rewrite ?andb_false_r.
Qed.

Lemma quiet_transaction context manifest confirmed mode :
  mode ≠ Mode_Apply → quietly (staged_transaction oracle context manifest confirmed mode).
Proof.
  intros Hmode w. unfold staged_transaction, mbind at 1, st_bind at 1.
  destruct (staged_arguments context manifest confirmed mode w) as [[arguments|e] w1] eqn:E.
  2: { unfold staged_arguments, mbind, st_bind, st_lift in E.
       destruct (map_err _ _); [done|]. by injection E as _ <-. }
  unfold staged_arguments in E. apply st_bind_Ok in E as (owned & w2 & E & H).
  unfold st_lift in E. injection E as E <-. injection H as <- <-. apply map_err_Ok in E.
  apply transaction_arguments_mode in E.
  match goal with |- quiet _ _ (?m w).2 => assert (quietly m) as Hm end; [|apply Hm].
  apply st_rel_bind; [apply _| |intros output].
  - apply quiet_run. destruct mode; [| |done]; cbn in E.
    + apply (simulated_quiet _ _ "--dry-run"); [by left|]. set_solver.
    + apply (simulated_quiet _ _ "--download-only"); [by right|]. set_solver.
  - apply st_rel_bind; [apply _|by intros v|intros r].
    apply st_rel_bind; [apply _|apply revalidate_quiet, is_transaction_run|intros _].
    apply stop_if_cancelled_quiet, is_transaction_run.
Qed.

(* ------------------------------------------------------------------ *)
(** ** The phases *)

(** The files, the first state, and the metadata. *)
Definition prepare_staging (dir : path) (context : RepositoryContext) (confirmed : PlannedUpdate)
    (manifest : ReleaseManifest) (verified : VerifiedManifest)
  : ST execution ExecutionError unit :=
  _ ← write_staged_files oracle euid umask fault fresh dir context confirmed manifest verified;
  _ ← transition Downloading;
  _ ← persist oracle euid umask fault pid nonce root;
  _ ← run_required oracle Refresh "zypper"
        ("--non-interactive" :: context_arguments context ++ ["refresh"]);
  stop_if_cancelled oracle.

Definition before_link (confirmed : PlannedUpdate) (manifest : ReleaseManifest)
  : ST execution ExecutionError path :=
  _ ← acquire_lock oracle euid umask fault;
  verified ← check_staged oracle confirmed manifest;
  r ← st_get current;
  let operation_dir := join root (operation_id r) in
  let context := prepared_context operation_dir in
  _ ← prepare_staging operation_dir context confirmed manifest verified;
  _ ← staged_transaction oracle context manifest confirmed Mode_Plan;
  _ ← staged_transaction oracle context manifest confirmed Mode_Download;
  listing ← perform oracle (ListPackages (packages_dir context));
  _ ← st_lift (map_err (λ _, Stage (OtherError 0))
        (verify_payloads digest manifest (plan_installed_packages (planned_plan confirmed))
           listing.1 listing.2));
  _ ← attempt oracle Exec_RepositoryKey (ValidateTime manifest);
  _ ← (_ ← transition Snapshotting;
       _ ← persist oracle euid umask fault pid nonce root;
       take_snapshot oracle euid umask fault pid nonce root "Lyra release upgrade");
  mret operation_dir.

Ltac same_step :=
  match goal with |- match ?m with _ => _ end = _ => destruct m as [[?|?] ?]; [|reflexivity] end;
  cbv beta iota zeta.

Lemma stage_phases confirmed manifest w :
  stage_release_upgrade oracle euid umask fault pid nonce fresh root confirmed manifest w
  = (dir ← before_link confirmed manifest;
     _ ← stage_system_update fault dir;
     _ ← transition ReadyToReboot;
     _ ← persist oracle euid umask fault pid nonce root;
     mret {| outcome_reboot_required := true; package_manager_restart := false |}) w.
Proof.
  unfold stage_release_upgrade, before_link, prepare_staging, mbind, st_bind, mret, st_ret.
  repeat (cbv beta iota zeta; same_step). reflexivity.
Qed.

Lemma prepare_staging_quiet dir context confirmed manifest verified :
  quietly (prepare_staging dir context confirmed manifest verified).
Proof.
  unfold prepare_staging.
  apply st_rel_bind; [apply _|apply quiet_files|intros _].
  apply st_rel_bind; [apply _|apply transition_quiet|intros _].
  apply st_rel_bind; [apply _|apply quiet_persist|intros _].
  apply st_rel_bind; [apply _| |intros _].
  { apply quiet_run. cbn [is_transaction].
    rewrite app_comm_cons, last_snoc. by rewrite andb_false_r. }
  apply stop_if_cancelled_quiet, is_transaction_run.
Qed.

Lemma before_link_quiet confirmed manifest : quietly (before_link confirmed manifest).
Proof.
  unfold before_link.
  apply st_rel_bind; [apply _|apply acquire_lock_quiet, is_transaction_run|intros _].
  apply st_rel_bind; [apply _|apply quiet_check|intros v].
  apply st_rel_bind; [apply _|by intros w|intros r]. cbv zeta.
  apply st_rel_bind; [apply _|apply prepare_staging_quiet|intros _].
  apply st_rel_bind; [apply _|by apply quiet_transaction|intros _].
  apply st_rel_bind; [apply _|by apply quiet_transaction|intros _].
  apply st_rel_bind; [apply _|by apply quiet_perform|intros listing].
  apply st_rel_bind; [apply _|apply st_rel_lift, _|intros _].
  apply st_rel_bind; [apply _|by apply quiet_attempt|intros _].
  apply st_rel_bind; [apply _| |intros _; apply st_rel_ret, _].
  apply snapshot_phase_quiet; [exact is_transaction_run|done].
Qed.

Lemma before_link_leaves confirmed manifest : leaves (before_link confirmed manifest).
Proof.
  unfold before_link.
  apply st_rel_bind; [apply _|apply acquire_lock_leaves|intros _].
  apply st_rel_bind; [apply _|apply check_staged_leaves|intros v].
  apply st_rel_bind; [apply _|by intros w|intros r]. cbv zeta.
  apply st_rel_bind; [apply _| |intros _].
  { unfold prepare_staging.
    apply st_rel_bind; [apply _|apply write_staged_files_leaves|intros _].
    apply st_rel_bind; [apply _|apply transition_leaves|intros _].
    apply st_rel_bind; [apply _|apply persist_leaves|intros _].
    apply st_rel_bind; [apply _|apply run_required_leaves|intros _].
    apply stop_leaves. }
  do 2 (apply st_rel_bind; [apply _|apply staged_transaction_leaves|intros _]).
  apply st_rel_bind; [apply _|apply perform_kept|intros listing].
  apply st_rel_bind; [apply _|apply st_rel_lift, _|intros _].
  apply st_rel_bind; [apply _|apply attempt_kept|intros _].
  apply st_rel_bind; [apply _| |intros _; apply st_rel_ret, _].
  apply st_rel_bind; [apply _|apply transition_leaves|intros _].
  apply st_rel_bind; [apply _|apply persist_leaves|intros _]. apply take_snapshot_leaves.
Qed.

(** The answer of one call that changes no file. *)
Lemma link_call {A} (m : ST world IoError A) w x w' :
  st_rel (touches (λ _, False)) m → stage m w = (x, w') →
  nodes (disk w') !! SYSTEM_UPDATE = nodes (disk w) !! SYSTEM_UPDATE
  ∧ ∃ r, m (disk w) = (r, disk w') ∧ x = map_err Stage r.
Proof.
  intros Ht H. apply stage_disk in H as (r & H & _ & _ & ->).
  specialize (Ht (disk w) SYSTEM_UPDATE). rewrite H in Ht. cbn in Ht.
  split; [apply Ht; tauto|eauto].
Qed.

(** What the link may be after the step. *)
Definition linked (dir : path) (w : execution) (x : result ExecutionError unit) (w' : execution)
  : Prop :=
  (x = Ok () → nodes (disk w') !! SYSTEM_UPDATE = Some (Symlink (display dir)))
  ∧ (nodes (disk w') !! SYSTEM_UPDATE = nodes (disk w) !! SYSTEM_UPDATE
     ∨ (nodes (disk w) !! SYSTEM_UPDATE = None
        ∧ nodes (disk w') !! SYSTEM_UPDATE = Some (Symlink (display dir)))).

Lemma linked_error dir w e w' :
  nodes (disk w') !! SYSTEM_UPDATE = nodes (disk w) !! SYSTEM_UPDATE → linked dir w (Err e) w'.
Proof. intros. split; [done|by left]. Qed.

(** The link is already there. *)
Lemma link_present dir w x w' :
  (target ← stage (read_link fault SYSTEM_UPDATE);
   if target !=? display dir then st_throw SystemUpdateExists else mret ()) w = (x, w') →
  linked dir w x w'.
Proof.
  intros H. apply st_bind_cases in H as [(e & H & ->)|(t & w1 & H1 & H)].
  - apply link_call in H as (Hn & _); [by apply linked_error|auto with frames].
  - apply link_call in H1 as (Hn & r & Hr & Ht); [|auto with frames].
    destruct (t !=? display dir) eqn:E; injection H as <- <-; [by apply linked_error|].
    split; [intros _|by left].
    rewrite negb_false_iff, eqb_true in E. subst t. rewrite Hn.
    destruct r as [t|]; [|done]. injection Ht as <-.
    apply syscall_Ok in Hr as (_ & Hr & _).
    destruct (nodes (disk w) !! SYSTEM_UPDATE) as [[]|]; [done..| |done]. by injection Hr as -> _.
Qed.

(** The link is made. *)
Lemma link_made dir w x w' :
  (_ ← stage (symlink fault (display dir) SYSTEM_UPDATE);
   _ ← stage (open_any fault []);
   stage (sync_all fault)) w = (x, w') → linked dir w x w'.
Proof.
  intros H. apply st_bind_cases in H as [(e & H & ->)|([] & w1 & H1 & H)].
  - apply stage_disk in H as (r & H & _ & _ & Hr). destruct r as [|e']; [done|].
    apply linked_error. revert H. unfold symlink, syscall.
    destruct (fault _) as [[]|]; [by intros [= _ <-]|].
    destruct (is_some _); [by intros [= _ <-]|]. destruct (negb _); by intros [= _ <-].
  - apply stage_disk in H1 as (r & H1 & _ & _ & Hr). destruct r as [[]|]; [|done].
    apply syscall_Ok in H1 as (_ & H1 & _).
    destruct (is_some _) eqn:E; [done|]. destruct (negb _); [done|]. injection H1 as H1.
    apply is_some_false in E.
    assert (nodes (disk w1) !! SYSTEM_UPDATE = Some (Symlink (display dir))) as Hn
      by by rewrite <- H1, lookup_insert_eq.
    assert (nodes (disk w') !! SYSTEM_UPDATE = nodes (disk w1) !! SYSTEM_UPDATE) as Hn'.
    { apply st_bind_cases in H as [(e & H & ->)|([] & w2 & H2 & H)].
      - apply link_call in H as (Hk & _); [done|auto with frames].
      - apply link_call in H2 as (Hk2 & _); [|auto with frames].
        apply link_call in H as (Hk & _); [|auto with frames]. by rewrite Hk. }
    unfold linked. rewrite Hn', Hn. split; [done|by right].
Qed.

Lemma stage_system_update_spec dir w x w' :
  stage_system_update fault dir w = (x, w') → linked dir w x w'.
Proof.
  unfold stage_system_update. intros H.
  apply st_bind_cases in H as [(e & H & ->)|(m & w1 & H1 & H)].
  { by apply on_disk_try in H as (r & [=] & _). }
  apply on_disk_try in H1 as (r & [= <-] & Hm & _ & _).
  pose proof (symlink_metadata_nodes fault SYSTEM_UPDATE (disk w)) as Hn1.
  rewrite Hm in Hn1. cbn in Hn1.
  assert (linked dir w1 x w' → linked dir w x w') as Hl.
  { intros (E3 & E4). by rewrite Hn1 in E4. }
  assert (∀ e, (Err e, w1) = (x, w') → linked dir w1 x w') as Hfail.
  { intros e [= <- <-]. by apply linked_error. }
  apply Hl. destruct m as [[u m|u m c|t]|[]]; [by eapply Hfail|by eapply Hfail| | |by eapply Hfail..].
  - by apply link_present.
  - by apply link_made.
Qed.

Lemma stage_system_update_quiet dir : quietly (stage_system_update fault dir).
Proof.
  unfold stage_system_update. apply st_rel_bind; [apply _|apply on_disk_quiet|intros m].
  assert (∀ e : ExecutionError, quietly (st_throw (A:=unit) e)) as Ht by (intros; apply st_rel_throw, _).
  destruct m as [[]|[]]; try apply Ht.
  - apply st_rel_bind; [apply _|apply on_disk_quiet|intros t].
    destruct (_ !=? _); [apply Ht|apply st_rel_ret, _].
  - do 2 (apply st_rel_bind; [apply _|apply on_disk_quiet|intros _]). apply on_disk_quiet.
Qed.

(** From the link to the end: the link stays. *)
Lemma after_link dir w x w' :
  (_ ← stage_system_update fault dir;
   _ ← transition ReadyToReboot;
   _ ← persist oracle euid umask fault pid nonce root;
   mret {| outcome_reboot_required := true; package_manager_restart := false |}) w = (x, w') →
  quiet is_transaction w w' ∧ ∃ y, linked dir w y w' ∧ (∀ e, y = Err e → x = Err e)
    ∧ (∀ outcome, x = Ok outcome → outcome_reboot_required outcome = true
         ∧ stored euid root (nodes (disk w')) (current w') ∧ state (current w') = ReadyToReboot).
Proof.
  intros H. apply st_bind_cases in H as [(e & H & ->)|([] & w1 & H1 & H)].
  - pose proof (stage_system_update_quiet dir w) as Q. rewrite H in Q. split; [exact Q|].
    exists (Err e). split; [by apply stage_system_update_spec|]. split; [by intros ? [= ->]|done].
  - pose proof (stage_system_update_quiet dir w) as Q1. rewrite H1 in Q1. cbn in Q1.
    apply stage_system_update_spec in H1.
    assert (quietly (_ ← transition ReadyToReboot;
      _ ← persist oracle euid umask fault pid nonce root;
      mret {| outcome_reboot_required := true; package_manager_restart := false |})
      ∧ leaves (_ ← transition ReadyToReboot;
      _ ← persist oracle euid umask fault pid nonce root;
      mret {| outcome_reboot_required := true; package_manager_restart := false |}))
      as [Q2 L2].
    { split.
      - apply st_rel_bind; [apply _|apply transition_quiet|intros _].
        apply st_rel_bind; [apply _|apply quiet_persist|intros _]. apply st_rel_ret, _.
      - apply st_rel_bind; [apply _|apply transition_leaves|intros _].
        apply st_rel_bind; [apply _|apply persist_leaves|intros _]. apply st_rel_ret, _. }
    specialize (Q2 w1). specialize (L2 w1). rewrite H in Q2, L2. cbn in Q2, L2. unfold kept in L2.
    split; [by etransitivity|]. exists (Ok ()). split; [unfold linked; by rewrite L2|].
    split; [done|]. intros outcome ->.
    apply st_bind_Ok in H as ([] & w2 & H2 & H). apply transition_Ok in H2 as (_ & _ & Ht).
    apply st_bind_Ok in H as ([] & w3 & H3 & H). injection H as <- <-.
    apply persist_Ok in H3 as (Hst & Hc & _ & _). split; [done|]. split; [done|].
    rewrite Hc. by apply transition_to_Ok in Ht as (_ & _ & _ & ->).
Qed.

(* ------------------------------------------------------------------ *)
(** ** What was established before the link *)

Lemma steps_identity r r' :
  rtc State.step r r' →
  operation_id r' = operation_id r ∧ State.plan_sha256 r' = State.plan_sha256 r
  ∧ State.source r' = State.source r.
Proof.
  induction 1 as [|r1 r2 r3 Hs _ IH]; [done|].
  assert (operation_id r2 = operation_id r1 ∧ State.plan_sha256 r2 = State.plan_sha256 r1
          ∧ State.source r2 = State.source r1) as (E1 & E2 & E3).
  { destruct Hs as [r next r' (_ & _ & _ & ->)%transition_to_Ok|]; done. }
  by rewrite <- E1, <- E2, <- E3.
Qed.

(** A call made between two histories. *)
Definition happened (h h' : list occurrence) (o : occurrence) : Prop :=
  ∃ l1 l2, h' = h ++ l1 ++ o :: l2.

Lemma happened_widen h0 h h' h1 o :
  h0 `prefix_of` h → happened h h' o → h' `prefix_of` h1 → happened h0 h1 o.
Proof.
  intros [k ->] (l1 & l2 & ->) [k' ->]. exists (k ++ l1), (l2 ++ k'). by rewrite <- !app_assoc.
Qed.

Lemma happened_snoc h o : happened h (h ++ [o]) o.
Proof. by exists [], []. Qed.

(** The manifest is the signed one, the plan was computed again on the staged
    repositories, and the payloads are those of the manifest. *)
Definition cleared (confirmed : PlannedUpdate) (manifest : ReleaseManifest)
    (r : OperationStateRecord) (h h' : list occurrence) : Prop :=
  (∃ l channel v f,
     happened h h' (Did (FetchVerifiedManifest (State.source r) l channel) (Ok v) f)
     ∧ verified_manifest v = manifest)
  ∧ (∃ facts solver, revalidate_release_plan facts solver manifest (planned_plan confirmed)
       (State.plan_sha256 r) = Ok ())
  ∧ ∃ listing f,
      happened h h'
        (Did (ListPackages (packages_dir (prepared_context (join root (operation_id r))))) listing f)
      ∧ verify_payloads digest manifest (plan_installed_packages (planned_plan confirmed))
          listing.1 listing.2 = Ok ().

Lemma attempt_Ok {A E E'} (f : E → E') (e : effect (result E A)) w a w' :
  attempt oracle f e w = (Ok a, w') →
  history w' = history w ++ [Did e (Ok a) (nodes (disk w))] ∧ current w' = current w.
Proof.
  unfold attempt, perform, mbind, st_bind, st_lift.
  destruct (oracle _ _ _ e) as [r|e']; [|done]. by intros [= <- <-].
Qed.

Lemma check_staged_Ok confirmed manifest w v w' :
  check_staged oracle confirmed manifest w = (Ok v, w') →
  current w' = current w
  ∧ ∃ l channel f,
      happened (history w) (history w')
        (Did (FetchVerifiedManifest (State.source (current w)) l channel) (Ok v) f)
      ∧ verified_manifest v = manifest.
Proof.
  unfold check_staged. intros H. apply st_bind_Ok in H as (r & w1 & H1 & H). injection H1 as <- <-.
  destruct (_ || _); [done|].
  apply st_bind_Ok in H as ([] & w2 & H2 & H). unfold st_lift in H2. injection H2 as _ <-.
  apply st_bind_Ok in H as (l & w3 & H3 & H). apply attempt_Ok in H3 as (Hh3 & Hc3).
  apply st_bind_Ok in H as (channel & w4 & H4 & H). apply attempt_Ok in H4 as (Hh4 & Hc4).
  apply st_bind_Ok in H as (v' & w5 & H5 & H). apply attempt_Ok in H5 as (Hh5 & Hc5).
  destruct (verified_manifest v' !=? manifest) eqn:E; [done|]. injection H as <- <-.
  split; [congruence|]. exists l, channel. eexists.
  split; [apply (happened_widen _ (history w4) (history w5)); [|rewrite Hh5; apply happened_snoc|done]|].
  { rewrite Hh4, Hh3, <- app_assoc. by apply prefix_app_r. }
  by rewrite negb_false_iff, eqb_true in E.
Qed.

Lemma staged_transaction_Ok context manifest confirmed mode w w' :
  staged_transaction oracle context manifest confirmed mode w = (Ok (), w') →
  ∃ facts solver, revalidate_release_plan facts solver manifest (planned_plan confirmed)
    (State.plan_sha256 (current w)) = Ok ().
Proof.
  unfold staged_transaction. intros H. apply st_bind_Ok in H as (arguments & w1 & H1 & H).
  unfold staged_arguments in H1. apply st_bind_Ok in H1 as (owned & w0 & H0 & H1).
  unfold st_lift in H0. injection H0 as _ <-. injection H1 as _ <-.
  apply st_bind_Ok in H as (output & w2 & H2 & H). apply run_required_current in H2.
  apply st_bind_Ok in H as (r & w3 & H3 & H). injection H3 as <- <-. rewrite H2 in H.
  apply st_bind_Ok in H as ([] & w4 & H & _). unfold revalidate_staged_solver in H.
  apply st_bind_Ok in H as (facts & ? & _ & H). apply st_bind_Ok in H as (installed & ? & _ & H).
  cbv zeta in H. apply st_bind_Ok in H as (solver & ? & _ & H).
  apply st_bind_Ok in H as (solver' & ? & _ & H). unfold st_lift in H. injection H as H _.
  apply map_err_Ok in H. eauto.
Qed.

Lemma quiet_prefix_of {A} (m : ST execution ExecutionError A) w x w' :
  quietly m → m w = (x, w') →
  history w `prefix_of` history w' ∧ rtc State.step (current w) (current w').
Proof. intros H E. specialize (H w) as [(l & Hl & _) Hr]. rewrite E in Hl, Hr. split; [|done].
  cbn in Hl. rewrite Hl. by apply prefix_app_r.
Qed.



Lemma before_link_Ok confirmed manifest w dir w' :
  before_link confirmed manifest w = (Ok dir, w') →
  dir = join root (operation_id (current w))
  ∧ cleared confirmed manifest (current w) (history w) (history w')
  ∧ stored euid root (nodes (disk w')) (current w') ∧ state (current w') = Snapshotting
  ∧ ∃ n s l, snapshot_number (current w') = Some n ∧ (0 < n)%Z
      ∧ snapshot_taken "Lyra release upgrade" n s ∧ history w' = history w ++ l ++ [s].
Proof.
  unfold before_link. intros H.
  apply st_bind_Ok in H as ([] & w1 & H1 & H).
  apply quiet_prefix_of in H1 as (P1 & S1); [|apply acquire_lock_quiet, is_transaction_run].
  apply st_bind_Ok in H as (v & w2 & H2 & H). pose proof H2 as Hv.
  apply quiet_prefix_of in H2 as (P2 & S2); [|apply quiet_check].
  apply st_bind_Ok in H as (r & w3 & H3 & H). injection H3 as <- <-. cbv zeta in H.
  apply st_bind_Ok in H as ([] & w4 & H4 & H).
  apply quiet_prefix_of in H4 as (P4 & S4); [|apply prepare_staging_quiet].
  apply st_bind_Ok in H as ([] & w5 & H5 & H).
  apply quiet_prefix_of in H5 as (P5 & S5); [|by apply quiet_transaction].
  apply st_bind_Ok in H as ([] & w6 & H6 & H). pose proof H6 as Hd.
  apply quiet_prefix_of in H6 as (P6 & S6); [|by apply quiet_transaction].
  apply st_bind_Ok in H as (listing & w7 & H7 & H). unfold perform in H7. injection H7 as <- <-.
  apply st_bind_Ok in H as ([] & w8 & H8 & H). unfold st_lift in H8. injection H8 as Hp <-.
  apply map_err_Ok in Hp.
  apply st_bind_Ok in H as ([] & w9 & H9 & H). apply attempt_Ok in H9 as (Hh9 & Hc9).
  apply st_bind_Ok in H as ([] & w10 & H10 & H). injection H as <- <-.
  apply snapshot_phase_Ok in H10 as (n & s & l & Hn & Hpos & Hs & Hh & Hst & Hsn).
  cbn in Hh9, Hc9.
  apply check_staged_Ok in Hv as (Hc2 & last & channel & f & Hin & Hm).
  apply staged_transaction_Ok in Hd as (facts & solver & Hrev).
  assert (rtc State.step (current w) (current w5)) as Sw
    by (etransitivity; [exact S1|]; etransitivity; [exact S2|]; by etransitivity).
  apply steps_identity in Sw as (_ & Eplan & _). rewrite Eplan in Hrev.
  apply steps_identity in S1 as (E1 & _ & E3).
  assert (history w `prefix_of` history w1 ∧ history w `prefix_of` history w6) as [P01 P06].
  { split; [exact P1|]. etransitivity; [exact P1|]. etransitivity; [exact P2|].
    etransitivity; [exact P4|]. by etransitivity. }
  assert (history w9 `prefix_of` history w10) as P910 by (rewrite Hh; by apply prefix_app_r).
  assert (history w6 `prefix_of` history w9) as P69
    by (rewrite Hh9, <- app_assoc; by apply prefix_app_r).
  split; [by rewrite Hc2, E1|]. split; [split; [|split; [by exists facts, solver|]]|].
  - exists last, channel, v, f. rewrite <- E3. split; [|done].
    eapply happened_widen; [exact P01|exact Hin|]. etransitivity; [exact P4|].
    etransitivity; [exact P5|]. etransitivity; [exact P6|]. by etransitivity.
  - rewrite <- E1, <- Hc2. eexists _, _. split; [|exact Hp].
    eapply happened_widen; [exact P06|apply happened_snoc|].
    etransitivity; [|exact P910]. rewrite Hh9. by apply prefix_app_r.
  - split; [done|]. split; [done|].
    assert (history w `prefix_of` history w9) as [k Hk] by (by transitivity (history w6)).
    exists n, s, (k ++ l). split; [done|]. split; [done|]. split; [done|].
    by rewrite Hh, Hk, <- !app_assoc.
Qed.


End staging.

(* ------------------------------------------------------------------ *)
(** ** A complete staging *)

Definition sample_staging : result ExecutionError ExecutionOutcome * execution :=
  stage_release_upgrade upgrade_oracle 0 18 no_fault 100 (λ n, Z.of_nat n) sample_fresh sample_root
    upgrade_planned upgrade_manifest upgrade_start.

Lemma sample_staging_eq : sample_staging = (Ok {| outcome_reboot_required := true;
  package_manager_restart := false |}, sample_staging.2).
Proof. apply pair_with_fst. vm_compute. reflexivity. Qed.

Lemma sample_root_elsewhere : ¬ SYSTEM_UPDATE `suffix_of` sample_root.
Proof. intros [k E%(f_equal last)]. unfold SYSTEM_UPDATE in E. by rewrite last_snoc in E. Qed.

