(* ===== verification/Request.v ===== *)
(** * Ownership of the offline request (src/offline/src/request.rs)

    Whose boot it is: the link that arms the offline target may belong to another
    updater, and only a link to a directory directly below the state root makes
    the offline program act. *)

From S2P Require Import Prelude RustStr Fs.

Open Scope bool_scope.
Open Scope lyra_scope.

(** The messages of the code, with the error they print. *)
Inductive RequestError : Set :=
  | CannotReadMarker (e : IoError)
  | NoParent
  | NotOneOperation
  | RootUnresolved (e : IoError)
  | OperationUnresolved (e : IoError)
  | ResolvesOutside
  | NotADirectory
  | NoLongerOurs
  | CannotRemoveMarker (e : IoError).

(** [Path::components] of a text, outermost first, without the root and [.]. *)
Definition components (text : string) : list string :=
  List.filter (λ c, negb (is_empty c) && (c !=? ".")) (split "/" text).

(** The loop that resolves [..] without looking at the disk. *)
Definition normalize (cs : list string) : path :=
  fold_left (λ p c, if c ==? ".." then tail p else c :: p) cs [].

Definition list_starts_with (l p : list string) : bool := bool_decide (p `prefix_of` l).

(** [fs::canonicalize], with the limit of the system on links. *)
Fixpoint canonical (links : nat) (ns : gmap path node) : path → list string → result IoError path :=
  fix go (base : path) (todo : list string) {struct todo} : result IoError path :=
    match todo with
    | [] => Ok base
    | name :: todo' =>
        if name ==? ".." then go (tail base) todo'
        else
          match ns !! (name :: base) with
          | None => Err NotFound
          | Some (Symlink t) =>
              match links with
              | O => Err (OtherError 40)
              | S links' =>
                  canonical links' ns (if starts_with "/" t then [] else base) (components t ++ todo')
              end
          | Some (Dir _ _) => go (name :: base) todo'
          | Some (File _ _ _) =>
              match todo' with [] => Ok (name :: base) | _ => Err (OtherError 20) end
          end
    end.
Definition MAX_LINKS : nat := 40.

Section request.
Context (fault : nat → option (IoError * nat)).
#[local] Abbreviation M := (ST world RequestError).

Definition canonicalize (p : path) : ST world IoError path :=
  syscall fault (λ ns, (canonical MAX_LINKS ns [] (reverse p), ns)).

(** [fs::read], which follows links. *)
Definition read_file (p : path) : ST world IoError string :=
  syscall fault (λ ns,
    match canonical MAX_LINKS ns [] (reverse p) with
    | Err e => (Err e, ns)
    | Ok q =>
        match ns !! q with
        | Some (File _ _ c) => (Ok c, ns)
        | Some _ => (Err (OtherError 21), ns)
        | None => (Err NotFound, ns)
        end
    end).

(** [Path::is_dir]: an error is [false]. *)
Definition is_directory (p : path) : M bool :=
  n ← st_try (E':=RequestError) (symlink_metadata fault p);
  mret (match n with Ok (Dir _ _) => true | _ => false end).

Definition resolve (marker root : path) : M (option path) :=
  target ← st_try (E':=RequestError) (read_link fault marker);
  match target with
  | Err NotFound => mret None
  | Err e => st_throw (CannotReadMarker e)
  | Ok target =>
      absolute ← (if starts_with "/" target then mret (components target)
                  else match parent marker with
                       | None => st_throw NoParent
                       | Some p => mret (reverse p ++ components target)
                       end);
      let normalized := normalize absolute in
      if negb (list_starts_with absolute (reverse root))
         && negb (list_starts_with (reverse normalized) (reverse root))
      then mret None
      else
        match normalized with
        | [] => st_throw NotOneOperation
        | name :: above =>
            if negb (bool_decide (above = root)) then st_throw NotOneOperation
            else
              canonical_root ← st_map_err RootUnresolved (canonicalize root);
              directory ← st_map_err OperationUnresolved (canonicalize normalized);
              if negb (bool_decide (parent directory = Some canonical_root))
                 || negb (bool_decide (directory = join canonical_root name))
              then st_throw ResolvesOutside
              else
                found ← is_directory directory;
                if (found : bool) then mret (Some directory) else st_throw NotADirectory
        end
  end.

Definition require_current (marker root operation : path) : M unit :=
  current ← resolve marker root;
  if bool_decide (current = Some operation) then mret () else st_throw NoLongerOurs.

Definition remove_current (marker root operation : path) : M unit :=
  _ ← require_current marker root operation;
  st_map_err CannotRemoveMarker (remove_file fault marker).

(* ------------------------------------------------------------------ *)
(** ** Ownership *)

Lemma canonicalize_touches P p : st_rel (touches P) (canonicalize p).
Proof. apply syscall_touches. by intros. Qed.

Lemma read_file_touches P p : st_rel (touches P) (read_file p).
Proof. apply syscall_touches. intros. by repeat case_match. Qed.

Lemma resolve_touches P marker root : st_rel (touches P) (resolve marker root).
Proof.
  unfold resolve. apply st_rel_bind; [apply _|apply st_rel_try, read_link_touches|intros target].
  destruct target as [target|[]]; auto with frames.
  apply st_rel_bind; [apply _| |intros absolute].
  { destruct (starts_with _ _); [auto with frames|]. destruct (parent marker); auto with frames. }
  cbv zeta. destruct (_ && _); [auto with frames|].
  destruct (normalize absolute) as [|name above]; [auto with frames|].
  destruct (negb _); [auto with frames|].
  apply st_rel_bind; [apply _|apply st_rel_map_err, canonicalize_touches|intros r].
  apply st_rel_bind; [apply _|apply st_rel_map_err, canonicalize_touches|intros d].
  destruct (_ || _); [auto with frames|].
  apply st_rel_bind; [apply _| |intros []; auto with frames].
  apply st_rel_bind; [apply _|apply st_rel_try, symlink_metadata_touches|intros n].
  auto with frames.
Qed.

Lemma resolve_nodes marker root w : nodes (resolve marker root w).2 = nodes w.
Proof.
  apply map_eq. intros q. apply (resolve_touches (λ _, False)). tauto.
Qed.

End request.

(** The target of the link, absolute. *)
Definition absolute_target (above : path) (t : string) : list string :=
  if starts_with "/" t then components t else reverse above ++ components t.

(** The link at [above/marker] names one operation below the state root, and the
    directory of that name is what it resolves to. *)
Definition owns (ns : gmap path node) (marker root operation : path) : Prop :=
  ∃ t above name canonical_root u m,
    ns !! marker = Some (Symlink t)
    ∧ parent marker = Some above
    ∧ normalize (absolute_target above t) = name :: root
    ∧ canonical MAX_LINKS ns [] (reverse root) = Ok canonical_root
    ∧ canonical MAX_LINKS ns [] (reverse (name :: root)) = Ok operation
    ∧ operation = name :: canonical_root
    ∧ ns !! operation = Some (Dir u m).

Lemma canonicalize_Ok fault p w d w' :
  canonicalize fault p w = (Ok d, w') →
  canonical MAX_LINKS (nodes w) [] (reverse p) = Ok d ∧ nodes w' = nodes w.
Proof. intros (_ & H & _)%syscall_Ok. by injection H. Qed.

Lemma read_link_Ok fault p w t w' :
  read_link fault p w = (Ok t, w') → nodes w !! p = Some (Symlink t) ∧ nodes w' = nodes w.
Proof.
  intros (_ & H & _)%syscall_Ok. destruct (nodes w !! p) as [[]|]; [done..| |done].
  by injection H as -> ->.
Qed.

Lemma is_directory_true fault p w w' :
  is_directory fault p w = (Ok true, w') → ∃ u m, nodes w !! p = Some (Dir u m).
Proof.
  unfold is_directory. intros H. apply st_bind_try in H as (r & w1 & H1 & H).
  injection H as H _. destruct r as [[]|]; try done. apply symlink_metadata_Ok in H1 as [H1 _]. eauto.
Qed.

(** Whatever fails, only a request of this program is acted upon. *)
Lemma resolve_owned fault marker root w operation w' :
  parent marker ≠ None →
  resolve fault marker root w = (Ok (Some operation), w') →
  owns (nodes w) marker root operation.
Proof.
  intros Hm H. unfold resolve in H. apply st_bind_try in H as (r & w1 & H1 & H).
  destruct r as [t|[]]; [|done..]. apply read_link_Ok in H1 as [Ht N1].
  destruct (parent marker) as [above|] eqn:Ea; [|done].
  apply st_bind_Ok in H as (absolute & w2 & H2 & H).
  assert (absolute = absolute_target above t ∧ w2 = w1) as [-> ->].
  { unfold absolute_target. destruct (starts_with _ _); by injection H2. }
  destruct (_ && _); [done|]. destruct (normalize _) as [|name p] eqn:En; [done|].
  destruct (negb _) eqn:Er; [done|]. apply negb_false_iff, bool_decide_eq_true in Er as ->.
  apply st_bind_Ok in H as (croot & w3 & H3 & H). apply st_map_err_Ok, canonicalize_Ok in H3 as [Hr N3].
  apply st_bind_Ok in H as (d & w4 & H4 & H). apply st_map_err_Ok, canonicalize_Ok in H4 as [Hd N4].
  destruct (_ || _) eqn:Eo; [done|].
  apply orb_false_iff in Eo as [_ Eo%negb_false_iff%bool_decide_eq_true].
  apply st_bind_Ok in H as ([] & w5 & H5 & H); [|done]. injection H as <- _.
  apply is_directory_true in H5 as (u & m & Hdir).
  rewrite N4, N3, N1 in Hdir. rewrite N3, N1 in Hd. rewrite N1 in Hr.
  by exists t, above, name, croot, u, m.
Qed.

(** With a healthy file system the calls answer what is there. *)
Lemma read_link_eq p w t :
  nodes w !! p = Some (Symlink t) →
  ∃ w', read_link no_fault p w = (Ok t, w') ∧ nodes w' = nodes w.
Proof. intros H. unfold read_link, syscall. cbn. rewrite H. eauto. Qed.

Lemma canonicalize_eq p w d :
  canonical MAX_LINKS (nodes w) [] (reverse p) = Ok d →
  ∃ w', canonicalize no_fault p w = (Ok d, w') ∧ nodes w' = nodes w.
Proof. intros H. eexists. unfold canonicalize, syscall, no_fault. by rewrite H. Qed.

Lemma is_directory_eq p w u m :
  nodes w !! p = Some (Dir u m) → ∃ w', is_directory no_fault p w = (Ok true, w').
Proof.
  intros H. unfold is_directory, mbind, st_bind, st_try, symlink_metadata, syscall. cbn.
  rewrite H. cbn. eauto.
Qed.

Lemma resolve_complete marker root w operation :
  owns (nodes w) marker root operation →
  ∃ w', resolve no_fault marker root w = (Ok (Some operation), w').
Proof.
  intros (t & above & name & croot & u & m & Ht & Ha & Hn & Hr & Hd & Ho & Hdir).
  apply read_link_eq in Ht as (w1 & H1 & N1).
  unfold resolve. rewrite (st_bind_eq _ _ _ (Ok t) w1) by by apply st_try_eq.
  rewrite (st_bind_eq _ _ _ (absolute_target above t) w1).
  2: { rewrite Ha. unfold absolute_target. by destruct (starts_with _ _). }
  cbv zeta. rewrite Hn.
  assert (list_starts_with (reverse (name :: root)) (reverse root) = true) as ->.
  { apply bool_decide_eq_true. rewrite reverse_cons. by apply prefix_app_r. }
  rewrite andb_false_r, bool_decide_true by done. cbn [negb].
  rewrite <- N1 in Hr. apply canonicalize_eq in Hr as (w2 & H2 & N2).
  rewrite (st_bind_eq _ _ _ croot w2) by by apply st_map_err_Ok.
  rewrite <- N1, <- N2 in Hd. apply canonicalize_eq in Hd as (w3 & H3 & N3).
  rewrite (st_bind_eq _ _ _ operation w3) by by apply st_map_err_Ok.
  rewrite !bool_decide_true by by rewrite Ho. cbn [negb orb].
  rewrite <- N1, <- N2, <- N3 in Hdir. apply is_directory_eq in Hdir as (w4 & H4).
  rewrite (st_bind_eq _ _ _ true w4) by done. by exists w4.
Qed.

(** C39 The offline program acts exactly on its own requests: with a healthy file
    system, the link is accepted for an operation if and only if its target names
    one entry directly below the state root, without leaving it by links, and that
    entry is a directory; the answer is the resolved directory. *)
Theorem request_ownership marker root w operation :
  parent marker ≠ None →
  (resolve no_fault marker root w).1 = Ok (Some operation) ↔ owns (nodes w) marker root operation.
Proof.
  intros Hm. split.
  - intros H%pair_with_fst. by eapply resolve_owned.
  - intros H%resolve_complete. destruct H as [w' ->]. done.
Qed.

(** A successful removal took away the request that was ours, and nothing else. *)
Lemma remove_current_Ok fault marker root operation w w' :
  parent marker ≠ None →
  remove_current fault marker root operation w = (Ok (), w') →
  owns (nodes w) marker root operation ∧ nodes w' = delete marker (nodes w).
Proof.
  intros Hm H. unfold remove_current, require_current in H.
  apply st_bind_Ok in H as ([] & w1 & H1 & H). apply st_bind_Ok in H1 as (c & w2 & H2 & H1).
  pose proof (resolve_nodes fault marker root w) as N. rewrite H2 in N. cbn in N.
  destruct (bool_decide _) eqn:E; [|done]. injection H1 as <-. apply bool_decide_eq_true in E as ->.
  apply resolve_owned in H2; [|done]. split; [done|].
  apply st_map_err_Ok in H. apply syscall_Ok in H as (_ & H & _). rewrite N in H.
  destruct (nodes w !! marker) as [n|]; [|done]. destruct (is_dir n); [done|]. by injection H.
Qed.

Lemma require_current_Ok fault marker root operation w w' :
  parent marker ≠ None →
  require_current fault marker root operation w = (Ok (), w') →
  owns (nodes w) marker root operation ∧ nodes w' = nodes w.
Proof.
  intros Hm H. unfold require_current in H. apply st_bind_Ok in H as (c & w2 & H2 & H).
  pose proof (resolve_nodes fault marker root w) as N. rewrite H2 in N. cbn in N.
  destruct (bool_decide _) eqn:E; [|done]. injection H as <-. apply bool_decide_eq_true in E as ->.
  by apply resolve_owned in H2.
Qed.

(* ------------------------------------------------------------------ *)
(** ** Requests *)

Definition request_root : path := ["operations"; "lyra-upgrade"; "lib"; "var"].
Definition request_marker : path := ["system-update"].
Definition request_disk (target : string) : world := {|
  nodes := list_to_map
    [([], Dir 0 493); (["var"], Dir 0 493); (["lib"; "var"], Dir 0 493);
     (["lyra-upgrade"; "lib"; "var"], Dir 0 448); (request_root, Dir 0 448);
     ("job" :: request_root, Dir 0 448);
     ("alias" :: request_root, Symlink "/var/lib/lyra-upgrade/operations/job");
     (request_marker, Symlink target)];
  calls := 0 |}.

(** The requests of the tests of the code. *)
Example requests :
  map (λ target, (resolve no_fault request_marker request_root (request_disk target)).1)
    ["/var/lib/lyra-upgrade/operations/job"; "var/lib/lyra-upgrade/operations/job";
     "/var/lib/PackageKit"; "/var/lib/lyra-upgrade/operations-other/job";
     "/var/lib/lyra-upgrade/operations"; "/var/lib/lyra-upgrade/operations/nested/job";
     "/var/lib/lyra-upgrade/operations/missing"; "/var/lib/lyra-upgrade/operations/../PackageKit";
     "/var/lib/lyra-upgrade/operations/alias"]
  = [Ok (Some ("job" :: request_root)); Ok (Some ("job" :: request_root)); Ok None; Ok None;
     Err NotOneOperation; Err NotOneOperation; Err (OperationUnresolved NotFound);
     Err NotOneOperation; Err ResolvesOutside].
Proof. vm_compute. reflexivity. Qed.

Lemma request_ownership_witness :
  owns (nodes (request_disk "/var/lib/lyra-upgrade/operations/job")) request_marker request_root
    ("job" :: request_root).
Proof.
  apply request_ownership; [discriminate|]. vm_compute. reflexivity.
Defined.
