(* ===== verification/Offline.v ===== *)
(** * The offline program (src/offline/src/main.rs)

    What runs in the offline target: the checks of the staged operation, the
    package transaction, and how the program leaves the machine when it succeeds
    or fails. Requests are those of Request.v, files those of Fs.v, every other
    call is an effect of System.v. *)

From S2P Require Import Prelude RustStr State Fs Persistence Preflight Solver Plan.
From S2P Require Import ManifestData Migration Discovery Inventory SolverXml Vendors Protocol.
From S2P Require Import System Planner Executor OnlineUpdate Staging Request Fixture.

Open Scope bool_scope.
Open Scope lyra_scope.

(** The messages of the code; the ones it formats keep the error they print. *)
Inductive OfflineError : Set :=
  | Message (text : string)
  | Request (e : RequestError)
  | Io (e : IoError)
  | MigrationPolicy (e : MigrationError)
  | ConfirmedPolicy (e : PlannerError)
  | OfflineDiscovery (e : DiscoverError)
  | OfflineInventory (e : VendorMetadataError)
  | OfflineVendors (e : VendorMetadataError)
  | PlanBlocked (e : PlannerError)
  | PayloadAuthentication (text : string)
  | CommandFailed (program : string) (err : string)
  | InventoryRejected (e : InventoryError)
  | CleanupFailed (e cleanup : OfflineError)
  | RebootFailed (original e : OfflineError).

Definition STATE_ROOT : path := ["operations"; "lyra-upgrade"; "lib"; "var"].

Section offline.
Context `{HL : !Libraries} (oracle : Oracle).
Context (euid umask : Z) (fault : nat → option (IoError * nat)).
Context (pid : Z) (nonce : nat → Z) (fresh : nat → string).
#[local] Abbreviation M := (ST execution OfflineError).

Definition io {A} (m : ST world IoError A) : M A := on_disk (st_map_err Io m).
Definition require_current_op (operation_dir : path) : M unit :=
  on_disk (st_map_err Request (require_current fault SYSTEM_UPDATE STATE_ROOT operation_dir)).
Definition remove_current_op (operation_dir : path) : M unit :=
  on_disk (st_map_err Request (remove_current fault SYSTEM_UPDATE STATE_ROOT operation_dir)).

Definition save_record (message : string) (r : OperationStateRecord) : M unit :=
  on_disk (st_map_err (λ _, Message message)
    (λ w, save_state euid umask fault pid (nonce (calls w)) record_json STATE_ROOT r w)).
Definition load_record (id : string) : ST world PersistenceError OperationStateRecord :=
  load_state fault record_parse STATE_ROOT id.

(** The size is that of the text read. *)
Definition read_json {A} (parse : string → option A) (p : path) : M A :=
  n ← io (symlink_metadata fault p);
  if is_symlink n then st_throw (Message "refusing symbolic-link state")
  else
    text ← io (read_file fault p);
    if (4 * 1024 * 1024 <? str_len text)%Z then st_throw (Message "state file is too large")
    else st_lift (ok_or (Message "JSON") (parse text)).

Definition command (program : string) (arguments : list string) : M Output :=
  perform oracle (Run program arguments).
Definition require_ok (program : string) (output : Output) : M unit :=
  if success output then mret ()
  else st_throw (CommandFailed program (from_utf8_lossy (stderr output))).

Definition release_command (operation_dir : path) (arguments : list string) : M Output :=
  attempt oracle Io (Zypper (prepared_context operation_dir)
    (["--xmlout"; "--non-interactive"; "--no-refresh"] ++ arguments)).

Definition prepare_offline_state (r : OperationStateRecord)
  : result OfflineError OperationStateRecord :=
  if (state r !=? ReadyToReboot) || is_none (snapshot_number r)
  then Err (Message "operation is not ready for offline application")
  else map_err (λ _, Message "invalid offline transition") (transition_to r ApplyingOffline).

Definition revalidate_plan (operation_dir : path) (manifest : ReleaseManifest)
    (confirmed : UpgradePlan) (expected_hash : string) : M unit :=
  _ ← st_lift (map_err ConfirmedPolicy
        (check_confirmed_release_plan manifest confirmed expected_hash));
  arguments ← st_lift (map_err MigrationPolicy
    (transaction_arguments manifest (plan_installed_packages confirmed) Mode_Plan));
  dry_run ← release_command operation_dir arguments;
  if negb (success dry_run) then st_throw (Message "offline dry-run failed")
  else
    let context := prepared_context operation_dir in
    facts ← discover oracle OfflineDiscovery context;
    installed ← installed_packages_at oracle OfflineInventory None;
    let facts := with_installed facts installed in
    solver ← st_lift (map_err (λ _, Message "cannot parse offline solver result")
      (parse_solver_xml xml_events (from_utf8_lossy (stdout dry_run)) (manifest_aliases manifest) 0));
    solver ← enrich_solver_vendors_at oracle OfflineVendors solver (raw context) None;
    st_lift (map_err PlanBlocked
      (revalidate_release_plan facts solver manifest confirmed expected_hash)).

(* ------------------------------------------------------------------ *)
(** ** The new repositories *)

(** [Path::exists]: links are followed, an error is [false]. *)
Definition exists_at (p : path) : M bool :=
  r ← on_disk (st_try (E':=OfflineError) (canonicalize fault p));
  mret (is_ok r).

(** Renaming a directory takes what is below it along. *)
Definition relocate (p q x : path) : path :=
  if bool_decide (p `suffix_of` x) then take (length x - length p) x ++ q else x.
Definition move_tree (p q : path) (ns : gmap path node) : gmap path node :=
  list_to_map (map (λ '(x, n), (relocate p q x, n)) (map_to_list ns)).
Definition rename_directory (p q : path) : ST world IoError unit :=
  syscall fault (λ ns,
    match ns !! p with
    | None => (Err NotFound, ns)
    | Some _ =>
        if is_some (ns !! q) then (Err (OtherError 39), ns)
        else if negb (in_dir ns q) then (Err NotFound, ns)
        else (Ok (), move_tree p q ns)
    end).

Definition live_repository (repository : RepositoryTransition) (key_path : path) : string :=
  let line k v := k +:+ "=" +:+ v +:+ String nl "" in
  "[" +:+ repo_alias repository +:+ "]" +:+ String nl ""
  +:+ line "name" (repo_alias repository) +:+ line "enabled" "1" +:+ line "autorefresh" "1"
  +:+ line "keeppackages" "0" +:+ line "baseurl" (base_url repository)
  +:+ line "gpgkey" ("file://" +:+ display key_path) +:+ line "type" "rpm-md"
  +:+ line "gpgcheck" "1" +:+ line "priority" (to_string (priority repository)).

Fixpoint write_repositories (staging keys : path) (rs : list RepositoryTransition) : M unit :=
  match rs with
  | [] => mret ()
  | repository :: rs' =>
      let key_path := join keys (repo_alias repository +:+ ".asc") in
      let p := join staging (repo_alias repository +:+ ".repo") in
      _ ← io (create_new euid umask fault p 420);
      _ ← io (write_all fault p (live_repository repository key_path));
      write_repositories staging keys rs'
  end.

Definition ZYPP : path := ["zypp"; "etc"].

Definition install_repository_set (manifest : ReleaseManifest) (operation_id : string) : M unit :=
  let live := join ZYPP "repos.d" in
  let staging := join ZYPP ("repos.d.lyra-new-" +:+ operation_id) in
  let backup := join ZYPP ("repos.d.lyra-backup-" +:+ operation_id) in
  present ← exists_at staging;
  taken ← (if (present : bool) then mret true else exists_at backup);
  if (taken : bool) then st_throw (Message "repository staging or backup already exists")
  else
    _ ← io (create_dir euid umask fault staging);
    _ ← io (set_permissions fault staging 493);
    _ ← write_repositories staging (join (join STATE_ROOT operation_id) "keys")
          (man_repositories manifest);
    _ ← io (rename_directory live backup);
    moved ← on_disk (st_try (E':=OfflineError) (rename_directory staging live));
    match moved with
    | Ok _ => mret ()
    | Err e =>
        _ ← on_disk (st_try (E':=OfflineError) (rename_directory backup live));
        st_throw (Io e)
    end.

(* ------------------------------------------------------------------ *)
(** ** The transaction *)

(** The staged manifest and plan are those of the record, and the manifest is
    still authentic. *)
Definition authenticate (operation_dir : path) (r : OperationStateRecord)
  : M (ReleaseManifest * UpgradePlan) :=
  manifest ← read_json manifest_parse (join operation_dir "manifest.json");
  confirmed ← read_json plan_parse (join operation_dir "plan.json");
  if (State.operation r !=? ManifestData.operation manifest)
     || (State.target r !=? Some (man_target manifest))
  then st_throw (Message "persisted plan hash mismatch")
  else
    hash ← st_lift (map_err (λ _, Message "cannot hash plan") (plan_sha256 confirmed));
    if hash !=? State.plan_sha256 r then st_throw (Message "persisted plan hash mismatch")
    else
      text ← st_lift (map_err (λ _, Message "cannot hash manifest") (manifest_json manifest));
      if State.manifest_sha256 r !=? Some (digest text)
      then st_throw (Message "persisted manifest hash mismatch")
      else
        last ← attempt oracle (λ _, Message "invalid manifest replay record")
                 ReadLastManifestSequence;
        channel ← attempt oracle (λ _, Message "invalid release channel") ReadReleaseChannel;
        verified ← attempt oracle (λ _, Message "offline manifest authentication failed")
          (VerifyManifestFiles operation_dir (State.source r) last channel);
        if verified_manifest verified !=? manifest
        then st_throw (Message "signed manifest differs from staged plan")
        else mret (manifest, confirmed).

(** What is checked after the record is in [ApplyingOffline]. *)
Definition check_payloads (operation_dir : path) (manifest : ReleaseManifest)
    (confirmed : UpgradePlan) : M unit :=
  listing ← perform oracle (ListPackages (packages_dir (prepared_context operation_dir)));
  st_lift (map_err PayloadAuthentication
    (verify_payloads digest manifest (plan_installed_packages confirmed) listing.1 listing.2)).

Definition apply_transaction (operation_dir : path) (manifest : ReleaseManifest)
    (confirmed : UpgradePlan) : M unit :=
  arguments ← st_lift (map_err MigrationPolicy
    (transaction_arguments manifest (plan_installed_packages confirmed) Mode_Apply));
  output ← release_command operation_dir arguments;
  if (System.status output ==? Some 0%Z) || (System.status output ==? Some 102%Z) then mret ()
  else st_throw (CommandFailed "zypper transaction" (from_utf8_lossy (stderr output))).

Definition rebuild_boot_files : M unit :=
  dracut ← command "dracut" ["--regenerate-all"; "--force"];
  _ ← require_ok "dracut" dracut;
  grub ← command "grub2-mkconfig" ["-o"; "/boot/grub2/grub.cfg"];
  require_ok "grub2-mkconfig" grub.

Definition check_inventory (operation_dir : path) (confirmed : UpgradePlan) : M unit :=
  report ← attempt oracle Io CaptureInventory;
  _ ← st_lift (map_err InventoryRejected (verify_result confirmed report));
  io (save_inventory euid umask fault fresh operation_dir "inventory-after.json" report).

(** The rest, once the packages are installed. *)
Definition after_transaction (operation_dir : path) (id : string) (r : OperationStateRecord)
    (manifest : ReleaseManifest) (confirmed : UpgradePlan) : M unit :=
  _ ← (if is_none (package_migration manifest) then install_repository_set manifest id
       else mret ());
  let touches_boot := list_any touches_boot_package (package_changes confirmed) in
  _ ← (if is_none (package_migration manifest) || touches_boot then rebuild_boot_files
       else mret ());
  _ ← (if is_some (package_migration manifest) then check_inventory operation_dir confirmed
       else mret ());
  r ← st_lift (map_err (λ _, Message "invalid post-apply transition")
        (transition_to r AwaitingReboot));
  let r := set_last_completed_step r (Some "offline-apply") in
  _ ← save_record "cannot persist result" r;
  remove_current_op operation_dir.

Definition run (operation_dir : path) : M unit :=
  _ ← require_current_op operation_dir;
  match operation_dir with
  | [] => st_throw (Message "invalid operation id")
  | id :: _ =>
      r ← on_disk (st_map_err (λ _, Message "cannot load operation state") (load_record id));
      r ← st_lift (prepare_offline_state r);
      '(manifest, confirmed) ← authenticate operation_dir r;
      _ ← save_record "cannot persist offline state" r;
      _ ← revalidate_plan operation_dir manifest confirmed (State.plan_sha256 r);
      _ ← check_payloads operation_dir manifest confirmed;
      _ ← apply_transaction operation_dir manifest confirmed;
      after_transaction operation_dir id r manifest confirmed
  end.

(* ------------------------------------------------------------------ *)
(** ** The end of the run *)

Definition recovered (r : OperationStateRecord) : OperationStateRecord :=
  let r := set_state r NeedsRecovery in
  let r := set_error_code r (Some "OFFLINE_APPLY_FAILED") in
  set_sequence r (saturating_add (sequence r) 1).

Definition mark_recovery (operation_dir : path) : M unit :=
  _ ← require_current_op operation_dir;
  match operation_dir with
  | [] => st_throw (Message "invalid operation id during recovery")
  | id :: _ =>
      loaded ← on_disk (st_try (E':=OfflineError) (load_record id));
      _ ← match loaded with
          | Ok r => save_record "cannot persist recovery state" (recovered r)
          | Err _ => mret ()
          end;
      remove_current_op operation_dir
  end.

Definition finish_owned_operation (result : result OfflineError unit) (recover reboot : M unit)
  : M unit :=
  _ ← match result with
      | Err error => st_map_err (CleanupFailed error) recover
      | Ok _ => mret ()
      end;
  _ ← st_map_err (λ e, match result with Ok _ => e | Err original => RebootFailed original e end)
        reboot;
  st_lift result.

Definition reboot_after_cleanup (reboot : M unit) : M unit :=
  n ← on_disk (st_try (E':=OfflineError) (symlink_metadata fault SYSTEM_UPDATE));
  match n with
  | Err NotFound => reboot
  | Ok _ => st_throw (Message "offline update marker remains; refusing to reboot")
  | Err _ => st_throw (Message "cannot check offline marker before reboot")
  end.

Definition reboot_arguments : list string := ["--no-block"; "reboot"].
Definition reboot_machine : M unit :=
  output ← command "/usr/bin/systemctl" reboot_arguments;
  require_ok "systemctl reboot" output.

(** The exit code of the program, started with or without [--reboot]. *)
Definition main (reboot : bool) : ST execution OfflineError Z :=
  owned ← on_disk (st_try (E':=OfflineError) (resolve fault SYSTEM_UPDATE STATE_ROOT));
  match owned with
  | Err _ => mret 1%Z
  | Ok None => mret 0%Z
  | Ok (Some operation_dir) =>
      lock ← st_try (E':=OfflineError) (st_map_err (λ _, Message "transaction busy")
               (acquire_lock oracle euid umask fault));
      match lock with
      | Err _ => mret 1%Z
      | Ok _ =>
          result ← st_try (E':=OfflineError) (run operation_dir);
          ending ← st_try (E':=OfflineError) (finish_owned_operation result
            (mark_recovery operation_dir)
            (if reboot then reboot_after_cleanup reboot_machine else mret ()));
          mret (match ending with Ok _ => 0%Z | Err _ => 1%Z end)
      end
  end.
End offline.

(* ------------------------------------------------------------------ *)
(** ** Steps that make no call of a kind *)

Section watched.
Context {HL : Libraries} (oracle : Oracle).
Context (euid umask : Z) (fault : nat → option (IoError * nat)).
Context (pid : Z) (nonce : nat → Z) (fresh : nat → string).
Context (P : occurrence → bool).
(** [P] watches the reboot and the package transaction. *)
Context (HP : ∀ A (e : effect A) a f,
  (match e with Run _ _ | Zypper _ _ => False | _ => True end) → P (Did e a f) = false).
Context (Hrun : ∀ program arguments a f,
  program ≠ "/usr/bin/systemctl" → P (Did (Run program arguments) a f) = false).
Context (Hdry : ∀ c arguments a f,
  "--dry-run" ∈ arguments → P (Did (Zypper c arguments) a f) = false).

#[local] Abbreviation quietly := (st_rel (quiet P)).
#[local] Hint Resolve HP Hrun : quiet.

Lemma offline_io_quiet {A} (m : ST world IoError A) : quietly (io m).
Proof. apply on_disk_quiet. Qed.
Lemma save_record_quiet message r :
  quietly (save_record euid umask fault pid nonce message r).
Proof. apply on_disk_quiet. Qed.
Lemma require_current_quiet dir : quietly (require_current_op fault dir).
Proof. apply on_disk_quiet. Qed.
Lemma remove_current_quiet dir : quietly (remove_current_op fault dir).
Proof. apply on_disk_quiet. Qed.
Lemma effect_quiet {A E} (e : effect A) :
  match e with Run _ _ | Zypper _ _ => False | _ => True end → quietly (perform (E:=E) oracle e).
Proof. intros H. apply perform_quiet. intros a f. by apply HP. Qed.
Lemma attempted_quiet {A E E'} (f : E → E') (e : effect (result E A)) :
  match e with Run _ _ | Zypper _ _ => False | _ => True end → quietly (attempt oracle f e).
Proof. intros H. apply attempt_quiet. intros a g. by apply HP. Qed.
Lemma command_quiet program arguments :
  program ≠ "/usr/bin/systemctl" → quietly (command oracle program arguments).
Proof. intros H. apply perform_quiet. intros a f. by apply Hrun. Qed.
Lemma require_ok_quiet program output : quietly (require_ok program output).
Proof. unfold require_ok. eauto with quiet. Qed.
#[local] Hint Resolve offline_io_quiet save_record_quiet require_current_quiet remove_current_quiet
  require_ok_quiet : quiet.

Lemma read_json_quiet {A} (parse : string → option A) p : quietly (read_json fault parse p).
Proof. unfold read_json. eauto 20 with quiet. Qed.
#[local] Hint Resolve read_json_quiet : quiet.

Lemma dry_run_quiet dir manifest confirmed arguments :
  transaction_arguments manifest confirmed Mode_Plan = Ok arguments →
  quietly (release_command oracle dir arguments).
Proof.
  intros H. apply attempt_quiet. intros a g. apply Hdry.
  apply transaction_arguments_mode in H. cbn in H. set_solver.
Qed.

Lemma revalidate_plan_quiet dir manifest confirmed hash :
  quietly (revalidate_plan oracle dir manifest confirmed hash).
Proof.
  unfold revalidate_plan. apply st_rel_bind; [apply _|apply st_rel_lift, _|intros _].
  intros w. unfold mbind at 1, st_bind at 1, st_lift at 1.
  destruct (transaction_arguments _ _ _) as [arguments|e] eqn:E; [|reflexivity]. cbn [map_err].
  match goal with |- quiet _ _ (?m w).2 => assert (quietly m) as H; [|apply H] end.
  apply st_rel_bind; [apply _|by eapply dry_run_quiet|intros output].
  destruct (negb _); [apply st_rel_throw, _|]. cbv zeta.
  apply st_rel_bind; [apply _|by apply discover_quiet|intros facts].
  apply st_rel_bind; [apply _|by apply installed_quiet|intros installed].
  apply st_rel_bind; [apply _|apply st_rel_lift, _|intros solver].
  apply st_rel_bind; [apply _|by apply enrich_quiet|intros solver'].
  apply st_rel_lift, _.
Qed.

Lemma authenticate_quiet dir r : quietly (authenticate oracle fault dir r).
Proof.
  unfold authenticate.
  apply st_rel_bind; [apply _|apply read_json_quiet|intros manifest].
  apply st_rel_bind; [apply _|apply read_json_quiet|intros confirmed].
  destruct (_ || _); [apply st_rel_throw, _|].
  apply st_rel_bind; [apply _|apply st_rel_lift, _|intros hash].
  destruct (_ !=? _); [apply st_rel_throw, _|].
  apply st_rel_bind; [apply _|apply st_rel_lift, _|intros text].
  destruct (_ !=? _); [apply st_rel_throw, _|].
  apply st_rel_bind; [apply _|by apply attempted_quiet|intros l].
  apply st_rel_bind; [apply _|by apply attempted_quiet|intros channel].
  apply st_rel_bind; [apply _|by apply attempted_quiet|intros v].
  destruct (_ !=? _); [apply st_rel_throw, _|apply st_rel_ret, _].
Qed.

Lemma check_payloads_quiet dir manifest confirmed :
  quietly (check_payloads oracle dir manifest confirmed).
Proof.
  apply st_rel_bind; [apply _|by apply effect_quiet|intros listing]. apply st_rel_lift, _.
Qed.

Lemma write_repositories_quiet staging keys rs :
  quietly (write_repositories euid umask fault staging keys rs).
Proof. induction rs as [|r rs IH]; cbn; eauto 20 with quiet. Qed.
#[local] Hint Resolve write_repositories_quiet : quiet.

Lemma exists_at_quiet p : quietly (exists_at fault p).
Proof. apply st_rel_bind; [apply _|apply on_disk_quiet|intros r]. apply st_rel_ret, _. Qed.
#[local] Hint Resolve exists_at_quiet : quiet.

Lemma install_repositories_quiet manifest id :
  quietly (install_repository_set euid umask fault manifest id).
Proof.
  unfold install_repository_set. cbv zeta.
  apply st_rel_bind; [apply _|apply exists_at_quiet|intros present].
  apply st_rel_bind; [apply _|destruct present; eauto with quiet|intros taken].
  destruct taken; [apply st_rel_throw, _|]. eauto 30 with quiet.
Qed.

Lemma rebuild_quiet : quietly (rebuild_boot_files oracle).
Proof.
  unfold rebuild_boot_files.
  apply st_rel_bind; [apply _|by apply command_quiet|intros o].
  apply st_rel_bind; [apply _|apply require_ok_quiet|intros _].
  apply st_rel_bind; [apply _|by apply command_quiet|intros o']. apply require_ok_quiet.
Qed.

Lemma check_inventory_quiet dir confirmed :
  quietly (check_inventory oracle euid umask fault fresh dir confirmed).
Proof.
  apply st_rel_bind; [apply _|by apply attempted_quiet|intros report].
  apply st_rel_bind; [apply _|apply st_rel_lift, _|intros _]. apply offline_io_quiet.
Qed.

Lemma after_transaction_quiet dir id r manifest confirmed :
  quietly (after_transaction oracle euid umask fault pid nonce fresh dir id r manifest confirmed).
Proof.
  unfold after_transaction. cbv zeta.
  apply st_rel_bind; [apply _| |intros _].
  { destruct (is_none _); [apply install_repositories_quiet|apply st_rel_ret, _]. }
  apply st_rel_bind; [apply _| |intros _].
  { destruct (_ || _); [apply rebuild_quiet|apply st_rel_ret, _]. }
  apply st_rel_bind; [apply _| |intros _].
  { destruct (is_some _); [apply check_inventory_quiet|apply st_rel_ret, _]. }
  apply st_rel_bind; [apply _|apply st_rel_lift, _|intros r'].
  apply st_rel_bind; [apply _|apply save_record_quiet|intros _]. apply remove_current_quiet.
Qed.

(** Everything before the package transaction. *)
Definition before_transaction_offline (operation_dir : path)
  : ST execution OfflineError (string * OperationStateRecord * ReleaseManifest * UpgradePlan) :=
  _ ← require_current_op fault operation_dir;
  match operation_dir with
  | [] => st_throw (Message "invalid operation id")
  | id :: _ =>
      r ← on_disk (st_map_err (λ _, Message "cannot load operation state") (load_record fault id));
      r ← st_lift (prepare_offline_state r);
      '(manifest, confirmed) ← authenticate oracle fault operation_dir r;
      _ ← save_record euid umask fault pid nonce "cannot persist offline state" r;
      _ ← revalidate_plan oracle operation_dir manifest confirmed (State.plan_sha256 r);
      _ ← check_payloads oracle operation_dir manifest confirmed;
      mret (id, r, manifest, confirmed)
  end.

Lemma before_offline_quiet dir : quietly (before_transaction_offline dir).
Proof.
  unfold before_transaction_offline.
  apply st_rel_bind; [apply _|apply require_current_quiet|intros _].
  destruct dir as [|id above]; [apply st_rel_throw, _|].
  apply st_rel_bind; [apply _|apply on_disk_quiet|intros r].
  apply st_rel_bind; [apply _|apply st_rel_lift, _|intros r'].
  apply st_rel_bind; [apply _|apply authenticate_quiet|intros [manifest confirmed]].
  apply st_rel_bind; [apply _|apply save_record_quiet|intros _].
  apply st_rel_bind; [apply _|apply revalidate_plan_quiet|intros _].
  apply st_rel_bind; [apply _|apply check_payloads_quiet|intros _]. apply st_rel_ret, _.
Qed.

Lemma run_phases dir w :
  run oracle euid umask fault pid nonce fresh dir w
  = (p ← before_transaction_offline dir;
     let '(id, r, manifest, confirmed) := p in
     _ ← apply_transaction oracle dir manifest confirmed;
     after_transaction oracle euid umask fault pid nonce fresh dir id r manifest confirmed) w.
Proof.
  unfold run, before_transaction_offline, mbind, st_bind, mret, st_ret.
  destruct (require_current_op fault dir w) as [[[]|e] w1]; [|done].
  destruct dir as [|id above]; [done|].
  destruct (on_disk _ w1) as [[r|e] w2]; [|done].
  destruct (st_lift _ w2) as [[r'|e] w3]; [|done].
  destruct (authenticate _ _ _ _ w3) as [[[manifest confirmed]|e] w4]; [|done].
  destruct (save_record _ _ _ _ _ _ _ w4) as [[[]|e] w5]; [|done].
  destruct (revalidate_plan _ _ _ _ _ w5) as [[[]|e] w6]; [|done].
  by destruct (check_payloads _ _ _ _ w6) as [[[]|e] w7].
Qed.

Lemma mark_recovery_quiet dir : quietly (mark_recovery euid umask fault pid nonce dir).
Proof.
  unfold mark_recovery.
  apply st_rel_bind; [apply _|apply require_current_quiet|intros _].
  destruct dir as [|id above]; [apply st_rel_throw, _|].
  apply st_rel_bind; [apply _|apply on_disk_quiet|intros loaded].
  apply st_rel_bind; [apply _| |intros _; apply remove_current_quiet].
  destruct loaded; [apply save_record_quiet|apply st_rel_ret, _].
Qed.
End watched.

(* ------------------------------------------------------------------ *)
(** ** Authorization of the transaction *)

(** A call that installs packages. *)
Definition installs (o : occurrence) : bool :=
  match o with
  | Did (Zypper _ arguments) _ _ => negb (contains arguments "--dry-run")
  | _ => false
  end.

Lemma installs_other A (e : effect A) a f :
  match e with Run _ _ | Zypper _ _ => False | _ => True end → installs (Did e a f) = false.
Proof. by destruct e. Qed.
Lemma installs_run program arguments a f :
  program ≠ "/usr/bin/systemctl" → installs (Did (Run program arguments) a f) = false.
Proof. done. Qed.
Lemma installs_dry c arguments a f :
  "--dry-run" ∈ arguments → installs (Did (Zypper c arguments) a f) = false.
Proof. intros H. apply contains_true in H. cbn. by rewrite H. Qed.

Section authorized.
Context {HL : Libraries} (oracle : Oracle).
Context (euid umask : Z) (fault : nat → option (IoError * nat)).
Context (pid : Z) (nonce : nat → Z) (fresh : nat → string).

(** What the program knows of the operation when it installs: the stored record
    is in [ApplyingOffline] with a snapshot, the plan and the manifest are the
    ones of the record, and since [h] the manifest was authenticated, the plan
    computed again and the payloads compared. *)
Record authorized (dir : path) (id : string) (r : OperationStateRecord)
    (manifest : ReleaseManifest) (confirmed : UpgradePlan) (files : gmap path node)
    (h h' : list occurrence) : Prop := {
  au_id : head dir = Some id;
  au_stored : operation_id r = id ∧ stored euid STATE_ROOT files r;
  au_state : state r = ApplyingOffline;
  au_snapshot : snapshot_number r ≠ None;
  au_plan : plan_sha256 confirmed = Ok (State.plan_sha256 r);
  au_manifest : ∃ text, manifest_json manifest = Ok text
                  ∧ State.manifest_sha256 r = Some (digest text);
  au_signed : ∃ l channel v f,
    happened h h' (Did (VerifyManifestFiles dir (State.source r) l channel) (Ok v) f)
    ∧ verified_manifest v = manifest;
  au_solved : ∃ facts solver,
    revalidate_release_plan facts solver manifest confirmed (State.plan_sha256 r) = Ok ();
  au_payloads : ∃ listing f,
    happened h h' (Did (ListPackages (packages_dir (prepared_context dir))) listing f)
    ∧ verify_payloads digest manifest (plan_installed_packages confirmed) listing.1 listing.2
      = Ok ();
}.

Lemma prepare_offline_Ok r r' :
  prepare_offline_state r = Ok r' →
  state r' = ApplyingOffline ∧ snapshot_number r' ≠ None ∧ operation_id r' = operation_id r.
Proof.
  unfold prepare_offline_state. destruct (_ || _) eqn:E; [done|].
  apply orb_false_iff in E as [_ E]. intros H%map_err_Ok.
  apply transition_to_Ok in H as (_ & _ & _ & ->). split; [done|]. split; [|done].
  cbn. by destruct (snapshot_number r).
Qed.

Lemma load_record_id id w r w' :
  load_record fault id w = (Ok r, w') → operation_id r = id.
Proof.
  unfold load_record, load_state. cbv zeta. intros H.
  do 6 (apply st_bind_Ok in H as (? & ? & _ & H)).
  destruct (_ !=? _); [done|]. destruct (operation_id _ !=? id) eqn:E; [done|].
  apply st_bind_Ok in H as (? & ? & _ & H). injection H as <- _.
  by rewrite negb_false_iff, eqb_true in E.
Qed.

Lemma authenticate_Ok dir r w manifest confirmed w' :
  authenticate oracle fault dir r w = (Ok (manifest, confirmed), w') →
  plan_sha256 confirmed = Ok (State.plan_sha256 r)
  ∧ (∃ text, manifest_json manifest = Ok text ∧ State.manifest_sha256 r = Some (digest text))
  ∧ ∃ l channel v f,
      happened (history w) (history w')
        (Did (VerifyManifestFiles dir (State.source r) l channel) (Ok v) f)
      ∧ verified_manifest v = manifest.
Proof.
  unfold authenticate. intros H.
  apply st_bind_Ok in H as (m & w1 & H1 & H).
  apply st_bind_Ok in H as (c & w2 & H2 & H).
  destruct (_ || _); [done|].
  apply st_bind_Ok in H as (hash & w3 & H3 & H). unfold st_lift in H3. injection H3 as Hp <-.
  apply map_err_Ok in Hp. destruct (hash !=? _) eqn:Eh; [done|].
  rewrite negb_false_iff, eqb_true in Eh. subst hash.
  apply st_bind_Ok in H as (text & w4 & H4 & H). unfold st_lift in H4. injection H4 as Ht <-.
  apply map_err_Ok in Ht. destruct (State.manifest_sha256 r !=? _) eqn:Em; [done|].
  rewrite negb_false_iff, eqb_true in Em.
  apply st_bind_Ok in H as (l & w5 & H5 & H). apply attempt_Ok in H5 as (Hh5 & _).
  apply st_bind_Ok in H as (channel & w6 & H6 & H). apply attempt_Ok in H6 as (Hh6 & _).
  apply st_bind_Ok in H as (v & w7 & H7 & H). apply attempt_Ok in H7 as (Hh7 & _).
  destruct (_ !=? _) eqn:Ev; [done|]. rewrite negb_false_iff, eqb_true in Ev.
  injection H as <- <- <-.
  split; [done|]. split; [eauto|]. exists l, channel, v. eexists. split; [|done].
  apply (happened_widen _ (history w6) (history w7)); [|rewrite Hh7; apply happened_snoc|done].
  apply (quiet_grows installs) in H1, H2; [|apply read_json_quiet..].
  rewrite Hh6, Hh5, <- app_assoc. etransitivity; [exact H1|]. etransitivity; [exact H2|].
  by apply prefix_app_r.
Qed.

Lemma revalidate_plan_Ok dir manifest confirmed hash w w' :
  revalidate_plan oracle dir manifest confirmed hash w = (Ok (), w') →
  ∃ facts solver, revalidate_release_plan facts solver manifest confirmed hash = Ok ().
Proof.
  unfold revalidate_plan. intros H. apply st_bind_Ok in H as (? & ? & _ & H).
  apply st_bind_Ok in H as (? & ? & _ & H). apply st_bind_Ok in H as (? & ? & _ & H).
  destruct (negb _); [done|]. cbv zeta in H. do 4 (apply st_bind_Ok in H as (? & ? & _ & H)).
  unfold st_lift in H. injection H as H _. apply map_err_Ok in H. eauto.
Qed.

Lemma revalidate_plan_kept p dir manifest confirmed hash :
  st_rel (kept p) (revalidate_plan oracle dir manifest confirmed hash).
Proof.
  unfold revalidate_plan, release_command, discover, installed_packages_at,
    enrich_solver_vendors_at. cbv zeta. eauto 30 with kept.
Qed.

Lemma save_record_Ok message r w w' :
  save_record euid umask fault pid nonce message r w = (Ok (), w') →
  stored euid STATE_ROOT (nodes (disk w')) r.
Proof.
  unfold save_record, on_disk, st_map_err.
  destruct (save_state _ _ _ _ _ _ _ _ _) as [[[]|e] d] eqn:E; intros [= <-].
  apply save_state_spec in E as (_ & H). by destruct (H eq_refl) as (? & _).
Qed.

Lemma load_disk_id (message : PersistenceError → OfflineError) id w r w' :
  on_disk (st_map_err message (load_record fault id)) w = (Ok r, w') → operation_id r = id.
Proof.
  unfold on_disk. destruct (st_map_err _ _ _) as [x d] eqn:E. intros [= -> _].
  apply st_map_err_Ok in E. by eapply load_record_id.
Qed.

Lemma check_payloads_Ok dir manifest confirmed w w' :
  check_payloads oracle dir manifest confirmed w = (Ok (), w') →
  ∃ listing f,
    verify_payloads digest manifest (plan_installed_packages confirmed) listing.1 listing.2 = Ok ()
    ∧ history w' = history w
        ++ [Did (ListPackages (packages_dir (prepared_context dir))) listing f]
    ∧ disk w' = disk w.
Proof.
  unfold check_payloads. intros H. apply st_bind_Ok in H as (listing & w1 & H1 & H).
  unfold perform in H1. injection H1 as Hl <-. unfold st_lift in H. injection H as H <-.
  apply map_err_Ok in H. exists listing, (nodes (disk w)). split; [done|]. split; [|done].
  cbn. by rewrite Hl.
Qed.

Lemma before_offline_Ok dir w id r manifest confirmed w' :
  before_transaction_offline oracle euid umask fault pid nonce dir w
  = (Ok (id, r, manifest, confirmed), w') →
  authorized dir id r manifest confirmed (nodes (disk w')) (history w) (history w').
Proof.
  unfold before_transaction_offline. intros H.
  apply st_bind_Ok in H as ([] & w1 & H1 & H). destruct dir as [|id' above]; [done|].
  apply st_bind_Ok in H as (r0 & w2 & H2 & H).
  apply st_bind_Ok in H as (r1 & w3 & H3 & H). unfold st_lift in H3. injection H3 as Hp <-.
  apply st_bind_Ok in H as ([m c] & w4 & H4 & H).
  apply st_bind_Ok in H as ([] & w5 & H5 & H). apply st_bind_Ok in H as ([] & w6 & H6 & H).
  apply st_bind_Ok in H as ([] & w7 & H7 & H). injection H as <- <- <- <- <-.
  apply (quiet_grows installs) in H1; [|apply require_current_quiet].
  pose proof (quiet_grows installs _ _ _ _ (on_disk_quiet _ _) H2) as P2.
  pose proof (quiet_grows installs _ _ _ _ (authenticate_quiet _ _ _ installs_other _ _) H4) as P4.
  pose proof (quiet_grows installs _ _ _ _ (save_record_quiet _ _ _ _ _ _ _ _) H5) as P5.
  pose proof (quiet_grows installs _ _ _ _
    (revalidate_plan_quiet _ _ installs_other installs_run installs_dry _ _ _ _) H6) as P6.
  apply load_disk_id in H2. apply prepare_offline_Ok in Hp as (Hst & Hsn & Hid).
  apply authenticate_Ok in H4 as (Hplan & Hman & l & channel & v & f & Hv & Hm).
  apply save_record_Ok in H5. apply revalidate_plan_Ok in H6 as Hrev.
  pose proof (revalidate_plan_kept (join (join STATE_ROOT (operation_id r1)) "state.json")
    (id' :: above) m c (State.plan_sha256 r1) w5) as K6. rewrite H6 in K6. unfold kept in K6. cbn in K6.
  apply check_payloads_Ok in H7 as (listing & f' & Hl & Hh7 & Hd7).
  split; try done.
  - split; [by rewrite Hid|]. unfold stored in *. by rewrite Hd7, K6.
  - exists l, channel, v, f. split; [|done]. eapply happened_widen; [|exact Hv|].
    + by etransitivity.
    + rewrite Hh7. etransitivity; [exact P5|]. etransitivity; [exact P6|]. by apply prefix_app_r.
  - exists listing, f'. split; [|done].
    apply (happened_widen _ (history w6) (history w7)); [|rewrite Hh7; apply happened_snoc|done].
    etransitivity; [exact H1|]. etransitivity; [exact P2|]. etransitivity; [exact P4|].
    by etransitivity.
Qed.

Lemma authorized_widen dir id r manifest confirmed files h0 h h' h1 :
  h0 `prefix_of` h → h' `prefix_of` h1 →
  authorized dir id r manifest confirmed files h h' →
  authorized dir id r manifest confirmed files h0 h1.
Proof.
  intros P0 P1 [F1 F2 F3 F4 F5 F6 (l & channel & v & f & Hv & Hm) F8 (listing & g & Hl & Hp)].
  split; try done.
  - exists l, channel, v, f. split; [by eapply happened_widen|done].
  - exists listing, g. split; [by eapply happened_widen|done].
Qed.

(** At most one installation, and if there is one it is authorized. *)
Definition installs_authorized (dir : path) (h calls : list occurrence) : Prop :=
  Forall (λ o, installs o = false) calls
  ∨ ∃ before o after id r manifest confirmed,
      calls = before ++ o :: after ∧ installs o = true
      ∧ Forall (λ o, installs o = false) (before ++ after)
      ∧ authorized dir id r manifest confirmed (files_of o) h (h ++ before).

Lemma installs_authorized_app dir h l1 l2 l3 :
  Forall (λ o, installs o = false) l1 → Forall (λ o, installs o = false) l3 →
  installs_authorized dir (h ++ l1) l2 → installs_authorized dir h (l1 ++ l2 ++ l3).
Proof.
  intros H1 H3 [H2|(before & o & after & id & r & m & c & -> & Ho & Hn & Ha)].
  - left. rewrite !Forall_app. tauto.
  - right. exists (l1 ++ before), o, (after ++ l3), id, r, m, c.
    split; [by rewrite <- !app_assoc|]. split; [done|].
    split; [rewrite Forall_app in Hn; rewrite !Forall_app; tauto|].
    eapply authorized_widen; [| |exact Ha]; [by apply prefix_app_r|by rewrite app_assoc].
Qed.

Lemma apply_transaction_spec dir manifest confirmed w x w' :
  apply_transaction oracle dir manifest confirmed w = (x, w') →
  history w' = history w
  ∨ ∃ o, history w' = history w ++ [o] ∧ files_of o = nodes (disk w).
Proof.
  unfold apply_transaction, release_command, attempt, perform, mbind, st_bind, st_lift.
  destruct (map_err MigrationPolicy _) as [arguments|e]; [|intros [= _ <-]; by left].
  destruct (oracle _ _ _ _) as [output|e]; cbn [map_err].
  - destruct (_ || _); intros [= _ <-]; right; by eexists.
  - intros [= _ <-]. right. by eexists.
Qed.

Lemma run_spec dir w x w' :
  run oracle euid umask fault pid nonce fresh dir w = (x, w') →
  ∃ calls, history w' = history w ++ calls ∧ installs_authorized dir (history w) calls.
Proof.
  rewrite run_phases. intros H.
  pose proof (before_offline_quiet oracle euid umask fault pid nonce installs installs_other
    installs_run installs_dry dir w) as [(l1 & Hl1 & Hq1) _].
  apply st_bind_cases in H as [(e & H & ->)|([[[id r] m] c] & w1 & H1 & H)].
  { rewrite H in Hl1. exists l1. split; [done|by left]. }
  rewrite H1 in Hl1. cbn in Hl1. apply before_offline_Ok in H1.
  assert (∃ y w2, apply_transaction oracle dir m c w1 = (y, w2) ∧ quiet installs w2 w')
    as (y & w2 & H2 & [(l3 & Hl3 & Hq3) _]).
  { apply st_bind_cases in H as [(e & H & ->)|([] & w2 & H2 & H)]; [by exists (Err e), w'|].
    exists (Ok ()), w2. split; [done|].
    pose proof (after_transaction_quiet oracle euid umask fault pid nonce fresh installs
      installs_other installs_run dir id r m c w2) as Q. by rewrite H in Q. }
  apply apply_transaction_spec in H2 as [Hh2|(o & Hh2 & Hf)].
  - exists (l1 ++ l3). rewrite Hl3, Hh2, Hl1, <- app_assoc. split; [done|].
    left. by apply Forall_app.
  - exists (l1 ++ o :: l3). rewrite Hl3, Hh2, Hl1, <- !app_assoc. split; [done|].
    destruct (installs o) eqn:Ho; [right|left; rewrite Forall_app, Forall_cons; tauto].
    exists l1, o, l3, id, r, m, c. split; [done|]. split; [done|].
    split; [by apply Forall_app|]. by rewrite Hf, <- Hl1.
Qed.

Lemma on_disk_try' {E A} (m : ST world E A) w x w' :
  on_disk (st_try (E':=OfflineError) m) w = (x, w') →
  ∃ r, x = Ok r ∧ m (disk w) = (r, disk w') ∧ history w' = history w ∧ current w' = current w.
Proof.
  unfold on_disk, st_try. destruct (m (disk w)) as [r d]. intros [= <- <-]. eauto.
Qed.

Definition rebooting (reboot : bool) : ST execution OfflineError unit :=
  if reboot then reboot_after_cleanup fault (reboot_machine oracle) else mret ().

Lemma rebooting_quiet P reboot :
  (reboot = true → ∀ a f, P (Did (Run "/usr/bin/systemctl" reboot_arguments) a f) = false) →
  st_rel (quiet P) (rebooting reboot).
Proof.
  intros H. unfold rebooting. destruct reboot; [|apply st_rel_ret, _].
  apply st_rel_bind; [apply _|apply on_disk_quiet|intros n].
  destruct n as [n|[]]; try apply st_rel_throw, _.
  apply st_rel_bind; [apply _|apply perform_quiet; by apply H|intros output].
  apply require_ok_quiet.
Qed.

Lemma finish_quiet P result recover reboot :
  st_rel (quiet P) recover → st_rel (quiet P) reboot →
  st_rel (quiet P) (finish_owned_operation result recover reboot).
Proof.
  intros Hr Hb. apply st_rel_bind; [apply _| |intros _].
  { destruct result; [apply st_rel_ret, _|by apply st_rel_map_err]. }
  apply st_rel_bind; [apply _|by apply st_rel_map_err|intros _]. apply st_rel_lift, _.
Qed.


(* ------------------------------------------------------------------ *)
(** ** How the machine is left *)

Definition is_reboot (o : occurrence) : bool :=
  match o with
  | Did (Run program arguments) _ _ =>
      (program ==? "/usr/bin/systemctl") && (arguments ==? reboot_arguments)
  | _ => false
  end.

Lemma is_reboot_other A (e : effect A) a f :
  match e with Run _ _ | Zypper _ _ => False | _ => True end → is_reboot (Did e a f) = false.
Proof. by destruct e. Qed.
Lemma is_reboot_run program arguments a f :
  program ≠ "/usr/bin/systemctl" → is_reboot (Did (Run program arguments) a f) = false.
Proof. intros H. cbn. apply eqb_false in H. by rewrite H. Qed.
Lemma is_reboot_zypper c (arguments : list string) a f :
  "--dry-run" ∈ arguments → is_reboot (Did (Zypper c arguments) a f) = false.
Proof. done. Qed.

(** The record says that the packages are installed. *)
Definition installed (files : gmap path node) : Prop :=
  ∃ r, stored euid STATE_ROOT files r ∧ state r = AwaitingReboot
       ∧ last_completed_step r = Some "offline-apply".

(** The request is gone, and the record says how the run ended; only a record that
    cannot be read is left as it is. *)
Definition left_clean (files : gmap path node) : Prop :=
  files !! SYSTEM_UPDATE = None
  ∧ (installed files
     ∨ (∃ r, stored euid STATE_ROOT files r ∧ state r = NeedsRecovery
             ∧ State.error_code r = Some "OFFLINE_APPLY_FAILED")
     ∨ ∃ id w e w', load_record fault id w = (Err e, w')).

Lemma stored_delete files r :
  stored euid STATE_ROOT files r → stored euid STATE_ROOT (delete SYSTEM_UPDATE files) r.
Proof. intros [m H]. exists m. by rewrite lookup_delete_ne. Qed.

Lemma remove_op_Ok dir w w' :
  remove_current_op fault dir w = (Ok (), w') →
  nodes (disk w') = delete SYSTEM_UPDATE (nodes (disk w)).
Proof.
  unfold remove_current_op, on_disk, st_map_err.
  destruct (remove_current _ _ _ _ _) as [[[]|e] d] eqn:E; intros [= <-].
  by apply remove_current_Ok in E as [_ ?].
Qed.

Lemma after_transaction_Ok dir id r manifest confirmed w w' :
  after_transaction oracle euid umask fault pid nonce fresh dir id r manifest confirmed w
  = (Ok (), w') →
  nodes (disk w') !! SYSTEM_UPDATE = None ∧ installed (nodes (disk w')).
Proof.
  unfold after_transaction. cbv zeta. intros H.
  do 3 (apply st_bind_Ok in H as (? & ? & _ & H)).
  apply st_bind_Ok in H as (r' & w1 & H1 & H). unfold st_lift in H1. injection H1 as Ht _.
  apply map_err_Ok, transition_to_Ok in Ht as (_ & _ & _ & ->).
  apply st_bind_Ok in H as ([] & w2 & H2 & H). apply save_record_Ok in H2.
  apply remove_op_Ok in H as ->. split; [by rewrite lookup_delete_eq|].
  eexists. split; [by apply stored_delete|]. done.
Qed.

Lemma run_Ok dir w w' :
  run oracle euid umask fault pid nonce fresh dir w = (Ok (), w') →
  nodes (disk w') !! SYSTEM_UPDATE = None ∧ installed (nodes (disk w')).
Proof.
  rewrite run_phases. intros H. apply st_bind_Ok in H as ([[[id r] m] c] & w1 & _ & H).
  apply st_bind_Ok in H as ([] & w2 & _ & H). by apply after_transaction_Ok in H.
Qed.

Lemma run_quietly dir :
  st_rel (quiet is_reboot) (run oracle euid umask fault pid nonce fresh dir).
Proof.
  intros w. rewrite run_phases.
  match goal with |- quiet _ _ (?m w).2 => assert (st_rel (quiet is_reboot) m) as H; [|apply H] end.
  apply st_rel_bind; [apply _| |intros [[[id r] m] c]].
  { apply before_offline_quiet; [exact is_reboot_other|exact is_reboot_run|exact is_reboot_zypper]. }
  apply st_rel_bind; [apply _| |intros _].
  - apply st_rel_bind; [apply _|apply st_rel_lift, _|intros arguments].
    apply st_rel_bind; [apply _|by apply attempt_quiet|intros output].
    destruct (_ || _); [apply st_rel_ret, _|apply st_rel_throw, _].
  - apply after_transaction_quiet; [exact is_reboot_other|exact is_reboot_run].
Qed.

Lemma mark_recovery_Ok dir w w' :
  mark_recovery euid umask fault pid nonce dir w = (Ok (), w') → left_clean (nodes (disk w')).
Proof.
  unfold mark_recovery. intros H. apply st_bind_Ok in H as ([] & w1 & _ & H).
  destruct dir as [|id above]; [done|].
  apply st_bind_Ok in H as (loaded & w2 & H2 & H). apply on_disk_try' in H2 as (r & [= ->] & H2 & _).
  apply st_bind_Ok in H as ([] & w3 & H3 & H). apply remove_op_Ok in H as ->.
  split; [by rewrite lookup_delete_eq|]. right. destruct r as [r|e]; [left|right; eauto].
  apply save_record_Ok in H3. exists (recovered r). split; [by apply stored_delete|done].
Qed.

(** A reboot finds the machine clean. *)
Definition reboots_clean (reboot : bool) (calls : list occurrence) : Prop :=
  Forall (λ o, is_reboot o = true → reboot = true ∧ left_clean (files_of o)) calls.

Lemma quiet_clean reboot calls :
  Forall (λ o, is_reboot o = false) calls → reboots_clean reboot calls.
Proof. intros H. eapply Forall_impl; [exact H|]. by intros o ->. Qed.

Lemma rebooting_clean reboot w x w' :
  left_clean (nodes (disk w)) → rebooting reboot w = (x, w') →
  (∃ calls, history w' = history w ++ calls ∧ reboots_clean reboot calls)
  ∧ nodes (disk w') = nodes (disk w).
Proof.
  intros Hc. unfold rebooting. destruct reboot.
  2: { intros [= _ <-]. split; [|done]. exists []. rewrite app_nil_r. split; [done|constructor]. }
  unfold reboot_after_cleanup. intros H.
  apply st_bind_cases in H as [(e & H & ->)|(n & w1 & H1 & H)]; [by apply on_disk_try' in H as (r & [=] & _)|].
  apply on_disk_try' in H1 as (r & [= ->] & Hm & Hh & _).
  pose proof (symlink_metadata_nodes fault SYSTEM_UPDATE (disk w)) as Hn. rewrite Hm in Hn. cbn in Hn.
  assert (∀ e, (Err (A:=unit) e, w1) = (x, w') →
    (∃ calls, history w' = history w ++ calls ∧ reboots_clean true calls)
    ∧ nodes (disk w') = nodes (disk w)) as Hfail.
  { intros e [= _ <-]. split; [|done]. exists []. rewrite app_nil_r. split; [done|constructor]. }
  destruct r as [n|[]]; [by eapply Hfail| |by eapply Hfail..].
  unfold reboot_machine, command, require_ok, perform, mbind, st_bind in H.
  destruct (success _); injection H as _ <-; cbn [history disk]; (split; [|done]);
    eexists; (split; [by rewrite Hh|]); constructor; [|constructor| |constructor];
    intros _; (split; [done|]); cbn [files_of]; by rewrite Hn.
Qed.

Lemma finish_clean reboot dir result w x w' :
  (result = Ok () → nodes (disk w) !! SYSTEM_UPDATE = None ∧ installed (nodes (disk w))) →
  finish_owned_operation result (mark_recovery euid umask fault pid nonce dir)
    (rebooting reboot) w = (x, w') →
  (∃ calls, history w' = history w ++ calls ∧ reboots_clean reboot calls)
  ∧ (x = Ok () → installed (nodes (disk w'))).
Proof.
  intros Hres. unfold finish_owned_operation. intros H.
  apply st_bind_cases in H as [(e & H & ->)|([] & w1 & H1 & H)].
  { destruct result as [[]|error]; [done|].
    pose proof (st_rel_map_err _ (CleanupFailed error) _ (mark_recovery_quiet euid umask fault pid
      nonce is_reboot dir) w) as [(l & Hl & Hq) _].
    rewrite H in Hl. split; [|done]. exists l. split; [done|by apply quiet_clean]. }
  assert (left_clean (nodes (disk w1)) ∧ (result = Ok () → w1 = w)
    ∧ ∃ l, history w1 = history w ++ l ∧ reboots_clean reboot l) as (Hc & Hw & l & Hl & Hlc).
  { destruct result as [[]|error].
    - injection H1 as <-. destruct (Hres eq_refl) as [? ?]. split; [split; [done|by left]|].
      split; [done|]. exists []. rewrite app_nil_r. split; [done|constructor].
    - pose proof (st_rel_map_err _ (CleanupFailed error) _ (mark_recovery_quiet euid umask fault pid
        nonce is_reboot dir) w) as [(l & Hl & Hq) _]. rewrite H1 in Hl.
      apply st_map_err_Ok in H1. split; [by eapply mark_recovery_Ok|]. split; [done|].
      exists l. split; [done|by apply quiet_clean]. }
  assert (∃ y w2, rebooting reboot w1 = (y, w2) ∧ w' = w2 ∧ (x = Ok () → result = Ok ()))
    as (y & w2 & H2 & -> & Hx).
  { apply st_bind_cases in H as [(e & H & ->)|([] & w2 & H2 & H)].
    - apply st_map_err_Err in H as (e0 & H & _). by exists (Err e0), w'.
    - apply st_map_err_Ok in H2. exists (Ok ()), w2. injection H as <- <-. by repeat split. }
  apply rebooting_clean in H2 as ((l2 & Hl2 & Hlc2) & Hn2); [|done]. split.
  - exists (l ++ l2). rewrite Hl2, Hl, <- app_assoc. split; [done|by apply Forall_app].
  - intros Hok. apply Hx in Hok as Hr. rewrite Hn2, (Hw Hr). by apply Hres.
Qed.

End authorized.

(* ------------------------------------------------------------------ *)
(** ** A complete offline run *)

(** The libraries, reading back what was staged. *)
Definition offline_libraries : Libraries := {|
  plan_json := λ _, Ok "plan"; plan_pretty := λ _, Ok "plan"; manifest_json := λ _, Ok "manifest";
  manifest_pretty := λ _, Ok "manifest"; record_json := sample_encode;
  record_parse := λ text,
    if text ==? state_text sample_encode (current sample_staging.2)
    then Some (current sample_staging.2) else None;
  inventory_json := λ _, "inventory"; inventory_parse := λ _, None;
  plan_parse := λ text, if text ==? "plan" then Some (planned_plan upgrade_planned) else None;
  manifest_parse := λ text, if text ==? "manifest" then Some upgrade_manifest else None;
  mounts_json := sample_layout; xml_events := sample_update_events; digest := λ _, zeros 64 |}.

Definition offline_oracle : Oracle := λ A h w e,
  match e in effect B return B → B with
  | VerifyManifestFiles _ _ _ _ => λ _,
      Ok {| verified_manifest := upgrade_manifest; document := "manifest"; signature := "s" |}
  | _ => λ a, a
  end (upgrade_oracle A h w e).

(** The machine after the staging, with its active repositories. *)
Definition offline_start : execution := {|
  disk := {| nodes := <[["etc"] := Dir 0 493]> (<[["zypp"; "etc"] := Dir 0 493]>
               (<[["repos.d"; "zypp"; "etc"] := Dir 0 493]> (nodes (disk sample_staging.2))));
             calls := 0 |};
  history := []; current := current sample_staging.2 |}.
Definition sample_offline : result OfflineError Z * execution :=
  main (HL := offline_libraries) offline_oracle 0 18 no_fault 101 (λ n, Z.of_nat n) sample_fresh
    true offline_start.

Lemma sample_offline_eq : sample_offline = (Ok 0%Z, sample_offline.2).
Proof. apply pair_with_fst. vm_compute. reflexivity. Qed.

(** The run did install packages and reboot. *)
Example sample_offline_calls :
  existsb installs (history sample_offline.2) = true
  ∧ existsb is_reboot (history sample_offline.2) = true.
Proof. vm_compute. by split. Qed.


