(* ===== verification/Dependencies.v ===== *)
(** * The dependency check after a reboot (src/verifier/src/dependencies.rs)

    What the verifier accepts of [zypper verify --dry-run]: a success whose output
    is one well-nested stream with exactly one empty summary in which every number
    is zero, and no proposal, prompt or error. The reader is quick_xml: the
    program is modelled over the events it delivers. *)

From S2P Require Import Prelude RustStr.

Open Scope bool_scope.
Open Scope lyra_scope.

Definition MAX_OUTPUT : Z := 1024 * 1024.

(** An attribute that cannot be read is [None]. *)
Abbreviation attribute_list := (list (option (string * option string))).

Inductive event : Set :=
  | Start (name : string) (attrs : attribute_list)
  | Empty (name : string) (attrs : attribute_list)
  | End (name : string)
  | Text (raw : string)
  (** A reference: [None] when it is malformed, else whether it is a character. *)
  | GeneralRef (char_ref : option bool) (raw : string)
  | Decl | DocType | PI | CData | Comment | Eof.

(** The elements that are open, outermost first, and what was seen. *)
Record reader := {
  element_path : list string;
  root_seen : bool;
  declaration_seen : bool;
  summary_seen : bool;
}.

Definition new_reader : reader := {|
  element_path := []; root_seen := false; declaration_seen := false; summary_seen := false |}.

(** A later attribute of the same name replaces an earlier one. *)
Fixpoint read_attributes (attrs : attribute_list) (found : gmap string string)
  : option (gmap string string) :=
  match attrs with
  | [] => Some found
  | Some (key, Some value) :: attrs' => read_attributes attrs' (<[key := value]> found)
  | _ :: _ => None
  end.

Definition summary_fields : list string :=
  ["packages-to-change"; "download-size"; "space-usage-diff"; "space-usage-installed";
   "space-usage-removed"].

Definition all_zero (attributes : gmap string string) : bool :=
  list_all (λ field, (attributes !! field ≫= parse_i64) ==? Some 0%Z) summary_fields.

Definition proposes (name : string) (attributes : gmap string string) : bool :=
  (name ==? "prompt") || (name ==? "solvable") || starts_with "to-" name
  || ((name ==? "message") && (attributes !! "type" ==? Some "error")).

(** [u8::is_ascii_whitespace] on every byte. *)
Definition is_white (s : string) : bool :=
  bytes_all (λ b, contains [" "%char; "009"%char; "010"%char; "012"%char; "013"%char] b) s.

(** Text and references count at the top and inside the summary only. *)
Definition outside_body (s : reader) : bool :=
  match last (element_path s) with None => true | Some part => part ==? "install-summary" end.

Definition on_element (name : string) (attrs : attribute_list) (opens : bool) (s : reader)
  : option reader :=
  let top := bool_decide (element_path s = []) in
  if top && (root_seen s || (name !=? "stream")) then None
  else if contains (element_path s) "install-summary" then None
  else
    attributes ← read_attributes attrs ∅;
    let summary := name ==? "install-summary" in
    if summary && (summary_seen s || negb (bool_decide (element_path s = ["stream"]))
                   || negb (all_zero attributes)) then None
    else if proposes name attributes then None
    else if opens && (32 <=? length (element_path s))%nat then None
    else Some {|
      element_path := if opens then element_path s ++ [name] else element_path s;
      root_seen := root_seen s || top; declaration_seen := declaration_seen s;
      summary_seen := summary_seen s || summary |}.

Definition on_event (e : event) (s : reader) : option reader :=
  match e with
  | Start name attrs => on_element name attrs true s
  | Empty name attrs => on_element name attrs false s
  | End name =>
      match last (element_path s) with
      | Some part =>
          if part ==? name then Some {|
            element_path := take (length (element_path s) - 1) (element_path s);
            root_seen := root_seen s; declaration_seen := declaration_seen s;
            summary_seen := summary_seen s |}
          else None
      | None => None
      end
  | Text raw => if outside_body s && negb (is_white raw) then None else Some s
  | GeneralRef char_ref raw =>
      if outside_body s then None
      else match char_ref with
           | None => None
           | Some is_char =>
               if negb is_char && negb (contains ["amp"; "lt"; "gt"; "apos"; "quot"] raw)
               then None else Some s
           end
  | Decl =>
      if declaration_seen s || root_seen s then None
      else Some {| element_path := element_path s; root_seen := root_seen s;
                   declaration_seen := true; summary_seen := summary_seen s |}
  | DocType | PI | CData => None
  | Comment | Eof => Some s
  end.

Fixpoint read_events (events : list (option event)) (s : reader) : option reader :=
  match events with
  | [] | Some Eof :: _ => Some s
  | None :: _ => None
  | Some e :: events' => s' ← on_event e s; read_events events' s'
  end.

Section check.
(** quick_xml: the events of a text, [None] for an error. *)
Context (events_of : string → list (option event)).

Definition healthy_output (success : bool) (bytes : string) : bool :=
  if negb success || (MAX_OUTPUT <? str_len bytes)%Z then false
  else
    match from_utf8 bytes with
    | None => false
    | Some xml =>
        match read_events (events_of xml) new_reader with
        | None => false
        | Some s => root_seen s && summary_seen s && bool_decide (element_path s = [])
        end
    end.
End check.

(* ------------------------------------------------------------------ *)
(** ** What a healthy answer contains *)

(** The elements up to the end of the stream. *)
Fixpoint elements (events : list (option event)) : list (string * attribute_list) :=
  match events with
  | [] | None :: _ | Some Eof :: _ => []
  | Some (Start name attrs) :: events' | Some (Empty name attrs) :: events' =>
      (name, attrs) :: elements events'
  | Some _ :: events' => elements events'
  end.

(** An element that neither proposes a change nor counts one. *)
Definition harmless (element : string * attribute_list) : Prop :=
  ∃ a, read_attributes element.2 ∅ = Some a ∧ proposes element.1 a = false
       ∧ (element.1 = "install-summary" → all_zero a = true).

Definition summaries (els : list (string * attribute_list)) : nat :=
  length (List.filter (λ e, e.1 ==? "install-summary") els).

Lemma on_element_Some name attrs opens s s' :
  on_element name attrs opens s = Some s' →
  harmless (name, attrs)
  ∧ (if name ==? "install-summary" then summary_seen s = false ∧ summary_seen s' = true
     else summary_seen s' = summary_seen s).
Proof.
  unfold on_element, harmless. cbv zeta. destruct (_ && _); [done|].
  destruct (contains _ _); [done|].
  destruct (read_attributes attrs ∅) as [a|] eqn:Ea; [|done]. cbn [mbind option_bind].
  destruct (_ && (_ || _ || _)) eqn:Es; [done|].
  destruct (proposes name a) eqn:Ep; [done|]. destruct (opens && _)%bool; [done|]. intros [= <-].
  split.
  - exists a. split; [done|]. split; [done|]. cbn. intros ->. rewrite eqb_refl in Es. cbn in Es.
    apply orb_false_iff in Es as [_ Es]. by apply negb_false_iff.
  - destruct (name ==? "install-summary") eqn:En; cbn; [|by rewrite orb_false_r].
    cbn in Es. apply orb_false_iff in Es as [[-> _]%orb_false_iff _]. done.
Qed.

Lemma on_event_other e s s' :
  on_event e s = Some s' →
  match e with Start _ _ | Empty _ _ => True | _ => summary_seen s' = summary_seen s end.
Proof.
  destruct e; try done; cbn; repeat case_match; intros; by simplify_eq.
Qed.

Lemma read_events_Some events s s' :
  read_events events s = Some s' →
  Forall harmless (elements events)
  ∧ (summaries (elements events) = if summary_seen s then 0
     else if summary_seen s' then 1 else 0)%nat
  ∧ (summary_seen s = true → summary_seen s' = true).
Proof.
  revert s. induction events as [|e events IH]; intros s H.
  { injection H as <-. split; [constructor|]. by destruct (summary_seen s). }
  destruct e as [e|]; [|done].
  assert (e = Eof ∨ (elements (Some e :: events) =
    match e with Start n a | Empty n a => [(n, a)] | _ => [] end ++ elements events
    ∧ ∃ s1, on_event e s = Some s1 ∧ read_events events s1 = Some s')) as [->|(-> & s1 & H1 & H2)].
  { cbn in H. destruct e; try (by left); right; (split; [done|]);
      apply bind_Some in H as (s1 & ? & ?); eauto. }
  { injection H as <-. split; [constructor|]. by destruct (summary_seen s). }
  apply IH in H2 as (Hf & Hc & Hm). pose proof (on_event_other _ _ _ H1) as Ho.
  assert (∀ name attrs, harmless (name, attrs) →
    (if name ==? "install-summary" then summary_seen s = false ∧ summary_seen s1 = true
     else summary_seen s1 = summary_seen s) →
    Forall harmless ([(name, attrs)] ++ elements events)
    ∧ (summaries ([(name, attrs)] ++ elements events) = if summary_seen s then 0
       else if summary_seen s' then 1 else 0)%nat
    ∧ (summary_seen s = true → summary_seen s' = true)) as Hstep.
  { intros name attrs Hh Hs. split; [by constructor|]. unfold summaries in *. cbn.
    destruct (name ==? "install-summary"); cbn; rewrite Hc.
    - destruct Hs as [-> Hs]. rewrite Hs in Hm |- *. by rewrite Hm.
    - by rewrite Hs in Hm |- *. }
  destruct e as [name attrs|name attrs| | | | | | | | |]; cbn [app];
    first [by rewrite <- Ho | apply on_element_Some in H1 as (Hh & Hs); by apply Hstep].
Qed.

(** An output accepted as healthy proposes nothing: zypper succeeded, every
    element of its bounded output can be read and is neither a prompt, a package,
    a list of changes nor an error, and there is exactly one summary, whose five
    numbers are zero. *)
Theorem healthy_output_sound events_of success bytes :
  healthy_output events_of success bytes = true →
  success = true ∧ (str_len bytes ≤ MAX_OUTPUT)%Z
  ∧ ∃ xml, from_utf8 bytes = Some xml
      ∧ Forall harmless (elements (events_of xml))
      ∧ summaries (elements (events_of xml)) = 1.
Proof.
  unfold healthy_output. destruct (negb success || _) eqn:E; [done|].
  apply orb_false_iff in E as [Es%negb_false_iff El%Z.ltb_ge].
  destruct (from_utf8 bytes) as [xml|]; [|done].
  destruct (read_events _ _) as [s|] eqn:Er; [|done].
  intros H. apply andb_true_iff in H as [[_ H]%andb_true_iff _].
  apply read_events_Some in Er as (Hf & Hc & _). cbn in Hc. rewrite H in Hc. eauto 10.
Qed.

Definition sample_summary_attributes : attribute_list :=
  map (λ k, Some (k, Some "0")) summary_fields.
Definition healthy_events (xml : string) : list (option event) :=
  [Some Decl; Some (Start "stream" []); Some (Start "message" [Some ("type", Some "info")]);
   Some (Text "Loading"); Some (End "message");
   Some (Empty "install-summary" sample_summary_attributes); Some (End "stream"); Some Eof].
(** The answer that repairs a package. *)
Definition repair_events (xml : string) : list (option event) :=
  [Some (Start "stream" []); Some (Start "install-summary" sample_summary_attributes);
   Some (Start "to-install" []); Some Eof].

Example repairs_are_refused :
  healthy_output healthy_events true "xml" = true ∧ healthy_output healthy_events false "xml" = false
  ∧ healthy_output repair_events true "xml" = false.
Proof. vm_compute. by repeat split. Qed.

Lemma healthy_output_sound_witness : summaries (elements (healthy_events "xml")) = 1.
Proof.
  destruct (healthy_output_sound healthy_events true "xml" ltac:(vm_compute; reflexivity))
    as (_ & _ & xml & _ & _ & H). exact H.
Defined.
