(* ===== verification/ManifestFetch.v ===== *)
(** * The signed manifest and the replay record (src/service/src/manifest_fetch.rs)

    How a signed document becomes a trusted manifest, and the file that remembers
    the sequence number of the last one that was applied. gpgv is the parameter
    [gpgv], the parsers are parameters, and times are seconds. The private copies
    gpgv reads are gone when the function returns: only their failures are kept.
    No file of Fs.v has two names, so the count of hard links is always one. *)

From S2P Require Import Prelude RustStr State Fs ManifestData Migration Manifest System Request.

Open Scope bool_scope.
Open Scope lyra_scope.

Definition MAX_MANIFEST_BYTES : Z := 1024 * 1024.

Section fetch.
Context (euid umask : Z) (fault : nat → option (IoError * nat)).
#[local] Abbreviation M := (ST world FetchError).

Definition io {A} (m : ST world IoError A) : M A := st_map_err Fetch_Io m.

(** The file is opened without following a link, and bounded before it is read. *)
Definition read_regular (p : path) (maximum : Z) : M string :=
  n ← io (open_nofollow euid umask fault p false false 0);
  _ ← io (file_call fault);
  match n with
  | File _ _ content =>
      if (maximum <? str_len content)%Z then st_throw Fetch_TooLarge
      else _ ← io (file_call fault); mret content
  | _ => st_throw InvalidSequence
  end.

Definition strip_newline (text : string) : string := default text (strip_suffix (String nl "") text).

Definition parse_sequence (bytes : string) : result FetchError Z :=
  text ← ok_or InvalidSequence (from_utf8 bytes);
  let text := strip_newline text in
  if is_empty text || negb (bytes_all is_ascii_digit text) then Err InvalidSequence
  else ok_or InvalidSequence (opt_filter (λ value, 0 <? value)%Z (parse_u64 text)).

Definition read_last_manifest_sequence (p : path) : M (option Z) :=
  read ← st_try (read_regular p 32);
  match read with
  | Ok bytes => value ← st_lift (parse_sequence bytes); mret (Some value)
  | Err (Fetch_Io NotFound) =>
      n ← st_try (symlink_metadata fault p);
      match n with Ok _ => st_throw InvalidSequence | Err _ => mret None end
  | Err e => st_throw e
  end.

(** gpg prints one record per line; only primary keys count. *)
Definition fingerprint_line (acc : bool * list string) (line : string) : bool * list string :=
  let '(primary, fingerprints) := acc in
  let fields := split ":" line in
  match head fields with
  | Some "pub" => (true, fingerprints)
  | Some "sub" | Some "sec" | Some "ssb" => (false, fingerprints)
  | Some "fpr" =>
      match primary, fields !! 9%nat with
      | true, Some fingerprint => (false, fingerprints ++ [fingerprint])
      | _, _ => acc
      end
  | _ => acc
  end.
Definition parse_fingerprints (output : string) : list string :=
  (fold_left fingerprint_line (lines output) (false, [])).2.

Definition read_release_channel (p : path) : M ManifestChannelPolicy :=
  read ← st_try (read_file fault p);
  match read with
  | Ok bytes =>
      value ← st_lift (ok_or (Fetch_Io (OtherError 0)) (from_utf8 bytes));
      match trim value with
      | "stable" => mret Channel_Stable
      | "testing" => mret Channel_Testing
      | _ => st_throw InvalidChannel
      end
  | Err NotFound => mret Channel_Stable
  | Err e => st_throw (Fetch_Io e)
  end.

(** The times of the [time] crate, [None] when RFC 3339 does not allow the text. *)
Context (parse_time : string → option Z).

Definition validate_time_at (manifest : ReleaseManifest) (now : Z) : result FetchError unit :=
  from ← ok_or InvalidTime (parse_time (valid_from manifest));
  until ← ok_or InvalidTime (parse_time (valid_until manifest));
  if (until <=? from)%Z then Err InvalidTime
  else if (now <? from)%Z then Err NotYetValid
  else if (until <=? now)%Z then Err Expired
  else Ok ().

(** gpgv over the bytes of the signature and of the document. *)
Context (gpgv : string → string → result IoError bool).
Context (manifest_of : string → option ReleaseManifest).
Context (parse_url : string → option Url).
Context (CARGO_PKG_VERSION : string).

Definition verify_signature (document signature : string) : M unit :=
  ok ← st_lift (map_err Fetch_Io (gpgv signature document));
  if (ok : bool) then mret () else st_throw Signature.

(** From the private copies on. *)
Definition verify_documents (document signature : string)
    (installed : ReleaseIdentity) (last_sequence : option Z) (channel : ManifestChannelPolicy)
    (now : Z) : M VerifiedManifest :=
  _ ← io (file_call fault);
  _ ← io (file_call fault);
  _ ← io (file_call fault);
  _ ← verify_signature document signature;
  manifest ← st_lift (ok_or Fetch_Json (manifest_of document));
  _ ← st_lift (map_err Route
        (validate_manifest_route parse_url manifest installed last_sequence CARGO_PKG_VERSION channel));
  _ ← st_lift (validate_time_at manifest now);
  mret {| verified_manifest := manifest; document := document; signature := signature |}.

Definition verify_manifest_files (document_path signature_path : path)
    (installed : ReleaseIdentity) (last_sequence : option Z) (channel : ManifestChannelPolicy)
    (now : Z) : M VerifiedManifest :=
  document ← read_regular document_path MAX_MANIFEST_BYTES;
  signature ← read_regular signature_path MAX_MANIFEST_BYTES;
  verify_documents document signature installed last_sequence channel now.

(* ------------------------------------------------------------------ *)
(** ** What was read *)

(** The calls made between two worlds changed no file. *)
Definition unchanged (w w' : world) : Prop := nodes w' = nodes w.
#[local] Instance unchanged_preorder : PreOrder unchanged.
Proof. split; [done|intros ???; unfold unchanged; congruence]. Qed.

Lemma read_regular_Ok p maximum w content w' :
  read_regular p maximum w = (Ok content, w') →
  (∃ u m, nodes w !! p = Some (File u m content)) ∧ (str_len content ≤ maximum)%Z
  ∧ nodes w' = nodes w.
Proof.
  unfold read_regular. intros H.
  apply st_bind_Ok in H as (n & w1 & H1 & H). apply st_map_err_Ok in H1.
  apply syscall_Ok in H1 as (_ & H1 & _).
  apply st_bind_Ok in H as ([] & w2 & H2 & H). apply st_map_err_Ok in H2.
  apply syscall_Ok in H2 as (_ & H2 & _). injection H2 as H2.
  destruct (nodes w !! p) as [[u m|u m c|t]|] eqn:Hp; cbn in H1; try done.
  - injection H1 as <- _. done.
  - injection H1 as <- H1. destruct (Z.ltb_spec maximum (str_len c)); [done|].
    apply st_bind_Ok in H as ([] & w3 & H3 & H). apply st_map_err_Ok in H3.
    apply syscall_Ok in H3 as (_ & H3 & _). injection H3 as H3. injection H as <- <-.
    split; [eauto|]. split; [done|]. congruence.
Qed.

Lemma io_file_call_unchanged : st_rel unchanged (io (file_call fault)).
Proof.
  apply st_rel_map_err. intros v. unfold file_call, syscall, unchanged.
  by destruct (fault (calls v)) as [[]|].
Qed.

Lemma read_regular_nodes p maximum w : nodes (read_regular p maximum w).2 = nodes w.
Proof.
  assert (st_rel unchanged (read_regular p maximum)) as H; [|apply H].
  apply st_rel_bind; [apply _|apply st_rel_map_err|intros n].
  { intros v. unfold open_nofollow, syscall, unchanged. destruct (fault (calls v)) as [[]|]; [done|].
    by destruct (nodes v !! p) as [[]|]. }
  apply st_rel_bind; [apply _|apply io_file_call_unchanged|intros _].
  destruct n; try by apply st_rel_throw, _. destruct (_ <? _)%Z; [by apply st_rel_throw, _|].
  apply st_rel_bind; [apply _|apply io_file_call_unchanged|intros _]. apply st_rel_ret, _.
Qed.

Lemma read_last_nodes p w : nodes (read_last_manifest_sequence p w).2 = nodes w.
Proof.
  unfold read_last_manifest_sequence, mbind at 1, st_bind at 1, st_try at 1.
  pose proof (read_regular_nodes p 32 w) as Hn.
  destruct (read_regular p 32 w) as [[bytes|e] w1]; cbn in Hn |- *.
  - unfold mbind, st_bind, st_lift. by destruct (parse_sequence bytes).
  - destruct e as [[]| | | | | | | | | | | |]; try done.
    pose proof (symlink_metadata_nodes fault p w1) as Hn1.
    unfold mbind, st_bind, st_try. destruct (symlink_metadata fault p w1) as [[n|e] w2]; cbn in *;
      congruence.
Qed.

Lemma validate_time_at_Ok manifest now u :
  validate_time_at manifest now = Ok u →
  ∃ from until, parse_time (valid_from manifest) = Some from
    ∧ parse_time (valid_until manifest) = Some until ∧ (from ≤ now < until)%Z.
Proof.
  unfold validate_time_at. intros H. res_inv.
  rename select (parse_time (valid_from _) = _) into Hf.
  rename select (parse_time (valid_until _) = _) into Hu.
  match type of H with context [(?b <=? ?a)%Z] => exists a, b end.
  repeat match type of H with context [(?a <=? ?b)%Z] => destruct (Z.leb_spec a b); [done|]
    | context [(?a <? ?b)%Z] => destruct (Z.ltb_spec a b); [done|] end.
  repeat split; [done..|lia|lia].
Qed.

(** What a manifest accepted from a document and a signature went through. *)
Record authentic (installed : ReleaseIdentity) (last : option Z) (channel : ManifestChannelPolicy)
    (now : Z) (v : VerifiedManifest) : Prop := {
  au_signed : gpgv (signature v) (document v) = Ok true;
  au_parsed : manifest_of (document v) = Some (verified_manifest v);
  au_route : validate_manifest_route parse_url (verified_manifest v) installed last
      CARGO_PKG_VERSION channel = Ok ();
  au_time : ∃ from until, parse_time (valid_from (verified_manifest v)) = Some from
      ∧ parse_time (valid_until (verified_manifest v)) = Some until ∧ (from ≤ now < until)%Z;
}.

Lemma verify_documents_Ok d s installed last channel now w v w' :
  verify_documents d s installed last channel now w = (Ok v, w') →
  document v = d ∧ signature v = s ∧ authentic installed last channel now v
  ∧ nodes w' = nodes w.
Proof.
  unfold verify_documents. intros H.
  do 3 (apply st_bind_Ok in H as ([] & ? & ?%st_map_err_Ok & H)).
  repeat match goal with
  | H : file_call _ _ = _ |- _ => apply syscall_Ok in H as (_ & [= ?] & _)
  end.
  apply st_bind_Ok in H as ([] & w6 & H6 & H). unfold verify_signature in H6.
  apply st_bind_Ok in H6 as (ok & w7 & H7 & H6). unfold st_lift in H7. injection H7 as Hg <-.
  apply map_err_Ok in Hg. destruct ok; [|done]. injection H6 as <-. st_inv.
  rename select (ok_or _ _ = _) into Hm. apply ok_or_Ok in Hm.
  rename select (map_err _ _ = _) into Hr. apply map_err_Ok in Hr.
  rename select (validate_time_at _ _ = _) into Ht. apply validate_time_at_Ok in Ht.
  subst v. cbn. repeat (split; [done|]). congruence.
Qed.

Lemma verify_documents_nodes d s installed last channel now w :
  nodes (verify_documents d s installed last channel now w).2 = nodes w.
Proof.
  assert (st_rel unchanged (verify_documents d s installed last channel now)) as H; [|apply H].
  do 3 (apply st_rel_bind; [apply _|apply io_file_call_unchanged|intros _]).
  apply st_rel_bind; [apply _| |intros _].
  { apply st_rel_bind; [apply _|apply st_rel_lift, _|].
    intros []; [apply st_rel_ret, _|apply st_rel_throw, _]. }
  do 3 (apply st_rel_bind; [apply _|apply st_rel_lift, _|intros ?]). apply st_rel_ret, _.
Qed.

(** C32 A verified manifest is the document that was signed: the manifest is parsed
    from the very bytes, at most a megabyte in a regular file, that gpgv accepted
    with the signature next to it; its route is the one of the installed release,
    this channel and a sequence number not used before, and it is valid now. No
    file is changed. *)
Theorem manifest_authentic doc sig installed last channel now w v w' :
  verify_manifest_files doc sig installed last channel now w = (Ok v, w') →
  (∃ u m, nodes w !! doc = Some (File u m (document v)))
  ∧ (∃ u m, nodes w !! sig = Some (File u m (signature v)))
  ∧ (str_len (document v) ≤ MAX_MANIFEST_BYTES)%Z
  ∧ gpgv (signature v) (document v) = Ok true
  ∧ manifest_of (document v) = Some (verified_manifest v)
  ∧ validate_manifest_route parse_url (verified_manifest v) installed last CARGO_PKG_VERSION channel
    = Ok ()
  ∧ (∃ from until, parse_time (valid_from (verified_manifest v)) = Some from
       ∧ parse_time (valid_until (verified_manifest v)) = Some until ∧ (from ≤ now < until)%Z)
  ∧ nodes w' = nodes w.
Proof.
  unfold verify_manifest_files. intros H.
  apply st_bind_Ok in H as (d & w1 & H1 & H). apply read_regular_Ok in H1 as (Hd & Hl & H1).
  apply st_bind_Ok in H as (s & w2 & H2 & H). apply read_regular_Ok in H2 as (Hs & _ & H2).
  rewrite H1 in Hs. apply verify_documents_Ok in H as (<- & <- & Ha & Hn). destruct Ha.
  repeat (split; [done|]). congruence.
Qed.

(* ------------------------------------------------------------------ *)
(** ** The replay record *)

(** A sequence number is read back from the text the program writes. *)
Lemma parse_sequence_text n :
  (0 < n ≤ u64_max)%Z → parse_sequence (to_string n +:+ String nl "") = Ok n.
Proof.
  intros Hn. unfold parse_sequence.
  assert (bytes_all is_ascii_digit (to_string n) = true) as Hd by (apply to_string_digits; lia).
  assert (from_utf8 (to_string n +:+ String nl "") = Some (to_string n +:+ String nl "")) as ->.
  { apply from_utf8_ascii. rewrite bytes_all_app. cbn. rewrite andb_true_r.
    eapply bytes_all_impl; [|exact Hd]. apply digit_is_ascii. }
  cbn [mbind result_bind ok_or]. cbv zeta.
  assert (strip_newline (to_string n +:+ String nl "") = to_string n) as ->.
  { unfold strip_newline. by rewrite (proj2 (strip_suffix_Some _ _ _) eq_refl). }
  assert (parse_u64 (to_string n) = Some n) as Hp by (apply parse_to_string; lia).
  rewrite Hd, to_string_nonempty, Hp. cbn. by destruct (Z.ltb_spec 0 n); [|lia].
Qed.

Lemma read_regular_runs p maximum w u m content :
  fault = no_fault → nodes w !! p = Some (File u m content) → (str_len content ≤ maximum)%Z →
  ∃ w', read_regular p maximum w = (Ok content, w').
Proof.
  intros Hf Hp Hl. unfold read_regular, io, open_nofollow, file_call, syscall, mbind, st_bind,
    st_map_err. rewrite Hf, Hp. cbn.
  destruct (Z.ltb_spec maximum (str_len content)); [lia|]. by eexists.
Qed.

Lemma read_last_sequence p w u m n :
  fault = no_fault → nodes w !! p = Some (File u m (to_string n +:+ String nl "")) →
  (0 < n ≤ u64_max)%Z → ∃ w', read_last_manifest_sequence p w = (Ok (Some n), w').
Proof.
  intros Hf Hp Hn. unfold read_last_manifest_sequence.
  destruct (read_regular_runs p 32 w u m _ Hf Hp) as [w1 H1].
  { unfold str_len. rewrite string_length_app.
    pose proof (to_string_length n 20 ltac:(unfold u64_max in Hn; lia) ltac:(done)).
    change (String.length (String nl "")) with 1. lia. }
  exists w1. erewrite st_bind_eq by (by apply st_try_eq). cbn beta iota.
  unfold mbind, st_bind, st_lift. by rewrite parse_sequence_text.
Qed.
End fetch.

Example primary_fingerprint : parse_fingerprints
  ("pub:-:255:22:KEYID:0:::-:::sc" +:+ String nl ("fpr:::::::::PRIMARY:" +:+ String nl
   ("sub:-:255:22:KEYID:0" +:+ String nl ("fpr:::::::::SUBKEY:" +:+ String nl "")))) = ["PRIMARY"].
Proof. vm_compute. reflexivity. Qed.

(* ------------------------------------------------------------------ *)
(** ** A concrete document *)

Definition sample_fetch_world : world := {|
  nodes := {[["m"] := File 0 384 "manifest"; ["s"] := File 0 384 "signature"]}; calls := 0 |}.
Definition sample_verified : result FetchError VerifiedManifest * world :=
  verify_manifest_files 0 18 no_fault
    (λ text, if text ==? valid_from sample_manifest then Some 0%Z else Some 100%Z)
    (λ signature document, Ok ((signature ==? "signature") && (document ==? "manifest")))
    (λ _, Some sample_manifest) sample_parse_url "0.3.0" ["m"] ["s"] sample_release (Some 6%Z)
    Channel_Testing 50 sample_fetch_world.

Lemma manifest_authentic_witness :
  ∃ v w', sample_verified = (Ok v, w') ∧ verified_manifest v = sample_manifest
    ∧ document v = "manifest".
Proof.
  assert (∃ v w', sample_verified = (Ok v, w')) as (v & w' & E).
  { destruct sample_verified as [[v|e] w'] eqn:E; [by eauto|].
    apply (f_equal fst) in E. vm_compute in E. discriminate E. }
  exists v, w'. split; [done|].
  destruct (manifest_authentic _ _ _ _ _ _ _ _ _ _ _ _ _ _ _ _ _ E)
    as ((u & m & Hd) & _ & _ & _ & Hm & _).
  split; [by injection Hm|]. vm_compute in Hd. by injection Hd.
Defined.
