(* ===== verification/Pending.v ===== *)
(** * The scan for pending operations (src/verifier/src/pending.rs)

    Which operation waits for its verification after a boot, which ones were
    interrupted, and which entries of the state directory are neither. The order
    in which a directory is listed is the parameter [read_dir]. *)

From S2P Require Import Prelude RustStr State Fs Persistence System Executor Request.

Open Scope bool_scope.
Open Scope lyra_scope.

(** The messages are what the caller prints: a name and a reason. *)
Record PendingScan := {
  scan_operation : option (path * OperationStateRecord);
  scan_interrupted : list OperationStateRecord;
  invalid_entries : nat;
  messages : list (string * string);
}.

Definition default_scan : PendingScan := {|
  scan_operation := None; scan_interrupted := []; invalid_entries := 0; messages := [] |}.

(* ------------------------------------------------------------------ *)
(** ** Names in messages *)

Definition hex_digit (n : N) : ascii := ascii_of_N (if (n <? 10)%N then 48 + n else 87 + n).

(** [u8::escape_ascii]. *)
Definition escape_ascii (b : ascii) : string :=
  let n := bval b in
  if (n =? 9)%N then "\t"
  else if (n =? 13)%N then "\r"
  else if (n =? 10)%N then "\n"
  else if (n =? 39)%N || (n =? 34)%N || (n =? 92)%N then String "\" (String b "")
  else if in_range 32 126 b then String b ""
  else "\x" +:+ String (hex_digit (n / 16)) (String (hex_digit (n mod 16)) "").

Fixpoint escape_bytes (fuel : nat) (s : string) : string :=
  match fuel, s with
  | S fuel', String b s' => escape_ascii b +:+ escape_bytes fuel' s'
  | _, _ => ""
  end.

Definition diagnostic_name (name : string) : string :=
  escape_bytes 64 name +:+ (if (64 <? str_len name)%Z then "..." else "").

(* ------------------------------------------------------------------ *)
(** ** The scan *)

Definition interrupted_state (s : OperationState) : option OperationState :=
  match s with
  | Downloading => Some Failed
  | Snapshotting | Applying | ApplyingOffline | ReadyToReboot => Some NeedsRecovery
  | _ => None
  end.

Definition awaits_boot (s : OperationState) : bool :=
  match s with AwaitingReboot | VerifyingBoot => true | _ => false end.

(** What an entry of the directory is. *)
Inductive verdict : Type :=
  | Invalid (name reason : string)
  | Candidate (operation : path * OperationStateRecord)
  | Interrupted (r : OperationStateRecord)
  | Settled.

(** Equality of paths is that of their components. *)
Definition same_path (text : string) (p : path) : bool :=
  starts_with "/" text && bool_decide (components text = reverse p).

(** The most recent first; the identifier decides between equal times. *)
Definition newest (x y : path * OperationStateRecord) : bool :=
  le_of (updated_at y.2, operation_id x.2) (updated_at x.2, operation_id y.2).

Definition candidates (vs : list verdict) : list (path * OperationStateRecord) :=
  omap (λ v, match v with Candidate c => Some c | _ => None end) vs.
Definition interruptions (vs : list verdict) : list OperationStateRecord :=
  omap (λ v, match v with Interrupted r => Some r | _ => None end) vs.
Definition reports (vs : list verdict) : list (string * string) :=
  omap (λ v, match v with Invalid name reason => Some (diagnostic_name name, reason)
                        | _ => None end) vs.

Definition scan_of (vs : list verdict) : PendingScan := {|
  scan_operation := head (sort_by newest (candidates vs));
  scan_interrupted := interruptions vs;
  invalid_entries := length (reports vs);
  messages := reports vs |}.

Section scan.
Context (fault : nat → option (IoError * nat)).
Context (decode : string → option OperationStateRecord).
(** [fs::read_dir]: the names in the order of the system, [None] for an entry that
    cannot be read. *)
Context (read_dir : path → gmap path node → result IoError (list (option string))).
#[local] Abbreviation M := (ST world IoError).

(** A readable record, classified. *)
Definition judge (p : path) (r : OperationStateRecord) : M verdict :=
  if awaits_boot (state r) then mret (Candidate (p, r))
  else if (state r !=? ReadyToReboot) && is_some (interrupted_state (state r))
  then mret (Interrupted r)
  else if state r ==? ReadyToReboot then
    link ← st_try (E':=IoError) (read_link fault SYSTEM_UPDATE);
    mret (if is_some_and (res_ok link) (λ text, same_path text p) then Settled
          else Interrupted r)
  else mret Settled.

Definition scan_entry (root : path) (entry : option string) : M verdict :=
  match entry with
  | None => mret (Invalid "<unreadable-entry>" "directory-entry-unreadable")
  | Some name =>
      let p := join root name in
      kind ← st_try (E':=IoError) (symlink_metadata fault p);
      match kind with
      | Err _ => mret (Invalid name "directory-type-unreadable")
      | Ok n =>
          if negb (is_dir n) then mret (Invalid name "not-an-operation-directory")
          else if negb (utf8_valid name) then mret (Invalid name "non-utf8-operation-id")
          else
            file ← st_try (E':=IoError) (symlink_metadata fault (join p "state.json"));
            match file with
            | Err _ => mret (Invalid name "state-file-unavailable")
            | Ok (File _ _ _) =>
                loaded ← st_try (E':=IoError) (load_state fault decode root name);
                match loaded with
                | Err _ => mret (Invalid name "state-validation-failed")
                | Ok r => judge p r
                end
            | Ok _ => mret (Invalid name "not-a-regular-state-file")
            end
      end
  end.

Fixpoint scan_entries (root : path) (entries : list (option string)) : M (list verdict) :=
  match entries with
  | [] => mret []
  | entry :: entries' =>
      v ← scan_entry root entry; vs ← scan_entries root entries'; mret (v :: vs)
  end.

Definition pending_operation (root : path) : M PendingScan :=
  n ← st_try (E':=IoError) (symlink_metadata fault root);
  match n with
  | Err NotFound => mret default_scan
  | Err e => st_throw e
  | Ok n =>
      if negb (is_dir n) then st_throw (OtherError 22)
      else
        entries ← syscall fault (λ ns, (read_dir root ns, ns));
        vs ← scan_entries root entries;
        mret (scan_of vs)
  end.
End scan.

(* ------------------------------------------------------------------ *)
(** ** Computations that only read *)

(** Without failures of the system the answer depends on the files alone, which
    stay as they are. *)
Definition reads {E A} (m : ST world E A) : Prop :=
  ∀ w w', nodes w = nodes w' → (m w).1 = (m w').1 ∧ nodes (m w).2 = nodes w.

Lemma reads_ret {E A} (a : A) : reads (mret (M := ST world E) a).
Proof. by intros w w' H. Qed.
Lemma reads_throw {E A} (e : E) : reads (st_throw (A := A) e).
Proof. by intros w w' H. Qed.
Lemma reads_lift {E A} (r : result E A) : reads (st_lift r).
Proof. by intros w w' H. Qed.

Lemma reads_syscall {A} (f : gmap path node → result IoError A * gmap path node) :
  (∀ ns, (f ns).2 = ns) → reads (syscall no_fault f).
Proof.
  intros Hf w w' H. unfold syscall. cbn. rewrite H. specialize (Hf (nodes w')).
  destruct (f (nodes w')). by cbn in *.
Qed.

Lemma reads_bind {E A B} (m : ST world E A) (f : A → ST world E B) :
  reads m → (∀ a, reads (f a)) → reads (m ≫= f).
Proof.
  intros Hm Hf w w' H. unfold mbind, st_bind. destruct (Hm w w' H) as [Hr Hn].
  pose proof (Hm w' w (eq_sym H)) as [_ Hn'].
  destruct (m w) as [r w1], (m w') as [r' w1']. cbn in *. subst r'.
  destruct r as [a|e]; [|done]. destruct (Hf a w1 w1') as [H1 H2]; [congruence|].
  split; [done|congruence].
Qed.

Lemma reads_try {E E' A} (m : ST world E A) : reads m → reads (st_try (E' := E') m).
Proof.
  intros Hm w w' H. unfold st_try. destruct (Hm w w' H) as [Hr Hn].
  destruct (m w), (m w'). cbn in *. by subst.
Qed.

Lemma reads_map_err {E E' A} (f : E → E') (m : ST world E A) :
  reads m → reads (st_map_err f m).
Proof.
  intros Hm w w' H. unfold st_map_err. destruct (Hm w w' H) as [Hr Hn].
  destruct (m w), (m w'). cbn in *. by subst.
Qed.

Create HintDb reads.
#[export] Hint Resolve reads_ret reads_throw reads_lift reads_syscall reads_try reads_map_err : reads.

Lemma symlink_metadata_reads p : reads (symlink_metadata no_fault p).
Proof. by apply reads_syscall. Qed.
Lemma read_nofollow_reads p : reads (read_nofollow no_fault p).
Proof. apply reads_syscall. intros ns. by repeat case_match. Qed.
Lemma read_link_reads p : reads (read_link no_fault p).
Proof. apply reads_syscall. intros ns. by repeat case_match. Qed.
#[export] Hint Resolve symlink_metadata_reads read_nofollow_reads read_link_reads : reads.

Lemma reject_symlink_reads p : reads (reject_symlink no_fault p).
Proof.
  apply reads_bind; [auto with reads|]. intros [n|[]]; try destruct (is_symlink n);
    auto with reads.
Qed.
#[export] Hint Resolve reject_symlink_reads : reads.

Lemma load_state_reads decode root id : reads (load_state no_fault decode root id).
Proof.
  unfold load_state, io. cbv zeta. repeat (apply reads_bind; [by auto with reads|intros ?]).
  destruct (_ !=? _); [auto with reads|]. destruct (_ !=? _); [auto with reads|].
  apply reads_bind; auto with reads.
Qed.
#[export] Hint Resolve load_state_reads : reads.

Section reading.
Context (decode : string → option OperationStateRecord).

Lemma judge_reads p r : reads (judge no_fault p r).
Proof.
  unfold judge. destruct (awaits_boot _); [auto with reads|].
  destruct (_ && _); [auto with reads|]. destruct (_ ==? _); [|auto with reads].
  apply reads_bind; auto with reads.
Qed.

Lemma scan_entry_reads root entry : reads (scan_entry no_fault decode root entry).
Proof.
  destruct entry as [name|]; cbn; [|auto with reads]. cbv zeta.
  apply reads_bind; [auto with reads|intros [n|e]]; [|auto with reads].
  destruct (negb _); [auto with reads|]. destruct (negb _); [auto with reads|].
  apply reads_bind; [auto with reads|intros [[]|e]]; auto with reads.
  apply reads_bind; [auto with reads|intros [r|e]]; auto using judge_reads with reads.
Qed.

(** The verdict on an entry, a function of the files. *)
Definition entry_verdict (ns : gmap path node) (root : path) (entry : option string) : verdict :=
  default Settled
    (res_ok (scan_entry no_fault decode root entry {| nodes := ns; calls := 0 |}).1).

Lemma judge_Ok fault p r w : ∃ v, (judge fault p r w).1 = Ok v.
Proof.
  unfold judge. destruct (awaits_boot _); [by eexists|]. destruct (_ && _); [by eexists|].
  destruct (_ ==? _); [|by eexists]. unfold mbind, st_bind, st_try.
  destruct (read_link _ _ _). by eexists.
Qed.

Lemma scan_entry_Ok fault root entry w : ∃ v, (scan_entry fault decode root entry w).1 = Ok v.
Proof.
  destruct entry as [name|]; cbn; [|by eexists]. unfold mbind, st_bind, st_try.
  destruct (symlink_metadata _ _ _) as [[n|e] w1]; [|by eexists].
  destruct (negb _); [by eexists|]. destruct (negb _); [by eexists|].
  destruct (symlink_metadata _ _ _) as [[[]|e] w2]; try by eexists.
  destruct (load_state _ _ _ _ _) as [[r|e] w3]; [|by eexists]. apply judge_Ok.
Qed.

Lemma scan_entry_verdict root entry w :
  ∃ w', scan_entry no_fault decode root entry w = (Ok (entry_verdict (nodes w) root entry), w')
        ∧ nodes w' = nodes w.
Proof.
  destruct (scan_entry_Ok no_fault root entry w) as [v Hv].
  destruct (scan_entry_reads root entry w {| nodes := nodes w; calls := 0 |} eq_refl) as [H Hn].
  unfold entry_verdict. rewrite <- H, Hv. cbn.
  destruct (scan_entry _ _ _ _ w) as [r w']. cbn in *. subst. eauto.
Qed.

Lemma scan_entries_verdicts root entries w :
  ∃ w', scan_entries no_fault decode root entries w
        = (Ok (map (entry_verdict (nodes w) root) entries), w') ∧ nodes w' = nodes w.
Proof.
  revert w. induction entries as [|entry entries IH]; intros w; cbn; [by exists w|].
  destruct (scan_entry_verdict root entry w) as (w1 & H1 & Hn1).
  erewrite st_bind_eq by exact H1. destruct (IH w1) as (w2 & H2 & Hn2).
  erewrite st_bind_eq by exact H2. exists w2. rewrite Hn1. split; [done|congruence].
Qed.

Lemma pending_verdicts read_dir root w u m entries :
  nodes w !! root = Some (Dir u m) → read_dir root (nodes w) = Ok entries →
  ∃ w', pending_operation no_fault decode read_dir root w
        = (Ok (scan_of (map (entry_verdict (nodes w) root) entries)), w') ∧ nodes w' = nodes w.
Proof.
  intros Hr Hl. unfold pending_operation.
  assert (∃ w1, symlink_metadata no_fault root w = (Ok (Dir u m), w1) ∧ nodes w1 = nodes w)
    as (w1 & H1 & Hn1).
  { unfold symlink_metadata, syscall. cbn. rewrite Hr. by eexists. }
  erewrite st_bind_eq by (apply st_try_eq; exact H1). cbn [negb is_dir].
  erewrite st_bind_eq by (unfold syscall; cbn; rewrite Hn1, Hl; reflexivity).
  destruct (scan_entries_verdicts root entries {| nodes := nodes w; calls := S (calls w1) |})
    as (w2 & H2 & Hn2). cbn in H2, Hn2.
  erewrite st_bind_eq by exact H2. by exists w2.
Qed.
End reading.


(* ------------------------------------------------------------------ *)
(** ** Names stay harmless *)

Definition printable (s : string) : bool := bytes_all (in_range 32 126) s.

Lemma escape_ascii_printable b : printable (escape_ascii b) = true.
Proof. destruct b as [[] [] [] [] [] [] [] []]; vm_compute; reflexivity. Qed.
Lemma escape_ascii_length b : String.length (escape_ascii b) ≤ 4.
Proof. destruct b as [[] [] [] [] [] [] [] []]; vm_compute; lia. Qed.

Lemma diagnostic_name_harmless name :
  printable (diagnostic_name name) = true ∧ (str_len (diagnostic_name name) ≤ 259)%Z.
Proof.
  assert (∀ fuel s, printable (escape_bytes fuel s) = true
    ∧ String.length (escape_bytes fuel s) ≤ 4 * fuel) as H.
  { induction fuel as [|fuel IH]; intros s; [by split|]. destruct s as [|b s]; [cbn; lia|].
    destruct (IH s) as [Hp Hl]. cbn [escape_bytes]. split.
    - unfold printable in *. rewrite bytes_all_app. by rewrite Hp, escape_ascii_printable.
    - rewrite string_length_app. pose proof (escape_ascii_length b). lia. }
  destruct (H 64 name) as [Hp Hl]. unfold diagnostic_name. split.
  - unfold printable in *. rewrite bytes_all_app, Hp. by destruct (64 <? _)%Z.
  - unfold str_len at 1. rewrite string_length_app.
    destruct (64 <? str_len name)%Z; cbn [String.length]; lia.
Qed.

(* ------------------------------------------------------------------ *)
(** ** The operation that is chosen *)

Lemma le_of_prod_fst {A B} `{Ord A, Ord B} (a a' : A) (b b' : B) :
  le_of (a, b) (a', b') = true → le_of a a' = true.
Proof. unfold le_of, cmp at 1, ord_prod. cbn. by destruct (cmp a a'). Qed.

Lemma le_of_prod_snd {A B} `{OrdLaws A, OrdLaws B} (a a' : A) (b b' : B) :
  le_of (a, b) (a', b') = true → le_of a' a = true → a = a' ∧ le_of b b' = true.
Proof.
  unfold le_of, cmp at 1, ord_prod. cbn. rewrite (cmp_opp a a').
  destruct (cmp a a') eqn:E; cbn; try done. intros Hb _. by apply cmp_eq_iff in E.
Qed.

Lemma newest_total x y : newest x y = false → newest y x = true.
Proof. exact (le_of_total _ _). Qed.

Lemma newest_trans x y z : newest x y = true → newest y z = true → newest x z = true.
Proof.
  unfold newest. intros H1 H2.
  pose proof (le_of_prod_fst _ _ _ _ H1) as U1. pose proof (le_of_prod_fst _ _ _ _ H2) as U2.
  pose proof (le_of_trans _ _ _ U2 U1) as U. unfold le_of, cmp at 1, ord_prod. cbn.
  destruct (cmp (updated_at z.2) (updated_at x.2)) eqn:E; [|done|unfold le_of in U; by rewrite E in U].
  apply cmp_eq_iff in E. rewrite E in U2.
  destruct (le_of_prod_snd _ _ _ _ H1 U2) as [Hxy I1]. rewrite E, <- Hxy in H2.
  destruct (le_of_prod_snd _ _ _ _ H2 (le_of_refl _)) as [_ I2].
  pose proof (le_of_trans _ _ _ I1 I2) as I. by unfold le_of in I.
Qed.

Lemma newest_antisym x y :
  newest x y = true → newest y x = true → operation_id x.2 = operation_id y.2.
Proof.
  unfold newest. intros H1 H2.
  destruct (le_of_prod_snd _ _ _ _ H1 (le_of_prod_fst _ _ _ _ H2)) as [E I1].
  destruct (le_of_prod_snd _ _ _ _ H2 (le_of_prod_fst _ _ _ _ H1)) as [_ I2].
  by apply le_of_antisym.
Qed.

Lemma head_newest l x : head (sort_by newest l) = Some x → x ∈ l ∧ ∀ y, y ∈ l → newest x y = true.
Proof.
  apply head_sort_by; [exact newest_total|exact newest_trans|]. intros y. unfold newest. apply le_of_refl.
Qed.

Lemma head_exists l x : x ∈ l → ∃ y, head (sort_by newest l) = Some y.
Proof.
  intros H. apply (sort_by_elem newest) in H. destruct (sort_by newest l); [by apply elem_of_nil in H|].
  by eexists.
Qed.

(* ------------------------------------------------------------------ *)
(** ** What the scan finds *)

(** An interruption is a state that needs a decision, or a request for an offline
    boot that is no longer armed for this operation. *)
Definition interrupted_now (ns : gmap path node) (p : path) (r : OperationStateRecord) : bool :=
  match state r with
  | ReadyToReboot =>
      negb (match ns !! SYSTEM_UPDATE with Some (Symlink text) => same_path text p | _ => false end)
  | s => is_some (interrupted_state s)
  end.

Section found.
Context (decode : string → option OperationStateRecord).

(** The record of an entry that is an operation. *)
Record holds (ns : gmap path node) (root : path) (name : string) (r : OperationStateRecord)
  : Prop := {
  holds_directory : ∃ u m, ns !! join root name = Some (Dir u m);
  holds_name : utf8_valid name = true;
  holds_file : ∃ u m c, ns !! join (join root name) "state.json" = Some (File u m c);
  holds_record : (load_state no_fault decode root name {| nodes := ns; calls := 0 |}).1 = Ok r;
}.

Lemma symlink_metadata_sound p ns c :
  symlink_metadata no_fault p {| nodes := ns; calls := c |}
  = (ok_or NotFound (ns !! p), {| nodes := ns; calls := S c |}).
Proof. reflexivity. Qed.

Lemma load_state_at root name ns c :
  (load_state no_fault decode root name {| nodes := ns; calls := c |}).1
  = (load_state no_fault decode root name {| nodes := ns; calls := 0 |}).1
  ∧ nodes (load_state no_fault decode root name {| nodes := ns; calls := c |}).2 = ns.
Proof. by apply load_state_reads. Qed.

Lemma judge_now p r w :
  (judge no_fault p r w).1
  = Ok (if awaits_boot (state r) then Candidate (p, r)
        else if interrupted_now (nodes w) p r then Interrupted r else Settled).
Proof.
  unfold judge, interrupted_now, read_link, syscall, mbind, st_bind, st_try.
  destruct (state r); cbn; try done. rewrite eqb_refl. cbn.
  destruct (nodes w !! SYSTEM_UPDATE) as [[| |text]|]; cbn; try done.
  by destruct (same_path text p).
Qed.

Lemma entry_verdict_cases ns root name :
  (∃ r, holds ns root name r
    ∧ entry_verdict decode ns root (Some name)
      = if awaits_boot (state r) then Candidate (join root name, r)
        else if interrupted_now ns (join root name) r then Interrupted r else Settled)
  ∨ (∃ reason, entry_verdict decode ns root (Some name) = Invalid name reason
       ∧ ∀ r, ¬ holds ns root name r).
Proof.
  unfold entry_verdict, scan_entry, mbind, st_bind, st_try. rewrite symlink_metadata_sound.
  destruct (ns !! join root name) as [n|] eqn:Hd; cbn [ok_or].
  2: { right. eexists. split; [reflexivity|]. intros r [(u & m & H) _ _ _]. congruence. }
  destruct (is_dir n) eqn:Hn; cbn [negb].
  2: { right. eexists. split; [reflexivity|]. intros r [(u & m & H) _ _ _].
       by rewrite Hd in H; injection H as ->. }
  destruct (utf8_valid name) eqn:Hu; cbn [negb].
  2: { right. eexists. split; [reflexivity|]. intros r [_ H _ _]. congruence. }
  rewrite symlink_metadata_sound.
  destruct (ns !! join (join root name) "state.json") as [[u m|u m c|t]|] eqn:Hf; cbn [ok_or];
    [right; eexists; (split; [reflexivity|]); intros r [_ _ (? & ? & ? & H) _]; congruence| |
     right; eexists; (split; [reflexivity|]); intros r [_ _ (? & ? & ? & H) _]; congruence..].
  destruct (load_state_at root name ns 2) as [Hl Hns].
  destruct (load_state _ _ _ _ _) as [[r|e] w] eqn:E in Hl, Hns |- *; cbn in Hl, Hns; symmetry in Hl.
  - left. exists r. split; [split; eauto; destruct n; by eauto|].
    cbn [ok_or]. by rewrite judge_now, Hns.
  - right. eexists. split; [reflexivity|]. intros r [_ _ _ H]. congruence.
Qed.

Lemma holds_unique ns root name r r' : holds ns root name r → holds ns root name r' → r = r'.
Proof. intros [_ _ _ H] [_ _ _ H']. congruence. Qed.

Lemma holds_id ns root name r : holds ns root name r → operation_id r = name.
Proof.
  intros [_ _ _ H]. apply pair_with_fst in H. unfold load_state in H. cbv zeta in H.
  do 6 (apply st_bind_Ok in H as (? & ? & _ & H)).
  destruct (_ !=? _); [done|]. destruct (operation_id _ !=? name) eqn:E; [done|].
  apply st_bind_Ok in H as (? & ? & _ & H). injection H as <- _.
  by rewrite negb_false_iff, eqb_true in E.
Qed.

Lemma holds_verdict ns root name r :
  holds ns root name r →
  entry_verdict decode ns root (Some name)
  = if awaits_boot (state r) then Candidate (join root name, r)
    else if interrupted_now ns (join root name) r then Interrupted r else Settled.
Proof.
  intros H. destruct (entry_verdict_cases ns root name) as [(r' & H' & ->)|(? & _ & Hn)].
  - by rewrite (holds_unique _ _ _ _ _ H H').
  - by destruct (Hn r).
Qed.

(** One verdict of a kind comes from one entry. *)
Lemma verdicts_elem {B} (f : verdict → option B) ns root entries b :
  b ∈ omap f (map (entry_verdict decode ns root) entries) ↔
  ∃ entry, entry ∈ entries ∧ f (entry_verdict decode ns root entry) = Some b.
Proof.
  rewrite list_elem_of_omap. split.
  - intros (v & Hin & Hv). apply list_elem_of_fmap in Hin as (entry & -> & Hin). eauto.
  - intros (entry & Hin & Hv). exists (entry_verdict decode ns root entry). split; [|done].
    apply list_elem_of_fmap. eauto.
Qed.

Lemma candidates_elem ns root entries c :
  c ∈ candidates (map (entry_verdict decode ns root) entries) ↔
  ∃ name, Some name ∈ entries ∧ c.1 = join root name ∧ holds ns root name c.2
          ∧ awaits_boot (state c.2) = true.
Proof.
  unfold candidates. rewrite verdicts_elem. split.
  - intros ([name|] & Hin & Hv); [|done].
    destruct (entry_verdict_cases ns root name) as [(r & Hr & E)|(reason & E & _)];
      rewrite E in Hv; [|done].
    destruct (awaits_boot (state r)) eqn:Ha; [|by destruct (interrupted_now _ _ _)].
    injection Hv as <-. by exists name.
  - intros (name & Hin & Hp & Hr & Ha). exists (Some name). split; [done|].
    rewrite (holds_verdict _ _ _ _ Hr), Ha, <- Hp. by destruct c.
Qed.

Lemma interruptions_elem ns root entries r :
  r ∈ interruptions (map (entry_verdict decode ns root) entries) ↔
  ∃ name, Some name ∈ entries ∧ holds ns root name r ∧ awaits_boot (state r) = false
          ∧ interrupted_now ns (join root name) r = true.
Proof.
  unfold interruptions. rewrite verdicts_elem. split.
  - intros ([name|] & Hin & Hv); [|done].
    destruct (entry_verdict_cases ns root name) as [(r' & Hr & E)|(reason & E & _)];
      rewrite E in Hv; [|done].
    destruct (awaits_boot (state r')) eqn:Ha; [done|].
    destruct (interrupted_now _ _ _) eqn:Hi; [|done]. injection Hv as ->. by exists name.
  - intros (name & Hin & Hr & Ha & Hi). exists (Some name). split; [done|].
    by rewrite (holds_verdict _ _ _ _ Hr), Ha, Hi.
Qed.

Lemma reports_nil ns root entries :
  reports (map (entry_verdict decode ns root) entries) = [] ↔
  ∀ entry, entry ∈ entries → ∃ name r, entry = Some name ∧ holds ns root name r.
Proof.
  assert (∀ m, m ∈ reports (map (entry_verdict decode ns root) entries) ↔ _) as He
    by apply (verdicts_elem _ ns root entries).
  split.
  - intros Hn entry Hin. rewrite Hn in He. destruct entry as [name|].
    + destruct (entry_verdict_cases ns root name) as [(r & Hr & _)|(reason & E & _)]; [by eauto|].
      exfalso. apply (not_elem_of_nil (diagnostic_name name, reason)), He.
      exists (Some name). split; [done|]. by rewrite E.
    + exfalso. eapply not_elem_of_nil, He. exists None. by split.
  - intros H. apply elem_of_nil_inv. intros m (entry & Hin & Hv)%He.
    destruct (H entry Hin) as (name & r & -> & Hr). rewrite (holds_verdict _ _ _ _ Hr) in Hv.
    destruct (awaits_boot _); [done|]. by destruct (interrupted_now _ _ _).
Qed.

Lemma reports_harmless vs :
  Forall (λ m, printable m.1 = true ∧ (str_len m.1 ≤ 259)%Z) (reports vs).
Proof.
  apply Forall_forall. intros m (v & _ & Hv)%list_elem_of_omap.
  destruct v; [|done..]. injection Hv as <-. apply diagnostic_name_harmless.
Qed.

(** C38 A scan in which no call fails finds all work and changes no file: an operation
    that awaits its verification is never hidden by other entries, the one chosen
    is among the most recent of them, the interrupted operations are exactly those
    whose record says so, the scan counts as complete exactly when every entry of the
    directory is an operation with a valid record, and what is printed of a name is
    printable and short. *)
Theorem scan_finds_all read_dir root w u m entries scan w' :
  nodes w !! root = Some (Dir u m) → read_dir root (nodes w) = Ok entries →
  pending_operation no_fault decode read_dir root w = (Ok scan, w') →
  (∀ name r, Some name ∈ entries → holds (nodes w) root name r → awaits_boot (state r) = true →
     ∃ p r', scan_operation scan = Some (p, r') ∧ le_of (updated_at r) (updated_at r') = true)
  ∧ (∀ p r, scan_operation scan = Some (p, r) →
       ∃ name, Some name ∈ entries ∧ p = join root name ∧ holds (nodes w) root name r
         ∧ awaits_boot (state r) = true)
  ∧ (∀ r, r ∈ scan_interrupted scan ↔
       ∃ name, Some name ∈ entries ∧ holds (nodes w) root name r
         ∧ awaits_boot (state r) = false ∧ interrupted_now (nodes w) (join root name) r = true)
  ∧ (invalid_entries scan = 0 ↔
       ∀ entry, entry ∈ entries → ∃ name r, entry = Some name ∧ holds (nodes w) root name r)
  ∧ Forall (λ m, printable m.1 = true ∧ (str_len m.1 ≤ 259)%Z) (messages scan)
  ∧ nodes w' = nodes w.
Proof.
  intros Hr Hl H. destruct (pending_verdicts decode read_dir root w u m entries Hr Hl)
    as (w1 & H1 & Hn). rewrite H1 in H. injection H as <- <-.
  split; [|split; [|split; [|split; [|split]]]]; cbn [scan_of scan_operation scan_interrupted messages].
  - intros name r Hin Hh Ha.
    assert ((join root name, r) ∈ candidates (map (entry_verdict decode (nodes w) root) entries))
      as Hc by (apply candidates_elem; eauto).
    destruct (head_exists _ _ Hc) as [[p r'] Hd]. exists p, r'. split; [done|].
    apply head_newest in Hd as [_ Hd]. specialize (Hd _ Hc). by apply le_of_prod_fst in Hd.
  - intros p r Hd. apply head_newest in Hd as [Hc _].
    apply candidates_elem in Hc as (name & Hin & Hp & Hh & Ha). by exists name.
  - apply interruptions_elem.
  - rewrite <- reports_nil. cbn [invalid_entries scan_of]. by destruct (reports _).
  - apply reports_harmless.
  - done.
Qed.

Lemma omap_perm {A B} (f : A → option B) l1 l2 : l1 ≡ₚ l2 → omap f l1 ≡ₚ omap f l2.
Proof. by intros ->. Qed.

(** The order in which the system lists the state directory is irrelevant: two
    listings of the same entries choose the same operation, and report the same
    interrupted operations and the same number of invalid entries. *)
Theorem scan_order_irrelevant read_dir read_dir' root w u m entries entries' :
  nodes w !! root = Some (Dir u m) →
  read_dir root (nodes w) = Ok entries → read_dir' root (nodes w) = Ok entries' →
  entries ≡ₚ entries' →
  ∃ scan w1 scan' w2,
    pending_operation no_fault decode read_dir root w = (Ok scan, w1)
    ∧ pending_operation no_fault decode read_dir' root w = (Ok scan', w2)
    ∧ scan_operation scan = scan_operation scan'
    ∧ scan_interrupted scan ≡ₚ scan_interrupted scan'
    ∧ invalid_entries scan = invalid_entries scan' ∧ messages scan ≡ₚ messages scan'.
Proof.
  intros Hr H1 H2 Hp.
  destruct (pending_verdicts decode read_dir root w u m entries Hr H1) as (w1 & E1 & _).
  destruct (pending_verdicts decode read_dir' root w u m entries' Hr H2) as (w2 & E2 & _).
  eexists _, w1, _, w2. split; [exact E1|]. split; [exact E2|].
  pose proof (fmap_Permutation (entry_verdict decode (nodes w) root) _ _ Hp) as Hv.
  change (map (entry_verdict decode (nodes w) root) entries ≡ₚ
          map (entry_verdict decode (nodes w) root) entries') in Hv.
  cbn [scan_of scan_operation scan_interrupted invalid_entries messages].
  split; [|split; [by apply omap_perm|split; [|by apply omap_perm]]].
  - f_equal. eapply strongly_sorted_unique.
    2, 3: apply sort_by_sorted; [exact newest_total|exact newest_trans].
    + intros x y Hx Hy Hxy Hyx. apply sort_by_elem in Hx, Hy.
      pose proof (newest_antisym _ _ Hxy Hyx) as Hid.
      apply candidates_elem in Hx as (name & _ & Hxp & Hxr & _).
      apply candidates_elem in Hy as (name' & _ & Hyp & Hyr & _).
      apply holds_id in Hxr as Hxi. apply holds_id in Hyr as Hyi.
      assert (name' = name) as -> by congruence.
      destruct x as [xp xr], y as [yp yr]. cbn in *. f_equal; [congruence|].
      by eapply holds_unique.
    + rewrite !sort_by_perm. by apply omap_perm.
  - by apply Permutation_length, omap_perm.
Qed.
End found.

(* ------------------------------------------------------------------ *)
(** ** A concrete state directory *)

Definition sample_waiting : OperationStateRecord :=
  set_snapshot_number (sample_record ReleaseUpgrade AwaitingReboot) (Some 7%Z).
Definition waiting_decode (text : string) : option OperationStateRecord :=
  if text ==? "waiting" then Some sample_waiting else None.
Definition waiting_world : world := {|
  nodes := <[join (join sample_root (operation_id sample_waiting)) "state.json" := File 0 384 "waiting"]>
    (<[join sample_root (operation_id sample_waiting) := Dir 0 448]>
    (<[join sample_root ("notes" +:+ String nl "") := File 0 420 ""]>
    (<[sample_root := Dir 0 448]> (nodes sample_world)))); calls := 0 |}.
Definition sample_listing : list (option string) :=
  [None; Some ("notes" +:+ String nl ""); Some (operation_id sample_waiting)].
Definition sample_scan : result IoError PendingScan * world :=
  pending_operation no_fault waiting_decode (λ _ _, Ok sample_listing) sample_root waiting_world.

(** The stray file does not hide the operation, and its name is escaped. *)
Example sample_scan_found : sample_scan.1 = Ok {|
  scan_operation := Some (join sample_root (operation_id sample_waiting), sample_waiting);
  scan_interrupted := []; invalid_entries := 2;
  messages := [("<unreadable-entry>", "directory-entry-unreadable");
               ("notes\n", "not-an-operation-directory")] |}.
Proof. vm_compute. reflexivity. Qed.

Lemma sample_scan_eq : ∃ scan, sample_scan = (Ok scan, sample_scan.2).
Proof. eexists. apply pair_with_fst. exact sample_scan_found. Qed.

Lemma scan_finds_all_witness :
  ∃ scan p r, sample_scan = (Ok scan, sample_scan.2) ∧ scan_operation scan = Some (p, r).
Proof.
  destruct sample_scan_eq as [scan E].
  destruct (scan_finds_all waiting_decode (λ _ _, Ok sample_listing) sample_root waiting_world 0 448
    sample_listing scan sample_scan.2 ltac:(vm_compute; reflexivity) eq_refl E) as (H & _).
  destruct (H (operation_id sample_waiting) sample_waiting) as (p & r & Hp & _).
  - apply list_elem_of_In. right. right. by left.
  - split; [by exists 0%Z, 448%Z|reflexivity|by exists 0%Z, 384%Z, "waiting"|].
    vm_compute. reflexivity.
  - reflexivity.
  - exists scan, p, r. split; [exact E|exact Hp].
Defined.

Lemma scan_order_irrelevant_witness :
  ∃ scan w1 scan' w2,
    pending_operation no_fault waiting_decode (λ _ _, Ok sample_listing) sample_root waiting_world
      = (Ok scan, w1)
    ∧ pending_operation no_fault waiting_decode (λ _ _, Ok (rev sample_listing)) sample_root
        waiting_world = (Ok scan', w2)
    ∧ scan_operation scan = scan_operation scan'.
Proof.
  destruct (scan_order_irrelevant waiting_decode (λ _ _, Ok sample_listing)
    (λ _ _, Ok (rev sample_listing)) sample_root waiting_world 0 448 sample_listing
    (rev sample_listing) ltac:(vm_compute; reflexivity) eq_refl eq_refl)
    as (scan & w1 & scan' & w2 & H1 & H2 & H & _).
  - apply Permutation_rev.
  - exists scan, w1, scan', w2. split; [exact H1|]. split; [exact H2|exact H].
Defined.
