(* ===== verification/Verifier.v ===== *)
(** * The verifier after a reboot (src/verifier/src/main.rs)

    The program that looks for the operation the reboot belongs to, runs itself as
    a supervised child to check the machine, and records the result. The scan is
    that of Pending.v, the dependency check that of Dependencies.v. A child that
    ends by itself is run on the files of the parent; of one that is killed nothing
    is kept, as all it could leave is the inventory it was writing. *)

From S2P Require Import Prelude RustStr Recovery State Fs Persistence Preflight Solver Plan.
From S2P Require Import ManifestData Discovery Inventory Protocol System Planner Executor Request.
From S2P Require Import OnlineUpdate Staging Dependencies ManifestFetch Pending Fixture.

Open Scope bool_scope.
Open Scope lyra_scope.

Definition STATE_ROOT : path := ["operations"; "lyra-upgrade"; "lib"; "var"].
Definition SEQUENCE_PATH : path := ["last-manifest-sequence"; "lyra-upgrade"; "lib"; "var"].

(* ------------------------------------------------------------------ *)
(** ** The outcome of a check *)

Inductive CheckFailure : Set :=
  | Check_Discovery | Check_Identity | Check_Filesystem | Check_RpmDatabase | Check_Dependencies
  | Check_BootTarget | Check_FailedUnits | Check_Grub | Check_Timeout | Check_Worker
  | Check_Rollback | Check_Inventory.

#[export] Instance CheckFailure_eq_dec : EqDecision CheckFailure.
Proof. solve_decision. Defined.

(** The discriminant is the exit code of the child. *)
Definition number (self : CheckFailure) : Z :=
  match self with
  | Check_Discovery => 10 | Check_Identity => 11 | Check_Filesystem => 12
  | Check_RpmDatabase => 13 | Check_Dependencies => 14 | Check_BootTarget => 15
  | Check_FailedUnits => 16 | Check_Grub => 17 | Check_Timeout => 18 | Check_Worker => 19
  | Check_Rollback => 20 | Check_Inventory => 21
  end.

Definition failure_code (self : CheckFailure) : string :=
  match self with
  | Check_Discovery => "POST_BOOT_DISCOVERY_FAILED"
  | Check_Identity => "POST_BOOT_IDENTITY_FAILED"
  | Check_Filesystem => "POST_BOOT_FILESYSTEM_FAILED"
  | Check_RpmDatabase => "POST_BOOT_RPM_DATABASE_FAILED"
  | Check_Dependencies => "POST_BOOT_DEPENDENCIES_FAILED"
  | Check_BootTarget => "POST_BOOT_TARGET_NOT_ACTIVE"
  | Check_FailedUnits => "POST_BOOT_FAILED_UNITS"
  | Check_Grub => "POST_BOOT_GRUB_FAILED"
  | Check_Timeout => "POST_BOOT_VERIFICATION_TIMEOUT"
  | Check_Worker => "POST_BOOT_WORKER_FAILED"
  | Check_Rollback => "POST_BOOT_ROLLBACK_IDENTITY_FAILED"
  | Check_Inventory => "POST_BOOT_INVENTORY_FAILED"
  end.

(** [code] is the exit code, or 128 and the signal. *)
Definition from_status (code : option Z) : option CheckFailure :=
  match code with
  | Some 0%Z => None
  | Some 10%Z => Some Check_Discovery
  | Some 11%Z => Some Check_Identity
  | Some 12%Z => Some Check_Filesystem
  | Some 13%Z => Some Check_RpmDatabase
  | Some 14%Z => Some Check_Dependencies
  | Some 15%Z => Some Check_BootTarget
  | Some 16%Z => Some Check_FailedUnits
  | Some 17%Z => Some Check_Grub
  | Some 20%Z => Some Check_Rollback
  | Some 21%Z => Some Check_Inventory
  | Some 124%Z | Some 137%Z => Some Check_Timeout
  | _ => Some Check_Worker
  end.

Definition verify_release (r : OperationStateRecord) (actual : ReleaseIdentity)
  : result CheckFailure unit :=
  if is_some (recovery r) then
    if actual !=? State.source r then Err Check_Identity else Ok ()
  else if is_some_and (last_completed_step r) (starts_with "rollback-") then Err Check_Rollback
  else if is_some_and (State.target r) (λ target, actual !=? target) then Err Check_Identity
  else Ok ().

(** The records of a verification that passed and of one that did not. *)
Definition completed (r : OperationStateRecord) : OperationStateRecord :=
  let r := set_sequence r (saturating_add (sequence r) 1) in
  let r := set_state r Completed in
  let r := set_boot_verification r (Some Boot_Passed) in
  let r := set_last_completed_step r
    (Some (if is_some (recovery r) then "rollback-verified" else "post-boot-verification")) in
  set_error_code r None.
Definition not_verified (r : OperationStateRecord) (code : string) : OperationStateRecord :=
  let r := set_sequence r (saturating_add (sequence r) 1) in
  let r := set_state r NeedsRecovery in
  let r := set_boot_verification r (Some Boot_Failed) in
  set_error_code r (Some code).
Definition interrupted (r : OperationStateRecord) (next : OperationState) : OperationStateRecord :=
  let r := set_state r next in
  let r := set_sequence r (saturating_add (sequence r) 1) in
  set_error_code r (Some "OPERATION_INTERRUPTED").

(* ------------------------------------------------------------------ *)
(** ** The checks *)

Section verifier.
Context `{HL : !Libraries} (oracle : Oracle).
Context (euid umask : Z) (fault : nat → option (IoError * nat)).
Context (pid : Z) (nonce : nat → Z) (fresh : nat → string).
(** quick_xml over the answer of zypper, the [sequence] member of a JSON document
    when it is an unsigned integer, and the listing of directories. *)
Context (verify_events : string → list (option Dependencies.event)).
Context (json_sequence : string → option Z).
Context (read_dir : path → gmap path node → result IoError (list (option string))).

#[local] Abbreviation C := (ST execution CheckFailure).

Definition run (program : string) (arguments : list string) : C bool :=
  output ← perform oracle (Run program arguments); mret (success output).

Definition dependencies_verify : C bool :=
  output ← perform oracle DependencyOutput;
  mret match output with
       | None => false
       | Some (ok, bytes) =>
           if (Dependencies.MAX_OUTPUT <? str_len bytes)%Z then false
           else healthy_output verify_events ok bytes
       end.

Definition load_inventory (p : path) : ST world IoError InventoryReport :=
  n ← open_nofollow euid umask fault p false false 0;
  _ ← file_call fault;
  match n with
  | File _ _ content =>
      _ ← file_call fault;
      if (4 * 1024 * 1024 <? str_len content)%Z then st_throw (OtherError 0)
      else
        _ ← file_call fault;
        report ← st_lift (ok_or (OtherError 0) (inventory_parse content));
        if inventory_schema_version report !=? 1%Z then st_throw (OtherError 0) else mret report
  | _ => st_throw (OtherError 0)
  end.

Definition failed_arguments : list string :=
  ["--failed"; "--no-legend"; "--plain"; "--no-pager"; "list-units"].

Definition disk_check {A} (f : CheckFailure) (m : ST world IoError A) : C A :=
  on_disk (st_map_err (λ _, f) m).
Definition require (f : CheckFailure) (m : C bool) : C unit :=
  ok ← m; if (ok : bool) then mret () else st_throw f.

(** No unit failed. *)
Definition check_units : C unit :=
  failed ← perform oracle (Run "systemctl" failed_arguments);
  if negb (success failed) || negb (is_white (stdout failed))
  then st_throw Check_FailedUnits else mret ().

(** The machine itself: release, rollback identity, file system. *)
Definition check_host (r : OperationStateRecord) : C unit :=
  view ← perform oracle LiveView;
  facts ← st_lift (map_err (λ _, Check_Discovery) (@discover_host view mounts_json []).1);
  _ ← st_lift (verify_release r (release facts));
  _ ← match recovery r with
      | Some goal =>
          btrfs ← perform oracle BtrfsView;
          st_lift (map_err (λ _, Check_Rollback) (verify_rollback_boot btrfs goal))
      | None => mret ()
      end;
  if (root_filesystem facts !=? "btrfs") || negb (snapper_root_configured facts)
  then st_throw Check_Filesystem else mret ().

(** The packages are those the operation was to leave. *)
Definition check_packages (r : OperationStateRecord) (report : InventoryReport) : C unit :=
  let operation_dir := join STATE_ROOT (operation_id r) in
  match recovery r with
  | Some _ =>
      before ← disk_check Check_Inventory
        (load_inventory (join operation_dir "inventory-before.json"));
      if inventory_packages before !=? inventory_packages report
      then st_throw Check_Inventory else mret ()
  | None =>
      text ← disk_check Check_Inventory (read_file fault (join operation_dir "plan.json"));
      plan ← st_lift (ok_or Check_Inventory (plan_parse text));
      if res_ok (Planner.plan_sha256 plan) !=? Some (State.plan_sha256 r)
      then st_throw Check_Inventory
      else st_lift (map_err (λ _, Check_Inventory) (verify_result plan report))
  end.

Definition verify (r : OperationStateRecord) : C unit :=
  _ ← check_host r;
  _ ← require Check_RpmDatabase (run "rpm" ["--verifydb"]);
  _ ← require Check_Dependencies dependencies_verify;
  _ ← require Check_BootTarget (run "systemctl" ["is-active"; "--quiet"; "multi-user.target"]);
  _ ← check_units;
  _ ← require Check_Grub (run "test" ["-s"; "/boot/grub2/grub.cfg"]);
  report ← attempt oracle (λ _, Check_Inventory) CaptureInventory;
  _ ← disk_check Check_Inventory
        (save_inventory euid umask fault fresh (join STATE_ROOT (operation_id r))
           "inventory-after.json" report);
  check_packages r report.

(** The child. *)
Definition check_boot (id : string) : C unit :=
  r ← on_disk (st_map_err (λ _, Check_Worker) (load_state fault record_parse STATE_ROOT id));
  verify r.

(** The exit code of the child under [timeout], [None] when it did not start. *)
Definition bounded_status {E} (id : string) : ST execution E (option Z) :=
  ended ← perform oracle (Supervise id);
  match ended with
  | Finished =>
      checked ← st_try (check_boot id);
      mret (Some match checked with Ok _ => 0%Z | Err f => number f end)
  | TimedOut => mret (Some 124%Z)
  | KilledBy signal => mret (Some (128 + Z.pos signal)%Z)
  | NotStarted => mret None
  end.

(* ------------------------------------------------------------------ *)
(** ** The result *)

Definition read_manifest_sequence (operation_dir : path) : ST world IoError (option Z) :=
  let p := join operation_dir "manifest.json" in
  metadata ← st_try (E':=IoError) (symlink_metadata fault p);
  match metadata with
  | Ok (File _ _ content) =>
      if (1024 * 1024 <? str_len content)%Z then mret None
      else
        document ← st_try (E':=IoError) (read_file fault p);
        mret (res_ok document ≫= json_sequence)
  | _ => mret None
  end.

Definition with_tmp (p : path) : path :=
  match p with [] => [] | name :: above => tmp_name name :: above end.

Definition write_sequence (p : path) (sequence : Z) : ST world IoError unit :=
  previous ← st_try (E':=IoError) (read_last_manifest_sequence euid umask fault p);
  if match previous with
     | Ok (Some previous) => (sequence <? previous)%Z | Ok None => false | Err _ => true end
  then st_throw (OtherError 0)
  else
    let temporary := with_tmp p in
    _ ← create_new euid umask fault temporary 384;
    _ ← write_all fault temporary (to_string sequence);
    _ ← write_all fault temporary (String nl "");
    _ ← sync_all fault;
    _ ← rename fault temporary p;
    match parent p with
    | None => st_throw (OtherError 22)
    | Some above => _ ← open_any fault above; sync_all fault
    end.

(** The number of the manifest is consumed before the operation counts as done. *)
Definition consume_sequence (r : OperationStateRecord) (operation_dir sequence_path : path)
  : ST world IoError bool :=
  if is_none (recovery r) && is_signed_offline (State.operation r) then
    found ← read_manifest_sequence operation_dir;
    match found with
    | None => mret false
    | Some sequence =>
        written ← st_try (E':=IoError) (write_sequence sequence_path sequence);
        mret (is_ok written)
    end
  else mret true.

Definition finalize_verification (r : OperationStateRecord) (operation_dir sequence_path : path)
    (passed : bool) : ST world IoError OperationStateRecord :=
  if passed then
    persisted ← consume_sequence r operation_dir sequence_path;
    mret (if (persisted : bool) then completed r
          else not_verified r "MANIFEST_SEQUENCE_PERSIST_FAILED")
  else mret (not_verified r "POST_BOOT_VERIFICATION_FAILED").

(* ------------------------------------------------------------------ *)
(** ** The program: an error is its exit code, 101 that of a panic *)

#[local] Abbreviation M := (ST execution Z).

Definition persist (r : OperationStateRecord) : M unit :=
  on_disk (st_map_err (λ _, 1%Z)
    (λ w, save_state euid umask fault pid (nonce (calls w)) record_json STATE_ROOT r w)).

Fixpoint mark_interrupted (rs : list OperationStateRecord) : M unit :=
  match rs with
  | [] => mret ()
  | r :: rs' =>
      next ← st_lift (ok_or 101%Z (interrupted_state (state r)));
      _ ← persist (interrupted r next);
      mark_interrupted rs'
  end.

Definition begin_verification (r : OperationStateRecord) : M OperationStateRecord :=
  r ← (if state r ==? AwaitingReboot
       then st_lift (map_err (λ _, 101%Z) (transition_to r VerifyingBoot)) else mret r);
  _ ← persist r;
  mret r.

Definition failure_of (status : option Z) : option CheckFailure :=
  match status with None => Some Check_Worker | code => from_status code end.

Definition verify_operation (operation_dir : path) (r : OperationStateRecord) (other_work : bool)
  : M unit :=
  r ← begin_verification r;
  status ← bounded_status (operation_id r);
  let failure := failure_of status in
  r ← on_disk (st_map_err (λ _, 101%Z)
        (finalize_verification r operation_dir SEQUENCE_PATH (is_none failure)));
  let r := match failure with Some f => set_error_code r (Some (failure_code f)) | None => r end in
  _ ← persist r;
  if (state r !=? Completed) || other_work then st_throw 1%Z else mret ().

Definition verify_pending : M unit :=
  _ ← st_map_err (λ _, 1%Z) (acquire_lock oracle euid umask fault);
  scan ← on_disk (st_map_err (λ _, 1%Z)
           (pending_operation fault record_parse read_dir STATE_ROOT));
  _ ← mark_interrupted (scan_interrupted scan);
  let other_work := negb (invalid_entries scan =? 0)%nat
                    || negb (bool_decide (scan_interrupted scan = [])) in
  match scan_operation scan with
  | None => if other_work then st_throw 1%Z else mret ()
  | Some (operation_dir, r) => verify_operation operation_dir r other_work
  end.

Definition main (arguments : list string) : M unit :=
  match arguments with
  | [] => verify_pending
  | [mode; id] =>
      if mode ==? "--check-boot" then
        checked ← st_try (check_boot id);
        match checked with Err f => st_throw (number f) | Ok _ => mret () end
      else st_throw 2%Z
  | _ => st_throw 2%Z
  end.
End verifier.

(* ------------------------------------------------------------------ *)
(** ** The replay record *)

(** What the record says when no call fails. *)
Definition recorded (ns : gmap path node) (p : path) : result FetchError (option Z) :=
  (read_last_manifest_sequence 0 0 no_fault p {| nodes := ns; calls := 0 |}).1.

Lemma recorded_at ns ns' p : ns !! p = ns' !! p → recorded ns p = recorded ns' p.
Proof.
  intros H. unfold recorded, read_last_manifest_sequence, read_regular, ManifestFetch.io,
    open_nofollow, file_call, symlink_metadata, syscall, mbind, st_bind, st_try, st_map_err. cbn.
  rewrite H. destruct (ns' !! p) as [[u m|u m c|t]|] eqn:E; cbn; try done; [|by rewrite H, E].
  destruct (_ <? _)%Z; [done|]. cbn. unfold st_lift. by destruct (parse_sequence c).
Qed.

Lemma recorded_text ns p u m n :
  ns !! p = Some (File u m (to_string n +:+ String nl "")) → (0 < n ≤ u64_max)%Z →
  recorded ns p = Ok (Some n).
Proof.
  intros Hp Hn. unfold recorded.
  destruct (read_last_sequence 0 0 no_fault p {| nodes := ns; calls := 0 |} u m n eq_refl Hp Hn)
    as [w' ->]. done.
Qed.

Lemma recorded_file ns p u m c v :
  ns !! p = Some (File u m c) → (str_len c ≤ 32)%Z → parse_sequence c = Ok v →
  recorded ns p = Ok (Some v).
Proof.
  intros Hp Hl Hv. unfold recorded, read_last_manifest_sequence.
  destruct (read_regular_runs 0 0 no_fault p 32 {| nodes := ns; calls := 0 |} u m c eq_refl Hp Hl)
    as [w' H]. erewrite st_bind_eq by (by apply st_try_eq). cbn beta iota.
  unfold mbind, st_bind, st_lift. by rewrite Hv.
Qed.

Lemma recorded_missing ns p : ns !! p = None → recorded ns p = Ok None.
Proof.
  intros H. unfold recorded, read_last_manifest_sequence, read_regular, ManifestFetch.io,
    open_nofollow, symlink_metadata, syscall, mbind, st_bind, st_try, st_map_err. cbn.
  rewrite H. cbn. by rewrite H.
Qed.

Section replay.
Context (euid umask : Z) (fault : nat → option (IoError * nat)).
(** The system says [NotFound] only of what does not exist. *)
Context (Hfault : ∀ n k, fault n ≠ Some (NotFound, k)).

Lemma syscall_Err {A} (f : gmap path node → result IoError A * gmap path node) w w' :
  syscall fault f w = (Err NotFound, w') → (f (nodes w)).1 = Err NotFound.
Proof.
  unfold syscall. destruct (fault (calls w)) as [[e k]|] eqn:E.
  - intros [= -> <-]. by destruct (Hfault _ _ E).
  - destruct (f (nodes w)) as [r ns]. by intros [= -> _].
Qed.

Lemma read_regular_missing p maximum w w' :
  read_regular euid umask fault p maximum w = (Err (Fetch_Io NotFound), w') → nodes w !! p = None.
Proof.
  unfold read_regular. intros H.
  apply st_bind_Err in H as [H|(n & w1 & _ & H)].
  { apply st_map_err_Err in H as (e & H & [= <-]). apply syscall_Err in H.
    by destruct (nodes w !! p) as [[]|]. }
  apply st_bind_Err in H as [H|([] & w2 & _ & H)].
  { apply st_map_err_Err in H as (e & H & [= <-]). by apply syscall_Err in H. }
  destruct n; try done. destruct (_ <? _)%Z; [done|].
  apply st_bind_Err in H as [H|([] & w3 & _ & H)]; [|done].
  apply st_map_err_Err in H as (e & H & [= <-]). by apply syscall_Err in H.
Qed.

Lemma read_last_truth p w o w' :
  read_last_manifest_sequence euid umask fault p w = (Ok o, w') →
  recorded (nodes w) p = Ok o ∧ nodes w' = nodes w.
Proof.
  unfold read_last_manifest_sequence. intros H. apply st_bind_try in H as (r & w1 & H1 & H).
  pose proof (read_regular_nodes euid umask fault p 32 w) as Hn. rewrite H1 in Hn. cbn in Hn.
  destruct r as [bytes|e].
  - apply read_regular_Ok in H1 as ((u & m & Hp) & Hl & _).
    apply st_bind_Ok in H as (v & w2 & H2 & H). injection H as <- <-.
    unfold st_lift in H2. injection H2 as Hv <-. split; [by eapply recorded_file|done].
  - destruct e; try done. destruct e; try done. apply read_regular_missing in H1.
    apply st_bind_try in H as (n & w2 & H2 & H).
    pose proof (symlink_metadata_nodes fault p w1) as Hn2. rewrite H2 in Hn2. cbn in Hn2.
    destruct n; [done|]. injection H as <- <-. split; [by apply recorded_missing|congruence].
Qed.

(** The steps that write the record. *)
Lemma write_record_spec p t n w x w' :
  t ≠ p →
  (_ ← create_new euid umask fault t 384;
   _ ← write_all fault t (to_string n);
   _ ← write_all fault t (String nl "");
   _ ← sync_all fault;
   _ ← rename fault t p;
   match parent p with
   | None => st_throw (OtherError 22)
   | Some above => _ ← open_any fault above; sync_all fault
   end) w = (x, w') →
  (nodes w' !! p = nodes w !! p ∨ ∃ m, nodes w' !! p = Some (File euid m (to_string n +:+ String nl "")))
  ∧ (x = Ok () → ∃ m, nodes w' !! p = Some (File euid m (to_string n +:+ String nl ""))).
Proof.
  intros Hne H.
  assert (∀ A (m : ST world IoError A) v y v',
    st_rel (touches (λ q, q = t)) m → m v = (y, v') → nodes v' !! p = nodes v !! p) as Hd.
  { intros A m v y v' Hm E. specialize (Hm v). rewrite E in Hm. apply Hm. congruence. }
  apply st_bind_cases in H as [(e & H1 & ->)|([] & w1 & H1 & H)];
    pose proof (Hd _ _ _ _ _ (create_new_touches _ _ _ _ _) H1) as D1; [split; [by left|done]|].
  apply st_bind_cases in H as [(e & H2 & ->)|([] & w2 & H2 & H)];
    pose proof (Hd _ _ _ _ _ (write_all_touches _ _ _) H2) as D2;
    [split; [left; congruence|done]|].
  apply st_bind_cases in H as [(e & H3 & ->)|([] & w3 & H3 & H)];
    pose proof (Hd _ _ _ _ _ (write_all_touches _ _ _) H3) as D3;
    [split; [left; congruence|done]|].
  apply st_bind_cases in H as [(e & H4 & ->)|([] & w4 & H4 & H)];
    pose proof (Hd _ _ _ _ _ (sync_all_touches _ _) H4) as D4;
    [split; [left; congruence|done]|].
  apply create_new_Ok in H1 as [m Hm].
  eapply write_all_Ok in H2; [|exact Hm]. eapply write_all_Ok in H3; [|exact H2].
  apply sync_all_Ok in H4.
  apply st_bind_cases in H as [(e & H5 & ->)|([] & w5 & H5 & H)].
  - split; [|done]. apply rename_result in H5 as [->|(? & _)]; [left; congruence|done].
  - apply rename_Ok in H5.
    assert (nodes w' !! p = nodes w5 !! p) as ->.
    { destruct (parent p) as [above|]; [|by injection H as _ <-].
      assert (st_rel (touches (λ _, False)) (_ ← open_any fault above; sync_all fault)) as Ht.
      { apply st_rel_bind; [apply _| |intros _]; auto with frames. }
      specialize (Ht w5). rewrite H in Ht. apply Ht. auto. }
    rewrite H5, H4, H3. eauto.
Qed.

(** C34 The replay record never goes back, whichever call fails: a run that writes the
    number of a manifest leaves the record as it was or holding exactly that number,
    holds it when it reports success, and if the record was readable before it is
    readable afterwards with a number that is not smaller. *)
Theorem replay_record_monotone p n w x w' :
  with_tmp p ≠ p → (0 < n ≤ u64_max)%Z →
  write_sequence euid umask fault p n w = (x, w') →
  (recorded (nodes w') p = recorded (nodes w) p ∨ recorded (nodes w') p = Ok (Some n))
  ∧ (x = Ok () → recorded (nodes w') p = Ok (Some n))
  ∧ (∀ previous, recorded (nodes w) p = Ok (Some previous) →
       ∃ next, recorded (nodes w') p = Ok (Some next) ∧ (previous ≤ next)%Z).
Proof.
  intros Hne Hn H. unfold write_sequence in H. apply st_bind_try in H as (r & w1 & H1 & H).
  assert (nodes w1 = nodes w) as Hw1.
  { pose proof (read_last_nodes euid umask fault p w) as E. by rewrite H1 in E. }
  assert (∀ e, st_throw (A:=unit) e w1 = (x, w') →
    (recorded (nodes w') p = recorded (nodes w) p ∨ recorded (nodes w') p = Ok (Some n))
    ∧ (x = Ok () → recorded (nodes w') p = Ok (Some n))
    ∧ (∀ previous, recorded (nodes w) p = Ok (Some previous) →
         ∃ next, recorded (nodes w') p = Ok (Some next) ∧ (previous ≤ next)%Z)) as Hstop.
  { intros e [= <- <-]. rewrite Hw1. split; [by left|]. split; [done|]. intros k Hk. exists k. by split. }
  destruct r as [o|e]; [|by eapply Hstop]. apply read_last_truth in H1 as [Ho _].
  destruct (match o with Some previous => (n <? previous)%Z | None => false end) eqn:Eo.
  { destruct o; rewrite ?Eo in H; by eapply Hstop. }
  assert (∀ previous, o = Some previous → (previous ≤ n)%Z) as Hle.
  { intros previous ->. by apply Z.ltb_ge. }
  replace (match o with Some previous => (n <? previous)%Z | None => false end) with false in H.
  apply write_record_spec in H as [Hold Hnew]; [|done]. rewrite Hw1 in Hold.
  assert (recorded (nodes w') p = recorded (nodes w) p ∨ recorded (nodes w') p = Ok (Some n)) as Hc.
  { destruct Hold as [E|(m & E)]; [left; by apply recorded_at|right; by eapply recorded_text]. }
  split; [done|]. split; [intros Hx; destruct (Hnew Hx); by eapply recorded_text|].
  intros previous Hp. rewrite Ho in Hp, Hc. injection Hp as ->.
  destruct Hc as [->| ->]; [exists previous|exists n]; by auto using Z.le_refl.
Qed.
End replay.

(* ------------------------------------------------------------------ *)
(** ** What a completed operation has passed *)

Section checks.
Context {HL : Libraries} (oracle : Oracle).
Context (euid umask : Z) (fault : nat → option (IoError * nat)).
Context (pid : Z) (nonce : nat → Z) (fresh : nat → string).
Context (verify_events : string → list (option Dependencies.event)).
Context (json_sequence : string → option Z).
Context (read_dir : path → gmap path node → result IoError (list (option string))).

(** A call of this run was answered, and the answer satisfies [P]. *)
Definition answered {A} (h h' : list occurrence) (e : effect A) (P : A → Prop) : Prop :=
  ∃ a f, happened h h' (Did e a f) ∧ P a.

Definition checked_programs : list (string * list string) :=
  [("rpm", ["--verifydb"]); ("systemctl", ["is-active"; "--quiet"; "multi-user.target"]);
   ("test", ["-s"; "/boot/grub2/grub.cfg"])].

(** Every check of the machine for the record [r] passed between [h] and [h']. *)
Record checked (h h' : list occurrence) (r : OperationStateRecord) : Prop := {
  checked_host : answered h h' LiveView (λ view, ∃ facts,
    (@discover_host view mounts_json []).1 = Ok facts ∧ verify_release r (release facts) = Ok ()
    ∧ root_filesystem facts = "btrfs" ∧ snapper_root_configured facts = true);
  checked_rollback : ∀ goal, recovery r = Some goal →
    answered h h' BtrfsView (λ btrfs, verify_rollback_boot btrfs goal = Ok ());
  checked_runs : Forall (λ p, answered h h' (Run p.1 p.2) (λ output, success output = true))
                   checked_programs;
  checked_dependencies : answered h h' DependencyOutput (λ output, ∃ ok bytes,
    output = Some (ok, bytes) ∧ healthy_output verify_events ok bytes = true);
  checked_units : answered h h' (Run "systemctl" failed_arguments) (λ output,
    success output = true ∧ is_white (stdout output) = true);
  checked_inventory : answered h h' CaptureInventory (λ answer, ∃ report, answer = Ok report
    ∧ match recovery r with
      | Some _ => ∃ text before, inventory_parse text = Some before
                    ∧ inventory_packages before = inventory_packages report
      | None => ∃ plan, Planner.plan_sha256 plan = Ok (State.plan_sha256 r)
                  ∧ verify_result plan report = Ok ()
      end);
}.

Lemma answered_widen {A} h0 h h' h1 (e : effect A) P :
  h0 `prefix_of` h → h' `prefix_of` h1 → answered h h' e P → answered h0 h1 e P.
Proof. intros H0 H1 (a & f & H & HP). exists a, f. split; [by eapply happened_widen|done]. Qed.

Lemma checked_widen h0 h h' h1 r :
  h0 `prefix_of` h → h' `prefix_of` h1 → checked h h' r → checked h0 h1 r.
Proof.
  intros H0 H1 [F1 F2 F3 F4 F5 F6].
  split; eauto using answered_widen.
  eapply Forall_impl; [exact F3|]. intros p. by apply answered_widen.
Qed.

Lemma perform_answered {E A} (e : effect A) w (x : result E A) w' :
  perform oracle e w = (x, w') →
  ∃ a, x = Ok a ∧ answered (history w) (history w') e (λ b, b = a)
       ∧ history w `prefix_of` history w' ∧ disk w' = disk w.
Proof.
  intros [= <- <-]. eexists. split; [done|]. cbn. split; [|split; [by apply prefix_app_r|done]].
  eexists _, _. split; [apply happened_snoc|done].
Qed.

#[local] Abbreviation grows := (st_rel (quiet (λ _, false))).

Lemma grows_prefix {E A} (m : ST execution E A) w x w' :
  grows m → m w = (x, w') → history w `prefix_of` history w'.
Proof. apply quiet_grows. Qed.

Lemma check_host_grows r : grows (check_host oracle r).
Proof. unfold check_host. eauto 20 with quiet. Qed.
Lemma run_grows program arguments : grows (run oracle program arguments).
Proof. unfold run. eauto with quiet. Qed.
Lemma require_grows f m : grows m → grows (require f m).
Proof. intros H. unfold require. eauto with quiet. Qed.
Lemma check_packages_grows r report :
  grows (check_packages euid umask fault r report).
Proof. unfold check_packages, disk_check. cbv zeta. eauto 20 with quiet. Qed.
Lemma dependencies_grows : grows (dependencies_verify oracle verify_events).
Proof. unfold dependencies_verify. eauto with quiet. Qed.
Lemma check_units_grows : grows (check_units oracle).
Proof. unfold check_units. eauto with quiet. Qed.
#[local] Hint Resolve check_host_grows run_grows require_grows check_packages_grows
  dependencies_grows check_units_grows : quiet.

Lemma verify_grows r : grows (verify oracle euid umask fault fresh verify_events r).
Proof. unfold verify, disk_check. eauto 30 with quiet. Qed.

Lemma check_host_Ok r w w' :
  check_host oracle r w = (Ok (), w') →
  answered (history w) (history w') LiveView (λ view, ∃ facts,
    (@discover_host view mounts_json []).1 = Ok facts ∧ verify_release r (release facts) = Ok ()
    ∧ root_filesystem facts = "btrfs" ∧ snapper_root_configured facts = true)
  ∧ ∀ goal, recovery r = Some goal →
      answered (history w) (history w') BtrfsView (λ btrfs, verify_rollback_boot btrfs goal = Ok ()).
Proof.
  unfold check_host. intros H.
  apply st_bind_Ok in H as (view & w1 & H1 & H).
  apply perform_answered in H1 as (? & [= <-] & (view' & f & Hv & ->) & P1 & _).
  apply st_bind_Ok in H as (facts & w2 & H2 & H). unfold st_lift in H2. injection H2 as Hf <-.
  apply map_err_Ok in Hf.
  apply st_bind_Ok in H as ([] & w3 & H3 & H). unfold st_lift in H3. injection H3 as Hr <-.
  apply st_bind_Ok in H as ([] & w4 & H4 & H).
  destruct (_ || _) eqn:Eb; [done|]. injection H as <-.
  apply orb_false_iff in Eb as [Eb Es]. rewrite negb_false_iff, eqb_true in Eb.
  rewrite negb_false_iff in Es.
  assert (history w1 `prefix_of` history w4 ∧ ∀ goal, recovery r = Some goal →
    answered (history w1) (history w4) BtrfsView (λ btrfs, verify_rollback_boot btrfs goal = Ok ()))
    as [P2 Hg].
  { destruct (recovery r) as [goal|]; [|injection H4 as <-; by split].
    apply st_bind_Ok in H4 as (btrfs & w5 & H5 & H4).
    apply perform_answered in H5 as (? & [= <-] & (b & g & Hb & ->) & P5 & _).
    unfold st_lift in H4. injection H4 as Hok <-. apply map_err_Ok in Hok. split; [done|].
    intros ? [= <-]. by exists btrfs, g. }
  split.
  - exists view, f. split; [eapply happened_widen; [reflexivity|exact Hv|exact P2]|]. by exists facts.
  - intros goal E. eapply answered_widen; [exact P1|reflexivity|by apply Hg].
Qed.

Lemma require_Ok f (m : ST execution CheckFailure bool) w w' :
  require f m w = (Ok (), w') → m w = (Ok true, w').
Proof.
  unfold require. intros H. apply st_bind_Ok in H as ([] & w1 & H1 & H); [|done].
  by injection H as <-.
Qed.

Lemma program_Ok program arguments w w' :
  run oracle program arguments w = (Ok true, w') →
  answered (history w) (history w') (Run program arguments) (λ output, success output = true).
Proof.
  unfold run. intros H. apply st_bind_Ok in H as (output & w1 & H1 & H).
  apply perform_answered in H1 as (? & [= <-] & (o & f & Ho & ->) & _ & _). injection H as Hs <-.
  by exists output, f.
Qed.

Lemma dependencies_Ok w w' :
  dependencies_verify oracle verify_events w = (Ok true, w') →
  answered (history w) (history w') DependencyOutput (λ output, ∃ ok bytes,
    output = Some (ok, bytes) ∧ healthy_output verify_events ok bytes = true).
Proof.
  unfold dependencies_verify. intros H. apply st_bind_Ok in H as (output & w1 & H1 & H).
  apply perform_answered in H1 as (? & [= <-] & (o & f & Ho & ->) & _ & _). injection H as Hs <-.
  exists output, f. split; [done|]. destruct output as [[ok bytes]|]; [|done].
  destruct (_ <? _)%Z; [done|]. by exists ok, bytes.
Qed.

Lemma check_units_Ok w w' :
  check_units oracle w = (Ok (), w') →
  answered (history w) (history w') (Run "systemctl" failed_arguments) (λ output,
    success output = true ∧ is_white (stdout output) = true).
Proof.
  unfold check_units. intros H. apply st_bind_Ok in H as (output & w1 & H1 & H).
  apply perform_answered in H1 as (? & [= <-] & (o & f & Ho & ->) & _ & _).
  destruct (_ || _) eqn:E; [done|]. injection H as <-.
  apply orb_false_iff in E as [E1%negb_false_iff E2%negb_false_iff]. by exists output, f.
Qed.

Lemma disk_check_Ok {A} f (m : ST world IoError A) w a w' :
  disk_check f m w = (Ok a, w') → ∃ d, m (disk w) = (Ok a, d).
Proof.
  unfold disk_check, on_disk, st_map_err. destruct (m (disk w)) as [[b|e] d]; [|done].
  intros [= -> _]. eauto.
Qed.

Lemma load_inventory_Ok p w report w' :
  load_inventory euid umask fault p w = (Ok report, w') → ∃ text, inventory_parse text = Some report.
Proof.
  unfold load_inventory. intros H. apply st_bind_Ok in H as (n & w1 & _ & H).
  apply st_bind_Ok in H as (? & w2 & _ & H). destruct n as [|u m c|]; [done| |done].
  apply st_bind_Ok in H as (? & w3 & _ & H). destruct (_ <? _)%Z; [done|].
  apply st_bind_Ok in H as (? & w4 & _ & H). apply st_bind_Ok in H as (r & w5 & H5 & H).
  unfold st_lift in H5. injection H5 as H5 _. apply ok_or_Ok in H5.
  destruct (_ !=? _); [done|]. injection H as <- _. eauto.
Qed.

Lemma check_packages_Ok r report w w' :
  check_packages euid umask fault r report w = (Ok (), w') →
  match recovery r with
  | Some _ => ∃ text before, inventory_parse text = Some before
                ∧ inventory_packages before = inventory_packages report
  | None => ∃ plan, Planner.plan_sha256 plan = Ok (State.plan_sha256 r)
              ∧ verify_result plan report = Ok ()
  end.
Proof.
  unfold check_packages. cbv zeta. intros H. destruct (recovery r).
  - apply st_bind_Ok in H as (before & w1 & H1 & H).
    apply disk_check_Ok in H1 as (d & [text Ht]%load_inventory_Ok).
    destruct (_ !=? _) eqn:E; [done|]. rewrite negb_false_iff, eqb_true in E. eauto.
  - apply st_bind_Ok in H as (text & w1 & _ & H). apply st_bind_Ok in H as (plan & w2 & _ & H).
    destruct (_ !=? _) eqn:E; [done|]. rewrite negb_false_iff, eqb_true in E.
    unfold st_lift in H. injection H as Hv _. apply map_err_Ok in Hv. exists plan.
    destruct (Planner.plan_sha256 plan) as [h|e]; cbn in E; [|done]. by injection E as ->.
Qed.

Lemma verify_Ok r w w' :
  verify oracle euid umask fault fresh verify_events r w = (Ok (), w') →
  checked (history w) (history w') r.
Proof.
  unfold verify. intros H.
  apply st_bind_Ok in H as ([] & w1 & H1 & H).
  apply (grows_prefix _ _ _ _ (check_host_grows r)) in H1 as P1. apply check_host_Ok in H1 as [F1 F2].
  apply st_bind_Ok in H as ([] & w2 & H2 & H).
  apply require_Ok in H2. apply grows_prefix in H2 as P2; [|auto with quiet].
  apply program_Ok in H2.
  apply st_bind_Ok in H as ([] & w3 & H3 & H).
  apply require_Ok in H3. apply grows_prefix in H3 as P3; [|auto with quiet].
  apply dependencies_Ok in H3.
  apply st_bind_Ok in H as ([] & w4 & H4 & H).
  apply require_Ok in H4. apply grows_prefix in H4 as P4; [|auto with quiet].
  apply program_Ok in H4.
  apply st_bind_Ok in H as ([] & w5 & H5 & H).
  apply grows_prefix in H5 as P5; [|auto with quiet]. apply check_units_Ok in H5.
  apply st_bind_Ok in H as ([] & w6 & H6 & H).
  apply require_Ok in H6. apply grows_prefix in H6 as P6; [|auto with quiet].
  apply program_Ok in H6.
  apply st_bind_Ok in H as (report & w7 & H7 & H).
  apply attempt_Ok in H7 as (Hh7 & _).
  assert (history w6 `prefix_of` history w7) as P7 by (rewrite Hh7; by apply prefix_app_r).
  apply st_bind_Ok in H as ([] & w8 & H8 & H).
  assert (history w7 `prefix_of` history w8) as P8
    by (eapply grows_prefix; [|exact H8]; apply on_disk_quiet).
  apply grows_prefix in H as P9; [|auto with quiet]. apply check_packages_Ok in H as F6.
  split.
  - eapply answered_widen; [| |exact F1]; chain.
  - intros goal E. eapply answered_widen; [| |by apply F2]; chain.
  - repeat constructor; cbn [fst snd];
      [eapply answered_widen; [| |exact H2]|eapply answered_widen; [| |exact H4]|
       eapply answered_widen; [| |exact H6]]; chain.
  - eapply answered_widen; [| |exact H3]; chain.
  - eapply answered_widen; [| |exact H5]; chain.
  - eapply (answered_widen _ (history w6) (history w7)); [chain..|].
    eexists _, _. split; [rewrite Hh7; apply happened_snoc|]. by exists report.
Qed.
End checks.

(* ------------------------------------------------------------------ *)
(** ** What the program writes *)

Definition state_path (id : string) : path := join (join STATE_ROOT id) "state.json".

Section main.
Context {HL : Libraries} (oracle : Oracle).
Context (euid umask : Z) (fault : nat → option (IoError * nat)).
Context (pid : Z) (nonce : nat → Z) (fresh : nat → string).
Context (verify_events : string → list (option Dependencies.event)).
Context (json_sequence : string → option Z).
Context (read_dir : path → gmap path node → result IoError (list (option string))).
(** The names of temporary files. *)
Context (Hfresh : ∀ n, fresh n ≠ "state.json").

(** A completed record is the one that was under verification, and the machine was
    checked for the record its text stands for. *)
Definition proven (h h' : list occurrence) (r : OperationStateRecord) : Prop :=
  ∃ r1 r0, r = completed r1 ∧ record_parse (state_text record_json r1) = Some r0
           ∧ checked verify_events h h' r0.

(** Records change only into complete ones, and [Completed] has been proven. *)
Record booked (w w' : execution) : Prop := {
  booked_grows : history w `prefix_of` history w';
  booked_files : ∀ id,
    nodes (disk w') !! state_path id = nodes (disk w) !! state_path id
    ∨ ∃ m r, nodes (disk w') !! state_path id = Some (File euid m (state_text record_json r))
        ∧ operation_id r = id ∧ (state r = Completed → proven (history w) (history w') r);
}.

#[local] Instance booked_reflexive : Reflexive booked.
Proof. intros w. split; [done|]. by left. Qed.
#[local] Instance booked_transitive : Transitive booked.
Proof.
  intros w1 w2 w3 [G1 F1] [G2 F2]. split; [by etransitivity|]. intros id.
  destruct (F2 id) as [->|(m & r & Hf & Hid & Hc)].
  - destruct (F1 id) as [->|(m & r & Hf & Hid & Hc)]; [by left|right]. exists m, r.
    split; [done|]. split; [done|]. intros Hs. destruct (Hc Hs) as (r1 & r0 & E & Hp & Hk).
    exists r1, r0. split; [done|]. split; [done|]. by eapply checked_widen; [reflexivity|exact G2|].
  - right. exists m, r. split; [done|]. split; [done|]. intros Hs.
    destruct (Hc Hs) as (r1 & r0 & E & Hp & Hk). exists r1, r0. split; [done|]. split; [done|].
    by eapply checked_widen; [exact G1|reflexivity|].
Qed.

(** Steps that leave every record alone. *)
Lemma kept_booked {E A} (m : ST execution E A) :
  st_rel (quiet (λ _, false)) m → (∀ id, st_rel (kept (state_path id)) m) → st_rel booked m.
Proof.
  intros Hq Hk w. split; [by apply (quiet_prefix (λ _, false))|]. intros id. left. apply Hk.
Qed.

Lemma disk_booked {E A} (T : path → Prop) (m : ST world E A) :
  st_rel (touches T) m → (∀ id, ¬ T (state_path id)) → st_rel booked (on_disk m).
Proof.
  intros H HT. apply kept_booked; [apply on_disk_quiet|]. intros id. by eapply on_disk_kept.
Qed.

Lemma perform_booked {E A} (e : effect A) : st_rel booked (perform (E := E) oracle e).
Proof. apply kept_booked; [by apply perform_quiet|intros id; apply perform_kept]. Qed.

Lemma save_inventory_exact d name report :
  st_rel (touches (λ q, q = join d name ∨ ∃ n, q = join d (fresh n)))
    (save_inventory euid umask fault fresh d name report).
Proof.
  intros w. unfold save_inventory. cbv zeta. set (t := join d (fresh (calls w))).
  set (T := λ q, q = join d name ∨ ∃ n, q = join d (fresh n)).
  assert (T t) as Ht by (right; by eexists).
  assert (∀ A (m : ST world IoError A), st_rel (touches (λ q, q = t)) m → st_rel (touches T) m) as Hw.
  { intros A m H v. eapply touches_weaken; [|apply H]. by intros q ->. }
  match goal with |- touches _ _ (?m w).2 => assert (st_rel (touches T) m) as H; [|apply H] end.
  apply st_rel_bind; [apply _|apply Hw, create_new_touches|intros _].
  apply st_rel_bind; [apply _|apply st_rel_try|intros [[]|e]].
  - apply st_rel_bind; [apply _|apply Hw, set_permissions_touches|intros _].
    do 2 (apply st_rel_bind; [apply _|apply Hw, write_all_touches|intros _]).
    apply st_rel_bind; [apply _|auto with frames|intros _].
    intros v. eapply touches_weaken; [|apply rename_touches]. intros q [->| ->]; [done|by left].
  - apply st_rel_bind; [apply _| |intros _]; auto with frames.
  - apply st_rel_bind; [apply _|apply st_rel_try, Hw, remove_file_touches|intros _]; auto with frames.
Qed.

Lemma path_length_ne (p q : path) : length p ≠ length q → p ≠ q.
Proof. by intros H ->. Qed.

Lemma check_packages_kept r report id :
  st_rel (kept (state_path id)) (check_packages euid umask fault r report).
Proof.
  assert (∀ (A : Type) f (m : ST world IoError A), st_rel (touches (λ _, False)) m →
    st_rel (kept (state_path id)) (disk_check f m)) as Hd.
  { intros A f m H. eapply on_disk_kept; [by apply st_rel_map_err|tauto]. }
  unfold check_packages. cbv zeta. destruct (recovery r).
  - apply st_rel_bind; [apply _| |intros before; destruct (_ !=? _); eauto with kept].
    apply Hd. unfold load_inventory.
    apply st_rel_bind; [apply _| |intros n].
    { intros w q Hq. unfold open_nofollow, syscall. destruct (fault (calls w)) as [[]|]; [done|].
      by destruct (nodes w !! _) as [[]|]. }
    apply st_rel_bind; [apply _|auto with frames|intros _]. destruct n; auto with frames.
    apply st_rel_bind; [apply _|auto with frames|intros _]. destruct (_ <? _)%Z; auto with frames.
    apply st_rel_bind; [apply _|auto with frames|intros _].
    apply st_rel_bind; [apply _|auto with frames|intros b]. destruct (_ !=? _); auto with frames.
  - apply st_rel_bind; [apply _|apply Hd, read_file_touches|intros text]. eauto 20 with kept.
Qed.

Lemma verify_kept r id :
  st_rel (kept (state_path id)) (verify oracle euid umask fault fresh verify_events r).
Proof.
  unfold verify, check_host, require, run, dependencies_verify, check_units.
  repeat (apply st_rel_bind; [apply _|by eauto 20 with kept|intros ?]).
  apply st_rel_bind; [apply _| |intros _; apply check_packages_kept].
  eapply on_disk_kept; [apply st_rel_map_err, save_inventory_exact|].
  intros [[=]|(n & E)]. injection E as E _. by destruct (Hfresh n).
Qed.

Lemma check_boot_kept id id' :
  st_rel (kept (state_path id')) (check_boot oracle euid umask fault fresh verify_events id).
Proof.
  apply st_rel_bind; [apply _| |intros r; apply verify_kept].
  eapply (on_disk_kept _ (λ _, False)); [apply st_rel_map_err, load_state_touches|tauto].
Qed.

Lemma check_boot_grows id :
  st_rel (quiet (λ _, false)) (check_boot oracle euid umask fault fresh verify_events id).
Proof. apply st_rel_bind; [apply _|apply on_disk_quiet|intros r; apply verify_grows]. Qed.

Lemma bounded_status_booked {E} id :
  st_rel booked (bounded_status (E := E) oracle euid umask fault fresh verify_events id).
Proof.
  apply st_rel_bind; [apply _|apply perform_booked|intros ended].
  destruct ended; try apply st_rel_ret, _.
  apply st_rel_bind; [apply _|apply st_rel_try, kept_booked|intros r; apply st_rel_ret, _].
  - apply check_boot_grows.
  - apply check_boot_kept.
Qed.

Definition sequence_paths (q : path) : Prop := q = SEQUENCE_PATH ∨ q = with_tmp SEQUENCE_PATH.

Lemma write_sequence_touches n :
  st_rel (touches sequence_paths) (write_sequence euid umask fault SEQUENCE_PATH n).
Proof.
  set (T := sequence_paths).
  assert (∀ A (m : ST world IoError A), st_rel (touches (λ q, q = with_tmp SEQUENCE_PATH)) m →
    st_rel (touches T) m) as Hw.
  { intros A m H v. eapply touches_weaken; [|apply H]. intros q ->. by right. }
  apply st_rel_bind; [apply _|apply st_rel_try|intros previous].
  { intros w q _. by rewrite read_last_nodes. }
  match goal with |- context [if ?b then _ else _] => destruct b end; [auto with frames|].
  apply st_rel_bind; [apply _|apply Hw, create_new_touches|intros _].
  do 2 (apply st_rel_bind; [apply _|apply Hw, write_all_touches|intros _]).
  apply st_rel_bind; [apply _|auto with frames|intros _].
  apply st_rel_bind; [apply _| |intros _].
  { intros v. eapply touches_weaken; [|apply rename_touches]. intros q [->| ->]; [by right|by left]. }
  apply st_rel_bind; [apply _| |intros _]; auto with frames.
Qed.

Lemma finalize_touches r dir passed :
  st_rel (touches sequence_paths)
    (finalize_verification euid umask fault json_sequence r dir SEQUENCE_PATH passed).
Proof.
  unfold finalize_verification, consume_sequence. destruct passed; [|auto with frames].
  apply st_rel_bind; [apply _| |intros persisted; auto with frames].
  destruct (_ && _); [|auto with frames].
  apply st_rel_bind; [apply _| |intros [n|]; [|auto with frames]].
  - apply st_rel_bind; [apply _|apply st_rel_try; auto with frames|intros [[]|e]]; auto with frames.
    destruct (_ <? _)%Z; [auto with frames|].
    apply st_rel_bind; [apply _|apply st_rel_try, read_file_touches|intros d; auto with frames].
  - apply st_rel_bind; [apply _|apply st_rel_try, write_sequence_touches|intros d; auto with frames].
Qed.

Lemma finalize_result r dir passed w r2 w' :
  on_disk (st_map_err (λ _, 101%Z)
    (finalize_verification euid umask fault json_sequence r dir SEQUENCE_PATH passed)) w
  = (Ok r2, w') →
  (passed = true ∧ r2 = completed r) ∨ ∃ code, r2 = not_verified r code.
Proof.
  unfold on_disk, st_map_err. destruct (finalize_verification _ _ _ _ _ _ _ _ _) as [[b|e] d] eqn:E;
    [|done]. intros [= -> _]. unfold finalize_verification in E. destruct passed.
  - apply st_bind_Ok in E as ([] & d1 & _ & E); injection E as <- _; [by left|right; by eexists].
  - injection E as <- _. right. by eexists.
Qed.

(* ------------------------------------------------------------------ *)
(** ** Persisting *)

Lemma persist_spec r w x w' :
  persist euid umask fault pid nonce r w = (x, w') →
  history w' = history w
  ∧ (∀ id, nodes (disk w') !! state_path id = nodes (disk w) !! state_path id
       ∨ (operation_id r = id
          ∧ ∃ m, nodes (disk w') !! state_path id = Some (File euid m (state_text record_json r))))
  ∧ (x = Ok () → ∃ m, nodes (disk w') !! state_path (operation_id r)
                      = Some (File euid m (state_text record_json r))).
Proof.
  unfold persist, on_disk, st_map_err.
  pose proof (save_state_touches euid umask fault pid (nonce (calls (disk w))) record_json STATE_ROOT
    r (disk w)) as Ht.
  destruct (save_state _ _ _ _ _ _ _ _ _) as [y d] eqn:E. cbn in Ht.
  apply save_state_spec in E as [Hold Hnew].
  intros H. assert (w' = {| disk := d; history := history w; current := current w |}
    ∧ (x = Ok () → y = Ok ())) as [-> Hx] by (destruct y as [[]|e]; injection H as <- <-; by split).
  cbn [disk history]. split; [done|]. split.
  - intros id. destruct (decide (operation_id r = id)) as [<-|Hne].
    + destruct Hold as [E'|[m Hm]]; [left; exact E'|right]. split; [done|by exists m].
    + left. apply Ht. intros [Hs|Hs].
      * apply suffix_length_eq in Hs; [|cbn; lia]. unfold state_path, join in Hs. congruence.
      * unfold state_path, join in Hs. injection Hs as Hs _. symmetry in Hs.
        by apply (temporary_ne pid (nonce (calls (disk w))) []); unfold join; rewrite Hs.
  - intros E. destruct (Hnew (Hx E)) as (Hm & _). exact Hm.
Qed.

Lemma persist_booked r w0 w x w' :
  booked w0 w → persist euid umask fault pid nonce r w = (x, w') →
  (state r = Completed → proven (history w0) (history w) r) → booked w0 w'.
Proof.
  intros [G F] H Hc. apply persist_spec in H as (Hh & Hf & _). split; [by rewrite Hh|].
  intros id. destruct (Hf id) as [->|(Hid & m & Hm)]; [rewrite Hh; apply F|].
  right. exists m, r. rewrite Hh. by repeat split.
Qed.

Lemma persist_plain r :
  state r ≠ Completed → st_rel booked (persist euid umask fault pid nonce r).
Proof.
  intros Hr w. destruct (persist _ _ _ _ _ _ w) as [x w'] eqn:E.
  eapply persist_booked; [reflexivity|exact E|]. intros H. by destruct Hr.
Qed.

Lemma interrupted_not_completed s next : interrupted_state s = Some next → next ≠ Completed.
Proof. by destruct s; intros [= <-]. Qed.

Lemma mark_interrupted_booked rs : st_rel booked (mark_interrupted euid umask fault pid nonce rs).
Proof.
  induction rs as [|r rs IH]; cbn; [apply st_rel_ret, _|].
  intros w. unfold mbind at 1, st_bind at 1, st_lift.
  destruct (interrupted_state (state r)) as [next|] eqn:E; cbn [ok_or]; [|reflexivity].
  match goal with |- booked _ (?m w).2 => assert (st_rel booked m) as H; [|apply H] end.
  apply st_rel_bind; [apply _| |intros _; exact IH].
  apply persist_plain. by apply interrupted_not_completed in E.
Qed.

(* ------------------------------------------------------------------ *)
(** ** The verification *)

Lemma from_status_None code : from_status code = None → code = Some 0%Z.
Proof.
  destruct code as [[|p|p]|]; cbn; [done| |done..].
  do 8 (try (destruct p as [p|p|]; try done)).
Qed.

(** A status that is no failure comes from a child that ran to its end. *)
Lemma bounded_status_passed {E} id w (x : result E (option Z)) status w' :
  bounded_status oracle euid umask fault fresh verify_events id w = (x, w') →
  x = Ok status → failure_of status = None →
  ∃ u m text r, nodes (disk w) !! state_path id = Some (File u m text)
    ∧ record_parse text = Some r ∧ checked verify_events (history w) (history w') r.
Proof.
  unfold bounded_status. intros H -> Hs. apply st_bind_Ok in H as (ended & w1 & H1 & H).
  apply perform_answered in H1 as (_ & _ & _ & P1 & D1).
  assert (status = Some 0%Z) as -> by (destruct status; [by apply from_status_None|done]).
  destruct ended as [| |signal|]; try done.
  apply st_bind_try in H as (r & w2 & H2 & H). injection H as Hr <-.
  destruct r as [[]|f]; [|by destruct f].
  unfold check_boot in H2. apply st_bind_Ok in H2 as (r & w3 & H3 & H2).
  apply verify_Ok in H2. unfold on_disk, st_map_err in H3.
  destruct (load_state _ _ _ _ _) as [[r'|e] d] eqn:E3; [|done]. injection H3 as -> <-.
  apply load_state_sound in E3 as (u & m & text & Ht & Hd & _). rewrite D1 in Ht.
  exists u, m, text, r. split; [exact Ht|]. split; [done|].
  eapply checked_widen; [exact P1|reflexivity|exact H2].
Qed.

Lemma verifying_not_completed r r1 w w1 :
  awaits_boot (state r) = true →
  ((if state r ==? AwaitingReboot
    then st_lift (map_err (λ _, 101%Z) (transition_to r VerifyingBoot)) else mret r)
   : ST execution Z OperationStateRecord) w = (Ok r1, w1) → state r1 ≠ Completed ∧ w1 = w.
Proof.
  intros Ha E. destruct (state r ==? AwaitingReboot).
  - unfold st_lift in E. injection E as E <-. apply map_err_Ok in E.
    by apply transition_to_Ok in E as (_ & _ & _ & ->).
  - injection E as <- <-. by destruct (state r).
Qed.

(** The record under verification is on disk when the checks start. *)
Lemma begin_verification_Ok r w r1 w1 :
  awaits_boot (state r) = true →
  begin_verification euid umask fault pid nonce r w = (Ok r1, w1) →
  booked w w1 ∧ ∃ m, nodes (disk w1) !! state_path (operation_id r1)
                     = Some (File euid m (state_text record_json r1)).
Proof.
  intros Ha H. unfold begin_verification in H. apply st_bind_Ok in H as (r2 & w2 & H2 & H).
  apply verifying_not_completed in H2 as [Hr ->]; [|done].
  apply st_bind_Ok in H as ([] & w3 & H3 & H). injection H as -> ->.
  pose proof (persist_plain r1 Hr w) as B. rewrite H3 in B. split; [exact B|].
  apply persist_spec in H3 as (_ & _ & Hs). by apply Hs.
Qed.

Lemma begin_verification_booked r :
  awaits_boot (state r) = true →
  st_rel booked (begin_verification euid umask fault pid nonce r).
Proof.
  intros Ha w. destruct (begin_verification _ _ _ _ _ _ w) as [x w'] eqn:H. cbn [snd].
  unfold begin_verification in H. apply st_bind_cases in H as [(e & H & _)|(r1 & w1 & H1 & H)].
  - destruct (state r ==? AwaitingReboot); by injection H as _ <-.
  - apply verifying_not_completed in H1 as [Hr ->]; [|done].
    pose proof (persist_plain r1 Hr w) as B.
    apply st_bind_cases in H as [(e & H & _)|([] & w2 & H2 & H)].
    + by rewrite H in B.
    + injection H as _ <-. by rewrite H2 in B.
Qed.

Lemma finalize_booked r dir passed :
  st_rel booked (on_disk (st_map_err (λ _, 101%Z)
    (finalize_verification euid umask fault json_sequence r dir SEQUENCE_PATH passed))).
Proof.
  eapply disk_booked; [apply st_rel_map_err, finalize_touches|].
  intros id [E|E]; apply (f_equal length) in E; discriminate E.
Qed.

Lemma verify_operation_booked dir r other :
  awaits_boot (state r) = true →
  st_rel booked (verify_operation oracle euid umask fault pid nonce fresh verify_events json_sequence
                   dir r other).
Proof.
  intros Ha w. destruct (verify_operation _ _ _ _ _ _ _ _ _ _ _ _ w) as [x w'] eqn:H. cbn [snd].
  unfold verify_operation in H. apply st_bind_cases in H as [(e & H & _)|(r1 & w1 & H1 & H)].
  { pose proof (begin_verification_booked r Ha w) as B. by rewrite H in B. }
  apply begin_verification_Ok in H1 as (B1 & m & Hm); [|done].
  pose proof (bounded_status_booked (E := Z) (operation_id r1) w1) as B2.
  apply st_bind_cases in H as [(e & H & _)|(status & w2 & H2 & H)].
  { rewrite H in B2. by transitivity w1. }
  rewrite H2 in B2. cbn in B2.
  pose proof (bounded_status_passed _ _ _ _ _ H2 eq_refl) as Hpassed.
  pose proof (finalize_booked r1 dir (is_none (failure_of status)) w2) as B3.
  apply st_bind_cases in H as [(e & H & _)|(r2 & w3 & H3 & H)].
  { rewrite H in B3. transitivity w1; [done|]. by transitivity w2. }
  rewrite H3 in B3. cbn in B3. apply finalize_result in H3.
  assert (∃ y, persist euid umask fault pid nonce
    (match failure_of status with Some f => set_error_code r2 (Some (failure_code f)) | None => r2 end)
    w3 = (y, w')) as [y Hy].
  { apply st_bind_cases in H as [(e & H & _)|([] & w4 & H4 & H)]; [by exists (Err e)|].
    exists (Ok ()). rewrite H4. by destruct (_ || _); injection H as _ <-. }
  eapply persist_booked; [|exact Hy|]; [transitivity w1; [done|]; by transitivity w2|].
  destruct (failure_of status) as [f|].
  - by destruct H3 as [[[=] _]|[code ->]].
  - destruct H3 as [[_ ->]|[code ->]]; [|done]. intros _.
    destruct (Hpassed eq_refl) as (u & m' & text & r0 & Ht & Hr0 & Hk).
    rewrite Hm in Ht. injection Ht as _ _ <-. exists r1, r0. split; [done|]. split; [done|].
    eapply checked_widen; [apply B1|apply B3|exact Hk].
Qed.

Lemma candidate_awaits root entry w v w' :
  scan_entry fault record_parse root entry w = (Ok v, w') →
  ∀ p r, v = Candidate (p, r) → awaits_boot (state r) = true.
Proof.
  intros H p r ->. destruct entry as [name|]; cbn in H; [|done].
  apply st_bind_try in H as (n & w1 & _ & H). destruct n as [n|e]; [|done].
  destruct (negb _); [done|]. destruct (negb _); [done|].
  apply st_bind_try in H as (n' & w2 & _ & H). destruct n' as [[| |]|e]; try done.
  apply st_bind_try in H as (l & w3 & _ & H). destruct l as [r'|e]; [|done].
  unfold judge in H. destruct (awaits_boot (state r')) eqn:Ha; [by injection H as _ <- _|].
  destruct (_ && _); [done|]. destruct (_ ==? _); [|done].
  apply st_bind_try in H as (l & w4 & _ & H). injection H as H _. by destruct (is_some_and _ _).
Qed.

Lemma scanned_awaits root w scan w' :
  pending_operation fault record_parse read_dir root w = (Ok scan, w') →
  ∀ p r, scan_operation scan = Some (p, r) → awaits_boot (state r) = true.
Proof.
  unfold pending_operation. intros H p r Hs. apply st_bind_try in H as (n & w1 & _ & H).
  destruct n as [n|[]]; [|by injection H as <- _|done..].
  destruct (negb _); [done|]. apply st_bind_Ok in H as (entries & w2 & _ & H).
  apply st_bind_Ok in H as (vs & w3 & Hvs & H). injection H as <- _.
  apply head_newest in Hs as [Hc _]. unfold candidates in Hc.
  apply list_elem_of_omap in Hc as (v & Hv & Hc).
  assert (∀ v, v ∈ vs → ∀ p r, v = Candidate (p, r) → awaits_boot (state r) = true) as Hall.
  { clear -Hvs. revert vs w2 w3 Hvs. induction entries as [|e entries IH]; intros vs w2 w3 H v Hv.
    - injection H as <- _. by apply elem_of_nil in Hv.
    - cbn in H. apply st_bind_Ok in H as (v0 & w4 & H4 & H).
      apply st_bind_Ok in H as (vs' & w5 & H5 & H). injection H as <- _.
      apply elem_of_cons in Hv as [->|Hv]; [by eapply candidate_awaits|by eapply IH]. }
  eapply Hall; [exact Hv|]. destruct v; try done. by injection Hc as ->.
Qed.

Lemma pending_touches root :
  st_rel (touches (λ _, False)) (pending_operation fault record_parse read_dir root).
Proof.
  unfold pending_operation.
  apply st_rel_bind; [apply _|apply st_rel_try; auto with frames|intros [n|[]]]; auto with frames.
  destruct (negb _); [auto with frames|].
  apply st_rel_bind; [apply _|by apply syscall_touches|intros entries].
  apply st_rel_bind; [apply _| |intros vs; auto with frames].
  induction entries as [|entry entries IH]; cbn; [auto with frames|].
  apply st_rel_bind; [apply _| |intros v; apply st_rel_bind; [apply _|exact IH|auto with frames]].
  destruct entry as [name|]; cbn; [|auto with frames].
  apply st_rel_bind; [apply _|apply st_rel_try; auto with frames|intros [n'|e]]; auto with frames.
  destruct (negb _); [auto with frames|]. destruct (negb _); [auto with frames|].
  apply st_rel_bind; [apply _|apply st_rel_try; auto with frames|intros [[]|e]]; auto with frames.
  apply st_rel_bind; [apply _|apply st_rel_try, load_state_touches|intros [r|e]]; auto with frames.
  unfold judge. destruct (awaits_boot _); [auto with frames|]. destruct (_ && _); [auto with frames|].
  destruct (_ ==? _); [|auto with frames].
  apply st_rel_bind; [apply _|apply st_rel_try|]; auto with frames.
Qed.

Lemma acquire_lock_booked {E} (f : ExecutionError → E) :
  st_rel booked (st_map_err f (acquire_lock oracle euid umask fault)).
Proof.
  apply st_rel_map_err. unfold acquire_lock, stage.
  apply st_rel_bind; [apply _| |intros n].
  { eapply disk_booked; [apply st_rel_map_err, open_nofollow_touches|]. by intros id [=]. }
  apply st_rel_bind; [apply _| |intros _].
  { apply (disk_booked (λ _, False)); [apply st_rel_map_err|]; auto with frames. }
  destruct n; try apply st_rel_throw, _. apply st_rel_bind; [apply _|apply perform_booked|].
  intros []; [apply st_rel_ret, _|apply st_rel_throw, _].
Qed.

Lemma verify_pending_booked :
  st_rel booked (verify_pending oracle euid umask fault pid nonce fresh verify_events json_sequence
                   read_dir).
Proof.
  apply st_rel_bind; [apply _|apply acquire_lock_booked|intros _].
  intros w. destruct (on_disk (st_map_err (λ _, 1%Z)
    (pending_operation fault record_parse read_dir STATE_ROOT)) w) as [y w1] eqn:H1.
  assert (booked w w1) as B1.
  { pose proof (disk_booked (E := Z) (λ _, False) _ (st_rel_map_err _ (λ _, 1%Z) _
      (pending_touches STATE_ROOT)) ltac:(auto) w) as B. by rewrite H1 in B. }
  unfold mbind at 1, st_bind at 1. rewrite H1. destruct y as [scan|e]; [|exact B1].
  transitivity w1; [exact B1|]. unfold on_disk, st_map_err in H1.
  destruct (pending_operation _ _ _ _ _) as [[scan'|e] d] eqn:Hs; [|done]. injection H1 as -> _.
  match goal with |- booked _ (?m w1).2 => assert (st_rel booked m) as B; [|apply B] end.
  apply st_rel_bind; [apply _|apply mark_interrupted_booked|intros _]. cbv zeta.
  destruct (scan_operation scan) as [[dir r]|] eqn:Ho.
  - apply verify_operation_booked. by eapply scanned_awaits.
  - destruct (_ || _); [apply st_rel_throw, _|apply st_rel_ret, _].
Qed.

End main.

(* ------------------------------------------------------------------ *)
(** ** A concrete boot *)

Definition sample_booting : OperationStateRecord :=
  set_snapshot_number (sample_record UpdateWithinRelease AwaitingReboot) (Some 7%Z).
Definition sample_verifying : OperationStateRecord :=
  match transition_to sample_booting VerifyingBoot with Ok r => r | Err _ => sample_booting end.
Definition sample_id : string := operation_id sample_booting.

(** The records and the plan are read back from their texts. *)
Definition boot_libraries : Libraries := {|
  plan_json := λ _, Ok "plan"; plan_pretty := λ _, Ok "plan"; manifest_json := λ _, Ok "manifest";
  manifest_pretty := λ _, Ok "manifest"; record_json := sample_encode;
  record_parse := λ text,
    if text ==? state_text sample_encode sample_booting then Some sample_booting
    else if text ==? state_text sample_encode sample_verifying then Some sample_verifying else None;
  inventory_json := λ _, "inventory"; inventory_parse := λ _, None;
  plan_parse := λ text, if text ==? "plan" then Some (planned_plan sample_planned) else None;
  manifest_parse := λ _, None;
  mounts_json := sample_layout; xml_events := sample_update_events; digest := λ _, zeros 64 |}.

Definition boot_oracle : Oracle := λ A h w e,
  match e in effect B return B → B with
  | DependencyOutput => λ _, Some (true, "xml")
  | _ => λ a, a
  end (sample_oracle A h w e).

Definition boot_start : execution := {|
  disk := {| nodes :=
    <[state_path sample_id := File 0 384 (state_text sample_encode sample_booting)]>
    (<[join (join STATE_ROOT sample_id) "plan.json" := File 0 384 "plan"]>
    (<[join STATE_ROOT sample_id := Dir 0 448]>
    (<[STATE_ROOT := Dir 0 448]>
    (<[["lock"; "run"] := Dir 0 493]> (<[["run"] := Dir 0 493]> (nodes sample_world)))))); calls := 0 |};
  history := []; current := sample_booting |}.
Definition sample_boot_run : result Z unit * execution :=
  main (HL := boot_libraries) boot_oracle 0 18 no_fault 102 (λ n, Z.of_nat n) sample_fresh
    healthy_events (λ _, None) (λ _ _, Ok [Some sample_id]) [] boot_start.

Lemma sample_boot_eq : sample_boot_run = (Ok (), sample_boot_run.2).
Proof. apply pair_with_fst. vm_compute. reflexivity. Qed.

(** The operation is complete, and in a mode that is unknown nothing happens. *)
Example sample_boot_completes :
  nodes (disk sample_boot_run.2) !! state_path sample_id
  = Some (File 0 384 (state_text sample_encode (completed sample_verifying))).
Proof. vm_compute. reflexivity. Qed.


Definition replay_world : world := {|
  nodes := <[SEQUENCE_PATH := File 0 384 ("7" +:+ String nl "")]> (nodes sample_world); calls := 0 |}.

Example sequence_is_written :
  recorded (nodes (write_sequence 0 18 no_fault SEQUENCE_PATH 8 replay_world).2) SEQUENCE_PATH
  = Ok (Some 8%Z)
  ∧ (write_sequence 0 18 no_fault SEQUENCE_PATH 6 replay_world).1 = Err (OtherError 0).
Proof. vm_compute. by split. Qed.

Lemma replay_record_witness :
  ∃ n, recorded (nodes (write_sequence 0 18 no_fault SEQUENCE_PATH 6 replay_world).2) SEQUENCE_PATH
       = Ok (Some n) ∧ (7 ≤ n)%Z.
Proof.
  destruct (write_sequence 0 18 no_fault SEQUENCE_PATH 6 replay_world) as [x w'] eqn:E.
  destruct (replay_record_monotone 0 18 no_fault ltac:(done) SEQUENCE_PATH 6 replay_world x w'
    ltac:(done) ltac:(unfold u64_max; lia) E) as (_ & _ & H).
  apply H. vm_compute. reflexivity.
Defined.
