(* ===== verification/Rollback.v ===== *)
(** * Scheduling a rollback (src/service/src/recovery.rs)

    The service side of an authorized rollback: the checks before anything changes,
    the intent that is stored first, the call of Snapper and the check of what it
    selected for the next boot. The boot itself is checked by Verifier.v against
    the goal stored here. *)

From S2P Require Import Prelude RustStr Recovery State Fs Persistence Preflight Solver Plan.
From S2P Require Import ManifestData Migration Discovery Inventory SolverXml Vendors Protocol.
From S2P Require Import System Planner Executor Fixture OnlineUpdate Staging ManifestFetch Pending Verifier.

Open Scope bool_scope.
Open Scope lyra_scope.

Definition rollback_arguments (number : Z) : list string :=
  ["--no-dbus"; "--ambit"; "classic"; "--quiet"; "--config"; "root"; "rollback";
   "--print-number"; to_string number].

Definition FORMAT_SUPPORTED : string := "1" +:+ String nl "".
Definition format_path (source : string) : string :=
  source +:+ "/usr/lib/lyra-upgrade/recovery-format".

(** The intent, before the boot selection changes. *)
Definition prepared (r : OperationStateRecord) (number : Z) (source : SubvolumeIdentity)
    (now : string) : OperationStateRecord :=
  let r := set_recovery r (Some {|
    source_snapshot_number := number; source_snapshot := source; boot_snapshot := None |}) in
  let r := set_sequence r (saturating_add (sequence r) 1) in
  let r := set_updated_at r now in
  let r := set_last_completed_step r (Some "rollback-preparing") in
  set_boot_verification r (Some Boot_Pending).

Definition with_boot (goal : RollbackGoal) (boot : SubvolumeIdentity) : RollbackGoal := {|
  source_snapshot_number := source_snapshot_number goal;
  source_snapshot := source_snapshot goal; boot_snapshot := Some boot |}.

Definition scheduled (r : OperationStateRecord) (goal : RollbackGoal) (boot : SubvolumeIdentity)
  : OperationStateRecord :=
  let r := set_recovery r (Some (with_boot goal boot)) in
  let r := set_state r AwaitingReboot in
  let r := set_sequence r (saturating_add (sequence r) 1) in
  let r := set_error_code r None in
  set_last_completed_step r (Some "rollback-scheduled").

Definition rollback_failed (r : OperationStateRecord) (error : string) : OperationStateRecord :=
  let r := set_state r NeedsRecovery in
  let r := set_error_code r (Some error) in
  set_sequence r (saturating_add (sequence r) 1).

(** The number Snapper prints. *)
Definition printed_number (stdout : string) : option Z :=
  opt_filter (λ n, 0 <? n)%Z (from_utf8 stdout ≫= λ s, parse_u64 (trim s)).

Section rollback.
Context `{HL : !Libraries} (oracle : Oracle).
Context (euid umask : Z) (fault : nat → option (IoError * nat)).
Context (pid : Z) (nonce : nat → Z).
#[local] Abbreviation M := (ST execution string).

(** One question to the [btrfs] program. *)
Definition probe {A} (f : (list string → string → option (bool * string)) → result string A)
  : M A :=
  run ← perform oracle BtrfsView; st_lift (f run).

Definition identity_at (root : string) : M ReleaseIdentity :=
  identity ← perform oracle (ReleaseIdentityAt root);
  st_lift (ok_or "SNAPSHOT_IDENTITY_INVALID" identity).

Definition store (root : path) : M unit :=
  r ← st_get current;
  st_map_err (λ _, "STATE_WRITE_FAILED") (save euid umask fault pid nonce root r).

(** After Snapper has answered; a program that cannot be started has failed. *)
Definition after_snapper (root : path) (output : Output) : M unit :=
  if negb (success output) then st_throw "ROLLBACK_FAILED"
  else
    boot_number ← st_lift (ok_or "ROLLBACK_RESULT_INVALID" (printed_number (stdout output)));
    boot ← probe (λ run, inspect_subvolume run (snapshot_path boot_number));
    r ← st_get current;
    goal ← st_lift (ok_or "ROLLBACK_INTENT_INCOMPLETE" (recovery r));
    if parent_uuid boot !=? Some (uuid (source_snapshot goal)) then
      st_throw "ROLLBACK_RESULT_INVALID"
    else
      default_id ← probe default_subvolume_id;
      if default_id !=? id boot then st_throw "ROLLBACK_RESULT_INVALID"
      else
        identity ← identity_at (snapshot_path boot_number);
        if identity !=? State.source r then st_throw "ROLLBACK_RESULT_INVALID"
        else
          _ ← set_current (scheduled r goal boot);
          store root.

Definition finish_rollback (root : path) (number : Z) : M unit :=
  output ← perform oracle (Run "snapper" (rollback_arguments number));
  after_snapper root output.

(** What is refused before anything is written. *)
Definition check_rollback (root : path) : M (Z * SubvolumeIdentity) :=
  r ← st_get current;
  if state r !=? NeedsRecovery then st_throw "RECOVERY_NOT_REQUIRED"
  else if is_some_and (recovery r) (λ goal, is_none (boot_snapshot goal)) then
    st_throw "ROLLBACK_INTENT_INCOMPLETE"
  else
    number ← st_lift (ok_or "SNAPSHOT_NOT_AVAILABLE" (snapshot_number r));
    identity ← identity_at (snapshot_path number);
    if identity !=? State.source r then st_throw "SNAPSHOT_IDENTITY_MISMATCH"
    else
      format ← perform oracle (ReadText (format_path (snapshot_path number)));
      if format !=? Some FORMAT_SUPPORTED then st_throw "SNAPSHOT_RECOVERY_UNSUPPORTED"
      else
        records ← probe (λ run, containing_subvolume_id run (display root));
        system ← probe (λ run, containing_subvolume_id run "/");
        if records ==? system then st_throw "RECOVERY_STATE_NOT_PERSISTENT"
        else
          source ← probe (λ run, inspect_subvolume run (snapshot_path number));
          mret (number, source).

Definition reload (root : path) : M unit :=
  r ← st_get current;
  r ← on_disk (st_map_err (λ _, "STATE_READ_FAILED")
        (load_state fault record_parse root (operation_id r)));
  set_current r.

(** The intent is stored, then Snapper runs; a failure is stored as well. *)
Definition attempt_rollback (root : path) (number : Z) (source : SubvolumeIdentity)
    (now : string) : M unit :=
  r ← st_get current;
  _ ← set_current (prepared r number source now);
  _ ← store root;
  finished ← st_try (finish_rollback root number);
  match finished with
  | Ok _ => mret ()
  | Err error =>
      r ← st_get current;
      _ ← set_current (rollback_failed r error);
      _ ← store root;
      st_throw error
  end.

Definition schedule_rollback (root : path) (now : string) : M unit :=
  _ ← st_map_err (λ _, "TRANSACTION_BUSY") (acquire_lock oracle euid umask fault);
  _ ← reload root;
  '(number, source) ← check_rollback root;
  attempt_rollback root number source now.
End rollback.

(* ------------------------------------------------------------------ *)
(** ** The call of Snapper in the history *)

Definition is_rollback (o : occurrence) : bool :=
  match o with
  | Did (Run program arguments) _ _ => (program ==? "snapper") && contains arguments "rollback"
  | _ => false
  end.

(** Steps that do not call Snapper for a rollback. *)
Definition silent (w w' : execution) : Prop :=
  ∃ l, history w' = history w ++ l ∧ Forall (λ o, is_rollback o = false) l.

#[export] Instance silent_reflexive : Reflexive silent.
Proof. intros w. exists []. by rewrite app_nil_r. Qed.
#[export] Instance silent_transitive : Transitive silent.
Proof.
  intros w1 w2 w3 (l1 & E1 & H1) (l2 & E2 & H2). exists (l1 ++ l2).
  rewrite E2, E1, app_assoc. split; [done|]. by apply Forall_app.
Qed.

Lemma quiet_silent {A E} (m : ST execution E A) : st_rel (quiet is_rollback) m → st_rel silent m.
Proof. intros H w. by destruct (H w) as [(l & Hl & Hq) _]; exists l. Qed.

Lemma silent_perform oracle {A E} (e : effect A) :
  (∀ a f, is_rollback (Did e a f) = false) → st_rel silent (perform (E:=E) oracle e).
Proof. intros H. by apply quiet_silent, perform_quiet. Qed.

Lemma silent_disk {A E} (m : ST world E A) : st_rel silent (on_disk m).
Proof. apply quiet_silent, on_disk_quiet. Qed.

Lemma silent_set {E} r : st_rel (E:=E) silent (set_current r).
Proof. intros w. exists []. by rewrite app_nil_r. Qed.

Lemma silent_get {E A} (f : execution → A) : st_rel (E:=E) silent (st_get f).
Proof. intros w. exists []. by rewrite app_nil_r. Qed.

Lemma silent_run {A E} (m : ST execution E A) w x w' : st_rel silent m → m w = (x, w') → silent w w'.
Proof. intros H E'. specialize (H w). by rewrite E' in H. Qed.

Create HintDb silent.
#[export] Hint Resolve silent_perform silent_disk silent_set silent_get : silent.
#[export] Hint Extern 1 (st_rel silent (mret _)) => apply st_rel_ret, _ : silent.
#[export] Hint Extern 1 (st_rel silent (st_lift _)) => apply st_rel_lift, _ : silent.
#[export] Hint Extern 1 (st_rel silent (st_throw _)) => apply st_rel_throw, _ : silent.
#[export] Hint Extern 2 (st_rel silent (_ ≫= _)) =>
  (apply st_rel_bind; [apply _| |intros ?]) : silent.
#[export] Hint Extern 2 (st_rel silent (st_map_err _ _)) => apply st_rel_map_err : silent.
#[export] Hint Extern 2 (st_rel silent (st_try _)) => apply st_rel_try : silent.
#[export] Hint Extern 3 (st_rel silent (if ?b then _ else _)) => destruct b : silent.
#[export] Hint Extern 3 (st_rel silent (match ?x with _ => _ end)) => destruct x : silent.

Section steps.
Context {HL : Libraries} (oracle : Oracle).
Context (euid umask : Z) (fault : nat → option (IoError * nat)).
Context (pid : Z) (nonce : nat → Z).

Lemma probe_silent {A} (f : (list string → string → option (bool * string)) → result string A) :
  st_rel silent (probe oracle f).
Proof. unfold probe. eauto with silent. Qed.
Lemma identity_at_silent root : st_rel silent (identity_at oracle root).
Proof. unfold identity_at. eauto with silent. Qed.
Lemma store_silent root : st_rel silent (store euid umask fault pid nonce root).
Proof. unfold store, save. eauto with silent. Qed.
#[local] Hint Resolve probe_silent identity_at_silent store_silent : silent.

Lemma check_rollback_silent root : st_rel silent (check_rollback oracle root).
Proof. unfold check_rollback. eauto 30 with silent. Qed.
Lemma reload_silent root : st_rel silent (reload fault root).
Proof. unfold reload. eauto with silent. Qed.
Lemma lock_silent : st_rel silent (acquire_lock oracle euid umask fault).
Proof. unfold acquire_lock, stage. eauto 10 with silent. Qed.

(** A successful question, and what was asked. *)
Lemma probe_Ok {A} (f : (list string → string → option (bool * string)) → result string A) w a w' :
  probe oracle f w = (Ok a, w') →
  answered (history w) (history w') BtrfsView (λ run, f run = Ok a)
  ∧ current w' = current w ∧ disk w' = disk w.
Proof.
  unfold probe. intros H. apply st_bind_Ok in H as (run & w1 & H1 & H).
  unfold perform in H1. injection H1 as Hr <-. unfold st_lift in H. injection H as Hf <-. cbn.
  split; [|done]. eexists _, _. split; [apply happened_snoc|]. by rewrite Hr.
Qed.

Lemma identity_at_Ok root w identity w' :
  identity_at oracle root w = (Ok identity, w') →
  answered (history w) (history w') (ReleaseIdentityAt root) (λ i, i = Some identity)
  ∧ current w' = current w ∧ disk w' = disk w.
Proof.
  unfold identity_at. intros H. apply st_bind_Ok in H as (i & w1 & H1 & H).
  unfold perform in H1. injection H1 as Hi <-. unfold st_lift in H. injection H as Hf <-.
  apply ok_or_Ok in Hf. cbn. split; [|done]. eexists _, _. split; [apply happened_snoc|].
  by rewrite Hi.
Qed.

Lemma store_Ok root w w' :
  store euid umask fault pid nonce root w = (Ok (), w') →
  stored euid root (nodes (disk w')) (current w) ∧ current w' = current w
  ∧ validate_state (current w) = Ok () ∧ history w' = history w.
Proof.
  unfold store. intros H. apply st_bind_Ok in H as (r & w1 & H1 & H). injection H1 as <- <-.
  apply st_map_err_Ok in H. by apply save_Ok in H as (Hs & Hh & Hc & Hv).
Qed.
End steps.

(* ------------------------------------------------------------------ *)
(** ** What is checked before and after the call *)

(** The record, read under the lock, allows a rollback to [number], whose snapshot
    is the release the operation started from, understands the record after the
    boot and is [source]; the records live in another subvolume than the system. *)
Record permitted (root : path) (r : OperationStateRecord) (number : Z)
    (source : SubvolumeIdentity) (h h' : list occurrence) : Prop := {
  pm_state : state r = NeedsRecovery;
  pm_goal : ∀ goal, recovery r = Some goal → boot_snapshot goal ≠ None;
  pm_number : snapshot_number r = Some number;
  pm_identity : answered h h' (ReleaseIdentityAt (snapshot_path number))
    (λ identity, identity = Some (State.source r));
  pm_format : answered h h' (ReadText (format_path (snapshot_path number)))
    (λ text, text = Some FORMAT_SUPPORTED);
  pm_persistent : ∃ records system, records ≠ system
    ∧ answered h h' BtrfsView (λ run, containing_subvolume_id run (display root) = Ok records)
    ∧ answered h h' BtrfsView (λ run, containing_subvolume_id run "/" = Ok system);
  pm_source : answered h h' BtrfsView
    (λ run, inspect_subvolume run (snapshot_path number) = Ok source);
}.

(** Snapper made [boot] from the source of [goal] and the machine boots it next. *)
Record selected (r : OperationStateRecord) (goal : RollbackGoal) (boot : SubvolumeIdentity)
    (output : Output) (h h' : list occurrence) : Prop := {
  se_success : success output = true;
  se_parent : parent_uuid boot = Some (uuid (source_snapshot goal));
  se_default : answered h h' BtrfsView (λ run, default_subvolume_id run = Ok (id boot));
  se_clone : ∃ boot_number, printed_number (stdout output) = Some boot_number
    ∧ answered h h' BtrfsView
        (λ run, inspect_subvolume run (snapshot_path boot_number) = Ok boot)
    ∧ answered h h' (ReleaseIdentityAt (snapshot_path boot_number))
        (λ identity, identity = Some (State.source r));
}.

Lemma permitted_widen root r number source h0 h h' h1 :
  h0 `prefix_of` h → h' `prefix_of` h1 →
  permitted root r number source h h' → permitted root r number source h0 h1.
Proof.
  intros P0 P1 [F1 F2 F3 F4 F5 (a & b & F6 & F7 & F8) F9].
  split; eauto 10 using answered_widen.
Qed.

Lemma selected_widen r goal boot output h0 h h' h1 :
  h0 `prefix_of` h → h' `prefix_of` h1 →
  selected r goal boot output h h' → selected r goal boot output h0 h1.
Proof.
  intros P0 P1 [F1 F2 F3 (n & F4 & F5 & F6)]. split; eauto 10 using answered_widen.
Qed.

Lemma silent_prefix w w' : silent w w' → history w `prefix_of` history w'.
Proof. intros (l & -> & _). by apply prefix_app_r. Qed.

(** [a !=? b] is false. *)
Ltac equal H := rewrite negb_false_iff, eqb_true in H.

Section sound.
Context {HL : Libraries} (oracle : Oracle).
Context (euid umask : Z) (fault : nat → option (IoError * nat)).
Context (pid : Z) (nonce : nat → Z).
#[local] Hint Resolve probe_silent identity_at_silent store_silent check_rollback_silent
  reload_silent lock_silent : silent.

(** The prefix of two histories that a step relates. *)
Ltac grow H := eapply silent_prefix, silent_run, H; eauto with silent.

Lemma check_rollback_Ok root w number source w' :
  check_rollback oracle root w = (Ok (number, source), w') →
  permitted root (current w) number source (history w) (history w') ∧ current w' = current w.
Proof.
  unfold check_rollback. intros H. apply st_bind_Ok in H as (r & w1 & H1 & H). injection H1 as <- <-.
  destruct (state _ !=? NeedsRecovery) eqn:Es; [done|]. equal Es.
  destruct (is_some_and _ _) eqn:Eg; [done|].
  apply st_bind_Ok in H as (n & w1 & H1 & H). unfold st_lift in H1. injection H1 as Hn <-.
  apply ok_or_Ok in Hn.
  apply st_bind_Ok in H as (identity & w2 & H2 & H).
  assert (history w `prefix_of` history w2) as P2 by grow H2. apply identity_at_Ok in H2 as (F2 & C2 & _).
  destruct (identity !=? _) eqn:Ei; [done|]. equal Ei. subst identity.
  apply st_bind_Ok in H as (format & w3 & H3 & H).
  assert (history w2 `prefix_of` history w3) as P3 by grow H3.
  assert (current w3 = current w2) as C3 by by injection H3 as _ <-.
  apply perform_answered in H3 as (? & [= <-] & F3 & _).
  destruct (format !=? _) eqn:Ef; [done|]. equal Ef. subst format.
  apply st_bind_Ok in H as (records & w4 & H4 & H).
  assert (history w3 `prefix_of` history w4) as P4 by grow H4. apply probe_Ok in H4 as (F4 & C4 & _).
  apply st_bind_Ok in H as (system & w5 & H5 & H).
  assert (history w4 `prefix_of` history w5) as P5 by grow H5. apply probe_Ok in H5 as (F5 & C5 & _).
  destruct (records ==? system) eqn:Er; [done|]. rewrite eqb_false in Er.
  apply st_bind_Ok in H as (s & w6 & H6 & H).
  assert (history w5 `prefix_of` history w6) as P6 by grow H6. apply probe_Ok in H6 as (F6 & C6 & _).
  injection H as <- <- <-. split; [|congruence].
  split; [done| |done|..].
  - intros goal Hg. rewrite is_some_and_false in Eg. specialize (Eg _ Hg).
    apply is_none_false in Eg as [b ->]. done.
  - eapply answered_widen; [reflexivity| |exact F2]. chain.
  - eapply answered_widen; [exact P2| |exact F3]. chain.
  - exists records, system. split; [done|].
    split; [eapply answered_widen; [| |exact F4]|eapply answered_widen; [| |exact F5]]; chain.
  - eapply answered_widen; [|reflexivity|exact F6]. chain.
Qed.

Lemma after_snapper_silent root output :
  st_rel silent (after_snapper oracle euid umask fault pid nonce root output).
Proof. unfold after_snapper. eauto 30 with silent. Qed.

Lemma after_snapper_Ok root output w w' :
  after_snapper oracle euid umask fault pid nonce root output w = (Ok (), w') →
  ∃ goal boot, recovery (current w) = Some goal
    ∧ selected (current w) goal boot output (history w) (history w')
    ∧ current w' = scheduled (current w) goal boot
    ∧ stored euid root (nodes (disk w')) (current w') ∧ validate_state (current w') = Ok ().
Proof.
  unfold after_snapper. intros H. destruct (success output) eqn:Es; [|done]. cbn [negb] in H.
  apply st_bind_Ok in H as (n & w1 & H1 & H). unfold st_lift in H1. injection H1 as Hn <-.
  apply ok_or_Ok in Hn.
  apply st_bind_Ok in H as (boot & w2 & H2 & H).
  assert (history w `prefix_of` history w2) as P2 by grow H2. apply probe_Ok in H2 as (F2 & C2 & _).
  apply st_bind_Ok in H as (r & w3 & H3 & H). injection H3 as <- <-.
  apply st_bind_Ok in H as (goal & w3 & H3 & H). unfold st_lift in H3. injection H3 as Hg <-.
  apply ok_or_Ok in Hg. destruct (parent_uuid boot !=? _) eqn:Ep; [done|]. equal Ep.
  apply st_bind_Ok in H as (d & w4 & H4 & H).
  assert (history w2 `prefix_of` history w4) as P4 by grow H4. apply probe_Ok in H4 as (F4 & C4 & _).
  destruct (d !=? _) eqn:Ed; [done|]. equal Ed. subst d.
  apply st_bind_Ok in H as (identity & w5 & H5 & H).
  assert (history w4 `prefix_of` history w5) as P5 by grow H5.
  apply identity_at_Ok in H5 as (F5 & C5 & _).
  destruct (identity !=? _) eqn:Ei; [done|]. equal Ei. subst identity.
  apply st_bind_Ok in H as ([] & w6 & H6 & H). injection H6 as <-.
  apply store_Ok in H as (Hs & Hc & Hv & Hh). cbn in Hs, Hc, Hv, Hh.
  rewrite C2 in *. exists goal, boot. rewrite Hc, Hh. split; [done|].
  split; [|by split]. split; [done|done| |].
  - eapply answered_widen; [| |exact F4]; chain.
  - exists n. split; [done|].
    split; [eapply answered_widen; [| |exact F2]|eapply answered_widen; [| |exact F5]]; chain.
Qed.

Lemma finish_rollback_spec root number w x w' :
  finish_rollback oracle euid umask fault pid nonce root number w = (x, w') →
  ∃ output l, history w' = history w
      ++ Did (Run "snapper" (rollback_arguments number)) output (nodes (disk w)) :: l
    ∧ Forall (λ o, is_rollback o = false) l
    ∧ (x = Ok () → ∃ goal boot, recovery (current w) = Some goal
         ∧ selected (current w) goal boot output (history w) (history w')
         ∧ current w' = scheduled (current w) goal boot
         ∧ stored euid root (nodes (disk w')) (current w') ∧ validate_state (current w') = Ok ()).
Proof.
  unfold finish_rollback, perform, mbind at 1, st_bind at 1.
  set (output := oracle _ _ _ _). set (w1 := {| disk := _ |}). intros H.
  destruct (after_snapper_silent root output w1) as (l & Hl & Hq). rewrite H in Hl. cbn in Hl.
  exists output, l. split; [by rewrite Hl, <- app_assoc|]. split; [done|]. intros ->.
  apply after_snapper_Ok in H as (goal & boot & Hg & Hs & Hrest). exists goal, boot.
  split; [done|]. split; [|done]. eapply selected_widen; [|reflexivity|exact Hs].
  by apply prefix_app_r.
Qed.

Lemma store_Err root w e w' :
  store euid umask fault pid nonce root w = (Err e, w') → e = "STATE_WRITE_FAILED".
Proof.
  unfold store. intros [H|(r & w1 & _ & H)]%st_bind_Err; [done|].
  by apply st_map_err_Err in H as (e0 & _ & ->).
Qed.

(** How an attempt that reached Snapper ended. *)
Definition attempt_ended (root : path) (r : OperationStateRecord) (output : Output)
    (h : list occurrence) (x : result string unit) (w' : execution) : Prop :=
  match x with
  | Ok _ => ∃ goal boot, recovery r = Some goal
      ∧ selected r goal boot output h (history w')
      ∧ current w' = scheduled r goal boot ∧ stored euid root (nodes (disk w')) (current w')
      ∧ validate_state (current w') = Ok ()
  | Err e => e = "STATE_WRITE_FAILED"
      ∨ stored euid root (nodes (disk w')) (current w') ∧ state (current w') = NeedsRecovery
        ∧ State.error_code (current w') = Some e
  end.

Lemma attempt_rollback_spec root number source now w x w' :
  attempt_rollback oracle euid umask fault pid nonce root number source now w = (x, w') →
  (silent w w' ∧ x = Err "STATE_WRITE_FAILED")
  ∨ ∃ output files l,
      history w' = history w ++ Did (Run "snapper" (rollback_arguments number)) output files :: l
      ∧ Forall (λ o, is_rollback o = false) l
      ∧ stored euid root files (prepared (current w) number source now)
      ∧ attempt_ended root (prepared (current w) number source now) output (history w) x w'.
Proof.
  unfold attempt_rollback. intros H. apply st_bind_cases in H as [(e & H & _)|(r & w0 & H0 & H)]; [done|].
  injection H0 as <- <-. set (r := prepared (current w) number source now) in *.
  apply st_bind_cases in H as [(e & H & _)|([] & w1 & H1 & H)]; [done|].
  assert (current w1 = r ∧ history w1 = history w) as [C1 Hh1] by by injection H1 as <-.
  clear H1. apply st_bind_cases in H as [(e & H & ->)|([] & w2 & H2 & H)].
  { left. pose proof (silent_run _ _ _ _ (store_silent euid umask fault pid nonce root) H) as (l & Hl & Hq).
    apply store_Err in H as ->. split; [|done]. exists l. by rewrite Hl, Hh1. }
  apply store_Ok in H2 as (S2 & C2 & _ & Hh2). rewrite C1 in S2, C2. rewrite Hh1 in Hh2.
  apply st_bind_try in H as (finished & w3 & H3 & H).
  apply finish_rollback_spec in H3 as (output & l & Hl & Hq & Hok). rewrite C2, Hh2 in *.
  right. exists output, (nodes (disk w2)). destruct finished as [[]|error].
  - injection H as <- <-. exists l. split; [done|]. split; [done|]. split; [done|]. exact (Hok eq_refl).
  - clear Hok. apply st_bind_cases in H as [(e & H & _)|(r3 & w4 & H4 & H)]; [done|].
    injection H4 as <- <-.
    apply st_bind_cases in H as [(e & H & _)|([] & w5 & H5 & H)]; [done|].
    assert (current w5 = rollback_failed (current w3) error ∧ history w5 = history w3)
      as [C5 Hh5] by by injection H5 as <-.
    apply st_bind_cases in H as [(e & H & ->)|([] & w6 & H6 & H)].
    + pose proof (silent_run _ _ _ _ (store_silent euid umask fault pid nonce root) H) as (k & Hk & Hq').
      exists (l ++ k). split; [by rewrite Hk, Hh5, Hl, <- app_assoc|].
      split; [by apply Forall_app|]. split; [done|]. left. by eapply store_Err.
    + apply store_Ok in H6 as (S6 & C6 & _ & Hh6). injection H as <- <-.
      exists l. split; [by rewrite Hh6, Hh5|]. split; [done|]. split; [done|]. right.
      rewrite C6, C5 in *. by split.
Qed.

Lemma lock_current w u w' : acquire_lock oracle euid umask fault w = (Ok u, w') → current w' = current w.
Proof.
  unfold acquire_lock, stage. intros H. apply st_bind_Ok in H as (n & w1 & H1 & H).
  apply on_disk_keeps in H1 as (_ & C1). apply st_bind_Ok in H as (? & w2 & H2 & H).
  apply on_disk_keeps in H2 as (_ & C2). destruct n; [done| |done].
  apply st_bind_Ok in H as (held & w3 & H3 & H). injection H3 as <- <-. cbn in H.
  destruct (oracle _ _ _ _); [|done]. injection H as <- <-. cbn. congruence.
Qed.

(** The record is the one on disk. *)
Lemma reload_Ok root w w' :
  reload fault root w = (Ok (), w') →
  ∃ d d', load_state fault record_parse root (operation_id (current w)) d = (Ok (current w'), d').
Proof.
  unfold reload. intros H. apply st_bind_Ok in H as (r & w1 & H1 & H). injection H1 as <- <-.
  apply st_bind_Ok in H as (r & w1 & H1 & H). injection H as <-. cbn.
  exists (disk w). unfold on_disk in H1.
  destruct (st_map_err _ _ (disk w)) as [y d] eqn:E. injection H1 as -> _.
  apply st_map_err_Ok in E. eauto.
Qed.


(** C19 A rollback that is reported as scheduled is one the next boot can confirm: the
    stored record waits for the reboot with a well-formed goal for the snapshot of the
    operation, Snapper made the boot clone from the recorded source, and btrfs boots it
    by default. A machine that later runs this clone as its default, with the source
    unchanged and the release of the operation, passes the checks of the verifier. *)
Theorem rollback_scheduled root now w w' :
  schedule_rollback oracle euid umask fault pid nonce root now w = (Ok (), w') →
  ∃ r goal boot output number,
    stored euid root (nodes (disk w')) r ∧ validate_state r = Ok ()
    ∧ state r = AwaitingReboot ∧ State.error_code r = None
    ∧ recovery r = Some goal ∧ boot_snapshot goal = Some boot
    ∧ source_snapshot_number goal = number ∧ snapshot_number r = Some number
    ∧ goal_valid goal (Some number) = true
    ∧ answered (history w) (history w') (Run "snapper" (rollback_arguments number)) (λ o, o = output)
    ∧ selected r goal boot output (history w) (history w')
    ∧ ∀ run,
        inspect_subvolume run (snapshot_path number) = Ok (source_snapshot goal) →
        inspect_subvolume run "/" = Ok boot → default_subvolume_id run = Ok (id boot) →
        verify_rollback_boot run goal = Ok () ∧ verify_release r (State.source r) = Ok ().
Proof.
  unfold schedule_rollback. intros H. apply st_bind_Ok in H as ([] & w1 & H1 & H).
  apply st_map_err_Ok, silent_run, silent_prefix in H1; [|apply lock_silent].
  apply st_bind_Ok in H as ([] & w2 & H2 & H). apply silent_run, silent_prefix in H2; [|apply reload_silent].
  apply st_bind_Ok in H as ([number source] & w3 & H3 & H).
  assert (history w2 `prefix_of` history w3) as P3 by grow H3.
  apply check_rollback_Ok in H3 as (Hp & C3).
  apply attempt_rollback_spec in H as [(_ & H)|(output & files & after & Hh & _ & _ & He)]; [done|].
  destruct He as (goal & boot & Hg & Hs & Hc & Hst & Hv). injection Hg as <-.
  assert (history w `prefix_of` history w3) as P by chain.
  exists (current w'). eexists. exists boot, output, number.
  split; [done|]. split; [done|]. rewrite Hc in *.
  apply validate_state_Ok in Hv as Hwf. destruct (wf_recovery _ Hwf _ eq_refl) as (_ & Hgv & _).
  assert (snapshot_number (current w3) = Some number) as Hn by (rewrite C3; exact (pm_number _ _ _ _ _ _ Hp)).
  cbn in Hgv. rewrite Hn in Hgv.
  do 4 (split; [done|]). split; [done|]. split; [done|]. split; [exact Hgv|].
  split. { eexists _, _. split; [|reflexivity]. rewrite Hh. destruct P as [k ->]. exists k, after. by rewrite <- app_assoc. }
  split.
  { eapply selected_widen; [exact P|reflexivity|]. destruct Hs as [F1 F2 F3 F4]. by split. }
  intros run Hsrc Hroot Hd. split.
  - unfold verify_rollback_boot. cbn. rewrite Hsrc. cbn. rewrite eqb_refl. cbn.
    rewrite Hroot. cbn. rewrite eqb_refl. cbn. rewrite Hd. cbn. by rewrite eqb_refl.
  - unfold verify_release. cbn. by rewrite eqb_refl.
Qed.
End sound.

(* ------------------------------------------------------------------ *)
(** ** A concrete rollback *)

(** An update that failed after its snapshot, number 2. *)
Definition failed_update : OperationStateRecord :=
  set_error_code (set_snapshot_number (sample_record UpdateWithinRelease NeedsRecovery) (Some 2%Z))
    (Some "ZYPPER_APPLY_FAILED").
Definition rollback_libraries : Libraries := {|
  plan_json := λ _, Ok "plan"; plan_pretty := λ _, Ok "plan"; manifest_json := λ _, Ok "manifest";
  manifest_pretty := λ _, Ok "manifest"; record_json := sample_encode;
  record_parse := λ text,
    if text ==? state_text sample_encode failed_update then Some failed_update else None;
  inventory_json := λ _, "inventory"; inventory_parse := λ _, None; plan_parse := λ _, None;
  manifest_parse := λ _, None;
  mounts_json := sample_layout; xml_events := sample_update_events; digest := λ _, zeros 64 |}.

Definition rollback_run (arguments : list string) (p : string) : option (bool * string) :=
  if contains arguments "rootid" then Some (true, if p ==? "/" then "256" else "300")
  else sample_run arguments (if p ==? snapshot_path 8 then "/" else p).
Definition rollback_oracle : Oracle := λ A h w e,
  match e in effect B return B → B with
  | Run _ _ => λ _, sample_output ("8" +:+ String nl "")
  | ReleaseIdentityAt _ => λ _, Some sample_release
  | ReadText _ => λ _, Some FORMAT_SUPPORTED
  | BtrfsView => λ _, rollback_run
  | _ => λ a, a
  end (sample_oracle A h w e).

Definition rollback_start : execution := {|
  disk := {| nodes :=
    <[state_path (operation_id failed_update) := File 0 384 (state_text sample_encode failed_update)]>
    (<[join STATE_ROOT (operation_id failed_update) := Dir 0 448]>
    (<[STATE_ROOT := Dir 0 448]>
    (<[["lock"; "run"] := Dir 0 493]> (<[["run"] := Dir 0 493]> (nodes sample_world))))); calls := 0 |};
  history := []; current := failed_update |}.
Definition sample_rollback : result string unit * execution :=
  schedule_rollback (HL := rollback_libraries) rollback_oracle 0 18 no_fault 104 (λ n, Z.of_nat n)
    STATE_ROOT "2026-08-19T00:00:00Z" rollback_start.

Lemma sample_rollback_eq : sample_rollback = (Ok (), sample_rollback.2).
Proof. apply pair_with_fst. vm_compute. reflexivity. Qed.


Lemma rollback_scheduled_witness :
  ∃ r, @stored rollback_libraries 0 STATE_ROOT (nodes (disk sample_rollback.2)) r
       ∧ state r = AwaitingReboot.
Proof.
  destruct (rollback_scheduled (HL := rollback_libraries) rollback_oracle 0 18 no_fault 104
    (λ n, Z.of_nat n) STATE_ROOT "2026-08-19T00:00:00Z" rollback_start _ sample_rollback_eq)
    as (r & goal & boot & output & number & Hs & _ & Ha & _).
  exists r. split; [exact Hs|exact Ha].
Defined.
