(* ===== verification/Ownership.v ===== *)
(** * The owner of an operation and its pending plan (src/service/src/main.rs)

    The two files the service keeps next to the record of an operation: the user
    who asked for it, written once, and the plan that waits for its confirmation. *)

From S2P Require Import Prelude RustStr Recovery State Fs Persistence Preflight Solver Plan.
From S2P Require Import ManifestData Manifest Migration Discovery Protocol Request.

Open Scope bool_scope.
Open Scope lyra_scope.

Record PendingPlan := {
  pending_planned : PlannedUpdate;
  pending_manifest : option ReleaseManifest;
}.

#[export] Instance PendingPlan_eq_dec : EqDecision PendingPlan.
Proof. solve_decision. Defined.

Definition valid_operation_shape (operation : OperationKind) (has_manifest target_matches_manifest
    has_target has_manifest_sha256 : bool) : bool :=
  match operation with
  | UpdateWithinRelease => negb has_manifest && negb has_target && negb has_manifest_sha256
  | ReleaseUpgrade | State.PackageMigration =>
      has_manifest && target_matches_manifest && has_target && has_manifest_sha256
  end.

Definition valid_operation_id (value : string) : bool :=
  (str_len value =? 36)%Z
  && bytes_alli (λ index byte,
       if contains [8; 13; 18; 23]%nat index then Ascii.eqb byte "-" else is_ascii_hexdigit byte && negb (is_ascii_uppercase byte)) value.

Section files.
Context (euid umask : Z) (fault : nat → option (IoError * nat)).
(** serde_json. *)
Context (pending_pretty : PendingPlan → string) (pending_parse : string → option PendingPlan).

(** [OpenOptions] with [create], [truncate] and [O_NOFOLLOW]. *)
Definition create_truncate (p : path) (mode : Z) : ST world IoError unit :=
  syscall fault (λ ns,
    match ns !! p with
    | Some (Symlink _) => (Err (OtherError 40), ns)
    | Some (Dir _ _) => (Err (OtherError 21), ns)
    | Some (File u m _) => (Ok (), <[p := File u m ""]> ns)
    | None =>
        if negb (in_dir ns p) then (Err NotFound, ns)
        else (Ok (), <[p := File euid (Z.land mode (Z.lnot umask)) ""]> ns)
    end).

Definition save_operation_owner (root : path) (operation_id : string) (uid : Z)
  : ST world IoError unit :=
  if negb (valid_operation_id operation_id) then st_throw (OtherError 22)
  else
    let p := join (join root operation_id) "owner" in
    _ ← create_new euid umask fault p 384;
    _ ← write_all fault p (to_string uid);
    _ ← write_all fault p (String nl "");
    sync_all fault.

(** The owner a file names. *)
Definition owner_text (text : string) : option Z := from_utf8 text ≫= λ value, parse_u32 (trim value).

Definition operation_owned_by {E} (root : path) (operation_id : string) (uid : Z) : ST world E bool :=
  if negb (valid_operation_id operation_id) then mret false
  else
    let p := join (join root operation_id) "owner" in
    metadata ← st_try (symlink_metadata fault p);
    match metadata with
    | Ok (File _ _ content) =>
        if (32 <? str_len content)%Z then mret false
        else
          value ← st_try (read_file fault p);
          mret ((res_ok value ≫= owner_text) ==? Some uid)
    | _ => mret false
    end.

Definition save_pending_plan (root : path) (operation_id : string) (plan : PendingPlan)
  : ST world IoError unit :=
  let directory := join root operation_id in
  _ ← create_dir_all euid umask fault directory;
  let p := join directory "pending-plan.json" in
  let temporary := join directory "pending-plan.json.tmp" in
  _ ← create_truncate temporary 384;
  _ ← write_all fault temporary (pending_pretty plan);
  _ ← write_all fault temporary (String nl "");
  _ ← sync_all fault;
  rename fault temporary p.

Definition load_pending_plan (root : path) (operation_id : string) : ST world IoError PendingPlan :=
  let p := join (join root operation_id) "pending-plan.json" in
  metadata ← symlink_metadata fault p;
  match metadata with
  | File _ _ content =>
      if (8 * 1024 * 1024 <? str_len content)%Z then st_throw (OtherError 0)
      else
        text ← read_file fault p;
        st_lift (ok_or (OtherError 0) (pending_parse text))
  | _ => st_throw (OtherError 0)
  end.
End files.
