(* ===== verification/Service.v ===== *)
(** * The service (src/service/src/main.rs)

    The handler of one process: its memory, the threads it starts, the observer
    they report to, and an answer for every request. A handler either gives a
    response or the code of a rejection. The logs of events are shared between the
    handler and the thread of an operation, so that both name them by a number;
    the steps of threads are those of [work] and of the observer. Times, other
    programs and the query broker are effects of System.v. *)

From S2P Require Import Prelude RustStr Recovery State Fs Persistence Preflight Solver Plan.
From S2P Require Import ManifestData Manifest Migration Discovery Inventory SolverXml Vendors Protocol.
From S2P Require Import Sanitize EventLog EventFile System Planner Executor Request ManifestFetch.
From S2P Require Import Verifier Rollback Ownership.

Open Scope bool_scope.
Open Scope lyra_scope.

Definition RELEASE_CHANNEL_PATH : path := ["channel"; "lyra-upgrade"; "etc"].
Definition MAX_REQUEST : Z := 4 * 1024 * 1024.
Definition MAX_RESPONSE : Z := 16 * 1024 * 1024.

Record Service := {
  state_root : path;
  caller_uid : Z;
  plans : gmap string PendingPlan;
  (** The number of the log of an operation. *)
  service_events : gmap string nat;
  workers : Z;
  read_only : bool;
}.

Definition new (caller_uid : Z) : Service := {|
  state_root := STATE_ROOT; caller_uid := caller_uid; plans := ∅; service_events := ∅;
  workers := 0; read_only := false |}.

(** A log behind its lock; the lock is poisoned when a thread died holding it. *)
Record mutex := { guarded : EventLog; poisoned : bool }.

(** What a thread is started with. *)
Record thread := {
  thread_record : OperationStateRecord;
  thread_plan : PendingPlan;
  thread_log : nat;
}.

Record serving := {
  host : execution;
  service : Service;
  logs : gmap nat mutex;
  (** The state the observer of a log was last told. *)
  stages : gmap nat OperationState;
  threads : list thread;
}.

Definition with_host (v : serving) (h : execution) : serving := {|
  host := h; service := service v; logs := logs v; stages := stages v; threads := threads v |}.
Definition with_service (v : serving) (s : Service) : serving := {|
  host := host v; service := s; logs := logs v; stages := stages v; threads := threads v |}.
Definition with_logs (v : serving) (l : gmap nat mutex) : serving := {|
  host := host v; service := service v; logs := l; stages := stages v; threads := threads v |}.
Definition with_stages (v : serving) (l : gmap nat OperationState) : serving := {|
  host := host v; service := service v; logs := logs v; stages := l; threads := threads v |}.
Definition with_threads (v : serving) (l : list thread) : serving := {|
  host := host v; service := service v; logs := logs v; stages := stages v; threads := l |}.

Definition with_plan (s : Service) (id : string) (p : PendingPlan) : Service := {|
  state_root := state_root s; caller_uid := caller_uid s; plans := <[id := p]> (plans s);
  service_events := service_events s; workers := workers s; read_only := read_only s |}.
Definition with_log (s : Service) (id : string) (log : nat) : Service := {|
  state_root := state_root s; caller_uid := caller_uid s; plans := plans s;
  service_events := <[id := log]> (service_events s); workers := workers s;
  read_only := read_only s |}.
Definition with_workers (s : Service) (n : Z) : Service := {|
  state_root := state_root s; caller_uid := caller_uid s; plans := plans s;
  service_events := service_events s; workers := n; read_only := read_only s |}.

Definition on_host {A E} (m : ST execution E A) : ST serving E A := λ v,
  let '(r, h) := m (host v) in (r, with_host v h).
Definition on_files {A E} (m : ST world E A) : ST serving E A := on_host (on_disk m).

(* ------------------------------------------------------------------ *)
(** ** Pieces of a response *)

Definition state_name (state : OperationState) : string :=
  match state with
  | Idle => "idle" | Checking => "checking" | Available => "available"
  | State.Preflight => "preflight" | Planned => "planned"
  | AwaitingConfirmation => "awaiting-confirmation" | Downloading => "downloading"
  | Snapshotting => "snapshotting" | Applying => "applying" | ReadyToReboot => "ready-to-reboot"
  | ApplyingOffline => "applying-offline" | AwaitingReboot => "awaiting-reboot"
  | VerifyingBoot => "verifying-boot" | Blocked => "blocked" | Failed => "failed"
  | NeedsRecovery => "needs-recovery" | Completed => "completed"
  end.

(** [dedup_by_key]. *)
Fixpoint dedup_by_key {A} (f : A → Z) (l : list A) : list A :=
  match l with
  | [] => []
  | x :: l' =>
      match dedup_by_key f l' with
      | [] => [x]
      | y :: l'' => if (f x =? f y)%Z then x :: l'' else x :: y :: l''
      end
  end.

Definition READ_FAILED : string := "EVENT_LOG_READ_FAILED".
Definition WRITE_FAILED : string := "EVENT_LOG_WRITE_FAILED".

(** What the log in memory adds to the events on disk. *)
Definition merge_cached (log : option mutex) (after : Z) (events : list OperationEvent)
    (history_error : option string) : list OperationEvent * option string :=
  match log with
  | None => (events, history_error)
  | Some m =>
      if poisoned m then (events, Some READ_FAILED)
      else
        let history_error :=
          if persistence_failed (guarded m) then Some WRITE_FAILED else history_error in
        (if is_some history_error
         then dedup_by_key event_sequence
                (sort_by_key event_sequence (events ++ EventLog.after (guarded m) after))
         else events, history_error)
  end.

(** The diagnostic of a history that is not whole. *)
Definition diagnostic (id : string) (r : OperationStateRecord) (code : string) : OperationEvent := {|
  event_operation_id := id; event_sequence := 0; occurred_at := updated_at r;
  event_state := state r; level := Warning; message_id := "error_" +:+ code; fields := ∅;
  technical := None |}.

Definition recovered_by (r : OperationStateRecord) : bool :=
  (state r ==? Completed) && is_some (recovery r) && (boot_verification r ==? Some Boot_Passed).

(** The submitted plan is the one its hash names, of a shape an operation can have. *)
Definition submission_valid `{!Libraries} (plan_sha256 : string) (submitted : PlannedUpdate) : bool :=
  let plan := planned_plan submitted in
  let manifest := planned_manifest submitted in
  (planned_sha256 submitted ==? plan_sha256)
  && (res_ok (Planner.plan_sha256 plan) ==? Some plan_sha256)
  && valid_operation_shape (plan_operation plan) (is_some manifest)
       (is_some_and manifest (λ manifest,
          (plan_target plan ==? Some (man_target manifest))
          && (plan_operation plan ==? ManifestData.operation manifest)))
       (is_some (plan_target plan)) (is_some (plan_manifest_sha256 plan))
  && (release (planned_facts submitted) ==? plan_source plan)
  && (changes (planned_solver submitted) ==? package_changes plan)
  && ((solver_reboot_required (planned_solver submitted)
       || is_signed_offline (plan_operation plan)) ==? reboot_required plan).

(** The record of a new operation. *)
Definition initial_record (id plan_sha256 timestamp : string) (submitted authoritative : PlannedUpdate)
  : OperationStateRecord := {|
  schema_version := 1; operation_id := id; State.sequence := 1;
  State.operation := plan_operation (planned_plan authoritative);
  state := AwaitingConfirmation; State.source := release (planned_facts submitted);
  State.target := plan_target (planned_plan authoritative); State.plan_sha256 := plan_sha256;
  State.manifest_sha256 := plan_manifest_sha256 (planned_plan authoritative);
  snapshot_number := None; recovery := None; last_completed_step := Some "planned";
  State.error_code := None; boot_verification := Some Boot_Pending;
  created_at := timestamp; updated_at := timestamp |}.

(** A record that ends with an error code. *)
Definition stopped (r : OperationStateRecord) (next : OperationState) (code now : string)
  : OperationStateRecord :=
  set_updated_at
    (set_sequence (set_error_code (set_state r next) (Some code)) (saturating_add (State.sequence r) 1))
    now.

Definition release_error (error : FetchError) : string :=
  match error with
  | Route MigrationAlreadyApplied => "MIGRATION_ALREADY_APPLIED"
  | Route NotAvailable | Route SourceMismatch => "RELEASE_NOT_AVAILABLE"
  | _ => "MANIFEST_INVALID"
  end.

Section service.
Context `{HL : !Libraries} (oracle : Oracle).
Context (euid umask : Z) (fault : nat → option (IoError * nat)).
Context (pid : Z) (nonce : nat → Z) (fresh : nat → string).
(** serde_json over events, pending plans, requests and responses. *)
Context (to_vec : OperationEvent → string) (from_slice : string → option OperationEvent).
Context (pending_pretty : PendingPlan → string) (pending_parse : string → option PendingPlan).
Context (request_json : Request → option string) (request_parse : string → option Request).
Context (response_json : Response → string) (response_parse : string → option Response).
#[local] Abbreviation M := (ST serving string).

(* ------------------------------------------------------------------ *)
(** ** The query broker *)

Definition ask {E A} (e : effect A) : ST serving E A := on_host (perform oracle e).

(** [query_client::request]: only root answers, one bounded line each way. *)
Definition broker_request (request : Request) : M Response :=
  peer ← ask Connect;
  if peer !=? Some 0%Z then st_throw "QUERY_UNAVAILABLE"
  else
    line ← st_lift (ok_or "INVALID_REQUEST" (request_json request));
    answer ← ask (Exchange line);
    match answer with
    | Err Not_Sent => st_throw "INVALID_REQUEST"
    | Err _ => st_throw "QUERY_UNAVAILABLE"
    | Ok bytes =>
        let '(reply, _) := read_until (MAX_RESPONSE + 1) bytes in
        if (MAX_RESPONSE <? str_len reply)%Z || negb (ends_nl reply) then st_throw "INVALID_RESPONSE"
        else st_lift (ok_or "INVALID_RESPONSE" (response_parse reply))
    end.

(** [readonly_discovery]: the answer of the broker stands for that of Snapper. *)
Definition readiness_response (response : result string Response) (id : string) : bool :=
  match response with
  | Ok (RecoveryReadiness request_id true) => request_id ==? id
  | _ => false
  end.
Definition SNAPPER_CONFIG : list string := ["--no-dbus"; "--config"; "root"; "get-config"].
Definition readonly_backend (live : DiscoveryBackend) (readiness : bool) : DiscoveryBackend := {|
  backend_read := backend_read (DiscoveryBackend := live);
  backend_read_dir := backend_read_dir (DiscoveryBackend := live);
  backend_available_bytes := backend_available_bytes (DiscoveryBackend := live);
  backend_run := λ program arguments,
    if (program ==? "snapper") && (arguments ==? SNAPPER_CONFIG) && negb (euid =? 0)%Z
    then Ok {| Discovery.success := readiness; Discovery.stdout := "" |}
    else backend_run (DiscoveryBackend := live) program arguments |}.
Definition recovery_readiness (request_id : string) : M Response :=
  output ← ask (Bounded "/usr/bin/snapper" ["--config"; "root"; "get-config"]);
  mret (RecoveryReadiness request_id
          match output with Ok o => System.success o | Err _ => false end).

(* ------------------------------------------------------------------ *)
(** ** Offers and plans *)

Definition trust_state (request_id : string) : M Response :=
  s ← st_get service;
  if read_only s then broker_request (ReadTrustState PROTOCOL_VERSION request_id)
  else
    last ← on_files (st_map_err (λ _, "MANIFEST_SEQUENCE_INVALID")
             (read_last_manifest_sequence euid umask fault SEQUENCE_PATH));
    mret (TrustState request_id last).

(** The number of the last manifest, an error of its own when there is none. *)
Definition trusted_sequence (code : string) : M (option Z) :=
  trust ← st_try (trust_state "release-trust");
  match trust with Ok (TrustState _ last) => mret last | _ => st_throw code end.

Definition installed_release : M ReleaseIdentity :=
  identity ← ask (ReleaseIdentityAt "/"); st_lift (ok_or "DISCOVERY_FAILED" identity).
Definition release_channel : M ManifestChannelPolicy :=
  on_files (st_map_err (λ _, "RELEASE_CHANNEL_INVALID")
    (read_release_channel fault RELEASE_CHANNEL_PATH)).

Definition release_manifest : M ReleaseManifest :=
  identity ← installed_release;
  channel ← release_channel;
  sequence ← trusted_sequence "MANIFEST_SEQUENCE_INVALID";
  fetched ← ask (FetchVerifiedManifest identity sequence channel);
  match fetched with
  | Ok verified => mret (verified_manifest verified)
  | Err error => st_throw (release_error error)
  end.

(** serde_json does not fail on a manifest; the code panics if it does. *)
Definition manifest_hash (manifest : ReleaseManifest) : string :=
  digest (default "" (res_ok (manifest_json manifest))).
Definition offer (request_id : string) (manifest : ReleaseManifest) (cached : bool) : Response :=
  ReleaseOffer request_id (manifest_hash manifest) manifest cached.

Definition check_release_fresh (request_id : string) : M Response :=
  manifest ← release_manifest; mret (offer request_id manifest false).

Definition check_release (request_id : string) : M Response :=
  s ← st_get service;
  if read_only s then
    identity ← installed_release;
    channel ← release_channel;
    sequence ← trusted_sequence "QUERY_UNAVAILABLE";
    cache ← ask CacheHome;
    match cache with
    | None => check_release_fresh request_id
    | Some cache =>
        preview ← ask (FetchReleasePreview identity sequence channel
                    (join (join cache "lyra-upgrade") "release-preview.json"));
        match preview with
        | Ok (verified, cached) => mret (offer request_id (verified_manifest verified) cached)
        | Err error => st_throw (release_error error)
        end
    end
  else check_release_fresh request_id.

(** The broker is asked before the discovery that uses its answer once. *)
Definition inspect (request_id : string) : M Response :=
  readiness ← (if (euid =? 0)%Z then mret false
               else
                 response ← st_try
                   (broker_request (ReadRecoveryReadiness PROTOCOL_VERSION "snapper-readiness"));
                 mret (readiness_response response "snapper-readiness"));
  live ← ask LiveView;
  facts ← st_lift (map_err (λ _, "DISCOVERY_FAILED")
            (@discover_host (readonly_backend live readiness) mounts_json []).1);
  packages ← on_host (installed_packages_at oracle (λ _, "DISCOVERY_FAILED") None);
  let facts := with_installed facts packages in
  mret (Inspection request_id facts (evaluate_preflight facts default_policy)).

Definition plan_response (request_id : string) (planned : PlannedUpdate) : M Response :=
  operation_id ← ask NewUuid;
  mret (Response_Plan request_id operation_id (planned_sha256 planned) (planned_plan planned)
          (planned_preflight planned) planned).

(** What planning answers. *)
Definition planning_response (request_id : string) (planned : result PlannerError PlannedUpdate)
  : M Response :=
  match planned with
  | Ok planned => plan_response request_id planned
  | Err (Planner_Blocked blockers) => mret (PreflightBlocked request_id blockers)
  | Err (Planner.Migration AlreadyApplied) => st_throw "MIGRATION_ALREADY_APPLIED"
  | Err (Planner.Migration _) => st_throw "MIGRATION_POLICY_FAILED"
  | Err _ => st_throw "PREFLIGHT_BLOCKED"
  end.

Definition plan_update (request_id : string) : M Response :=
  planned ← st_try (on_host (plan_update_with_cached_metadata oracle));
  planning_response request_id planned.

Definition plan_release (request_id expected_manifest_hash : string) : M Response :=
  manifest ← release_manifest;
  if manifest_hash manifest !=? expected_manifest_hash then st_throw "MANIFEST_CHANGED"
  else
    planned ← st_try (on_host (plan_release_upgrade oracle manifest));
    planning_response request_id planned.

(* ------------------------------------------------------------------ *)
(** ** The operation of the caller *)

Definition owned_by_caller (operation_id : string) : M bool :=
  s ← st_get service;
  on_files (operation_owned_by fault (state_root s) operation_id (caller_uid s)).

Definition load (code operation_id : string) : M OperationStateRecord :=
  s ← st_get service;
  on_files (st_map_err (λ _, code) (load_state fault record_parse (state_root s) operation_id)).

Definition save_record (r : OperationStateRecord) : M unit :=
  s ← st_get service;
  on_files (st_map_err (λ _, "STATE_WRITE_FAILED")
    (λ w, save_state euid umask fault pid (nonce (calls w)) record_json (state_root s) r w)).

Definition log_of (operation_id : string) (v : serving) : option mutex :=
  service_events (service v) !! operation_id ≫= λ log, logs v !! log.

(** The events on disk, and what is wrong with them. *)
Definition stored_events (operation_id : string) (after : Z)
  : M (list OperationEvent * option string) :=
  s ← st_get service;
  history ← on_files (st_try (load_events_read_only from_slice euid umask fault (state_root s)
                                operation_id after));
  failed ← on_files (st_map_err (λ _, READ_FAILED)
             (has_write_failure fault (state_root s) operation_id));
  let '(events, history_error) :=
    match history with
    | Ok history => (history_events history, if incomplete history then Some READ_FAILED else None)
    | Err _ => ([], Some READ_FAILED)
    end in
  mret (events, if (failed : bool) then Some WRITE_FAILED else history_error).

Definition status (request_id operation_id : string) (after : Z) : M Response :=
  s ← st_get service;
  if read_only s then
    broker_request (Protocol.Status PROTOCOL_VERSION request_id operation_id (Some after))
  else
    owned ← owned_by_caller operation_id;
    if negb owned then st_throw "OPERATION_NOT_FOUND"
    else
      r ← load "OPERATION_NOT_FOUND" operation_id;
      '(events, history_error) ← stored_events operation_id after;
      log ← st_get (log_of operation_id);
      let '(events, history_error) := merge_cached log after events history_error in
      let events := match history_error with
        | Some code => events ++ [diagnostic operation_id r code]
        | None => events
        end in
      report ← on_files (st_try (load_inventory euid umask fault
                 (join (join (state_root s) operation_id) "inventory-after.json")));
      mret (Response_Status request_id operation_id (State.sequence r) (state r)
              (snapshot_number r) (recovered_by r)
              (match State.error_code r with Some code => Some code | None => history_error end)
              events (res_ok report)).

Definition cancel (request_id operation_id : string) : M Response :=
  owned ← owned_by_caller operation_id;
  if negb owned then st_throw "OPERATION_NOT_FOUND"
  else
    r ← load "OPERATION_NOT_FOUND" operation_id;
    if negb (is_cancelable (state r)) then st_throw "NOT_CANCELABLE"
    else
      now ← ask Now;
      _ ← save_record (stopped r Failed "CANCELLED" now);
      status request_id operation_id 0.

Definition acknowledge_recovery (request_id operation_id : string) (action : RecoveryAction)
  : M Response :=
  if action ==? ShowDiagnostics then status request_id operation_id 0
  else
    owned ← owned_by_caller operation_id;
    if negb owned then st_throw "OPERATION_NOT_FOUND"
    else
      r ← load "OPERATION_NOT_FOUND" operation_id;
      if state r !=? NeedsRecovery then st_throw "RECOVERY_NOT_REQUIRED"
      else
        now ← ask Now;
        _ ← match action with
            | ShowDiagnostics => mret ()
            | KeepCurrent => save_record (stopped r Failed "RECOVERY_DECLINED" now)
            | Rollback =>
                s ← st_get service;
                _ ← on_host (set_current r);
                on_host (schedule_rollback oracle euid umask fault pid nonce (state_root s) now)
            end;
        status request_id operation_id 0.

(* ------------------------------------------------------------------ *)
(** ** Starting an operation *)

(** The plan, computed again before anything is written. *)
Definition authoritative_plan (submitted : PlannedUpdate) (plan_sha256 : string)
  : M PlannedUpdate :=
  planned ←
    match plan_operation (planned_plan submitted) with
    | UpdateWithinRelease => st_try (on_host (plan_update_with_cached_metadata oracle))
    | ReleaseUpgrade | State.PackageMigration =>
        manifest ← release_manifest;
        if planned_manifest submitted !=? Some manifest then st_throw "MANIFEST_CHANGED"
        else st_try (on_host (plan_release_upgrade oracle manifest))
    end;
  match planned with
  | Ok planned =>
      if (planned_sha256 planned ==? plan_sha256) && (planned_plan planned ==? planned_plan submitted)
      then mret planned else st_throw "PLAN_CHANGED"
  | Err _ => st_throw "PLAN_CHANGED"
  end.

(** The files of a new operation; the plan is kept in memory once they are there. *)
Definition write_operation (operation_id plan_sha256 : string)
    (submitted authoritative : PlannedUpdate) : M unit :=
  s ← st_get service;
  timestamp ← ask Now;
  let pending := {| pending_planned := submitted;
                    pending_manifest := planned_manifest authoritative |} in
  _ ← save_record (initial_record operation_id plan_sha256 timestamp submitted authoritative);
  _ ← on_files (st_map_err (λ _, "STATE_WRITE_FAILED")
        (_ ← save_pending_plan euid umask fault pending_pretty (state_root s) operation_id pending;
         save_operation_owner euid umask fault (state_root s) operation_id (caller_uid s)));
  st_modify (λ v, with_service v (with_plan (service v) operation_id pending)).

Definition create_operation (operation_id plan_sha256 : string) (submitted : PlannedUpdate)
  : M unit :=
  s ← st_get service;
  found ← on_files (st_try (symlink_metadata fault (join (state_root s) operation_id)));
  if is_ok found then st_throw "OPERATION_NOT_FOUND"
  else
    authoritative ← authoritative_plan submitted plan_sha256;
    write_operation operation_id plan_sha256 submitted authoritative.

(** The plan that waits for this operation. *)
Definition pending_plan (operation_id : string) : M PendingPlan :=
  s ← st_get service;
  match plans s !! operation_id with
  | Some planned => mret planned
  | None =>
      on_files (st_map_err (λ _, "PLAN_NOT_AVAILABLE")
        (load_pending_plan fault pending_parse (state_root s) operation_id))
  end.

(** The events so far, which must be whole. *)
Definition complete_history (operation_id : string) : M (list OperationEvent) :=
  s ← st_get service;
  failed ← on_files (st_map_err (λ _, READ_FAILED)
             (has_write_failure fault (state_root s) operation_id));
  if (failed : bool) then st_throw WRITE_FAILED
  else
    history ← on_files (st_map_err (λ _, READ_FAILED)
                (load_events from_slice euid umask fault (state_root s) operation_id 0));
    if incomplete history then st_throw READ_FAILED else mret (history_events history).

(** One log per thread: its number is that of the thread. *)
Definition next_log (v : serving) : nat := length (threads v).

Definition spawn (operation_id : string) (r : OperationStateRecord) (planned : PendingPlan)
    (history : list OperationEvent) : M unit :=
  st_modify (λ v,
    let log := next_log v in
    let s := with_log (service v) operation_id log in
    {| host := host v; service := with_workers s (saturating_add (workers s) 1);
       logs := <[log := {| guarded := restore history; poisoned := false |}]> (logs v);
       stages := <[log := state r]> (stages v);
       threads := threads v ++ [{| thread_record := r; thread_plan := planned;
                                   thread_log := log |}] |}).

(** Everything before the thread: the record, the plan and the events it starts with. *)
Definition accept_start (operation_id plan_sha256 : string) (confirmed : bool)
    (submitted : PlannedUpdate) : M (OperationStateRecord * PendingPlan * list OperationEvent) :=
  if negb confirmed then st_throw "CONFIRMATION_REQUIRED"
  else if negb (submission_valid plan_sha256 submitted) then st_throw "PLAN_HASH_MISMATCH"
  else
    owned ← owned_by_caller operation_id;
    _ ← (if (owned : bool) then mret () else create_operation operation_id plan_sha256 submitted);
    planned ← pending_plan operation_id;
    if (planned_sha256 (pending_planned planned) !=? plan_sha256)
       || (pending_planned planned !=? submitted)
       || (pending_manifest planned !=? planned_manifest submitted)
    then st_throw "PLAN_HASH_MISMATCH"
    else
      r ← load "STATE_READ_FAILED" operation_id;
      if state r !=? AwaitingConfirmation then st_throw "INVALID_STATE"
      else
        history ← complete_history operation_id;
        mret (r, planned, history).

Definition start (request_id operation_id plan_sha256 : string) (confirmed : bool)
    (submitted : PlannedUpdate) : M Response :=
  '(r, planned, history) ← accept_start operation_id plan_sha256 confirmed submitted;
  _ ← spawn operation_id r planned history;
  mret (Accepted request_id (Some operation_id)).

(* ------------------------------------------------------------------ *)
(** ** The thread of an operation *)

Definition execute (t : thread) (root : path) : ST execution ExecutionError unit :=
  let planned := thread_plan t in
  match State.operation (thread_record t) with
  | UpdateWithinRelease =>
      _ ← execute_update oracle euid umask fault pid nonce fresh root (pending_planned planned);
      mret ()
  | ReleaseUpgrade | State.PackageMigration =>
      match pending_manifest planned with
      | Some manifest =>
          _ ← stage_release_upgrade oracle euid umask fault pid nonce fresh root
                (pending_planned planned) manifest;
          mret ()
      | None => st_throw Exec_PlanChanged
      end
  end.

(** A failure is recorded, unless the operation was cancelled meanwhile. *)
Definition record_failure (root : path) (error : ExecutionError) : ST execution ExecutionError unit :=
  r ← st_get current;
  saved ← on_disk (st_try (load_state fault record_parse root (operation_id r)));
  if match saved with Ok saved => State.error_code saved ==? Some "CANCELLED" | Err _ => false end
  then mret ()
  else
    now ← perform oracle Now;
    let r := stopped r (failure_state error (is_some (snapshot_number r)))
               (Executor.error_code error) now in
    _ ← set_current r;
    _ ← st_try (E' := ExecutionError) (save euid umask fault pid nonce root r);
    mret ().

Definition run_thread (t : thread) (root : path) : ST execution ExecutionError unit :=
  _ ← set_current (thread_record t);
  execution ← st_try (execute t root);
  match execution with Ok _ => mret () | Err error => record_failure root error end.

Definition work (t : thread) : ST serving ExecutionError unit :=
  s ← st_get service;
  _ ← on_host (run_thread t (state_root s));
  st_modify (λ v, with_service v
    (with_workers (service v) (saturating_sub (workers (service v)) 1))).

(* ------------------------------------------------------------------ *)
(** ** The observer of a thread *)

Record Observer := {
  observer_id : string;
  observer_root : path;
  observer_log : nat;
}.

Definition set_log (n : nat) (m : mutex) : ST serving unit unit :=
  st_modify (λ v, with_logs v (<[n := m]> (logs v))).
Definition unpoisoned (log : EventLog) : mutex := {| guarded := log; poisoned := false |}.
Definition with_failure (log : EventLog) : EventLog := {|
  EventLog.events := EventLog.events log; technical_lines := technical_lines log;
  technical_bytes := technical_bytes log; last_sequence := last_sequence log;
  persistence_failed := true |}.

(** Appends an event to the file; the first failure is marked on disk. An error is
    a panic, which poisons the lock. *)
Definition append_observed (o : Observer) (log : EventLog) (event : OperationEvent)
  : ST serving unit EventLog :=
  v ← st_get (λ v, v);
  appended ← on_files (st_try (append_event to_vec from_slice euid umask fault
               (fresh (calls (disk (host v)))) (observer_root o) (observer_id o) event));
  match appended with
  | Ok _ => mret log
  | Err Panicked => _ ← set_log (observer_log o) {| guarded := log; poisoned := true |}; st_throw ()
  | Err _ =>
      _ ← (if persistence_failed log then mret ()
           else
             v ← st_get (λ v, v);
             on_files (st_map_err (λ _, ()) (record_write_failure euid umask fault
               (fresh (calls (disk (host v)))) (observer_root o) (observer_id o))));
      mret (with_failure log)
  end.

Definition state_changed (o : Observer) (state : OperationState) : ST serving unit unit :=
  _ ← st_modify (λ v, with_stages v (<[observer_log o := state]> (stages v)));
  m ← st_get (λ v, logs v !! observer_log o);
  match m with
  | None => mret ()
  | Some m =>
      if poisoned m then mret ()
      else
        let log := guarded m in
        now ← ask Now;
        let event := {|
          event_operation_id := observer_id o; event_sequence := next_sequence log;
          occurred_at := now; event_state := state; level := Info;
          message_id := "state." +:+ state_name state; fields := ∅; technical := None |} in
        log ← append_observed o log event;
        set_log (observer_log o) (unpoisoned (push_normative log event))
  end.

Definition command_line (o : Observer) (program : string) (error_stream : bool) (line : string)
  : ST serving unit unit :=
  m ← st_get (λ v, logs v !! observer_log o);
  match m with
  | None => mret ()
  | Some m =>
      if poisoned m then mret ()
      else
        let log := guarded m in
        stage ← st_get (λ v, default Failed (stages v !! observer_log o));
        now ← ask Now;
        let event := technical_event (observer_id o) (next_sequence log) now stage in
        match push_technical log event (if error_stream then ZypperStderr else ZypperStdout)
                (program +:+ ": " +:+ line) with
        | None => _ ← set_log (observer_log o) {| guarded := log; poisoned := true |}; st_throw ()
        | Some (log, event) =>
            log ← append_observed o log event;
            set_log (observer_log o) (unpoisoned log)
        end
  end.

Definition cancel_requested (o : Observer) : ST serving unit bool :=
  saved ← on_files (st_try (load_state fault record_parse (observer_root o) (observer_id o)));
  mret (match saved with
        | Ok saved => State.error_code saved ==? Some "CANCELLED"
        | Err _ => false
        end).

(* ------------------------------------------------------------------ *)
(** ** Requests *)

Definition dispatch (request : Request) : M Response :=
  let request_id := request_id request in
  match request with
  | CheckRelease _ _ => check_release request_id
  | ReadTrustState _ _ => trust_state request_id
  | ReadRecoveryReadiness _ _ =>
      broker_request (ReadRecoveryReadiness PROTOCOL_VERSION request_id)
  | Inspect _ _ => inspect request_id
  | PlanUpdate _ _ => plan_update request_id
  | PlanReleaseUpgrade _ _ manifest_sha256 => plan_release request_id manifest_sha256
  | Protocol.Start _ _ operation_id plan_sha256 confirmed planned =>
      start request_id operation_id plan_sha256 confirmed planned
  | Protocol.Status _ _ operation_id after_sequence =>
      status request_id operation_id (default 0%Z after_sequence)
  | Cancel _ _ operation_id => cancel request_id operation_id
  | AcknowledgeRecovery _ _ operation_id recovery_action =>
      acknowledge_recovery request_id operation_id recovery_action
  end.

(** A rejection carries the code. *)
Definition respond (request_id : string) (m : M Response) : ST serving Empty_set Response := λ v,
  let '(r, v') := m v in
  (Ok match r with Ok response => response | Err code => Rejected request_id code end, v').

Definition handle (request : Request) : ST serving Empty_set Response :=
  respond (request_id request) (
    s ← st_get service;
    if negb (is_supported request) then st_throw "UNSUPPORTED_PROTOCOL"
    else if read_only s && needs_authorization request then st_throw "AUTHORIZATION_REQUIRED"
    else dispatch request).

(** The broker of root, for one request of a caller. *)
Definition query_response (request : Request) : ST serving Empty_set Response :=
  let request_id := request_id request in
  respond request_id (
    if negb (is_supported request) then st_throw "UNSUPPORTED_PROTOCOL"
    else
      match request with
      | Protocol.Status _ _ operation_id after_sequence =>
          status request_id operation_id (default 0%Z after_sequence)
      | ReadTrustState _ _ => trust_state request_id
      | ReadRecoveryReadiness _ _ => recovery_readiness request_id
      | _ => st_throw "READ_ONLY_REQUEST_REQUIRED"
      end).

(** One line of the input, bounded; [None] at its end. *)
Definition read_request (input : string) : result unit (option Request) * string :=
  let '(line, rest) := read_until (MAX_REQUEST + 1) input in
  (if is_empty line then Ok None
   else if (MAX_REQUEST <? str_len line)%Z || negb (ends_nl line) then Err ()
   else match request_parse line with Some request => Ok (Some request) | None => Err () end,
   rest).

(** The loop of the program; every turn takes at least one byte of the input. *)
Fixpoint serve (fuel : nat) (input : string) : ST serving Empty_set (option (list Response)) :=
  match fuel with
  | O => mret None
  | S fuel' =>
      match read_request input with
      | (Ok None, _) => mret (Some [])
      | (Err _, _) => mret (Some [Rejected "unknown" "INVALID_REQUEST"])
      | (Ok (Some request), rest) =>
          response ← handle request;
          responses ← serve fuel' rest;
          mret (cons response <$> responses)
      end
  end.
Definition run_loop (input : string) : ST serving Empty_set (option (list Response)) :=
  serve (S (String.length input)) input.

(** The connection systemd hands over, of the user at its other end; [None] is an
    error of the program. *)
Definition query_connection (peer : option Z) (input : string)
  : ST serving Empty_set (option Response) :=
  match peer with
  | Some uid =>
      if negb (euid =? 0)%Z then mret None
      else
        _ ← st_modify (λ v, with_service v (new uid));
        match read_request input with
        | (Ok (Some request), _) => response ← query_response request; mret (Some response)
        | _ => mret (Some (Rejected "unknown" "INVALID_REQUEST"))
        end
  | None => mret None
  end.
End service.
