(* ===== verification/Authority.v ===== *)
(** * What a request may change (src/service/src/main.rs)

    The handlers of Service.v touch no files but those of the operation a request
    names, and that operation is the caller's own or new: the frame of every step,
    and the theorems on the files of other users and on owners. *)

From S2P Require Import Prelude RustStr Recovery State Fs Persistence Preflight Solver Plan.
From S2P Require Import ManifestData Manifest Migration Discovery Inventory SolverXml Vendors Protocol.
From S2P Require Import Sanitize EventLog EventFile System Planner Executor Request Staging.
From S2P Require Import ManifestFetch Verifier Rollback Ownership Service.

Open Scope bool_scope.
Open Scope lyra_scope.

(* ------------------------------------------------------------------ *)
(** ** Reading *)

Section reading.
(** Any preorder that allows steps which write nothing. *)
Context (C : world → world → Prop) {HR : Reflexive C} {HT : Transitive C}.
Context (HC : ∀ w w', nodes w' = nodes w → C w w').
Context (euid umask : Z) (fault : nat → option (IoError * nat)).
Context (root : path) (id : string).

Lemma quiet_step {A E} (m : ST world E A) : st_rel (touches (λ _, False)) m → st_rel C m.
Proof. intros H w. apply HC, map_eq. intros q. apply H. tauto. Qed.

Lemma open_reads p mode : st_rel C (open_nofollow euid umask fault p false false mode).
Proof.
  intros w. apply HC. unfold open_nofollow, syscall. destruct (fault (calls w)) as [[]|]; [done|].
  by destruct (nodes w !! p) as [[]|].
Qed.

Lemma operation_directory_reads : st_rel C (operation_directory fault root id).
Proof.
  apply quiet_step. unfold operation_directory. destruct (negb _); [apply touches_throw|].
  assert (∀ p, st_rel (touches (λ _, False)) (require_dir fault p)) as Hd.
  { intros p. unfold require_dir, EventFile.io.
    apply st_rel_bind; [apply _|apply st_rel_map_err; auto with frames|intros n].
    destruct (is_dir n); [auto with frames|apply touches_throw]. }
  apply st_rel_bind; [apply _|apply Hd|intros _].
  apply st_rel_bind; [apply _|apply Hd|intros _]. auto with frames.
Qed.

Lemma operation_directory_Ok w d w' :
  operation_directory fault root id w = (Ok d, w') → d = join root id.
Proof.
  unfold operation_directory. destruct (negb _); [done|]. intros H.
  apply st_bind_Ok in H as (? & ? & _ & H). apply st_bind_Ok in H as (? & ? & _ & H).
  by injection H as <-.
Qed.

(** Loading the events opens the lock of the history and its file. *)
Lemma load_events_reads from_slice after only :
  (∀ create, (create = true → only = false) → st_rel C
     (open_nofollow euid umask fault (join (join root id) ".events.lock") create create 384)) →
  st_rel C (load_events_mode from_slice euid umask fault root id after only).
Proof.
  intros Hlock.
  assert (∀ A (m : ST world IoError A), st_rel (touches (λ _, False)) m →
    st_rel C (EventFile.io m)) as Hio
    by (intros A m H; by apply st_rel_map_err, quiet_step).
  assert (∀ A (x : result stop A), st_rel C (st_lift x)) as Hl
    by (intros A x; apply st_rel_lift, _).
  assert (∀ A e, st_rel C (EventFile.throw (A:=A) e)) as Ht
    by (intros A e; apply st_rel_throw, _).
  intros w. unfold load_events_mode. apply st_step; [apply _| |intros directory w1 H1].
  { apply (operation_directory_reads w). }
  apply operation_directory_Ok in H1 as ->. revert w1.
  change (st_rel C (
    lock ← st_try (E':=stop) (lock_file euid umask fault (join root id) (negb only));
    _ ← match lock with
        | Ok _ => mret ()
        | Err (Error (Io NotFound)) => if only then mret () else st_lift lock
        | Err e => st_throw e
        end;
    file ← st_try (E':=stop) (open_events euid umask fault (join (join root id) "events.jsonl") false);
    match file with
    | Err (Error (Io NotFound)) => mret {| history_events := []; incomplete := false |}
    | Err e => st_throw e
    | Ok content =>
        history ← read_history from_slice fault content id;
        mret {| history_events :=
                  List.filter (λ event, (event_sequence event =? 0)%Z
                                        || (after <? event_sequence event)%Z)
                    (history_events history);
                incomplete := incomplete history |}
    end)).
  apply st_rel_bind; [apply _|apply st_rel_try|intros lock].
  { unfold lock_file. apply st_rel_bind; [apply _|apply st_rel_map_err, Hlock|intros n].
    { by destruct only. }
    destruct (negb _); [apply Ht|apply Hio; auto with frames]. }
  apply st_rel_bind; [apply _| |intros _].
  { destruct lock as [?|[[| |[]| |]|]]; try apply st_rel_ret, _; try apply st_rel_throw, _.
    destruct only; [apply st_rel_ret, _|apply st_rel_lift, _]. }
  apply st_rel_bind; [apply _|apply st_rel_try|intros file].
  { unfold open_events. apply st_rel_bind; [apply _|apply st_rel_map_err, open_reads|intros n].
    destruct n; try apply Ht. apply st_rel_ret, _. }
  destruct file as [content|[[| |[]| |]|]]; try apply st_rel_ret, _; try apply st_rel_throw, _.
  apply st_rel_bind; [apply _|apply quiet_step|intros history; apply st_rel_ret, _].
  intros v q _. unfold read_history. by rewrite read_records_nodes.
Qed.

Lemma write_failure_reads : st_rel C (has_write_failure fault root id).
Proof.
  apply quiet_step. unfold has_write_failure.
  apply st_rel_bind; [apply _|apply st_rel_try; auto with frames|auto with frames].
Qed.

Lemma inventory_reads `{!Libraries} :
  st_rel C
    (load_inventory euid umask fault (join (join root id) "inventory-after.json")).
Proof.
  unfold load_inventory. apply st_rel_bind; [apply _|apply open_reads|intros n].
  apply quiet_step. apply st_rel_bind; [apply _|auto with frames|intros _].
  destruct n; auto with frames.
  apply st_rel_bind; [apply _|auto with frames|intros _]. destruct (_ <? _)%Z; [auto with frames|].
  apply st_rel_bind; [apply _|auto with frames|intros _].
  apply st_rel_bind; [apply _|auto with frames|intros report]. destruct (_ !=? _); auto with frames.
Qed.
Lemma owned_by_reads {E} uid :
  st_rel C (operation_owned_by (E:=E) fault root id uid).
Proof.
  apply quiet_step. unfold operation_owned_by. destruct (negb _); [auto with frames|]. cbv zeta.
  apply st_rel_bind; [apply _|apply st_rel_try; auto with frames|intros metadata].
  destruct metadata as [[]|]; try (destruct (_ <? _)%Z); auto with frames.
  apply st_rel_bind; [apply _|apply st_rel_try, read_file_touches|auto with frames].
Qed.

Lemma load_pending_reads parse :
  st_rel C (load_pending_plan fault parse root id).
Proof.
  apply quiet_step. unfold load_pending_plan. cbv zeta.
  apply st_rel_bind; [apply _|auto with frames|intros metadata].
  destruct metadata; try (destruct (_ <? _)%Z); auto with frames.
  apply st_rel_bind; [apply _|apply read_file_touches|auto with frames].
Qed.

Lemma load_reads decode id' : st_rel C (load_state fault decode root id').
Proof. apply quiet_step, load_state_touches. Qed.
End reading.

(* ------------------------------------------------------------------ *)
(** ** The files of one operation *)

Definition owner_path (root : path) (id : string) : path := join (join root id) "owner".

(** The paths a request about [id] may change. *)
Definition own_paths (root : path) (id : string) (q : path) : Prop :=
  q `suffix_of` root ∨ join root id `suffix_of` q ∨ q = LOCK_PATH.

(** A step of a request about [id]: only its paths change, and its owner, once
    there, stays. *)
Definition confined (root : path) (id : string) (w w' : world) : Prop :=
  touches (own_paths root id) w w'
  ∧ ∀ n, nodes w !! owner_path root id = Some n → nodes w' !! owner_path root id = Some n.

#[export] Instance confined_reflexive root id : Reflexive (confined root id).
Proof. by intros w. Qed.
#[export] Instance confined_transitive root id : Transitive (confined root id).
Proof. intros w1 w2 w3 [T1 O1] [T2 O2]. split; [by etransitivity|]. intros n H. by apply O2, O1. Qed.

(** Steps that leave the owner alone. *)
Definition apart (root : path) (id : string) (q : path) : Prop :=
  own_paths root id q ∧ q ≠ owner_path root id.

Lemma touches_confined {A E} root id (P : path → Prop) (m : ST world E A) :
  (∀ q, P q → apart root id q) → st_rel (touches P) m → st_rel (confined root id) m.
Proof.
  intros HP H w. split.
  - eapply touches_weaken; [|apply H]. intros q Hq. by apply HP.
  - intros n Hn. rewrite (H w); [done|]. intros Hq. by destruct (HP _ Hq).
Qed.

Lemma apart_below root id name rest :
  name ≠ "owner" ∨ rest ≠ [] → apart root id (rest ++ name :: join root id).
Proof.
  intros H. split; [right; left; exists (rest ++ [name]); by rewrite <- app_assoc|].
  intros E. apply (f_equal length) in E as El. rewrite length_app in El. cbn in El.
  destruct rest; [|cbn in El; lia]. injection E as ->. by destruct H.
Qed.

Lemma apart_file root id name : name ≠ "owner" → apart root id (join (join root id) name).
Proof. intros H. apply (apart_below root id name []). by left. Qed.

Lemma apart_above root id q : q `suffix_of` join root id → apart root id q.
Proof.
  intros [l Hl]. split.
  - destruct l as [|x l].
    + right. left. cbn in Hl. by rewrite Hl.
    + left. exists l. by injection Hl.
  - intros ->. apply (f_equal length) in Hl. rewrite length_app in Hl. cbn in Hl. lia.
Qed.

Lemma apart_lock root id : owner_path root id ≠ LOCK_PATH → apart root id LOCK_PATH.
Proof. intros H. split; [by right; right|congruence]. Qed.

Lemma confined_quiet root id w w' : nodes w' = nodes w → confined root id w w'.
Proof. intros H. split; [intros q _; by rewrite H|by rewrite H]. Qed.

Lemma quiet_confined {A E} root id (m : ST world E A) :
  st_rel (touches (λ _, False)) m → st_rel (confined root id) m.
Proof. apply quiet_step, confined_quiet. Qed.

Section frames.
Context (euid umask : Z) (fault : nat → option (IoError * nat)).
Context (root : path) (id : string).

Lemma save_paths_apart pid nonce q : save_paths pid nonce root id q → apart root id q.
Proof.
  intros [[l Hl]| ->].
  - destruct l as [|x l]; [cbn in Hl; subst; by apply apart_file|].
    apply apart_above. exists l. by injection Hl.
  - apply apart_file. unfold temporary_name. done.
Qed.

Lemma save_confined pid nonce encode r :
  operation_id r = id →
  st_rel (confined root id) (save_state euid umask fault pid nonce encode root r).
Proof.
  intros Hid. eapply touches_confined; [|apply save_state_touches].
  rewrite Hid. apply save_paths_apart.
Qed.


Lemma create_truncate_touches p mode :
  st_rel (touches (λ q, q = p)) (create_truncate euid umask fault p mode).
Proof.
  apply syscall_touches. intros ns q Hq.
  repeat case_match; cbn; rewrite ?lookup_insert_ne by congruence; done.
Qed.

Lemma pending_confined pretty plan :
  st_rel (confined root id) (save_pending_plan euid umask fault pretty root id plan).
Proof.
  set (t := join (join root id) "pending-plan.json.tmp").
  assert (∀ A (m : ST world IoError A), st_rel (touches (λ q, q = t)) m → st_rel (confined root id) m)
    as Ht by (intros A m; apply touches_confined; intros q ->; by apply apart_file).
  unfold save_pending_plan. cbv zeta. fold t.
  apply st_rel_bind; [apply _| |intros _].
  { eapply touches_confined; [apply apart_above|apply create_dir_all_touches]. }
  apply st_rel_bind; [apply _|apply Ht, create_truncate_touches|intros _].
  apply st_rel_bind; [apply _|apply Ht, write_all_touches|intros _].
  apply st_rel_bind; [apply _|apply Ht, write_all_touches|intros _].
  apply st_rel_bind; [apply _|apply quiet_confined, sync_all_touches|intros _].
  eapply touches_confined; [|apply rename_touches]. intros q [->| ->]; by apply apart_file.
Qed.

(** Writing the owner: it is new, or nothing happens. *)
Lemma owner_confined uid :
  st_rel (confined root id) (save_operation_owner euid umask fault root id uid).
Proof.
  set (p := owner_path root id). intros w. unfold save_operation_owner.
  destruct (negb _); [reflexivity|]. cbv zeta. fold (owner_path root id). fold p.
  assert (own_paths root id p) as Hp by (right; left; by exists ["owner"]).
  assert (∀ A (m : ST world IoError A), st_rel (touches (λ q, q = p)) m →
    ∀ v, touches (own_paths root id) v (m v).2) as Ht.
  { intros A m H v. eapply touches_weaken; [|apply H]. by intros q ->. }
  destruct (create_new euid umask fault p 384 w) as [[[]|e] w1] eqn:E.
  - assert (nodes w !! p = None) as Hnone.
    { apply syscall_Ok in E as (_ & E & _). by destruct (nodes w !! p). }
    split; [|intros n Hn; fold p in Hn; congruence].
    etransitivity; [pose proof (Ht _ (create_new euid umask fault p 384) (create_new_touches _ _ _ _ _) w) as T; by rewrite E in T|].
    erewrite st_bind_eq by exact E.
    assert (st_rel (touches (own_paths root id))
      (_ ← write_all fault p (to_string uid); _ ← write_all fault p (String nl ""); sync_all fault))
      as H; [|apply H].
    apply st_rel_bind; [apply _|intros v; apply Ht, write_all_touches|intros _].
    apply st_rel_bind; [apply _|intros v; apply Ht, write_all_touches|intros _]. apply sync_all_touches.
  - assert (nodes w1 = nodes w) as Hw.
    { revert E. unfold create_new, syscall. destruct (fault (calls w)) as [[]|]; [by intros [= _ <-]|].
      destruct (is_some _); [by intros [= _ <-]|]. by destruct (negb _); intros [= _ <-]. }
    unfold mbind, st_bind. rewrite E. cbn. split; [intros q _; by rewrite Hw|by rewrite Hw].
Qed.

Lemma load_events_lock from_slice after :
  st_rel (confined root id) (load_events from_slice euid umask fault root id after).
Proof.
  apply load_events_reads; [apply _|apply _|apply confined_quiet|]. intros create _.
  eapply touches_confined; [|apply open_nofollow_touches]. intros q ->. by apply apart_file.
Qed.
End frames.

(** The record that is read is the one of the operation. *)
Lemma load_id fault decode root id w r w' :
  load_state fault decode root id w = (Ok r, w') → operation_id r = id.
Proof.
  unfold load_state. cbv zeta. intros H. do 6 (apply st_bind_Ok in H as (? & ? & _ & H)).
  destruct (_ !=? _); [done|]. destruct (operation_id _ !=? id) eqn:E; [done|].
  apply st_bind_Ok in H as (? & ? & _ & H). injection H as <- _. by equal E.
Qed.

(* ------------------------------------------------------------------ *)
(** ** Steps of the service *)

Definition settings (s : Service) : path * Z * bool := (state_root s, caller_uid s, read_only s).

(** What steps on files and calls do to the memory of the service: nothing. *)
Class Memory (K : serving → serving → Prop) : Prop := {
  memory_reflexive :: Reflexive K;
  memory_transitive :: Transitive K;
  memory_host : ∀ v h, K v (with_host v h);
}.

Definition any_memory (v v' : serving) : Prop := True.
Definition same_memory (v v' : serving) : Prop := v' = with_host v (host v').

#[export] Instance any_memory_ok : Memory any_memory.
Proof. by repeat split. Qed.
#[export] Instance same_memory_ok : Memory same_memory.
Proof.
  split; [by intros []|intros v1 v2 v3 H1 H2|done]. unfold same_memory in *. rewrite H2, H1. done.
Qed.

(** A step of a service that keeps its records below [root]; [C] holds of the files
    before and after, [K] of the memory. *)
Definition within (C : world → world → Prop) (K : serving → serving → Prop) (root : path)
    (v v' : serving) : Prop :=
  state_root (service v) = root →
  C (disk (host v)) (disk (host v')) ∧ K v v' ∧ settings (service v') = settings (service v).

#[export] Instance within_reflexive C K root : Reflexive C → Memory K → Reflexive (within C K root).
Proof. by intros H HK v. Qed.
#[export] Instance within_transitive C K root : Transitive C → Memory K → Transitive (within C K root).
Proof.
  intros HC HK v1 v2 v3 H1 H2 Hr. destruct (H1 Hr) as (C1 & K1 & S1).
  destruct H2 as (C2 & K2 & S2); [by injection S1 as -> _|].
  split; [by etransitivity|]. split; [by etransitivity|congruence].
Qed.

Lemma within_host {A E} C K `{!Memory K} root (m : ST execution E A) :
  (∀ h, C (disk h) (disk (m h).2)) → st_rel (within C K root) (on_host m).
Proof.
  intros H v _. unfold on_host. specialize (H (host v)). destruct (m (host v)) as [r h].
  split; [done|]. split; [apply memory_host|done].
Qed.

Lemma within_files {A E} C K `{!Memory K} root (m : ST world E A) :
  st_rel C m → st_rel (within C K root) (on_files m).
Proof.
  intros H. apply within_host; [done|]. intros h. unfold on_disk. specialize (H (disk h)).
  by destruct (m (disk h)) as [r d].
Qed.

Lemma within_ask oracle C `{!Reflexive C} K `{!Memory K} {A E} root (e : effect A) :
  st_rel (within C K root) (ask (E:=E) oracle e).
Proof. by apply within_host. Qed.

(** What a step does with the service is about this root. *)
Lemma within_service {A E} C K root (f : Service → ST serving E A) :
  (∀ s, state_root s = root → st_rel (within C K root) (f s)) →
  st_rel (within C K root) (st_get service ≫= f).
Proof. intros H v Hr. by apply (H (service v) Hr v). Qed.

Lemma within_get {A E} C `{!Reflexive C} K `{!Memory K} root (f : serving → A) :
  st_rel (E:=E) (within C K root) (st_get f).
Proof. by intros v. Qed.

Create HintDb within.
#[export] Hint Resolve within_ask within_get : within.
#[export] Hint Extern 1 (st_rel (within _ _ _) (mret _)) => apply st_rel_ret, _ : within.
#[export] Hint Extern 1 (st_rel (within _ _ _) (st_lift _)) => apply st_rel_lift, _ : within.
#[export] Hint Extern 1 (st_rel (within _ _ _) (st_throw _)) => apply st_rel_throw, _ : within.
#[export] Hint Extern 1 (st_rel (within _ _ _) (st_get service ≫= _)) =>
  (apply within_service; intros ? <-) : within.
#[export] Hint Extern 2 (st_rel (within _ _ _) (_ ≫= _)) =>
  (apply st_rel_bind; [apply _| |intros ?]) : within.
#[export] Hint Extern 1 (st_rel (within _ _ _) (on_files (st_map_err _ _))) =>
  (apply within_files; [apply _|apply st_rel_map_err]) : within.
#[export] Hint Extern 1 (st_rel (within _ _ _) (on_files (st_try _))) =>
  (apply within_files; [apply _|apply st_rel_try]) : within.
#[export] Hint Extern 2 (st_rel (within _ _ _) (st_try _)) => apply st_rel_try : within.
#[export] Hint Extern 3 (st_rel (within _ _ _) (if ?b then _ else _)) => destruct b : within.
#[export] Hint Extern 3 (st_rel (within _ _ _) (match ?x with _ => _ end)) => destruct x : within.

Section readers.
Context {HL : Libraries} (oracle : Oracle).
Context (euid umask : Z) (fault : nat → option (IoError * nat)).
Context (from_slice : string → option OperationEvent) (pending_parse : string → option PendingPlan).
Context (request_json : Request → option string) (response_parse : string → option Response).
(** Any preorder that allows steps which write nothing. *)
Context (C : world → world → Prop) {HR : Reflexive C} {HT : Transitive C}.
Context (HC : ∀ w w', nodes w' = nodes w → C w w').
Context (K : serving → serving → Prop) {HK : Memory K}.
Context (root : path) (id : string).
#[local] Abbreviation inside := (st_rel (within C K root)).

Lemma broker_inside request : inside (broker_request oracle request_json response_parse request).
Proof. unfold broker_request. eauto 20 with within. Qed.

Lemma read_last_reads p : st_rel C (read_last_manifest_sequence euid umask fault p).
Proof. intros w. apply HC, read_last_nodes. Qed.

Lemma channel_reads p : st_rel C (read_release_channel fault p).
Proof.
  apply (quiet_step _ HC). unfold read_release_channel.
  apply st_rel_bind; [apply _|apply st_rel_try, read_file_touches|intros read].
  destruct read as [bytes|[]]; auto with frames.
  apply st_rel_bind; [apply _|auto with frames|intros value].
  repeat case_match; auto with frames.
Qed.
#[local] Hint Resolve broker_inside read_last_reads channel_reads : within.

Lemma trust_inside request_id :
  inside (trust_state oracle euid umask fault request_json response_parse request_id).
Proof. unfold trust_state. eauto 20 with within. Qed.
#[local] Hint Resolve trust_inside : within.

Lemma sequence_inside code :
  inside (trusted_sequence oracle euid umask fault request_json response_parse code).
Proof. unfold trusted_sequence. eauto 20 with within. Qed.

Lemma installed_inside : inside (installed_release oracle).
Proof. unfold installed_release. eauto with within. Qed.
Lemma release_channel_inside : inside (release_channel fault).
Proof. unfold release_channel. eauto with within. Qed.
#[local] Hint Resolve sequence_inside installed_inside release_channel_inside : within.

Lemma release_manifest_inside :
  inside (release_manifest oracle euid umask fault request_json response_parse).
Proof. unfold release_manifest. eauto 20 with within. Qed.
#[local] Hint Resolve release_manifest_inside : within.

Lemma check_release_inside request_id :
  inside (check_release oracle euid umask fault request_json response_parse request_id).
Proof. unfold check_release, check_release_fresh. eauto 30 with within. Qed.
#[local] Hint Resolve check_release_inside : within.

(** Planning writes no file of the program. *)
Lemma kept_within {A E} (m : ST execution E A) : (∀ p, st_rel (kept p) m) → inside (on_host m).
Proof.
  intros H. apply within_host; [apply _|]. intros h. apply HC, map_eq. intros p. apply H.
Qed.

Lemma installed_kept {E} (f : VendorMetadataError → E) at_root p :
  st_rel (kept p) (installed_packages_at oracle f at_root).
Proof. unfold installed_packages_at. eauto 20 with kept. Qed.
Lemma plan_update_kept p : st_rel (kept p) (plan_update_with_cached_metadata oracle).
Proof.
  unfold plan_update_with_cached_metadata, discover, installed_packages_at,
    enrich_solver_vendors_at. cbv zeta. eauto 40 with kept.
Qed.
Lemma prepare_kept context keys_dir rs p : st_rel (kept p) (prepare_repositories oracle context keys_dir rs).
Proof. induction rs as [|repository rs IH]; cbn; eauto 20 with kept. Qed.
#[local] Hint Resolve prepare_kept : kept.
Lemma plan_release_kept manifest p : st_rel (kept p) (plan_release_upgrade oracle manifest).
Proof.
  unfold plan_release_upgrade, discover, installed_packages_at, enrich_solver_vendors_at,
    run_with_simulation. cbv zeta. eauto 40 with kept.
Qed.

Lemma installed_packages_inside {E} (f : VendorMetadataError → E) at_root :
  inside (on_host (installed_packages_at oracle f at_root)).
Proof. apply kept_within. intros p. apply installed_kept. Qed.
Lemma plan_update_host : inside (on_host (plan_update_with_cached_metadata oracle)).
Proof. apply kept_within, plan_update_kept. Qed.
Lemma plan_release_host manifest : inside (on_host (plan_release_upgrade oracle manifest)).
Proof. apply kept_within, plan_release_kept. Qed.
#[local] Hint Resolve installed_packages_inside plan_update_host plan_release_host : within.

Lemma inspect_inside request_id :
  inside (inspect oracle euid request_json response_parse request_id).
Proof. unfold inspect. cbv zeta. eauto 30 with within. Qed.

Lemma planning_inside request_id planned : inside (planning_response oracle request_id planned).
Proof. unfold planning_response, plan_response. eauto 20 with within. Qed.
#[local] Hint Resolve planning_inside : within.

Lemma plan_update_inside request_id : inside (plan_update oracle request_id).
Proof. unfold plan_update. eauto 20 with within. Qed.
Lemma plan_release_inside request_id hash :
  inside (plan_release oracle euid umask fault request_json response_parse request_id hash).
Proof. unfold plan_release. eauto 20 with within. Qed.
Lemma authoritative_inside submitted hash :
  inside (authoritative_plan oracle euid umask fault request_json response_parse submitted hash).
Proof. unfold authoritative_plan. eauto 30 with within. Qed.

(* ------------------------------------------------------------------ *)
(** ** The operation a request is about *)

Lemma owned_inside : inside (owned_by_caller fault id).
Proof. apply within_service. intros s Hs. rewrite Hs. apply within_files; [apply _|]; apply owned_by_reads, HC. Qed.

Lemma load_inside code id' : inside (load fault code id').
Proof. apply within_service. intros s Hs. rewrite Hs. apply within_files; [apply _|]; apply st_rel_map_err, load_reads, HC. Qed.

Lemma stored_inside after : inside (stored_events euid umask fault from_slice id after).
Proof.
  apply within_service. intros s Hs. rewrite Hs.
  apply st_rel_bind; [apply _|apply within_files; [apply _|]; apply st_rel_try|intros history].
  { apply load_events_reads; [exact HR|exact HT|exact HC|].
    intros [] Hc; [by specialize (Hc eq_refl)|by apply open_reads]. }
  apply st_rel_bind; [apply _| |intros failed; destruct history; apply st_rel_ret, _].
  by apply within_files; [apply _|]; apply st_rel_map_err, write_failure_reads.
Qed.

Lemma status_inside request_id after :
  inside (status oracle euid umask fault from_slice request_json response_parse request_id id after).
Proof.
  apply within_service. intros s Hs. destruct (read_only s); [apply broker_inside|].
  apply st_rel_bind; [apply _|apply owned_inside|intros owned].
  destruct (negb owned); [apply st_rel_throw, _|].
  apply st_rel_bind; [apply _|apply load_inside|intros r].
  apply st_rel_bind; [apply _|apply stored_inside|intros [events history_error]].
  apply st_rel_bind; [apply _|by apply within_get|intros log].
  destruct (merge_cached log after events history_error) as [shown error].
  apply st_rel_bind; [apply _| |intros report; apply st_rel_ret, _].
  rewrite Hs. apply within_files; [apply _|]; apply st_rel_try, inventory_reads; try exact HC; apply _.
Qed.

Lemma pending_inside : inside (pending_plan fault pending_parse id).
Proof.
  apply within_service. intros s Hs. destruct (plans s !! id); [apply st_rel_ret, _|].
  rewrite Hs. apply within_files; [apply _|]; apply st_rel_map_err, load_pending_reads, HC.
Qed.

Lemma metadata_inside {E} p : inside (on_files (st_try (E':=E) (symlink_metadata fault p))).
Proof. apply within_files; [apply _|]; apply st_rel_try, (quiet_step _ HC). auto with frames. Qed.

End readers.

Section handlers.
Context {HL : Libraries} (oracle : Oracle).
Context (euid umask : Z) (fault : nat → option (IoError * nat)).
Context (pid : Z) (nonce : nat → Z) (fresh : nat → string).
Context (to_vec : OperationEvent → string) (from_slice : string → option OperationEvent).
Context (pending_pretty : PendingPlan → string) (pending_parse : string → option PendingPlan).
Context (request_json : Request → option string) (request_parse : string → option Request).
Context (response_json : Response → string) (response_parse : string → option Response).
Context (K : serving → serving → Prop) {HK : Memory K}.
Context (root : path) (id : string).
(** A step that only reads. *)
Ltac reads L := apply L; first [apply _|apply confined_quiet].
#[local] Abbreviation inside := (st_rel (within (confined root id) K root)).


(* ------------------------------------------------------------------ *)
(** ** The rollback *)

(** A step that works on the record of this operation. *)
Definition about (h h' : execution) : Prop :=
  operation_id (current h) = id →
  confined root id (disk h) (disk h') ∧ operation_id (current h') = id.

#[local] Instance about_reflexive : Reflexive about.
Proof. by intros h. Qed.
#[local] Instance about_transitive : Transitive about.
Proof.
  intros h1 h2 h3 H1 H2 Hid. destruct (H1 Hid) as [C1 E1]. destruct (H2 E1) as [C2 E2].
  split; [by etransitivity|done].
Qed.

Lemma about_perform {A E} (e : effect A) : st_rel about (perform (E:=E) oracle e).
Proof. by intros h. Qed.
Lemma about_get {A E} (f : execution → A) : st_rel (E:=E) about (st_get f).
Proof. by intros h. Qed.
Lemma about_disk {A E} (m : ST world E A) : st_rel (confined root id) m → st_rel about (on_disk m).
Proof.
  intros H h Hid. specialize (H (disk h)). unfold on_disk. destruct (m (disk h)) as [r d]. by split.
Qed.
Lemma about_set {E} r : operation_id r = id → st_rel (E:=E) about (set_current r).
Proof. by intros H h. Qed.

Context (Hlock : owner_path root id ≠ LOCK_PATH).

Lemma about_lock : st_rel about (acquire_lock oracle euid umask fault).
Proof.
  unfold acquire_lock, stage. apply st_rel_bind; [apply _|apply about_disk, st_rel_map_err|intros n].
  { eapply touches_confined; [|apply open_nofollow_touches]. intros q ->. by apply apart_lock. }
  apply st_rel_bind; [apply _|apply about_disk, st_rel_map_err, quiet_confined; auto with frames|].
  intros _. destruct n; try apply st_rel_throw, _.
  apply st_rel_bind; [apply _|apply about_perform|intros held].
  destruct held; [apply st_rel_ret, _|apply st_rel_throw, _].
Qed.

Lemma about_store : st_rel about (store euid umask fault pid nonce root).
Proof.
  intros h Hid. unfold store, save, mbind, st_bind, st_get, st_map_err, on_disk. cbn.
  pose proof (save_confined euid umask fault root id pid (nonce (calls (disk h))) record_json _ Hid
    (disk h)) as C.
  by destruct (save_state _ _ _ _ _ _ _ _ _) as [[[]|e] d].
Qed.

Lemma about_probe {A} (f : (list string → string → option (bool * string)) → result string A) :
  st_rel about (probe oracle f).
Proof. unfold probe. apply st_rel_bind; [apply _|apply about_perform|intros run; apply st_rel_lift, _]. Qed.
Lemma about_identity at_root : st_rel about (identity_at oracle at_root).
Proof. unfold identity_at. apply st_rel_bind; [apply _|apply about_perform|intros i; apply st_rel_lift, _]. Qed.

(** The record kept in memory stays one of this operation. *)
Lemma about_current {A} (f : OperationStateRecord → ST execution string A) :
  (∀ r, operation_id r = id → st_rel about (f r)) → st_rel about (st_get current ≫= f).
Proof. intros H h Hid. by apply (H (current h) Hid h). Qed.

#[local] Hint Extern 1 (st_rel about (mret _)) => apply st_rel_ret, _ : about.
#[local] Hint Extern 1 (st_rel about (st_lift _)) => apply st_rel_lift, _ : about.
#[local] Hint Extern 1 (st_rel about (st_throw _)) => apply st_rel_throw, _ : about.
#[local] Hint Extern 1 (st_rel about (st_get current ≫= _)) =>
  (apply about_current; intros ? ?) : about.
#[local] Hint Extern 1 (st_rel about (set_current _)) => (apply about_set; cbn; assumption) : about.
#[local] Hint Extern 2 (st_rel about (_ ≫= _)) =>
  (apply st_rel_bind; [apply _| |intros ?]) : about.
#[local] Hint Extern 2 (st_rel about (st_map_err _ _)) => apply st_rel_map_err : about.
#[local] Hint Extern 2 (st_rel about (st_try _)) => apply st_rel_try : about.
#[local] Hint Extern 3 (st_rel about (if ?b then _ else _)) => destruct b : about.
#[local] Hint Extern 3 (st_rel about (match ?x with _ => _ end)) => destruct x : about.
#[local] Hint Resolve about_perform about_store about_probe about_identity about_lock : about.

Lemma about_reload : st_rel about (reload fault root).
Proof.
  unfold reload. apply about_current. intros r0 H0 h. apply st_step; [apply _| |].
  { apply about_disk, st_rel_map_err, load_reads, confined_quiet. }
  intros r h1 H1. apply about_set. unfold on_disk in H1.
  destruct (st_map_err _ _ _) as [x d] eqn:E. injection H1 as -> _.
  apply st_map_err_Ok, load_id in E. congruence.
Qed.

Lemma about_rollback now :
  st_rel about (schedule_rollback oracle euid umask fault pid nonce root now).
Proof.
  unfold schedule_rollback. apply st_rel_bind; [apply _|eauto with about|intros _].
  apply st_rel_bind; [apply _|apply about_reload|intros _].
  apply st_rel_bind; [apply _|unfold check_rollback; eauto 40 with about|intros [number source]].
  unfold attempt_rollback, finish_rollback, after_snapper. eauto 40 with about.
Qed.

(** A rollback of this record, as the service asks for it. *)
Lemma rollback_inside r now :
  operation_id r = id →
  inside (_ ← on_host (set_current r);
          on_host (schedule_rollback oracle euid umask fault pid nonce root now)).
Proof.
  intros Hid v _. unfold mbind, st_bind, on_host, set_current, st_modify. cbn.
  set (h := {| disk := _ |}). destruct (about_rollback now h Hid) as [C _].
  destruct (schedule_rollback _ _ _ _ _ _ _ _ h) as [x h'].
  split; [done|]. split; [apply (memory_host v h')|done].
Qed.

(* ------------------------------------------------------------------ *)
(** ** Requests about this operation *)

Lemma load_Ok code id' v r v' : load fault code id' v = (Ok r, v') → operation_id r = id'.
Proof.
  unfold load, on_files, on_host, on_disk, mbind, st_bind, st_get.
  destruct (st_map_err _ _ _) as [x d] eqn:E. intros [= -> _].
  by apply st_map_err_Ok, load_id in E.
Qed.

Lemma save_inside r : operation_id r = id → inside (save_record euid umask fault pid nonce r).
Proof.
  intros Hid. apply within_service. intros s Hs. rewrite Hs. apply within_files; [apply _|]; apply st_rel_map_err.
  intros w. by apply save_confined.
Qed.

Lemma cancel_inside request_id :
  inside (cancel oracle euid umask fault pid nonce from_slice request_json response_parse
            request_id id).
Proof.
  apply st_rel_bind; [apply _|reads owned_inside|intros owned].
  destruct (negb owned); [apply st_rel_throw, _|]. intros v.
  apply st_step; [apply _|reads load_inside|intros r v1 H1]. apply load_Ok in H1.
  destruct (negb _); [by apply st_rel_throw; try apply _|].
  revert v1. change (inside (now ← ask oracle Now;
    _ ← save_record euid umask fault pid nonce (stopped r Failed "CANCELLED" now);
    status oracle euid umask fault from_slice request_json response_parse request_id id 0)).
  apply st_rel_bind; [apply _|apply within_ask; apply _|intros now].
  apply st_rel_bind; [apply _|by apply save_inside|intros _]. reads status_inside.
Qed.

Lemma acknowledge_inside request_id action :
  inside (acknowledge_recovery oracle euid umask fault pid nonce from_slice request_json
            response_parse request_id id action).
Proof.
  unfold acknowledge_recovery. destruct (action ==? ShowDiagnostics); [reads status_inside|].
  apply st_rel_bind; [apply _|reads owned_inside|intros owned].
  destruct (negb owned); [apply st_rel_throw, _|]. intros v.
  apply st_step; [apply _|reads load_inside|intros r v1 H1]. apply load_Ok in H1.
  destruct (state r !=? NeedsRecovery); [by apply st_rel_throw; try apply _|].
  apply st_step; [apply _|apply within_ask; apply _|intros now v2 _].
  apply st_step; [apply _| |intros _ v3 _; reads status_inside].
  destruct action; [reflexivity| |by apply save_inside].
  revert v2. change (inside (s ← st_get service; _ ← on_host (set_current r);
    on_host (schedule_rollback oracle euid umask fault pid nonce (state_root s) now))).
  apply within_service. intros s ->. by apply rollback_inside.
Qed.

Lemma write_inside hash submitted authoritative :
  (∀ v s, K v (with_service v s)) →
  inside (write_operation oracle euid umask fault pid nonce pending_pretty id hash submitted
            authoritative).
Proof.
  intros HP. apply within_service. intros s Hs.
  apply st_rel_bind; [apply _|apply within_ask; apply _|intros timestamp]. cbv zeta.
  apply st_rel_bind; [apply _|by apply save_inside|intros _].
  apply st_rel_bind; [apply _| |intros _ v _; split; [by split|split; [apply HP|done]]].
  rewrite Hs. apply within_files; [apply _|]; apply st_rel_map_err.
  apply st_rel_bind; [apply _|apply pending_confined|intros _; apply owner_confined].
Qed.

Lemma create_inside hash submitted :
  (∀ v s, K v (with_service v s)) →
  inside (create_operation oracle euid umask fault pid nonce pending_pretty request_json
            response_parse id hash submitted).
Proof.
  intros HP. apply within_service. intros s Hs. apply st_rel_bind; [apply _|reads metadata_inside|intros found].
  destruct (is_ok found); [apply st_rel_throw, _|].
  apply st_rel_bind; [apply _|reads authoritative_inside|intros authoritative]. by apply write_inside.
Qed.

Lemma history_inside : inside (complete_history euid umask fault from_slice id).
Proof.
  apply within_service. intros s Hs. rewrite Hs.
  apply st_rel_bind; [apply _|apply within_files; [apply _|]; apply st_rel_map_err, write_failure_reads; apply confined_quiet|intros failed].
  destruct failed; [apply st_rel_throw, _|].
  apply st_rel_bind; [apply _|apply within_files; [apply _|]; apply st_rel_map_err, load_events_lock|intros history].
  destruct (incomplete history); [apply st_rel_throw, _|apply st_rel_ret, _].
Qed.

Lemma accept_inside hash confirmed submitted :
  (∀ v s, K v (with_service v s)) →
  inside (accept_start oracle euid umask fault pid nonce from_slice pending_pretty pending_parse
            request_json response_parse id hash confirmed submitted).
Proof.
  intros HP. unfold accept_start. destruct (negb confirmed); [apply st_rel_throw, _|].
  destruct (negb _); [apply st_rel_throw, _|].
  apply st_rel_bind; [apply _|reads owned_inside|intros owned].
  apply st_rel_bind; [apply _|destruct owned; [apply st_rel_ret, _|by apply create_inside]|intros _].
  apply st_rel_bind; [apply _|reads pending_inside|intros planned].
  destruct (_ || _); [apply st_rel_throw, _|].
  apply st_rel_bind; [apply _|reads load_inside|intros r].
  destruct (_ !=? _); [apply st_rel_throw, _|].
  apply st_rel_bind; [apply _|apply history_inside|intros history]. apply st_rel_ret, _.
Qed.

Lemma start_inside request_id hash confirmed submitted :
  (∀ v v', K v v') →
  inside (start oracle euid umask fault pid nonce from_slice pending_pretty pending_parse request_json
            response_parse request_id id hash confirmed submitted).
Proof.
  intros HS. apply st_rel_bind; [apply _|by apply accept_inside|intros [[r planned] history]].
  apply st_rel_bind; [apply _|intros v _; split; [by split|split; [apply HS|done]]|intros _].
  apply st_rel_ret, _.
Qed.

Lemma respond_rel (R : serving → serving → Prop) request_id (m : ST serving string Response) :
  st_rel R m → st_rel R (respond request_id m).
Proof. intros H v. unfold respond. specialize (H v). by destruct (m v). Qed.

(** The operation a request names. *)
Definition named (request : Request) : option string :=
  match request with
  | Protocol.Start _ _ operation_id _ _ _ | Protocol.Status _ _ operation_id _
  | Cancel _ _ operation_id | AcknowledgeRecovery _ _ operation_id _ => Some operation_id
  | _ => None
  end.

Definition starts (request : Request) : bool :=
  match request with Protocol.Start _ _ _ _ _ _ => true | _ => false end.

Lemma handle_inside request :
  named request = Some id ∨ named request = None →
  (starts request = true → ∀ v v', K v v') →
  inside (handle oracle euid umask fault pid nonce from_slice pending_pretty pending_parse
            request_json response_parse request).
Proof.
  intros Hn HS. apply respond_rel, within_service. intros s Hs. destruct (negb _); [apply st_rel_throw, _|].
  destruct (_ && _); [apply st_rel_throw, _|].
  unfold dispatch. destruct request; cbn in Hn;
    try (destruct Hn as [Hn|Hn]; [injection Hn as ->|discriminate Hn]).
  - reads check_release_inside.
  - reads trust_inside.
  - reads broker_inside.
  - reads inspect_inside.
  - reads plan_update_inside.
  - reads plan_release_inside.
  - by apply start_inside, HS.
  - reads status_inside.
  - apply cancel_inside.
  - apply acknowledge_inside.
Qed.
End handlers.

(* ------------------------------------------------------------------ *)
(** ** Whose operation it is *)

Definition read_at (ns : gmap path node) (p : path) : option string :=
  match canonical MAX_LINKS ns [] (reverse p) with
  | Ok q => match ns !! q with Some (File _ _ c) => Some c | _ => None end
  | Err _ => None
  end.

(** The files name [uid] as the owner. *)
Definition owned (ns : gmap path node) (root : path) (id : string) (uid : Z) : bool :=
  Ownership.valid_operation_id id
  && match ns !! owner_path root id with
     | Some (File _ _ c) =>
         negb (32 <? str_len c)%Z
         && ((read_at ns (owner_path root id) ≫= owner_text) ==? Some uid)
     | _ => false
     end.

Section owner.
Context (fault : nat → option (IoError * nat)).

Lemma read_file_spec p w r w' :
  read_file fault p w = (r, w') →
  nodes w' = nodes w ∧ calls w' = S (calls w)
  ∧ (∀ c, r = Ok c → read_at (nodes w) p = Some c)
  ∧ (fault (calls w) = None → res_ok r = read_at (nodes w) p).
Proof.
  unfold read_file, syscall, read_at. destruct (fault (calls w)) as [[e k]|].
  - by intros [= <- <-].
  - destruct (canonical _ _ _ _) as [q|e]; [|by intros [= <- <-]].
    destruct (nodes w !! q) as [[u m|u m c|t]|]; intros [= <- <-]; cbn; repeat split;
      [done..| |done|done]. by intros ? [= ->].
Qed.

(** The check finds owners only, and every owner unless one of its calls fails. *)
Lemma owned_by_spec {E} root id uid w :
  ∃ b w', operation_owned_by (E:=E) fault root id uid w = (Ok b, w')
    ∧ nodes w' = nodes w ∧ (calls w ≤ calls w' ≤ calls w + 2)%nat
    ∧ (b = true → owned (nodes w) root id uid = true)
    ∧ ((∀ n, (calls w ≤ n < calls w + 2)%nat → fault n = None) → b = owned (nodes w) root id uid).
Proof.
  unfold operation_owned_by, owned. fold (owner_path root id).
  destruct (Ownership.valid_operation_id id); cbn [negb andb].
  2: { exists false, w. repeat split; first [lia|done]. }
  cbv zeta. unfold mbind at 1, st_bind at 1, st_try at 1, symlink_metadata, syscall.
  set (w1 := {| nodes := nodes w; calls := S (calls w) |}).
  assert (nodes w1 = nodes w ∧ calls w1 = S (calls w)) as [N1 C1] by done.
  destruct (fault (calls w)) as [[e k]|] eqn:Ef.
  { exists false, w1. repeat split; try first [lia|done]. intros Hn. by rewrite Hn in Ef by lia. }
  destruct (nodes w !! owner_path root id) as [[u m|u m c|t]|]; cbn [ok_or];
    try by (exists false, w1; repeat split; first [lia|done]).
  destruct (32 <? str_len c)%Z; cbn [negb andb];
    [by (exists false, w1; repeat split; first [lia|done])|].
  unfold mbind at 1, st_bind at 1, st_try at 1.
  destruct (read_file fault (owner_path root id) w1) as [r w2] eqn:E2.
  apply read_file_spec in E2 as (N2 & C2 & H1 & H2). rewrite N1 in *.
  eexists _, w2. split; [reflexivity|]. split; [done|]. split; [lia|]. split.
  - destruct r as [c'|e]; [|done]. by rewrite (H1 _ eq_refl).
  - intros Hn. by rewrite <- H2 by (apply Hn; lia).
Qed.
End owner.

(* ------------------------------------------------------------------ *)
(** ** Other users *)

Section foreign.
Context {HL : Libraries} (oracle : Oracle).
Context (euid umask : Z) (fault : nat → option (IoError * nat)).
Context (pid : Z) (nonce : nat → Z).
Context (from_slice : string → option OperationEvent).
Context (pending_pretty : PendingPlan → string) (pending_parse : string → option PendingPlan).
Context (request_json : Request → option string) (response_parse : string → option Response).
#[local] Abbreviation handled := (handle oracle euid umask fault pid nonce from_slice pending_pretty
  pending_parse request_json response_parse).

Definition files_of_service (v : serving) : gmap path node := nodes (disk (host v)).

Lemma owned_by_caller_spec id v :
  ∃ b v', owned_by_caller fault id v = (Ok b, v')
    ∧ service v' = service v ∧ files_of_service v' = files_of_service v
    ∧ (calls (disk (host v)) ≤ calls (disk (host v')) ≤ calls (disk (host v)) + 2)%nat
    ∧ (b = true → owned (files_of_service v) (state_root (service v)) id (caller_uid (service v)) = true)
    ∧ ((∀ n, (calls (disk (host v)) ≤ n < calls (disk (host v)) + 2)%nat → fault n = None) →
       b = owned (files_of_service v) (state_root (service v)) id (caller_uid (service v))).
Proof.
  destruct (owned_by_spec (E := string) fault (state_root (service v)) id (caller_uid (service v))
    (disk (host v))) as (b & w' & E & N & C & H1 & H2).
  unfold owned_by_caller, on_files, on_host, on_disk, mbind, st_bind, st_get.
  rewrite E. eexists b, _. split; [reflexivity|]. split; [done|]. split; [exact N|]. by split.
Qed.

(** A request about an operation of somebody else is refused at the first check. *)
Lemma not_owned_stops {A} id (f : bool → ST serving string A) v :
  owned (files_of_service v) (state_root (service v)) id (caller_uid (service v)) = false →
  (∀ v', f false v' = (Err "OPERATION_NOT_FOUND", v')) →
  files_of_service ((owned_by_caller fault id ≫= f) v).2 = files_of_service v.
Proof.
  intros Ho Hf. destruct (owned_by_caller_spec id v) as (b & v' & E & _ & N & _ & H & _).
  unfold mbind, st_bind. rewrite E. destruct b; [by rewrite H in Ho|]. by rewrite Hf.
Qed.

Definition same_files (w w' : world) : Prop := nodes w' = nodes w.
#[export] Instance same_files_reflexive : Reflexive same_files.
Proof. by intros w. Qed.
#[export] Instance same_files_transitive : Transitive same_files.
Proof. intros w1 w2 w3 H1 H2. unfold same_files in *. congruence. Qed.

(** Steps that change neither files nor memory. *)
#[local] Abbreviation reading := (within same_files same_memory).

Lemma reading_files {A E} (m : ST serving E A) v :
  st_rel (reading (state_root (service v))) m → files_of_service (m v).2 = files_of_service v.
Proof. intros H. by destruct (H v eq_refl) as (? & _). Qed.

Lemma reading_memory {A E} (m : ST serving E A) v :
  st_rel (reading (state_root (service v))) m → same_memory v (m v).2.
Proof. intros H. by destruct (H v eq_refl) as (_ & ? & _). Qed.

Lemma status_reads root request_id id after :
  st_rel (reading root) (status oracle euid umask fault from_slice request_json response_parse
    request_id id after).
Proof. apply status_inside; try apply _. done. Qed.

(** What needs no authorization only reads. *)
Lemma dispatch_reads root request :
  needs_authorization request = false →
  st_rel (reading root) (dispatch oracle euid umask fault pid nonce from_slice pending_pretty
    pending_parse request_json response_parse request).
Proof.
  intros Hn. unfold dispatch. destruct request; try discriminate Hn.
  - apply check_release_inside; try apply _. done.
  - apply trust_inside; try apply _. done.
  - apply broker_inside; apply _.
  - apply inspect_inside; try apply _. done.
  - apply plan_update_inside; try apply _. done.
  - apply plan_release_inside; try apply _. done.
  - apply status_reads.
  - destruct recovery_action; try discriminate Hn. apply status_reads.
Qed.

Lemma query_reads root request :
  st_rel (reading root) (query_response oracle euid umask fault from_slice request_json response_parse
    request).
Proof.
  apply respond_rel. destruct (negb _); [apply st_rel_throw, _|].
  destruct request; try apply st_rel_throw, _.
  - apply trust_inside; try apply _. done.
  - unfold recovery_readiness. apply st_rel_bind; [apply _|apply within_ask; apply _|].
    intros output. apply st_rel_ret, _.
  - apply status_reads.
Qed.

Lemma handle_reads root request :
  needs_authorization request = false → st_rel (reading root) (handled request).
Proof.
  intros Hn. apply respond_rel, within_service. intros s _.
  destruct (negb _); [apply st_rel_throw, _|]. destruct (_ && _); [apply st_rel_throw, _|].
  by apply dispatch_reads.
Qed.


(** A request changes files of one operation only. *)
Lemma handle_confined request i v :
  state_root (service v) = STATE_ROOT → named request = Some i ∨ named request = None →
  confined STATE_ROOT i (disk (host v)) (disk (host (handled request v).2)).
Proof.
  intros Hroot Hi. assert (owner_path STATE_ROOT i ≠ LOCK_PATH) as Hl by discriminate.
  by destruct (handle_inside oracle euid umask fault pid nonce from_slice pending_pretty pending_parse
    request_json response_parse any_memory STATE_ROOT i Hl request Hi (λ _ _ _, I) v Hroot) as (? & _).
Qed.

(** Below the directory of one operation there is nothing of another. *)
Lemma below_other i id q : i ≠ id → join STATE_ROOT id `suffix_of` q → ¬ own_paths STATE_ROOT i q.
Proof.
  intros Hi [l ->] [[k H]|[[k H]|H]].
  - apply (f_equal length) in H. rewrite !length_app in H. cbn in H. lia.
  - apply (f_equal reverse) in H. rewrite !reverse_app in H. injection H as H _. congruence.
  - apply (f_equal length) in H. rewrite length_app in H. cbn in H. lia.
Qed.

(** An operation that exists is not created again. *)
Lemma create_stops id hash submitted v n :
  files_of_service v !! join (state_root (service v)) id = Some n →
  fault (calls (disk (host v))) = None →
  ∃ v', create_operation oracle euid umask fault pid nonce pending_pretty request_json response_parse
          id hash submitted v = (Err "OPERATION_NOT_FOUND", v')
        ∧ files_of_service v' = files_of_service v.
Proof.
  intros Hn Hf. unfold create_operation, on_files, on_host, on_disk, mbind, st_bind, st_get, st_try,
    symlink_metadata, syscall.
  unfold files_of_service in Hn. rewrite Hf, Hn. cbn. by eexists.
Qed.

(** The first three calls of a request do not fail. *)
Definition early_calls_work (v : serving) : Prop :=
  ∀ n, (calls (disk (host v)) ≤ n < calls (disk (host v)) + 3)%nat → fault n = None.

Lemma start_stops id request_id hash confirmed submitted v n :
  files_of_service v !! join (state_root (service v)) id = Some n →
  owned (files_of_service v) (state_root (service v)) id (caller_uid (service v)) = false →
  early_calls_work v →
  files_of_service (start oracle euid umask fault pid nonce from_slice pending_pretty pending_parse
    request_json response_parse request_id id hash confirmed submitted v).2 = files_of_service v.
Proof.
  intros Hn Ho He. unfold start, accept_start. unfold mbind at 1, st_bind at 1.
  destruct (negb confirmed); [done|]. destruct (negb _); [done|].
  destruct (owned_by_caller_spec id v) as (b & v1 & E & S1 & N1 & C1 & Hb & _).
  unfold mbind at 1, st_bind at 1. rewrite E. destruct b; [by rewrite Hb in Ho|].
  unfold mbind at 1, st_bind at 1.
  destruct (create_stops id hash submitted v1 n) as (v2 & -> & N2).
  - by rewrite S1, N1.
  - apply He. lia.
  - cbn. by rewrite N2.
Qed.

(** A request about the operation of somebody else changes no file. *)
Lemma handle_foreign request id v n :
  named request = Some id →
  files_of_service v !! join (state_root (service v)) id = Some n →
  owned (files_of_service v) (state_root (service v)) id (caller_uid (service v)) = false →
  early_calls_work v →
  files_of_service (handled request v).2 = files_of_service v.
Proof.
  intros Hid Hn Ho He. destruct (needs_authorization request) eqn:En.
  2: { by apply reading_files, handle_reads. }
  assert (files_of_service (dispatch oracle euid umask fault pid nonce from_slice pending_pretty
    pending_parse request_json response_parse request v).2 = files_of_service v) as Hd.
  { destruct request; try discriminate En; cbn in Hid; injection Hid as ->; cbn [dispatch].
    - by eapply start_stops.
    - by apply not_owned_stops.
    - unfold acknowledge_recovery.
      destruct recovery_action; try discriminate En; by apply not_owned_stops. }
  unfold handle, respond, mbind, st_bind, st_get. destruct (negb _); [done|].
  destruct (_ && _); [done|]. by destruct (dispatch _ _ _ _ _ _ _ _ _ _ _ _ v).
Qed.

(** C14 No request reaches the files of another user: when an operation exists and its
    owner file does not name the caller, every path below its directory is afterwards
    what it was, whatever the request asks and whichever later call fails; the calls
    that look at the owner and at the directory must work, since a directory that
    cannot be seen counts as a new operation. *)
Theorem foreign_operation_untouched request v id n q :
  state_root (service v) = STATE_ROOT →
  files_of_service v !! join STATE_ROOT id = Some n →
  owned (files_of_service v) STATE_ROOT id (caller_uid (service v)) = false →
  early_calls_work v →
  join STATE_ROOT id `suffix_of` q →
  files_of_service (handled request v).2 !! q = files_of_service v !! q.
Proof.
  intros Hroot Hn Ho He Hq. rewrite <- Hroot in Hn, Ho.
  destruct (decide (named request = Some id)) as [Hid|Hid].
  { by erewrite handle_foreign. }
  set (i := match named request with Some i => i | None => id +:+ "'" end).
  assert (i ≠ id) as Hi.
  { subst i. destruct (named request) as [i|]; [congruence|].
    intros E. apply (f_equal String.length) in E. rewrite string_length_app in E. cbn in E. lia. }
  assert (named request = Some i ∨ named request = None) as Hni.
  { subst i. destruct (named request); auto. }
  destruct (handle_confined request i v Hroot Hni) as [T _].
  apply T. by eapply below_other.
Qed.

(** C18 The owner of an operation is for ever: a file that names an owner is never
    changed, replaced or removed by a request, of this user or of any other. *)
Theorem owner_permanent request v id n :
  state_root (service v) = STATE_ROOT →
  files_of_service v !! owner_path STATE_ROOT id = Some n →
  files_of_service (handled request v).2 !! owner_path STATE_ROOT id = Some n.
Proof.
  intros Hroot Hn.
  destruct (decide (named request = Some id ∨ named request = None)) as [Hi|Hi].
  - destruct (handle_confined request id v Hroot Hi) as [_ O]. by apply O.
  - destruct (named request) as [i|] eqn:Ei; [|by destruct Hi; right].
    destruct (handle_confined request i v Hroot (or_introl Ei)) as [T _].
    rewrite <- Hn. apply T. eapply (below_other _ id); [|by exists ["owner"]].
    intros ->. by destruct Hi; left.
Qed.
End foreign.

(* ------------------------------------------------------------------ *)
(** ** A concrete service *)

Definition failed_id : string := operation_id failed_update.

(** The failed update of user 1000, and a service for [uid]. *)
Definition service_disk : world := {|
  nodes := <[owner_path STATE_ROOT failed_id := File 0 384 ("1000" +:+ String nl "")]>
             (nodes (disk rollback_start)); calls := 0 |}.
Definition sample_service (uid : Z) (only : bool) : serving := {|
  host := {| disk := service_disk; history := []; current := failed_update |};
  service := {| state_root := STATE_ROOT; caller_uid := uid; plans := ∅; service_events := ∅;
                workers := 0; read_only := only |};
  logs := ∅; stages := ∅; threads := [] |}.
Definition decline : Request := AcknowledgeRecovery PROTOCOL_VERSION "r" failed_id KeepCurrent.
Definition sample_handle (uid : Z) (only : bool) : result Empty_set Response * serving :=
  handle (HL := rollback_libraries) rollback_oracle 0 18 no_fault 104 (λ n, Z.of_nat n)
    (λ _, None) (λ _, "pending") (λ _, None) (λ _, None) (λ _, None) decline
    (sample_service uid only).

(** The owner may decline the rollback, nobody else. *)
Example owner_declines :
  nodes (disk (host (sample_handle 1000 false).2)) !! state_path failed_id
  = Some (File 0 384 (state_text sample_encode
      (stopped failed_update Failed "RECOVERY_DECLINED" "2026-08-18T00:00:00Z"))).
Proof. vm_compute. reflexivity. Qed.

Lemma foreign_operation_untouched_witness :
  owned (nodes service_disk) STATE_ROOT failed_id 1001 = false
  ∧ nodes (disk (host (sample_handle 1001 false).2)) !! state_path failed_id
    = nodes service_disk !! state_path failed_id.
Proof.
  split; [vm_compute; reflexivity|].
  apply (foreign_operation_untouched (HL := rollback_libraries) rollback_oracle 0 18 no_fault 104
    (λ n, Z.of_nat n) (λ _, None) (λ _, "pending") (λ _, None) (λ _, None) (λ _, None) decline
    (sample_service 1001 false) failed_id (Dir 0 448)).
  - reflexivity.
  - vm_compute. reflexivity.
  - vm_compute. reflexivity.
  - intros n _. reflexivity.
  - exists ["state.json"]. reflexivity.
Defined.

Lemma owner_permanent_witness :
  nodes (disk (host (sample_handle 1000 false).2)) !! owner_path STATE_ROOT failed_id
  = Some (File 0 384 ("1000" +:+ String nl "")).
Proof.
  apply (owner_permanent (HL := rollback_libraries) rollback_oracle 0 18 no_fault 104
    (λ n, Z.of_nat n) (λ _, None) (λ _, "pending") (λ _, None) (λ _, None) (λ _, None) decline
    (sample_service 1000 false) failed_id).
  - reflexivity.
  - vm_compute. reflexivity.
Defined.

