(* ===== verification/Starting.v ===== *)
(** * What a start starts (src/service/src/main.rs)

    A thread exists only for a plan the caller confirmed in that very request, that
    is the one its digest names, and that was computed again before the operation
    was created; what a thread leaves behind when it fails; and the loop of the
    program. *)

From S2P Require Import Prelude RustStr Recovery State Fs Persistence Preflight Solver Plan.
From S2P Require Import ManifestData Manifest Migration Discovery Inventory SolverXml Vendors Protocol.
From S2P Require Import Sanitize EventLog EventFile System Planner Executor Request Staging.
From S2P Require Import Fixture ManifestFetch Verifier Rollback Ownership Service Authority.

Open Scope bool_scope.
Open Scope lyra_scope.

(* ------------------------------------------------------------------ *)
(** ** The calls of a request *)

(** The calls made so far stay in the history. *)
Definition grows (v v' : serving) : Prop := history (host v) `prefix_of` history (host v').

#[export] Instance grows_reflexive : Reflexive grows.
Proof. intros v. unfold grows. reflexivity. Qed.
#[export] Instance grows_transitive : Transitive grows.
Proof. intros v1 v2 v3 H1 H2. unfold grows in *. by etransitivity. Qed.

Lemma grows_host {A E} (m : ST execution E A) :
  st_rel (quiet (λ _, false)) m → st_rel grows (on_host m).
Proof.
  intros H v. unfold on_host, grows. destruct (m (host v)) as [r h] eqn:E'.
  exact (quiet_grows _ m _ _ _ H E').
Qed.

Lemma grows_files {A E} (m : ST world E A) : st_rel grows (on_files m).
Proof. apply grows_host, on_disk_quiet. Qed.

Lemma grows_ask oracle {A E} (e : effect A) : st_rel grows (ask (E:=E) oracle e).
Proof. by apply grows_host, perform_quiet. Qed.

Lemma grows_modify {E} (f : serving → serving) :
  (∀ v, host (f v) = host v) → st_rel (E:=E) grows (st_modify f).
Proof. intros H v. unfold grows. cbn. by rewrite H. Qed.

Create HintDb grows.
#[export] Hint Resolve grows_files grows_ask : grows.
#[export] Hint Extern 1 (st_rel grows (mret _)) => apply st_rel_ret, _ : grows.
#[export] Hint Extern 1 (st_rel grows (st_lift _)) => apply st_rel_lift, _ : grows.
#[export] Hint Extern 1 (st_rel grows (st_throw _)) => apply st_rel_throw, _ : grows.
#[export] Hint Extern 1 (st_rel grows (st_get _)) => (intros ?; reflexivity) : grows.
#[export] Hint Extern 1 (st_rel grows (st_modify _)) => (by apply grows_modify) : grows.
#[export] Hint Extern 2 (st_rel grows (_ ≫= _)) =>
  (apply st_rel_bind; [apply _| |intros ?]) : grows.
#[export] Hint Extern 2 (st_rel grows (st_map_err _ _)) => apply st_rel_map_err : grows.
#[export] Hint Extern 2 (st_rel grows (st_try _)) => apply st_rel_try : grows.
#[export] Hint Extern 3 (st_rel grows (if ?b then _ else _)) => destruct b : grows.
#[export] Hint Extern 3 (st_rel grows (match ?x with _ => _ end)) => destruct x : grows.

Lemma on_host_Ok {A E} (m : ST execution E A) v a v' :
  on_host m v = (Ok a, v') → ∃ h, m (host v) = (Ok a, h) ∧ v' = with_host v h.
Proof.
  unfold on_host. destruct (m (host v)) as [r h]. intros [= -> <-]. eauto.
Qed.

Lemma on_files_Ok {A E} (m : ST world E A) v a v' :
  on_files m v = (Ok a, v') → ∃ d, m (disk (host v)) = (Ok a, d)
    ∧ v' = with_host v {| disk := d; history := history (host v); current := current (host v) |}.
Proof.
  intros (h & H & ->)%on_host_Ok. unfold on_disk in H.
  destruct (m (disk (host v))) as [r d]. injection H as -> <-. eauto.
Qed.

Lemma ask_Ok oracle {A E} (e : effect A) v a v' :
  ask (E:=E) oracle e v = (Ok a, v') →
  ∃ files, history (host v') = history (host v) ++ [Did e a files]
    ∧ service v' = service v ∧ disk (host v') = disk (host v).
Proof. intros (h & [= <- <-] & ->)%on_host_Ok. eauto. Qed.

Section starting.
Context {HL : Libraries} (oracle : Oracle).
Context (euid umask : Z) (fault : nat → option (IoError * nat)).
Context (pid : Z) (nonce : nat → Z).
Context (from_slice : string → option OperationEvent).
Context (pending_pretty : PendingPlan → string) (pending_parse : string → option PendingPlan).
Context (request_json : Request → option string) (response_parse : string → option Response).
#[local] Abbreviation handled := (handle oracle euid umask fault pid nonce from_slice pending_pretty
  pending_parse request_json response_parse).
#[local] Abbreviation accepted := (accept_start oracle euid umask fault pid nonce from_slice
  pending_pretty pending_parse request_json response_parse).

Ltac grows := eauto 20 with grows.

Lemma broker_grows request :
  st_rel grows (broker_request oracle request_json response_parse request).
Proof. unfold broker_request. grows. Qed.
#[local] Hint Resolve broker_grows : grows.

Lemma trust_grows request_id :
  st_rel grows (trust_state oracle euid umask fault request_json response_parse request_id).
Proof. unfold trust_state. grows. Qed.
#[local] Hint Resolve trust_grows : grows.

Lemma sequence_grows code :
  st_rel grows (trusted_sequence oracle euid umask fault request_json response_parse code).
Proof. unfold trusted_sequence. grows. Qed.
#[local] Hint Resolve sequence_grows : grows.

Lemma prepare_quiet context keys_dir rs :
  st_rel (quiet (λ _, false)) (prepare_repositories oracle context keys_dir rs).
Proof. induction rs as [|repository rs IH]; cbn; eauto 20 with quiet. Qed.
#[local] Hint Resolve prepare_quiet : quiet.

Lemma plan_release_quiet manifest :
  st_rel (quiet (λ _, false)) (plan_release_upgrade oracle manifest).
Proof.
  unfold plan_release_upgrade, discover, installed_packages_at, enrich_solver_vendors_at,
    run_with_simulation. cbv zeta.
  assert (∀ f raw sets candidates, st_rel (quiet (λ _, false))
    (fetch_catalogs (E:=PlannerError) oracle f raw sets candidates)) by (intros; by apply fetch_catalogs_quiet).
  eauto 40 with quiet.
Qed.

Lemma plan_update_grows : st_rel grows (on_host (plan_update_with_cached_metadata oracle)).
Proof. by apply grows_host, plan_update_quiet. Qed.
Lemma plan_release_grows manifest : st_rel grows (on_host (plan_release_upgrade oracle manifest)).
Proof. apply grows_host, plan_release_quiet. Qed.
#[local] Hint Resolve plan_update_grows plan_release_grows : grows.

Lemma save_grows r : st_rel grows (save_record euid umask fault pid nonce r).
Proof. unfold save_record. grows. Qed.
#[local] Hint Resolve save_grows : grows.

Lemma write_grows id hash submitted authoritative :
  st_rel grows (write_operation oracle euid umask fault pid nonce pending_pretty id hash submitted
                  authoritative).
Proof. unfold write_operation. cbv zeta. grows. Qed.

Lemma accept_rest_grows id :
  st_rel grows (pending_plan fault pending_parse id)
  ∧ (∀ code, st_rel grows (load fault code id))
  ∧ st_rel grows (complete_history euid umask fault from_slice id).
Proof.
  unfold pending_plan, load, complete_history.
  split; [grows|split; [intros; grows|grows]].
Qed.

(* ------------------------------------------------------------------ *)
(** ** The plan computed again *)

(** The manifest came from a download made after the request. *)
Definition downloaded (v : serving) (h : execution) (manifest : ReleaseManifest) : Prop :=
  ∃ l installed last channel verified files,
    history h = history (host v) ++ l
    ∧ Did (FetchVerifiedManifest installed last channel) (Ok verified) files ∈ l
    ∧ verified_manifest verified = manifest.

(** The plan was computed again between [v] and [v'], and came out the same. *)
Definition replanned (v v' : serving) (submitted : PlannedUpdate) (hash : string) : Prop :=
  ∃ authoritative h h',
    history (host v) `prefix_of` history h ∧ history h' `prefix_of` history (host v')
    ∧ planned_sha256 authoritative = hash ∧ planned_plan authoritative = planned_plan submitted
    ∧ match plan_operation (planned_plan submitted) with
      | UpdateWithinRelease => plan_update_with_cached_metadata oracle h = (Ok authoritative, h')
      | ReleaseUpgrade | State.PackageMigration =>
          ∃ manifest, planned_manifest submitted = Some manifest ∧ downloaded v h manifest
            ∧ plan_release_upgrade oracle manifest h = (Ok authoritative, h')
      end.

Lemma release_manifest_Ok v manifest v' :
  release_manifest oracle euid umask fault request_json response_parse v = (Ok manifest, v') →
  downloaded v (host v') manifest.
Proof.
  intros H. unfold release_manifest in H.
  apply st_bind_Ok in H as (identity & v1 & H1 & H).
  apply st_bind_Ok in H as (channel & v2 & H2 & H).
  apply st_bind_Ok in H as (sequence & v3 & H3 & H).
  apply st_bind_Ok in H as (fetched & v4 & H4 & H).
  assert (grows v v3) as [l Hl].
  { assert (st_rel grows (installed_release oracle)) as G1 by (unfold installed_release; grows).
    assert (st_rel grows (release_channel fault)) as G2 by (unfold release_channel; grows).
    pose proof (sequence_grows "MANIFEST_SEQUENCE_INVALID" v2) as G3. rewrite H3 in G3.
    specialize (G1 v). rewrite H1 in G1. specialize (G2 v1). rewrite H2 in G2.
    cbn in *. by do 2 etransitivity. }
  apply ask_Ok in H4 as (files & H4 & _). destruct fetched as [verified|]; [|done].
  injection H as <- <-. eexists (l ++ [_]), _, _, _, verified, files.
  split; [|split; [|reflexivity]].
  - by rewrite H4, Hl, app_assoc.
  - apply elem_of_app. right. by apply list_elem_of_singleton.
Qed.

Lemma authoritative_Ok submitted hash v authoritative v' :
  authoritative_plan oracle euid umask fault request_json response_parse submitted hash v
    = (Ok authoritative, v') →
  replanned v v' submitted hash.
Proof.
  intros H. unfold authoritative_plan in H. apply st_bind_Ok in H as (planned & v1 & H1 & H).
  destruct planned as [planned|]; [|done].
  destruct (_ && _) eqn:E; [|done]. apply andb_true_iff in E as [E1 E2].
  apply bool_decide_eq_true in E1, E2. injection H as -> ->. unfold replanned.
  destruct (plan_operation (planned_plan submitted)).
  - apply st_try_eq, on_host_Ok in H1 as (h & H1 & ->).
    exists authoritative, (host v), h. by repeat split.
  - apply st_bind_Ok in H1 as (manifest & v2 & H2 & H1). destruct (_ !=? _) eqn:Em; [done|].
    equal Em. apply st_try_eq, on_host_Ok in H1 as (h & H1 & ->). apply release_manifest_Ok in H2 as Hd.
    exists authoritative, (host v2), h. split; [by destruct Hd as (l & ? & ? & ? & ? & ? & -> & _); exists l|].
    repeat split; try done. by exists manifest.
  - apply st_bind_Ok in H1 as (manifest & v2 & H2 & H1). destruct (_ !=? _) eqn:Em; [done|].
    equal Em. apply st_try_eq, on_host_Ok in H1 as (h & H1 & ->). apply release_manifest_Ok in H2 as Hd.
    exists authoritative, (host v2), h. split; [by destruct Hd as (l & ? & ? & ? & ? & ? & -> & _); exists l|].
    repeat split; try done. by exists manifest.
Qed.

(* ------------------------------------------------------------------ *)
(** ** The operation of the thread *)

(** The owner file as it is written for [uid]. *)
Definition owner_text_of (uid : Z) : string := to_string uid +:+ String nl "".

Lemma owner_written id uid w w' :
  save_operation_owner euid umask fault STATE_ROOT id uid w = (Ok (), w') →
  ∃ m, nodes w' !! owner_path STATE_ROOT id = Some (File euid m (owner_text_of uid)).
Proof.
  unfold save_operation_owner. destruct (negb _); [done|]. cbv zeta. intros H.
  fold (owner_path STATE_ROOT id) in H.
  apply st_bind_Ok in H as ([] & w1 & (m & H1)%create_new_Ok & H).
  apply st_bind_Ok in H as ([] & w2 & H2 & H). apply (write_all_Ok _ _ _ _ _ _ _ _ H2) in H1.
  apply st_bind_Ok in H as ([] & w3 & H3 & H). apply (write_all_Ok _ _ _ _ _ _ _ _ H3) in H1.
  apply sync_all_Ok in H. exists m. by rewrite H, H1.
Qed.

Lemma write_operation_Ok id hash submitted authoritative v v' :
  state_root (service v) = STATE_ROOT →
  write_operation oracle euid umask fault pid nonce pending_pretty id hash submitted authoritative v
    = (Ok (), v') →
  ∃ m, files_of_service v' !! owner_path STATE_ROOT id
       = Some (File euid m (owner_text_of (caller_uid (service v)))).
Proof.
  intros Hroot H. unfold write_operation in H. apply st_bind_Ok in H as (s & v1 & [= <- <-] & H).
  apply st_bind_Ok in H as (timestamp & v2 & _ & H). cbv zeta in H.
  apply st_bind_Ok in H as ([] & v3 & _ & H). apply st_bind_Ok in H as ([] & v4 & H4 & H).
  apply on_files_Ok in H4 as (d & H4 & ->). apply st_map_err_Ok in H4.
  apply st_bind_Ok in H4 as ([] & d1 & _ & H4). rewrite Hroot in H4.
  apply owner_written in H4. by injection H as <-.
Qed.

(** How a thread may come to be. *)
Record started (v v' : serving) (id hash : string) (submitted : PlannedUpdate) (t : thread) : Prop := {
  st_confirmed : thread_plan t = {| pending_planned := submitted;
                                    pending_manifest := planned_manifest submitted |};
  st_hash : Planner.plan_sha256 (planned_plan submitted) = Ok hash;
  st_valid : submission_valid hash submitted = true;
  st_id : operation_id (thread_record t) = id;
  st_state : state (thread_record t) = AwaitingConfirmation;
  st_log : service_events (service v') !! id = Some (thread_log t);
  st_owner :
    owned (files_of_service v) STATE_ROOT id (caller_uid (service v)) = true
    ∨ (∃ m, files_of_service v' !! owner_path STATE_ROOT id
            = Some (File euid m (owner_text_of (caller_uid (service v)))))
      ∧ replanned v v' submitted hash;
}.

Lemma replanned_grows v v' u u' submitted hash :
  grows v u → grows u' v' → replanned u u' submitted hash → replanned v v' submitted hash.
Proof.
  intros [l Hl] G (a & h & h' & P1 & P2 & E1 & E2 & H). exists a, h, h'.
  unfold grows in G. split; [destruct P1 as [k Hk]; exists (l ++ k); by rewrite Hk, Hl, app_assoc|].
  split; [by etransitivity|]. do 2 (split; [done|]).
  assert (∀ manifest, downloaded u h manifest → downloaded v h manifest) as Hd.
  { intros manifest (l' & i & s & c & verified & files & E' & Hin & Hv).
    exists (l ++ l'), i, s, c, verified, files. split; [by rewrite E', Hl, app_assoc|].
    split; [|done]. apply elem_of_app. by right. }
  destruct (plan_operation _); [done|..]; destruct H as (manifest & ? & ? & ?); exists manifest; auto.
Qed.

Lemma step_grows {A} (m : ST serving string A) v x v' : st_rel grows m → m v = (x, v') → grows v v'.
Proof. intros H E. specialize (H v). by rewrite E in H. Qed.

(** Steps that keep the files of one operation in its own frame. *)
#[local] Abbreviation framed id := (within (confined STATE_ROOT id) any_memory STATE_ROOT).

Lemma framed_owner {A} id (m : ST serving string A) v x v' :
  st_rel (framed id) m → m v = (x, v') → state_root (service v) = STATE_ROOT →
  state_root (service v') = STATE_ROOT
  ∧ ∀ n, files_of_service v !! owner_path STATE_ROOT id = Some n →
         files_of_service v' !! owner_path STATE_ROOT id = Some n.
Proof.
  intros H E Hroot. specialize (H v Hroot). rewrite E in H. destruct H as ([_ HO] & _ & HS).
  split; [by injection HS as -> _ _|]. apply HO.
Qed.

Lemma created id hash submitted v v' :
  state_root (service v) = STATE_ROOT →
  create_operation oracle euid umask fault pid nonce pending_pretty request_json response_parse
    id hash submitted v = (Ok (), v') →
  (∃ m, files_of_service v' !! owner_path STATE_ROOT id
        = Some (File euid m (owner_text_of (caller_uid (service v)))))
  ∧ replanned v v' submitted hash.
Proof.
  intros Hroot H. unfold create_operation in H. apply st_bind_Ok in H as (s & v1 & [= <- <-] & H).
  apply st_bind_Ok in H as (found & v2 & H2 & H). destruct (is_ok found); [done|].
  apply st_bind_Ok in H as (authoritative & v3 & H3 & H).
  assert (grows v v2) as G2 by (eapply step_grows, H2; grows).
  assert (service v2 = service v) as S2 by (by apply on_files_Ok in H2 as (d & _ & ->)).
  assert (service v3 = service v) as S3.
  { rewrite <- S2. assert (st_rel (within (λ _ _, True) same_memory STATE_ROOT)
      (authoritative_plan oracle euid umask fault request_json response_parse submitted hash)) as Hs
      by (apply authoritative_inside; try done; apply _).
    specialize (Hs v2). rewrite H3 in Hs. destruct Hs as (_ & Hm & _); [by rewrite S2|].
    cbn in Hm. by rewrite Hm. }
  apply authoritative_Ok in H3.
  split; [rewrite <- S3; eapply write_operation_Ok, H; by rewrite S3|].
  eapply replanned_grows; [exact G2| |exact H3]. eapply step_grows, H. apply write_grows.
Qed.

Definition same_threads (v v' : serving) : Prop := threads v' = threads v.
#[local] Instance same_threads_ok : Memory same_threads.
Proof. split; [by intros v|intros v1 v2 v3 H1 H2; unfold same_threads in *; congruence|done]. Qed.

Lemma accept_threads id hash confirmed submitted v x v' :
  state_root (service v) = STATE_ROOT →
  accepted id hash confirmed submitted v = (x, v') →
  threads v' = threads v ∧ settings (service v') = settings (service v).
Proof.
  intros Hroot H.
  destruct (accept_inside oracle euid umask fault pid nonce from_slice pending_pretty pending_parse
    request_json response_parse same_threads STATE_ROOT id hash confirmed submitted
    (λ _ _, eq_refl) v Hroot) as (_ & Ht & Hs).
  by rewrite H in Ht, Hs.
Qed.

(** The owner that [create_operation] wrote is still there when the thread starts. *)
Lemma owner_stays id hash submitted code v1 v2 v3 v4 v5 planned r events :
  state_root (service v1) = STATE_ROOT →
  create_operation oracle euid umask fault pid nonce pending_pretty request_json response_parse
    id hash submitted v1 = (Ok (), v2) →
  pending_plan fault pending_parse id v2 = (Ok planned, v3) →
  load fault code id v3 = (Ok r, v4) →
  complete_history euid umask fault from_slice id v4 = (Ok events, v5) →
  (∃ m, files_of_service v5 !! owner_path STATE_ROOT id
        = Some (File euid m (owner_text_of (caller_uid (service v1)))))
  ∧ replanned v1 v5 submitted hash.
Proof.
  intros R1 H2 H3 H4 H5. destruct (created _ _ _ _ _ R1 H2) as [[m Hm] Hr].
  assert (state_root (service v2) = STATE_ROOT) as R2.
  { assert (st_rel (framed id) (create_operation oracle euid umask fault pid nonce pending_pretty
      request_json response_parse id hash submitted)) as F by (by apply create_inside).
    exact (proj1 (framed_owner id _ _ _ _ F H2 R1)). }
  destruct (framed_owner id _ _ _ _ (pending_inside fault pending_parse _ (confined_quiet _ _)
    any_memory STATE_ROOT id) H3 R2) as [R3 O3].
  specialize (O3 _ Hm).
  destruct (framed_owner id _ _ _ _ (load_inside fault _ (confined_quiet _ _) any_memory STATE_ROOT
    code id) H4 R3) as [R4 O4].
  specialize (O4 _ O3).
  destruct (framed_owner id _ _ _ _ (history_inside euid umask fault from_slice any_memory STATE_ROOT id)
    H5 R4) as [_ O5].
  specialize (O5 _ O4).
  split; [by exists m|]. destruct (accept_rest_grows id) as (P3 & P4 & P5).
  eapply replanned_grows; [reflexivity| |exact Hr].
  etransitivity; [exact (step_grows _ _ _ _ P3 H3)|].
  etransitivity; [exact (step_grows _ _ _ _ (P4 _) H4)|exact (step_grows _ _ _ _ P5 H5)].
Qed.

(** The thread that would be started after [accept_start]. *)
Lemma accept_Ok id hash confirmed submitted v r planned events v' log :
  state_root (service v) = STATE_ROOT →
  accepted id hash confirmed submitted v = (Ok (r, planned, events), v') →
  let t := {| thread_record := r; thread_plan := planned; thread_log := log |} in
  confirmed = true ∧ (∀ v'', host v'' = host v' → service_events (service v'') !! id = Some log →
    started v v'' id hash submitted t).
Proof.
  intros Hroot H. unfold accept_start in H. destruct confirmed; [|done]. cbn [negb] in H.
  destruct (submission_valid hash submitted) eqn:Hsub; [|done]. cbn [negb] in H.
  apply st_bind_Ok in H as (b & v1 & H1 & H).
  destruct (owned_by_caller_spec fault id v) as (b' & v1' & E1 & S1 & N1 & _ & Hb & _).
  rewrite H1 in E1. injection E1 as <- <-.
  apply st_bind_Ok in H as ([] & v2 & H2 & H).
  apply st_bind_Ok in H as (planned' & v3 & H3 & H). destruct (_ || _) eqn:Ep; [done|].
  apply orb_false_iff in Ep as [[Ep1 Ep2]%orb_false_iff Ep3]. equal Ep2. equal Ep3.
  apply st_bind_Ok in H as (r' & v4 & H4 & H). apply load_Ok in H4 as Hid.
  destruct (state r' !=? AwaitingConfirmation) eqn:Es; [done|]. equal Es.
  apply st_bind_Ok in H as (events' & v5 & H5 & H). injection H as -> -> -> <-.
  split; [done|]. intros v'' Hh Hlog.
  split; cbn; try done.
  - destruct planned as [p m]. cbn in *. by rewrite Ep2, Ep3.
  - unfold submission_valid in Hsub. destruct (Planner.plan_sha256 _) as [h|]; cbn in Hsub.
    + repeat rewrite andb_true_iff in Hsub. destruct Hsub as (((((_ & Hh') & _) & _) & _) & _).
      apply bool_decide_eq_true in Hh'. congruence.
    + by rewrite !andb_false_r in Hsub.
  - destruct b; [left|right].
    + by rewrite <- Hroot; apply Hb.
    + assert (state_root (service v1) = STATE_ROOT) as R1 by (by rewrite S1).
      destruct (owner_stays _ _ _ _ _ _ _ _ _ _ _ _ R1 H2 H3 H4 H5) as [[m Hm] Hr]. rewrite S1 in Hm.
      split; [exists m; unfold files_of_service; by rewrite Hh|].
      eapply replanned_grows; [| |exact Hr]; [|unfold grows; by rewrite Hh].
      eapply step_grows, H1. unfold owned_by_caller. grows.
Qed.

Lemma handle_threads request v r v' :
  state_root (service v) = STATE_ROOT → starts request = false →
  handled request v = (r, v') → threads v' = threads v.
Proof.
  intros Hroot Hs H. set (i := default "" (named request)).
  assert (owner_path STATE_ROOT i ≠ LOCK_PATH) as Hl by discriminate.
  assert (named request = Some i ∨ named request = None) as Hi by (subst i; destruct (named request); auto).
  assert (starts request = true → ∀ v v', same_threads v v') as Hk by (by rewrite Hs).
  destruct (handle_inside oracle euid umask fault pid nonce from_slice pending_pretty pending_parse
    request_json response_parse same_threads STATE_ROOT i Hl request Hi Hk v Hroot) as (_ & Ht & _).
  by rewrite H in Ht.
Qed.

(** C9 A thread is only ever started for a plan the caller confirmed: a request adds
    at most one thread, only a start that says so, for exactly the plan it carries,
    whose digest it names; the record waits for confirmation, and either the caller
    already owned the operation or the plan was computed again after the request, from
    the signed manifest downloaded after it for a release, came out the same, and the
    operation now belongs to the caller. *)
Theorem thread_starts_confirmed request v r v' :
  state_root (service v) = STATE_ROOT →
  handled request v = (r, v') →
  threads v' = threads v
  ∨ ∃ version request_id id hash submitted t,
      request = Protocol.Start version request_id id hash true submitted
      ∧ r = Ok (Accepted request_id (Some id)) ∧ read_only (service v) = false
      ∧ threads v' = threads v ++ [t] ∧ started v v' id hash submitted t.
Proof.
  intros Hroot H. destruct (starts request) eqn:Hs; [|by left; eapply handle_threads].
  destruct request; try discriminate Hs. unfold handle, respond, mbind at 1, st_bind at 1, st_get in H.
  cbn [Protocol.request_id] in H.
  destruct (negb _); [injection H as _ <-; by left|].
  destruct (read_only (service v)) eqn:Er; [injection H as _ <-; by left|]. cbn [andb dispatch] in H.
  unfold start, mbind at 1, st_bind at 1 in H.
  destruct (accepted operation_id plan_sha256 confirmed planned v) as [x v1] eqn:E.
  destruct (accept_threads _ _ _ _ _ _ _ Hroot E) as [Ht _].
  destruct x as [[[r' p] events]|]; [|injection H as _ <-; by left].
  destruct (accept_Ok _ _ _ _ _ _ _ _ _ (next_log v1) Hroot E) as [-> Hst].
  right. injection H as <- <-. eexists _, _, _, _, _, _. split; [reflexivity|].
  split; [reflexivity|]. split; [done|]. cbn. rewrite Ht. split; [reflexivity|].
  apply Hst; [done|]. cbn. apply lookup_insert_eq.
Qed.
End starting.

(* ------------------------------------------------------------------ *)
(** ** A concrete start *)

Definition start_id : string := "6ba7b810-9dad-41d1-80b4-00c04fd430c8".
Definition start_record : OperationStateRecord :=
  initial_record start_id (zeros 64) "2026-08-18T00:00:00Z" sample_planned sample_planned.
Definition start_libraries : Libraries := {|
  plan_json := λ _, Ok "plan"; plan_pretty := λ _, Ok "plan"; manifest_json := λ _, Ok "manifest";
  manifest_pretty := λ _, Ok "manifest"; record_json := sample_encode;
  record_parse := λ text,
    if text ==? state_text sample_encode start_record then Some start_record else None;
  inventory_json := λ _, "inventory"; inventory_parse := λ _, None; plan_parse := λ _, None;
  manifest_parse := λ _, None;
  mounts_json := sample_layout; xml_events := sample_update_events; digest := λ _, zeros 64 |}.

(** A new start of user 1000 among the files of the failed update. *)
Definition start_request (confirmed : bool) : Request :=
  Protocol.Start PROTOCOL_VERSION "r" start_id (zeros 64) confirmed sample_planned.
Definition sample_accept (confirmed : bool) : result Empty_set Response * serving :=
  handle (HL := start_libraries) sample_oracle 0 18 no_fault 104 (λ n, Z.of_nat n)
    (λ _, None) (λ _, "pending") (λ _, None) (λ _, None) (λ _, None) (start_request confirmed)
    (sample_service 1000 false).

Example sample_accepted :
  (sample_accept true).1 = Ok (Accepted "r" (Some start_id))
  ∧ length (threads (sample_accept true).2) = 1%nat ∧ threads (sample_accept false).2 = [].
Proof. vm_compute. repeat split. Qed.

Lemma start_inj v r id h c p v' r' id' h' c' p' :
  Protocol.Start v r id h c p = Protocol.Start v' r' id' h' c' p' → id' = id ∧ p' = p.
Proof. by intros [= _ _ -> _ _ ->]. Qed.

Lemma thread_starts_confirmed_witness :
  ∃ t, threads (sample_accept true).2 = [t]
    ∧ thread_plan t = {| pending_planned := sample_planned;
                         pending_manifest := planned_manifest sample_planned |}
    ∧ operation_id (thread_record t) = start_id.
Proof.
  destruct (thread_starts_confirmed (HL := start_libraries) sample_oracle 0 18 no_fault 104
    (λ n, Z.of_nat n) (λ _, None) (λ _, "pending") (λ _, None) (λ _, None) (λ _, None)
    (start_request true) (sample_service 1000 false) (sample_accept true).1 (sample_accept true).2)
    as [H|(version & request_id & id & hash & submitted & t & Er & _ & _ & Ht & S)].
  - reflexivity.
  - unfold sample_accept. apply surjective_pairing.
  - destruct sample_accepted as (_ & Hl & _). rewrite H in Hl. discriminate Hl.
  - exists t. split; [rewrite Ht; reflexivity|]. apply start_inj in Er as [-> ->].
    split; [exact (st_confirmed _ _ _ _ _ _ _ _ S)|exact (st_id _ _ _ _ _ _ _ _ S)].
Defined.
