(* ===== verification/Worker.v ===== *)
(** * How a thread of the service ends (src/service/src/main.rs)

    The closure a start spawns: the worker it runs for the kind of the operation,
    and the record it leaves, which can always be stored. *)

From S2P Require Import Prelude RustStr Recovery State Fs Persistence Preflight Solver Plan.
From S2P Require Import ManifestData Manifest Migration Discovery Inventory SolverXml Vendors Protocol.
From S2P Require Import Sanitize EventLog EventFile System Planner Executor Fixture OnlineUpdate.
From S2P Require Import Staging Request ManifestFetch Verifier Rollback Ownership Service.

Open Scope bool_scope.
Open Scope lyra_scope.

Section worker.
Context {HL : Libraries} (oracle : Oracle).
Context (euid umask : Z) (fault : nat → option (IoError * nat)).
Context (pid : Z) (nonce : nat → Z) (fresh : nat → string).
(** The root of the operations is not the link that arms the next boot. *)
Context (root : path) (Hroot : root ≠ []) (Hlink : ¬ SYSTEM_UPDATE `suffix_of` root).
#[local] Abbreviation executed := (execute oracle euid umask fault pid nonce fresh).

(* ------------------------------------------------------------------ *)
(** ** The record moves by steps of the state machine *)

Lemma update_steps confirmed w x w' :
  execute_update oracle euid umask fault pid nonce fresh root confirmed w = (x, w') →
  rtc State.step (current w) (current w')
  ∧ (is_ok x = true → stored euid root (nodes (disk w')) (current w')
       ∧ (state (current w') = AwaitingReboot ∨ state (current w') = Completed)).
Proof.
  rewrite execute_update_phases. intros H.
  apply st_bind_cases in H as [(e & H & ->)|([dir first] & w1 & H1 & H)].
  { split; [|done].
    destruct (before_transaction_quiet oracle euid umask fault pid nonce fresh root confirmed w)
      as [_ S]. by rewrite H in S. }
  destruct (before_transaction_quiet oracle euid umask fault pid nonce fresh root confirmed w)
    as [_ S1]. rewrite H1 in S1. cbn in S1.
  assert (∀ y w2, apply_update oracle euid umask fault pid nonce root w1 = (y, w2) →
    rtc State.step (current w1) (current w2)) as Ha.
  { intros y w2 [[[_ S] _]|(? & ? & _ & _ & _ & S & _)]%apply_update_spec; exact S. }
  apply st_bind_cases in H as [(e & H & ->)|(exit & w2 & H2 & H)].
  { split; [|done]. etransitivity; [exact S1|by eapply Ha]. }
  cbn [fst snd] in H.
  destruct (finish_update_quiet oracle euid umask fault pid nonce fresh root dir confirmed first exit w2)
    as [_ S3]. rewrite H in S3.
  split; [etransitivity; [exact S1|etransitivity; [by eapply Ha|exact S3]]|].
  destruct x as [outcome|]; [|done]. intros _. apply finish_update_Ok in H as (Hs & _ & He & _).
  split; [done|]. rewrite He. destruct (outcome_reboot_required outcome); auto.
Qed.

Lemma staging_steps confirmed manifest w x w' :
  stage_release_upgrade oracle euid umask fault pid nonce fresh root confirmed manifest w = (x, w') →
  rtc State.step (current w) (current w')
  ∧ (is_ok x = true → stored euid root (nodes (disk w')) (current w')
       ∧ state (current w') = ReadyToReboot).
Proof.
  rewrite stage_phases. intros H.
  apply st_bind_cases in H as [(e & H & ->)|(dir & w1 & H1 & H)].
  { split; [|done]. eapply quiet_prefix_of, H. by apply before_link_quiet. }
  eapply quiet_prefix_of in H1 as [_ S1]; [|by apply before_link_quiet].
  apply after_link in H as ([_ S2] & y & _ & _ & Ho); [|done..].
  split; [by etransitivity|]. destruct x as [outcome|]; [|done]. intros _.
  by destruct (Ho outcome eq_refl) as (_ & ? & ?).
Qed.

Lemma forget_result {A} (m : ST execution ExecutionError A) w x w' :
  (_ ← m; mret ()) w = (x, w') → ∃ y, m w = (y, w') ∧ is_ok y = is_ok x.
Proof.
  intros [(e & H & ->)|(a & w1 & H & [= <- <-])]%st_bind_cases; eauto.
Qed.

Lemma execute_steps t w x w' :
  executed t root w = (x, w') →
  rtc State.step (current w) (current w')
  ∧ (is_ok x = true → stored euid root (nodes (disk w')) (current w')
       ∧ (state (current w') = AwaitingReboot ∨ state (current w') = Completed
          ∨ state (current w') = ReadyToReboot)).
Proof.
  assert (∀ manifest,
    (_ ← stage_release_upgrade oracle euid umask fault pid nonce fresh root
           (pending_planned (thread_plan t)) manifest; mret ()) w = (x, w') →
    rtc State.step (current w) (current w')
    ∧ (is_ok x = true → stored euid root (nodes (disk w')) (current w')
         ∧ (state (current w') = AwaitingReboot ∨ state (current w') = Completed
            ∨ state (current w') = ReadyToReboot))) as Hs.
  { intros manifest (y & H & <-)%forget_result. apply staging_steps in H as [S H].
    split; [done|]. intros Hy. destruct (H Hy). auto. }
  intros H. unfold execute in H. destruct (State.operation (thread_record t)).
  - apply forget_result in H as (y & H & <-). apply update_steps in H as [S H].
    split; [done|]. intros Hy. destruct (H Hy) as (? & [?|?]); auto.
  - destruct (pending_manifest _); [by eapply Hs|]. by injection H as <- <-.
  - destruct (pending_manifest _); [by eapply Hs|]. by injection H as <- <-.
Qed.

(* ------------------------------------------------------------------ *)
(** ** The record of a failure *)

Lemma failure_state_cases e has :
  failure_state e has = NeedsRecovery ∧ has = true
  ∨ failure_state e has = Blocked ∧ has = false ∧ is_blocking e = true
  ∨ failure_state e has = Failed ∧ has = false ∧ is_blocking e = false.
Proof. unfold failure_state. destruct (is_blocking e), has; cbn; auto. Qed.

(** A failure can always be stored. *)
Lemma stopped_storable r0 r e code now :
  validate_state r0 = Ok () → recovery r0 = None → keeps r0 r →
  validate_state (stopped r (failure_state e (is_some (snapshot_number r))) code now) = Ok ().
Proof.
  rewrite !validate_state_Ok. intros [Hs Hp Hm _ _ _ Ho] Hr0
    [(Es & _ & Eo & Er & Esrc & Et & Ep & Em) _ _ Hpos Hsnap _].
  split; cbn.
  - by rewrite Es.
  - by rewrite Ep.
  - by rewrite Em.
  - intros E. apply Hpos in E. lia.
  - destruct (failure_state_cases e (is_some (snapshot_number r)))
      as [[-> H]|[(-> & _)|(-> & _)]]; [|done..].
    by destruct (snapshot_number r).
  - by rewrite Er, Hr0.
  - unfold operation_shape_is_valid. cbn. by rewrite Eo, Et, Em, Esrc.
Qed.

(** What the thread leaves after error [e]: nothing new when the operation was
    cancelled meanwhile, else the record of the failure, as far as it can be saved. *)
Definition failure_left (e : ExecutionError) (h h' : execution) : Prop :=
  (∃ saved d, load_state fault record_parse root (operation_id (current h)) (disk h) = (Ok saved, d)
     ∧ State.error_code saved = Some "CANCELLED" ∧ nodes (disk h') = nodes (disk h)
     ∧ current h' = current h)
  ∨ ∃ now w y,
      current h' = stopped (current h) (failure_state e (is_some (snapshot_number (current h))))
                     (error_code e) now
      ∧ nodes w = nodes (disk h)
      ∧ save_state euid umask fault pid (nonce (calls w)) record_json root (current h') w
        = (y, disk h')
      ∧ (y = Ok () → stored euid root (nodes (disk h')) (current h')).

Lemma record_failure_spec e h x h' :
  record_failure oracle euid umask fault pid nonce root e h = (x, h') →
  x = Ok () ∧ failure_left e h h'.
Proof.
  unfold record_failure. intros H. unfold mbind at 1, st_bind at 1, st_get at 1 in H.
  unfold mbind at 1, st_bind at 1, on_disk at 1, st_try at 1 in H.
  pose proof (load_state_touches fault (λ _, False) record_parse root (operation_id (current h))
    (disk h)) as Hn.
  destruct (load_state _ _ _ _ (disk h)) as [saved d] eqn:El. cbn in Hn, H.
  assert (nodes d = nodes (disk h)) as Hd by (apply map_eq; intros q; apply Hn; tauto).
  destruct (match saved with Ok _ => _ | Err _ => _ end) eqn:Ec.
  { injection H as <- <-. split; [done|]. left. destruct saved as [saved|]; [|done].
    apply bool_decide_eq_true in Ec. exists saved, d. by repeat split. }
  unfold mbind, st_bind, perform, set_current, st_modify, st_try, save, st_map_err, on_disk in H.
  cbn in H. set (now := oracle _ _ _ Now) in H. set (r := stopped _ _ _ now) in H.
  destruct (save_state euid umask fault pid (nonce (calls d)) record_json root r d) as [y d'] eqn:Es.
  pose proof (save_state_spec _ _ _ _ _ _ _ _ _ _ _ Es) as [_ Hs].
  assert (h' = {| disk := d'; history := history h ++ [Did Now now (nodes d)]; current := r |}
          ∧ x = Ok ()) as [-> ->] by (by destruct y; injection H as <- <-).
  split; [done|]. right. exists now, d, y. cbn. split; [done|]. split; [done|]. split; [done|].
  intros ->. by destruct (Hs eq_refl).
Qed.

End worker.

(* ------------------------------------------------------------------ *)
(** ** Concrete threads *)

Definition sample_thread : thread := {|
  thread_record := sample_confirmed_record;
  thread_plan := {| pending_planned := sample_planned; pending_manifest := None |};
  thread_log := 0 |}.

(** Another transaction holds the lock. *)
Definition busy_oracle : Oracle := λ A h w e,
  match e in effect B return B → B with
  | TryLock => λ _, false
  | _ => λ a, a
  end (sample_oracle A h w e).

Definition sample_thread_run (oracle : Oracle) : result ExecutionError () * execution :=
  run_thread oracle 0 18 no_fault 100 (λ n, Z.of_nat n) sample_fresh sample_thread sample_root
    sample_start.

Example sample_thread_ends :
  state (current (sample_thread_run sample_oracle).2) = AwaitingReboot
  ∧ state (current (sample_thread_run busy_oracle).2) = Blocked
  ∧ State.error_code (current (sample_thread_run busy_oracle).2) = Some "TRANSACTION_BUSY"
  ∧ nodes (disk (sample_thread_run busy_oracle).2) !! join (join sample_root (operation_id sample_confirmed_record)) "state.json"
    = Some (File 0 384 (state_text sample_encode (current (sample_thread_run busy_oracle).2))).
Proof. vm_compute. repeat split. Qed.

