(* ===== verification/Observed.v ===== *)
(** * What a user sees of a running operation (src/service/src/main.rs)

    The observer of a thread and the answer to a status request together: every
    event a thread reports is in the log in memory, and is in the durable history
    unless the log says that writing failed; and a status that reports no error
    shows the whole history. *)

From S2P Require Import Prelude RustStr Recovery State Fs Persistence Preflight Solver Plan.
From S2P Require Import ManifestData Manifest Migration Discovery Inventory SolverXml Vendors Protocol.
From S2P Require Import Sanitize EventLog EventFile System Planner Executor Fixture OnlineUpdate.
From S2P Require Import Staging Request ManifestFetch Verifier Rollback Ownership Service Authority Starting.

Open Scope bool_scope.
Open Scope lyra_scope.

(* ------------------------------------------------------------------ *)
(** ** The highest sequence number of a history *)

(** What one event contributes. *)
Definition reach (e : OperationEvent) : Z :=
  Z.max (event_sequence e)
    (if (event_sequence e =? 0)%Z then default 0%Z (high_sequence e) else 0).

Lemma high_le n es : (high es ≤ n)%Z ↔ (0 ≤ n)%Z ∧ ∀ e, e ∈ es → (reach e ≤ n)%Z.
Proof.
  induction es as [|e es IH]; cbn [high foldr].
  - split; [intros H; split; [done|by intros e He%elem_of_nil]|tauto].
  - fold (high es). rewrite Z.max_lub_iff, IH. unfold reach. split.
    + intros (H1 & H2 & H3). split; [done|]. intros x [->|Hx]%elem_of_cons; auto.
    + intros (H1 & H2). split; [apply H2; by left|]. split; [done|]. intros x Hx. apply H2. by right.
Qed.

Lemma reach_positive e : (0 < event_sequence e)%Z → reach e = event_sequence e.
Proof. intros H. unfold reach. rewrite (proj2 (Z.eqb_neq _ 0)) by lia. lia. Qed.

Lemma body_elem e es : e ∈ body es → e ∈ es.
Proof. destruct es as [|x es]; [done|]. cbn. destruct (is_marker x true); [by right|done]. Qed.

Lemma body_snoc es e : (0 < event_sequence e)%Z → body (es ++ [e]) = body es ++ [e].
Proof.
  intros H. destruct es as [|x es]; cbn; [by rewrite nonzero_marker|]. by destruct (is_marker x true).
Qed.

Lemma compacted_high es event es' n :
  compacted es event es' → (0 < event_sequence event)%Z → is_u64 (event_sequence event) →
  (high es ≤ event_sequence event)%Z → n = event_sequence event → (high es' ≤ n)%Z.
Proof.
  intros [_ _ Hsub Hm] Hpos Hu Hh ->. apply high_le in Hh as [_ Hh].
  assert (∀ e, e ∈ body es ++ [event] → (reach e ≤ event_sequence event)%Z) as Hall.
  { intros e [He| ->%list_elem_of_singleton]%elem_of_app; [by apply Hh, body_elem|].
    by rewrite reach_positive. }
  apply high_le. split; [lia|]. intros e He. destruct Hm as [E|(d & E & _)]; rewrite E in He; [by apply Hall|].
  apply elem_of_cons in He as [->|He].
  - unfold reach, high_sequence. rewrite fields_high.
    unfold mbind, option_bind, parse_u64. rewrite parse_to_string by apply Hu. cbn. lia.
  - apply Hall. by eapply elem_of_sublist.
Qed.

Lemma foldl_reach l log :
  (0 ≤ last_sequence log)%Z →
  (last_sequence log ≤ last_sequence (foldl restore_event log l))%Z
  ∧ ∀ e, e ∈ l → (reach e ≤ last_sequence (foldl restore_event log l))%Z.
Proof.
  revert log. induction l as [|e l IH]; intros log H0; cbn [foldl].
  { split; [done|by intros x Hx%elem_of_nil]. }
  assert (last_sequence log ≤ last_sequence (restore_event log e)
          ∧ reach e ≤ last_sequence (restore_event log e))%Z as [Hm1 Hm2].
  { unfold reach, restore_event. cbn [last_sequence]. destruct (Z.eqb_spec (event_sequence e) 0); lia. }
  destruct (IH (restore_event log e)) as [H1 H2]; [lia|].
  split; [lia|]. intros x [->|Hx]%elem_of_cons; [lia|auto].
Qed.

Lemma restore_high l : (high l ≤ last_sequence (restore l))%Z.
Proof.
  destruct (foldl_reach l default_log) as [H1 H2]; [done|]. cbn in H1.
  unfold restore. rewrite (trim_sequence (foldl restore_event default_log l)).
  - apply high_le. by split.
  - by apply trim_technical_spec, restore_foldl.
Qed.

(* ------------------------------------------------------------------ *)
(** ** The observer *)

(** What a worker reports. *)
Inductive report : Set :=
  | Changed (s : OperationState)
  | Line (program : string) (error_stream : bool) (text : string).

Section observer.
Context {HL : Libraries} (oracle : Oracle).
Context (euid umask : Z) (fault : nat → option (IoError * nat)) (fresh : nat → string).
Context (to_vec : OperationEvent → string) (from_slice : string → option OperationEvent).
Context `{HJ : !JsonCodec to_vec from_slice}.
Context (Hfresh : ∀ n, fresh_name (fresh n)).
#[local] Abbreviation appends := (append_observed euid umask fault fresh to_vec from_slice).

Definition observe (o : Observer) (x : report) : ST serving unit unit :=
  match x with
  | Changed s => state_changed oracle euid umask fault fresh to_vec from_slice o s
  | Line program error_stream text =>
      command_line oracle euid umask fault fresh to_vec from_slice o program error_stream text
  end.
Fixpoint observe_all (o : Observer) (l : list report) : ST serving unit unit :=
  match l with [] => mret () | x :: l' => _ ← observe o x; observe_all o l' end.

(** The event a report becomes. *)
Definition becomes (o : Observer) (x : report) (e : OperationEvent) : Prop :=
  event_operation_id e = observer_id o
  ∧ match x with
    | Changed s => event_state e = s ∧ message_id e = "state." +:+ state_name s ∧ technical e = None
    | Line program error_stream text =>
        ∃ line, sanitize_technical_line (program +:+ ": " +:+ text) = Some line
          ∧ technical e = Some {|
              line_source := if error_stream then ZypperStderr else ZypperStdout;
              line_text := Sanitize.text line; line_truncated := Sanitize.truncated line |}
    end.

(** The file holds the well-formed history [es]. *)
Record durable (o : Observer) (es : list OperationEvent) (w : world) : Prop := {
  du_prepared : EventFile.prepared (observer_root o) (observer_id o) (file_of to_vec es) w;
  du_history : valid_history (observer_id o) es;
  du_fit : Forall (record_fits to_vec) es;
  du_size : (str_len (file_of to_vec es) ≤ MAX_LEGACY_BYTES)%Z;
}.

Lemma record_write_failure_Ok temporary root id w :
  ∃ w', record_write_failure euid umask fault temporary root id w = (Ok (), w').
Proof.
  unfold record_write_failure, mbind, st_bind, st_try.
  destruct (operation_directory _ _ _ w) as [[d|e] w1]; [|by eexists].
  destruct (replace_events _ _ _ _ _ _ _ w1) as [x w2]. by eexists.
Qed.

Lemma append_durable o es event temporary w w' :
  fresh_name temporary → EventFile.valid_operation_id (observer_id o) = true →
  append_event to_vec from_slice euid umask fault temporary (observer_root o) (observer_id o) event w
    = (Ok (), w') →
  durable o es w → event_operation_id event = observer_id o → (0 < event_sequence event)%Z →
  is_u64 (event_sequence event) → (high es < event_sequence event)%Z →
  ∃ es', durable o es' w' ∧ normative (body es') = normative (body es ++ [event])
    ∧ (high es' ≤ event_sequence event)%Z.
Proof.
  intros [Ht1 Ht2] Hid H [Hp Hv Hf Hs] Hide Hpos Hu Hh.
  apply (append_outcome to_vec from_slice json_codec json_one_line (observer_root o) (observer_id o)
    temporary euid umask Hid Ht1 Ht2 fault es event w) in H
    as [(k & Hk & Hfits & Hr)|(es' & Hp' & Hv' & Hf' & Hs' & Hc & _)]; try done.
  - rewrite (Hr eq_refl), <- file_of_snoc in Hk. exists (es ++ [event]).
    assert (k ≠ 0) as Hk0.
    { intros ->. specialize (Hr eq_refl). pose proof (line_len to_vec event) as Hl.
      rewrite <- Hr in Hl. by destruct (line to_vec event). }
    destruct (Hfits Hk0) as [Hfe Htot]. split; [split|split].
    + done.
    + by apply valid_history_snoc.
    + by apply Forall_app; auto.
    + rewrite file_of_snoc, str_len_app. unfold MAX_LEGACY_BYTES, MAX_RECORD_BYTES. lia.
    + by rewrite body_snoc.
    + apply high_le. split; [lia|]. intros e [He| ->%list_elem_of_singleton]%elem_of_app.
      * assert (high es ≤ event_sequence event)%Z as [_ Hall]%high_le by lia. by apply Hall.
      * by rewrite reach_positive.
  - exists es'. split; [split; try done|split].
    + unfold MAX_LEGACY_BYTES, MAX_RECORD_BYTES. lia.
    + apply Hc.
    + by eapply compacted_high; [exact Hc|done|done|lia|].
Qed.

(** One append, whatever happens to it. *)
Lemma appends_spec o log event v r v' :
  appends o log event v = (r, v') →
  (r = Err () ∧ logs v' !! observer_log o = Some {| guarded := log; poisoned := true |})
  ∨ ∃ log', r = Ok log' ∧ (log' = log ∨ log' = with_failure log) ∧ logs v' = logs v
      ∧ (persistence_failed log' = false →
         ∃ temporary, fresh_name temporary
           ∧ append_event to_vec from_slice euid umask fault temporary (observer_root o)
               (observer_id o) event (disk (host v)) = (Ok (), disk (host v'))).
Proof.
  unfold append_observed. intros H.
  unfold mbind at 1, st_bind at 1, st_get at 1 in H.
  unfold mbind at 1, st_bind at 1, on_files at 1, on_host at 1, on_disk at 1, st_try at 1 in H.
  destruct (append_event _ _ _ _ _ _ _ _ _ (disk (host v))) as [x d] eqn:E.
  set (v1 := with_host v _) in H.
  destruct x as [[]|[e|]].
  - injection H as <- <-. right. exists log. split; [done|]. split; [by left|]. split; [done|].
    intros _. eexists. split; [apply Hfresh|]. exact E.
  - right. exists (with_failure log).
    assert (r = Ok (with_failure log) ∧ logs v' = logs v) as [-> ->].
    { destruct (persistence_failed log); [by injection H as <- <-|].
      unfold mbind at 1, st_bind at 1, mbind at 1, st_bind at 1, st_get at 1, on_files at 1,
        on_host at 1, on_disk at 1, st_map_err at 1 in H.
      destruct (record_write_failure_Ok (fresh (calls (disk (host v1)))) (observer_root o)
        (observer_id o) (disk (host v1))) as [w' Ew]. rewrite Ew in H. by injection H as <- <-. }
    split; [done|]. split; [by right|]. by split.
  - injection H as <- <-. left. split; [done|]. cbn. apply lookup_insert_eq.
Qed.

(** After the events [given] since the log was restored from [es0]: the log in memory
    knows them, and so does the file unless the log says that writing failed. *)
Record tracked (o : Observer) (es0 given : list OperationEvent) (v : serving) (m : mutex) : Prop := {
  tk_log : logs v !! observer_log o = Some m;
  tk_usable : poisoned m = false;
  tk_keeps : keeps_log (es0 ++ given) (guarded m);
  tk_sequence : (0 ≤ last_sequence (guarded m)
    ≤ last_sequence (restore es0) + Z.of_nat (length given))%Z;
  tk_durable : persistence_failed (guarded m) = false →
    ∃ es, durable o es (disk (host v)) ∧ normative (body es) = normative (body es0 ++ given)
      ∧ (high es ≤ last_sequence (guarded m))%Z;
}.

Lemma tracked_append o es0 given v v' m log' event :
  EventFile.valid_operation_id (observer_id o) = true →
  tracked o es0 given v m → event_operation_id event = observer_id o →
  event_sequence event = next_sequence (guarded m) →
  (last_sequence (restore es0) + Z.of_nat (length given) < u64_max)%Z →
  keeps_log (es0 ++ given ++ [event]) log' →
  last_sequence log' = event_sequence event →
  logs v' !! observer_log o = Some (unpoisoned log') →
  (persistence_failed log' = false → persistence_failed (guarded m) = false ∧
     ∃ temporary, fresh_name temporary
       ∧ append_event to_vec from_slice euid umask fault temporary (observer_root o) (observer_id o)
           event (disk (host v)) = (Ok (), disk (host v'))) →
  tracked o es0 (given ++ [event]) v' (unpoisoned log').
Proof.
  intros Hid [_ _ _ Hseq Hd] Hide He Hmax Hk Hl Hlogs Ha.
  assert (event_sequence event = last_sequence (guarded m) + 1)%Z as He'.
  { rewrite He. unfold next_sequence, saturating_add. lia. }
  split; cbn [unpoisoned guarded poisoned]; try done.
  - rewrite Hl, He', length_app. cbn [length]. lia.
  - intros Hf. destruct (Ha Hf) as (Hm & temporary & Ht & Happ). destruct (Hd Hm) as (es & Hes & Hn & Hh).
    destruct (append_durable o es event temporary _ _ Ht Hid Happ Hes Hide) as (es' & Hes' & Hn' & Hh').
    + lia.
    + unfold is_u64, u64_max in *. lia.
    + lia.
    + exists es'. split; [done|]. split; [|by rewrite Hl]. rewrite Hn'. unfold normative in *.
      by rewrite app_assoc, !List.filter_app, Hn, List.filter_app.
Qed.

Lemma keeps_failure es log : keeps_log es log → keeps_log es (with_failure log).
Proof. by intros [[] ? ? ? ?]. Qed.

Lemma kept_flag es log log' :
  log' = log ∨ log' = with_failure log → keeps_log es log →
  keeps_log es log' ∧ last_sequence log' = last_sequence log
  ∧ (persistence_failed log' = false → persistence_failed log = false).
Proof. intros [-> | ->] H; [done|]. split; [by apply keeps_failure|done]. Qed.

Lemma changed_step o s es0 given v m r v' :
  EventFile.valid_operation_id (observer_id o) = true → tracked o es0 given v m →
  (last_sequence (restore es0) + Z.of_nat (length given) < u64_max)%Z →
  observe o (Changed s) v = (r, v') →
  (r = Err () ∧ ∃ m', logs v' !! observer_log o = Some m' ∧ poisoned m' = true)
  ∨ r = Ok () ∧ ∃ e m', becomes o (Changed s) e ∧ tracked o es0 (given ++ [e]) v' m'.
Proof.
  intros Hid T Hmax H. pose proof T as [Hlog Hp Hk Hseq _]. cbn [observe] in H.
  unfold state_changed in H. unfold mbind at 1, st_bind at 1, st_modify at 1 in H.
  unfold mbind at 1, st_bind at 1, st_get at 1 in H. cbn [with_stages logs] in H.
  rewrite Hlog, Hp in H. unfold mbind at 1, st_bind at 1 in H.
  cbn [ask on_host perform with_host] in H. unfold ask, on_host, perform in H. cbn in H.
  set (event := Build_OperationEvent _ _ _ _ _ _ _ _) in H. set (v1 := with_host _ _) in H.
  apply st_bind_cases in H as [([] & H & ->)|(log' & v2 & H1 & H)].
  - apply appends_spec in H as [(_ & H)|(? & [=] & _)]. left. split; [done|]. by eexists.
  - apply appends_spec in H1 as [([=] & _)|(? & [= <-] & Hl' & Hlogs & Hok)].
    injection H as <- <-. right. split; [done|]. exists event, (unpoisoned (push_normative log' event)).
    split; [by repeat split|].
    assert (keeps_log (es0 ++ given) log' ∧ last_sequence log' = last_sequence (guarded m)
      ∧ (persistence_failed log' = false → persistence_failed (guarded m) = false)) as (K & L & F)
      by (by apply kept_flag).
    destruct (push_keeps (es0 ++ given) log' (Normative event) _ eq_refl K eq_refl)
      as (e & -> & K'). rewrite <- app_assoc in K'.
    assert (event_sequence event = last_sequence (guarded m) + 1)%Z as He.
    { cbn. unfold next_sequence, saturating_add. lia. }
    eapply (tracked_append _ _ _ v); [exact Hid|exact T|done|done|done|exact K'| | |].
    + cbn [push_normative last_sequence]. rewrite L, He. lia.
    + cbn. apply lookup_insert_eq.
    + cbn [push_normative persistence_failed]. intros Hf. split; [by apply F|by apply Hok].
Qed.

Lemma trim_same fuel log :
  last_sequence (trim_from fuel log) = last_sequence log
  ∧ persistence_failed (trim_from fuel log) = persistence_failed log.
Proof.
  revert log. induction fuel as [|fuel IH]; intros log; [done|]. cbn [trim_from].
  destruct (over_limit log); [|done]. destruct (remove_first_technical _) as [[e rest]|]; [|done].
  apply (IH {| EventLog.events := rest |}).
Qed.

Lemma push_technical_Ok log event source raw log' event' :
  push_technical log event source raw = Some (log', event') →
  push_step log (Technical event source raw) = Some log'
  ∧ pushed (Technical event source raw) event'
  ∧ last_sequence log' = Z.max (last_sequence log) (event_sequence event)
  ∧ persistence_failed log' = persistence_failed log.
Proof.
  intros H. unfold push_step. rewrite H. split; [done|]. unfold push_technical in H.
  destruct (sanitize_technical_line raw) as [line|] eqn:E; [|done].
  injection H as <- <-. split; [by exists line|].
  unfold trim_technical. match goal with |- context [trim_from ?f ?l] => exact (trim_same f l) end.
Qed.

(** Two pushes of one line give one event. *)
Lemma pushed_unique log event source raw log' event' e :
  push_technical log event source raw = Some (log', event') →
  pushed (Technical event source raw) e → e = event'.
Proof.
  unfold push_technical. intros H (line & E & ->). rewrite E in H. by injection H as _ <-.
Qed.

Lemma line_step o program error_stream text es0 given v m r v' :
  EventFile.valid_operation_id (observer_id o) = true → tracked o es0 given v m →
  (last_sequence (restore es0) + Z.of_nat (length given) < u64_max)%Z →
  observe o (Line program error_stream text) v = (r, v') →
  (r = Err () ∧ ∃ m', logs v' !! observer_log o = Some m' ∧ poisoned m' = true)
  ∨ r = Ok () ∧ ∃ e m', becomes o (Line program error_stream text) e
      ∧ tracked o es0 (given ++ [e]) v' m'.
Proof.
  intros Hid T Hmax H. pose proof T as [Hlog Hp Hk Hseq _]. cbn [observe] in H.
  unfold command_line in H. unfold mbind at 1, st_bind at 1, st_get at 1 in H.
  rewrite Hlog, Hp in H. unfold mbind at 1, st_bind at 1, st_get at 1 in H.
  unfold mbind at 1, st_bind at 1, ask, on_host, perform in H.
  set (event := technical_event _ _ _ _) in H. set (v1 := with_host _ _) in H. cbv beta iota zeta in H.
  set (raw := (program +:+ ": " +:+ text)) in *.
  destruct (push_technical (guarded m) event _ raw) as [[log1 event1]|] eqn:Ep.
  2: { injection H as <- <-. left. split; [done|]. eexists. split; [apply lookup_insert_eq|done]. }
  apply push_technical_Ok in Ep as Hpush. destruct Hpush as (Hstep & Hpushed & Hl1 & Hf1).
  assert (event_sequence event = last_sequence (guarded m) + 1)%Z as He.
  { cbn. unfold next_sequence, saturating_add. lia. }
  apply st_bind_cases in H as [([] & H & ->)|(log' & v2 & H1 & H)].
  - apply appends_spec in H as [(_ & H)|(? & [=] & _)]. left. split; [done|]. by eexists.
  - apply appends_spec in H1 as [([=] & _)|(? & [= <-] & Hl' & Hlogs & Hok)].
    injection H as <- <-. right. split; [done|]. exists event1, (unpoisoned log').
    destruct (push_keeps (es0 ++ given) (guarded m) (Technical event _ raw) log1 I Hk Hstep)
      as (e & Hpe & K).
    rewrite (pushed_unique _ _ _ _ _ _ _ Ep Hpe), <- app_assoc in K.
    destruct (kept_flag _ _ _ Hl' K) as (K' & L' & F').
    destruct Hpushed as (line & Hline & ->).
    split; [split; [done|]; exists line; by split|].
    eapply (tracked_append _ _ _ v); [exact Hid|exact T|done|done|done|exact K'| | |].
    + rewrite L', Hl1, He. cbn [with_technical event_sequence]. rewrite He. lia.
    + cbn. apply lookup_insert_eq.
    + intros Hf. split; [by rewrite <- Hf1; apply F'|by apply Hok].
Qed.

Lemma observe_all_tracked o es0 l given m v r v' :
  EventFile.valid_operation_id (observer_id o) = true → tracked o es0 given v m →
  (last_sequence (restore es0) + Z.of_nat (length given + length l) < u64_max)%Z →
  observe_all o l v = (r, v') →
  (r = Err () ∧ ∃ m', logs v' !! observer_log o = Some m' ∧ poisoned m' = true)
  ∨ r = Ok () ∧ ∃ new m', Forall2 (becomes o) l new ∧ tracked o es0 (given ++ new) v' m'.
Proof.
  intros Hid. revert given m v. induction l as [|x l IH]; intros given m v T Hmax H.
  - injection H as <- <-. right. split; [done|]. exists [], m. by rewrite app_nil_r.
  - cbn [observe_all length] in *.
    assert (∀ r1 v1, observe o x v = (r1, v1) →
      (r1 = Err () ∧ ∃ m', logs v1 !! observer_log o = Some m' ∧ poisoned m' = true)
      ∨ r1 = Ok () ∧ ∃ e m', becomes o x e ∧ tracked o es0 (given ++ [e]) v1 m') as Hstep.
    { intros r1 v1 H1. destruct x; [eapply changed_step|eapply line_step]; try done; lia. }
    apply st_bind_cases in H as [([] & H & ->)|([] & v1 & H1 & H)].
    + destruct (Hstep _ _ H) as [?|([=] & _)]. by left.
    + destruct (Hstep _ _ H1) as [([=] & _)|(_ & e & m1 & Hb & T1)].
      destruct (IH (given ++ [e]) m1 v1 T1) as [?|(-> & new & m' & Hnew & T')];
        [rewrite length_app; cbn [length]; lia|exact H|by left|].
      right. split; [done|]. exists (e :: new), m'. rewrite <- app_assoc in T'. by split; [constructor|].
Qed.

Lemma tracked_start o es0 v :
  logs v !! observer_log o = Some (unpoisoned (restore es0)) → durable o es0 (disk (host v)) →
  tracked o es0 [] v (unpoisoned (restore es0)).
Proof.
  intros Hlog Hd. split; [done|done| | |]; rewrite ?app_nil_r; cbn [unpoisoned guarded].
  - apply restore_keeps.
  - pose proof (restore_high es0) as Hh. apply high_le in Hh as [Hh _]. cbn [length]. lia.
  - intros _. exists es0. split; [done|]. split; [done|]. apply restore_high.
Qed.

(** C11 No event of a running operation is lost in silence: whatever a thread reports
    through its observer, and whichever calls fail, each report becomes one event,
    in order, and the log in memory keeps them all but the oldest lines of programs;
    the file on disk then is a well-formed history of the same milestones, or the log
    says that writing failed. Only a panic ends this, which leaves the lock of the
    log poisoned. *)
Theorem observer_never_silent o es0 l v r v' :
  EventFile.valid_operation_id (observer_id o) = true →
  logs v !! observer_log o = Some (unpoisoned (restore es0)) →
  durable o es0 (disk (host v)) →
  (last_sequence (restore es0) + Z.of_nat (length l) < u64_max)%Z →
  observe_all o l v = (r, v') →
  ∃ m, logs v' !! observer_log o = Some m
    ∧ (r = Err () → poisoned m = true)
    ∧ (r = Ok () → poisoned m = false ∧ ∃ given, Forall2 (becomes o) l given
        ∧ normative (events (guarded m)) = normative (es0 ++ given)
        ∧ (∃ dropped, technical_of (es0 ++ given) = dropped ++ technical_of (events (guarded m)))
        ∧ (persistence_failed (guarded m) = false →
           ∃ es, durable o es (disk (host v')) ∧ normative (body es) = normative (body es0 ++ given))).
Proof.
  intros Hid Hlog Hd Hmax H.
  destruct (observe_all_tracked o es0 l [] _ v r v' Hid (tracked_start o es0 v Hlog Hd) Hmax H) as [(-> & m' & Hm & Hp)|(-> & new & m' & Hnew & [Hl Hp Hk _ Hdur])].
  { exists m'. split; [done|]. split; [done|]. by intros [=]. }
  exists m'. split; [done|]. split; [by intros [=]|]. intros _. split; [done|]. exists new.
  split; [done|]. split; [apply Hk|]. split; [apply Hk|].
  intros Hf. destruct (Hdur Hf) as (es & ? & ? & _). by exists es.
Qed.
End observer.

(* ------------------------------------------------------------------ *)
(** ** The answer to a status request *)

Lemma dedup_head {A} (f : A → Z) x l :
  ∃ l', dedup_by_key f (x :: l) = x :: l'.
Proof. cbn. destruct (dedup_by_key f l) as [|y l']; [eauto|]. destruct (_ =? _)%Z; eauto. Qed.

Lemma dedup_keys {A} (f : A → Z) l x : x ∈ l → ∃ y, y ∈ dedup_by_key f l ∧ f y = f x.
Proof.
  induction l as [|z l IH]; [by intros H%elem_of_nil|].
  intros [->|H]%elem_of_cons.
  { destruct (dedup_head f z l) as [l' ->]. exists z. by split; [left|]. }
  destruct (IH H) as (y & Hy & E). cbn. destruct (dedup_by_key f l) as [|w l'] eqn:Ed.
  { by apply elem_of_nil in Hy. }
  destruct (Z.eqb_spec (f z) (f w)) as [Ez|_].
  - apply elem_of_cons in Hy as [->|Hy]; [exists z; split; [by left|congruence]|].
    exists y. by split; [right|].
  - exists y. by split; [right|].
Qed.

Lemma dedup_subset {A} (f : A → Z) l y : y ∈ dedup_by_key f l → y ∈ l.
Proof.
  induction l as [|z l IH]; [done|]. cbn. destruct (dedup_by_key f l) as [|w l'] eqn:Ed.
  - intros ->%list_elem_of_singleton. by left.
  - destruct (_ =? _)%Z; intros [->|H]%elem_of_cons; [by left| |by left|];
      right; apply IH; [by right|done].
Qed.

(** What the cached log adds. *)
Lemma merge_cached_spec log from events error :
  let '(shown, error') := merge_cached log from events error in
  (is_some error = true → is_some error' = true)
  ∧ (∀ e, e ∈ events → ∃ e', e' ∈ shown ∧ event_sequence e' = event_sequence e)
  ∧ (error' = None → shown = events ∧ ∀ m, log = Some m → poisoned m = false
       ∧ persistence_failed (guarded m) = false)
  ∧ (∀ m, log = Some m → poisoned m = false → is_some error' = true →
     ∀ e, e ∈ EventLog.after (guarded m) from →
       ∃ e', e' ∈ shown ∧ event_sequence e' = event_sequence e).
Proof.
  unfold merge_cached. destruct log as [m|].
  2: { split; [done|]. split; [eauto|]. split; [|done]. intros _. split; [done|]. by intros m [=]. }
  destruct (poisoned m) eqn:Ep.
  { split; [done|]. split; [eauto|]. split; [done|]. intros m' [= <-]. congruence. }
  set (error' := if persistence_failed (guarded m) then _ else _).
  assert (∀ l x, x ∈ l → ∃ e', e' ∈ dedup_by_key event_sequence (sort_by_key event_sequence l)
    ∧ event_sequence e' = event_sequence x) as Hl.
  { intros l x Hx. apply dedup_keys. unfold sort_by_key. by rewrite sort_by_elem. }
  split; [subst error'; by destruct (persistence_failed _)|]. split; [|split].
  - intros e He. destruct (is_some error'); [|eauto]. apply Hl. apply elem_of_app. by left.
  - intros E. rewrite E. split; [done|]. intros m' [= <-]. split; [done|].
    subst error'. by destruct (persistence_failed _).
  - intros m' [= <-] _ -> e He. apply Hl, elem_of_app. by right.
Qed.

Section status.
Context {HL : Libraries} (oracle : Oracle).
Context (euid umask : Z) (fault : nat → option (IoError * nat)).
Context (from_slice : string → option OperationEvent).
Context (request_json : Request → option string) (response_parse : string → option Response).

Lemma stored_events_Ok id from v events error v' :
  stored_events euid umask fault from_slice id from v = (Ok (events, error), v') →
  service v' = service v ∧ logs v' = logs v
  ∧ (error = None →
     ∃ history w w', load_events_read_only from_slice euid umask fault (state_root (service v)) id from
         (disk (host v)) = (Ok history, w)
       ∧ history_events history = events ∧ incomplete history = false
       ∧ has_write_failure fault (state_root (service v)) id w = (Ok false, w')).
Proof.
  intros H. unfold stored_events in H. apply st_bind_Ok in H as (s & v1 & [= <- <-] & H).
  apply st_bind_Ok in H as (history & v2 & H2 & H). apply on_files_Ok in H2 as (w & H2 & ->).
  apply (proj1 (st_try_eq (E':=string) _ _ _ _)) in H2.
  apply st_bind_Ok in H as (failed & v3 & H3 & H). apply on_files_Ok in H3 as (w' & H3 & ->).
  apply st_map_err_Ok in H3.
  assert (service v' = service v ∧ logs v' = logs v) as [-> ->]
    by (destruct history; injection H as _ _ <-; done).
  split; [done|]. split; [done|]. intros ->. destruct history as [history|e]; injection H as <- E.
  - destruct failed; [discriminate E|]. destruct (incomplete history) eqn:Ei; [discriminate E|].
    exists history, w, w'. split; [exact H2|]. split; [done|]. split; [done|]. exact H3.
  - destruct failed; discriminate E.
Qed.

(** C29 A status hides nothing: it is given to the owner only and shows the record on
    disk. When it reports no error, the events are all events of the durable history
    after the requested one, which is whole and has no mark of a failed write, and the
    log in memory is intact. Whenever the log in memory is lost or could not be
    written, the answer carries an error code and a diagnostic, and every event still
    in memory is shown. *)
Theorem status_hides_nothing request_id id from v response v' :
  read_only (service v) = false →
  status oracle euid umask fault from_slice request_json response_parse request_id id from v
    = (Ok response, v') →
  owned (files_of_service v) (state_root (service v)) id (caller_uid (service v)) = true
  ∧ ∃ r events error recovered report w w',
      load_state fault record_parse (state_root (service v)) id w = (Ok r, w')
      ∧ nodes w = files_of_service v
      ∧ response = Response_Status request_id id (State.sequence r) (state r) (snapshot_number r)
          recovered error events report
      ∧ (error = None → State.error_code r = None
         ∧ ∃ history w1 w2,
             load_events_read_only from_slice euid umask fault (state_root (service v)) id from w'
               = (Ok history, w1)
             ∧ history_events history = events ∧ incomplete history = false
             ∧ has_write_failure fault (state_root (service v)) id w1 = (Ok false, w2)
             ∧ ∀ m, log_of id v = Some m → poisoned m = false
                 ∧ persistence_failed (guarded m) = false)
      ∧ ∀ m, log_of id v = Some m → poisoned m = true ∨ persistence_failed (guarded m) = true →
          is_some error = true
          ∧ (∃ d code, d ∈ events ∧ message_id d = "error_" +:+ code ∧ event_sequence d = 0%Z)
          ∧ (poisoned m = false → ∀ e, e ∈ EventLog.after (guarded m) from →
              ∃ e', e' ∈ events ∧ event_sequence e' = event_sequence e).
Proof.
  intros Hro H. unfold status in H. apply st_bind_Ok in H as (s & v0 & [= <- <-] & H).
  rewrite Hro in H. apply st_bind_Ok in H as (b & v1 & H1 & H).
  destruct (owned_by_caller_spec fault id v) as (b' & v1' & E1 & S1 & N1 & _ & Hb & _).
  rewrite H1 in E1. injection E1 as <- <-. destruct b; [|done]. cbn [negb] in H.
  split; [by apply Hb|]. apply st_bind_Ok in H as (r & v2 & H2 & H).
  unfold load in H2. apply st_bind_Ok in H2 as (s & v2' & [= <- <-] & H2).
  apply on_files_Ok in H2 as (w' & H2 & ->). apply st_map_err_Ok in H2. rewrite S1 in H2.
  apply st_bind_Ok in H as ([events error] & v3 & H3 & H). apply stored_events_Ok in H3 as (S3 & L3 & H3).
  apply st_bind_Ok in H as (log & v4 & [= <- <-] & H).
  assert (log_of id v3 = log_of id v) as El.
  { unfold log_of. rewrite S3, L3. cbn. rewrite S1. f_equal.
    unfold owned_by_caller in H1. apply st_bind_Ok in H1 as (? & ? & [= <- <-] & H1).
    by apply on_files_Ok in H1 as (? & _ & ->). }
  rewrite El in H. pose proof (merge_cached_spec (log_of id v) from events error) as Hm.
  destruct (merge_cached (log_of id v) from events error) as [shown error'].
  destruct Hm as (Hm1 & _ & Hm3 & Hm4).
  apply st_bind_Ok in H as (report & v5 & _ & H). injection H as <- _.
  cbn [service with_host host disk] in H3. rewrite S1 in H3.
  eexists r, _, _, _, _, (disk (host v1)), w'. split; [exact H2|]. split; [by apply N1|].
  split; [reflexivity|]. split.
  - intros E. destruct (State.error_code r); [done|]. split; [done|]. subst error'.
    destruct (Hm3 eq_refl) as [-> Hlog]. destruct error; [by specialize (Hm1 eq_refl)|].
    destruct (H3 eq_refl) as (history & w1 & w2 & F1 & F2 & F3 & F4).
    exists history, w1, w2. by repeat split; try apply Hlog.
  - intros m Hl Hbad. assert (is_some error' = true) as He.
    { destruct error'; [done|]. destruct (Hm3 eq_refl) as [_ Hlog].
      destruct (Hlog m Hl) as [E2 E3]. destruct Hbad; congruence. }
    destruct error' as [code|]; [|done]. split; [by destruct (State.error_code r)|]. split.
    + eexists (diagnostic id r code), code. split; [|by split]. apply elem_of_app. right. by left.
    + intros Hp e Hin. destruct (Hm4 m Hl Hp eq_refl e Hin) as (e' & ? & ?).
      exists e'. split; [|done]. apply elem_of_app. by left.
Qed.
End status.

(* ------------------------------------------------------------------ *)
(** ** A concrete observer and a concrete status *)

Definition sample_observer : Observer := {|
  observer_id := EventFile.sample_id; observer_root := sample_directory; observer_log := 0 |}.
Definition observed_start : serving := {|
  host := {| disk := sample_files; history := []; current := failed_update |};
  service := new 1000; logs := {[0%nat := unpoisoned (restore [sample_event 1])]};
  stages := ∅; threads := [] |}.
Definition sample_reports : list report := [Changed Downloading; Line "zypper" false "ok"].
(** The fourteenth call fails, with seven bytes written. *)
Definition sample_fault (n : nat) : option (IoError * nat) :=
  if decide (n = 14) then Some (OtherError 28, 7) else None.
Definition sample_observed (fault : nat → option (IoError * nat)) : result unit unit * serving :=
  observe_all sample_oracle 0 18 fault (λ n, ".tmp" +:+ to_string (Z.of_nat n)) sample_to_vec
    sample_from_slice sample_observer sample_reports observed_start.

Example sample_observed_ends :
  let failed fault := (λ m, persistence_failed (guarded m)) <$> logs (sample_observed fault).2 !! 0%nat in
  failed no_fault = Some false ∧ failed sample_fault = Some true.
Proof. vm_compute. split; reflexivity. Qed.

Lemma observer_never_silent_witness :
  ∃ m given, logs (sample_observed sample_fault).2 !! 0%nat = Some m
    ∧ Forall2 (becomes sample_observer) sample_reports given
    ∧ normative (events (guarded m)) = normative ([sample_event 1] ++ given).
Proof.
  destruct (observer_never_silent sample_oracle 0 18 sample_fault
    (λ n, ".tmp" +:+ to_string (Z.of_nat n)) sample_to_vec sample_from_slice) with
    (o := sample_observer) (es0 := [sample_event 1]) (l := sample_reports) (v := observed_start)
    (r := (sample_observed sample_fault).1) (v' := (sample_observed sample_fault).2)
    as (m & Hm & _ & Hok).
  - intros n. split; discriminate.
  - reflexivity.
  - reflexivity.
  - destruct sample_appendable as [_ Hp Hv Hf Hs _ _]. by split.
  - vm_compute. reflexivity.
  - unfold sample_observed. apply surjective_pairing.
  - destruct Hok as (_ & given & Hg & Hn & _); [vm_compute; reflexivity|].
    exists m, given. split; [exact Hm|]. split; [exact Hg|exact Hn].
Defined.

(** The owner asks for the failed update, whose history could not be written. *)
Definition unwritten : mutex := {|
  guarded := with_failure (push_normative default_log (sample_event 5)); poisoned := false |}.
Definition status_start (log : mutex) : serving :=
  let v := sample_service 1000 false in
  with_logs (with_service v (with_log (service v) failed_id 0)) {[0%nat := log]}.
Definition sample_status (log : mutex) : result string Response * serving :=
  status (HL := rollback_libraries) rollback_oracle 0 18 no_fault (λ _, None) (λ _, None) (λ _, None)
    "r" failed_id 0 (status_start log).
Definition status_events (response : result string Response) : list string :=
  match response with
  | Ok (Response_Status _ _ _ _ _ _ _ events _) => message_id <$> events
  | _ => []
  end.

Example sample_status_shows :
  status_events (sample_status unwritten).1 = ["technical-line"; "error_EVENT_LOG_WRITE_FAILED"]
  ∧ status_events (sample_status (unpoisoned default_log)).1 = [].
Proof. vm_compute. split; reflexivity. Qed.

Lemma status_hides_nothing_witness :
  ∃ r report events error response, (sample_status unwritten).1 = Ok response
    ∧ response = Response_Status "r" failed_id (State.sequence r) (state r) (snapshot_number r)
        false error events report
    ∧ is_some error = true ∧ ∃ d code, d ∈ events ∧ message_id d = "error_" +:+ code.
Proof.
  destruct (sample_status unwritten) as [[response|e] v'] eqn:E.
  2: { exfalso. apply (f_equal (λ p, is_ok p.1)) in E. vm_compute in E. discriminate E. }
  pose proof E as E'. unfold sample_status in E'.
  apply (status_hides_nothing (HL := rollback_libraries) rollback_oracle 0 18 no_fault (λ _, None)
    (λ _, None) (λ _, None) "r" failed_id 0 (status_start unwritten) response v' eq_refl) in E'
    as (_ & r & events & error & recovered & report & w & w' & _ & _ & Hr & _ & Hbad).
  destruct (Hbad unwritten) as (He & (d & code & Hd & Hm & _) & _).
  - vm_compute. reflexivity.
  - right. reflexivity.
  - assert (recovered = false) as Hrec.
    { apply (f_equal (λ p, match p.1 with Ok (Response_Status _ _ _ _ _ b _ _ _) => b | _ => true end)) in E.
      rewrite Hr in E. cbn [fst] in E. symmetry in E. etransitivity; [exact E|]. vm_compute. reflexivity. }
    exists r, report, events, error, response. split; [reflexivity|].
    split; [rewrite Hr, Hrec; reflexivity|]. split; [exact He|]. exists d, code. split; [exact Hd|exact Hm].
Defined.
