(* ===== verification/Loop.v ===== *)
(** * The loop of the service (src/service/src/main.rs)

    Requests come in as lines and are answered one after another: the loop ends for
    every input, and answers what a reference definition answers. *)

From S2P Require Import Prelude RustStr Recovery State Fs Persistence Preflight Solver Plan.
From S2P Require Import ManifestData Manifest Migration Discovery Inventory SolverXml Vendors Protocol.
From S2P Require Import Sanitize EventLog EventFile System Planner Executor Request ManifestFetch.
From S2P Require Import Fixture Verifier Rollback Ownership Service Authority.

Open Scope bool_scope.
Open Scope lyra_scope.

(* ------------------------------------------------------------------ *)
(** ** Reading a line *)

Lemma read_until_split n s x y :
  read_until n s = (x, y) → s = x +:+ y ∧ (0 < n → s ≠ "" → x ≠ "")%Z.
Proof.
  revert n x y. induction s as [|b s IH]; intros n x y; cbn [read_until].
  { intros [= <- <-]. by split. }
  destruct (Z.leb_spec n 0); [intros [= <- <-]; by split; [|lia]|].
  destruct (Ascii.eqb b nl); [intros [= <- <-]; by split|].
  destruct (read_until (n - 1) s) as [x' y'] eqn:E. intros [= <- <-].
  destruct (IH _ _ _ E) as [-> _]. by split.
Qed.

Section loop.
Context {HL : Libraries} (oracle : Oracle).
Context (euid umask : Z) (fault : nat → option (IoError * nat)).
Context (pid : Z) (nonce : nat → Z).
Context (from_slice : string → option OperationEvent).
Context (pending_pretty : PendingPlan → string) (pending_parse : string → option PendingPlan).
Context (request_json : Request → option string) (request_parse : string → option Request).
Context (response_parse : string → option Response).
#[local] Abbreviation handled := (handle oracle euid umask fault pid nonce from_slice pending_pretty
  pending_parse request_json response_parse).
#[local] Abbreviation served := (serve oracle euid umask fault pid nonce from_slice pending_pretty
  pending_parse request_json request_parse response_parse).
#[local] Abbreviation looped := (run_loop oracle euid umask fault pid nonce from_slice pending_pretty
  pending_parse request_json request_parse response_parse).

(** A request takes at least one byte. *)
Lemma read_request_consumes input request rest :
  read_request request_parse input = (Ok (Some request), rest) →
  (String.length rest < String.length input)%nat.
Proof.
  unfold read_request. destruct (read_until _ input) as [line r] eqn:E.
  apply read_until_split in E as [-> _].
  destruct (is_empty line) eqn:El; [by intros [=]|]. intros [= _ <-].
  rewrite string_length_app. destruct line; [done|]. cbn. lia.
Qed.

Lemma served_enough fuel input v :
  (String.length input < fuel)%nat → ∃ responses v', served fuel input v = (Ok (Some responses), v').
Proof.
  revert input v. induction fuel as [|fuel IH]; intros input v Hf; [lia|]. cbn [serve].
  destruct (read_request request_parse input) as [[[request|]|e] rest] eqn:E; [|by do 2 eexists..].
  apply read_request_consumes in E. unfold mbind, st_bind.
  destruct (handled request v) as [[response|[]] v1].
  destruct (IH rest v1) as (responses & v2 & ->); [lia|]. cbn. by do 2 eexists.
Qed.

(** More fuel than bytes makes no difference. *)
Lemma served_fuel fuel fuel' input v :
  (String.length input < fuel)%nat → (String.length input < fuel')%nat →
  served fuel input v = served fuel' input v.
Proof.
  revert fuel' input v. induction fuel as [|fuel IH]; intros [|fuel'] input v H1 H2; try lia.
  cbn [serve]. destruct (read_request request_parse input) as [[[request|]|e] rest] eqn:E; [|done..].
  apply read_request_consumes in E. unfold mbind, st_bind.
  destruct (handled request v) as [[response|[]] v1]. by rewrite (IH fuel' rest v1) by lia.
Qed.

(* ------------------------------------------------------------------ *)
(** ** The reference *)

(** Requests answered one after another. *)
Fixpoint answers (requests : list Request) : ST serving Empty_set (list Response) :=
  match requests with
  | [] => mret []
  | request :: requests' =>
      response ← handled request; responses ← answers requests'; mret (response :: responses)
  end.

(** A line that carries a request. *)
Definition carries (line : string) (request : Request) : Prop :=
  no_nl line = true ∧ (str_len line < MAX_REQUEST)%Z
  ∧ request_parse (line +:+ String nl "") = Some request.

(** How the input ends: with nothing more, or with what is no request. *)
Definition ends (tail : string) (last : list Response) : Prop :=
  (tail = "" ∧ last = [])
  ∨ ((read_request request_parse tail).1 = Err () ∧ last = [Rejected "unknown" "INVALID_REQUEST"]).

Lemma read_carried line request rest :
  carries line request →
  read_request request_parse (line +:+ String nl rest) = (Ok (Some request), rest).
Proof.
  intros (Hn & Hl & Hp). unfold read_request. rewrite (read_until_line _ line rest Hn) by lia.
  assert (is_empty (line +:+ String nl "") = false) as -> by (by destruct line).
  rewrite str_len_app. change (str_len (String nl "")) with 1%Z.
  rewrite (proj2 (Z.ltb_ge _ _)) by lia. rewrite ends_nl_app. cbn [negb orb]. by rewrite Hp.
Qed.

Lemma run_loop_end tail last v : ends tail last → looped tail v = (Ok (Some last), v).
Proof.
  unfold run_loop. cbn [serve]. intros [[-> ->]|[E ->]]; [done|].
  destruct (read_request request_parse tail) as [r rest]. cbn in E. by rewrite E.
Qed.

(** C30 The service ends for every input and answers every line that carries a request
    exactly once and in order, each with the state the one before it left: its
    answers are those of the reference, up to the end of the input or to the first
    bytes that are no request, which get one rejection and after which nothing is
    answered. *)
Theorem loop_answers_requests input v :
  (∃ responses v', looped input v = (Ok (Some responses), v'))
  ∧ ∀ lines requests tail last,
      input = foldr (λ line s, line +:+ String nl s) tail lines →
      Forall2 carries lines requests → ends tail last →
      ∃ responses v', answers requests v = (Ok responses, v')
        ∧ looped input v = (Ok (Some (responses ++ last)), v').
Proof.
  split; [apply served_enough; lia|]. intros lines requests tail last -> Hl He.
  revert v. induction Hl as [|line request lines requests Hc Hl IH]; intros v; cbn [foldr].
  { exists [], v. split; [done|]. by apply run_loop_end. }
  unfold run_loop. cbn [serve answers]. rewrite (read_carried _ _ _ Hc). unfold mbind, st_bind.
  destruct (handled request v) as [[response|[]] v1].
  destruct (IH v1) as (responses & v2 & Ha & Hs). rewrite Ha. exists (response :: responses), v2.
  split; [done|]. unfold run_loop in Hs. set (rest := foldr _ _ _) in *.
  rewrite (served_fuel _ (S (String.length rest))); [by rewrite Hs| |lia].
  rewrite string_length_app. cbn. lia.
Qed.
End loop.

(* ------------------------------------------------------------------ *)
(** ** A concrete input *)

Definition loop_parse (line : string) : option Request :=
  if line ==? "decline" +:+ String nl "" then Some decline else None.
Definition loop_input : string := "decline" +:+ String nl ("decline" +:+ String nl "cut").
Definition sample_loop : result Empty_set (option (list Response)) * serving :=
  run_loop (HL := rollback_libraries) rollback_oracle 0 18 no_fault 104 (λ n, Z.of_nat n)
    (λ _, None) (λ _, "pending") (λ _, None) (λ _, None) loop_parse (λ _, None) loop_input
    (sample_service 1001 false).

Lemma loop_answers_requests_witness :
  ∃ responses, sample_loop.1 = Ok (Some (responses ++ [Rejected "unknown" "INVALID_REQUEST"]))
    ∧ length responses = 2%nat.
Proof.
  destruct (loop_answers_requests (HL := rollback_libraries) rollback_oracle 0 18 no_fault 104
    (λ n, Z.of_nat n) (λ _, None) (λ _, "pending") (λ _, None) (λ _, None) loop_parse (λ _, None)
    loop_input (sample_service 1001 false)) as (_ & H).
  assert (carries loop_parse "decline" decline) as Hc by (split; [reflexivity|split; reflexivity]).
  destruct (H ["decline"; "decline"] [decline; decline] "cut" [Rejected "unknown" "INVALID_REQUEST"])
    as (responses & v' & Ha & Hr).
  - reflexivity.
  - constructor; [exact Hc|constructor; [exact Hc|constructor]].
  - right. split; reflexivity.
  - exists responses. unfold sample_loop. rewrite Hr. split; [reflexivity|].
    apply (f_equal (λ p, match p.1 with Ok l => length l | Err _ => 0%nat end)) in Ha.
    cbn [fst] in Ha. rewrite <- Ha. vm_compute. reflexivity.
Defined.
