(* ===== verification/Preview.v ===== *)
(** * The release offer (src/service/src/manifest_fetch.rs)

    How the signed manifest and the keys of its repositories are downloaded, and the
    copy of the last offer that an unprivileged process shows when the network is
    down. curl and gpg are effects; the temporary directories are private to the
    call and gone at its end, so what is stored in them is a value here and only
    the failures of the calls on it are kept. serde_json, the url crate and the
    name tempfile chooses are parameters. *)

From S2P Require Import Prelude RustStr Recovery State Fs Persistence Preflight Solver Plan.
From S2P Require Import ManifestData Manifest Migration Discovery Inventory SolverXml Vendors Protocol.
From S2P Require Import System Planner Executor Fixture Request ManifestFetch Staging.

Open Scope bool_scope.
Open Scope lyra_scope.

Definition RELEASE_MANIFEST_URL : string :=
  "https://downloads.sourceforge.net/project/lyra/releases/1.1/desktop/releases-v1.json".
Definition RELEASE_MANIFEST_SIGNATURE_URL : string :=
  "https://downloads.sourceforge.net/project/lyra/releases/1.1/desktop/releases-v1.json.asc".
Definition TESTING_MANIFEST_BASE_URL_PATH : path :=
  ["testing-manifest-base-url"; "lyra-upgrade"; "etc"].

Record PreviewCache := {
  cache_schema_version : Z;
  cached_document : string;
  cached_signature : string;
}.

Section preview.
Context (oracle : Oracle) (euid umask : Z) (fault : nat → option (IoError * nat)).
(** tempfile picks a name in a directory; serde_json; the url crate. *)
Context (tempname : gmap path node → path → string).
Context (cache_json : PreviewCache → string) (cache_of : string → option PreviewCache).
Context (parse_url : string → option Url) (join_url : Url → string → option string).
(** The parameters of [verify_manifest_files]. *)
Context (parse_time : string → option Z) (gpgv : string → string → result IoError bool).
Context (manifest_of : string → option ReleaseManifest) (CARGO_PKG_VERSION : string).

#[local] Abbreviation M := (ST execution FetchError).
Definition on_temp {A} (m : ST world IoError A) : M A := on_disk (io m).

(* ------------------------------------------------------------------ *)
(** ** Downloads *)

Definition curl_options : list string :=
  ["--fail"; "--silent"; "--show-error"; "--location"; "--max-redirs"; "3";
   "--proto"; "=https"; "--proto-redir"; "=https"; "--tlsv1.2"; "--max-filesize"; "1048576";
   "--connect-timeout"; "10"; "--max-time"; "60"; "--output"].

(** What curl stored, when it succeeded. *)
Definition download (url : string) : M (option string) :=
  '(success, stored) ← attempt oracle Fetch_Io (Curl curl_options url);
  if (success : bool) then mret stored else st_throw Download.

(** [fs::metadata] of a downloaded file, for its length: the file. *)
Definition metadata (stored : option string) : M string :=
  _ ← on_temp (file_call fault);
  st_lift (ok_or (Fetch_Io NotFound) stored).

Definition too_large (content : string) : bool := (MAX_MANIFEST_BYTES <? str_len content)%Z.

Definition gpg_options : list string :=
  ["--batch"; "--quiet"; "--no-options"; "--no-default-keyring"; "--keyring"; "/dev/null";
   "--with-colons"; "--import-options"; "show-only"; "--import"].

Definition key_fingerprints (key : string) : M (list string) :=
  _ ← on_temp (file_call fault);
  output ← attempt oracle Fetch_Io (Gpg gpg_options key);
  if negb (success output) then st_throw RepositoryKey
  else mret (parse_fingerprints (from_utf8_lossy (System.stdout output))).

Definition fetch_repository_key (repository : RepositoryTransition) : M unit :=
  stored ← st_map_err (λ _, RepositoryKey) (download (signing_key_url repository));
  key ← metadata stored;
  if too_large key then st_throw Fetch_TooLarge
  else
    fingerprints ← key_fingerprints key;
    if fingerprints !=? [signing_key_fingerprint repository] then st_throw RepositoryKeyMismatch
    else mret ().

Fixpoint fetch_repository_keys (repositories : list RepositoryTransition) : M unit :=
  match repositories with
  | [] => mret ()
  | repository :: repositories' =>
      _ ← fetch_repository_key repository; fetch_repository_keys repositories'
  end.

(* ------------------------------------------------------------------ *)
(** ** The address of the manifest *)

Definition base_allowed (base : Url) : bool :=
  (scheme base ==? "https") && is_empty (username base) && is_none (password base)
  && is_none (query base) && is_none (fragment base) && ends_with "/" (url_path base).

Definition testing_manifest_urls (p : path) : M (string * string) :=
  metadata ← on_temp (symlink_metadata fault p);
  match metadata with
  | File _ _ content =>
      if (4096 <? str_len content)%Z then st_throw InvalidChannel
      else
        bytes ← on_temp (read_file fault p);
        value ← st_lift (ok_or (Fetch_Io (OtherError 0)) (from_utf8 bytes));
        if negb (length (lines value) =? 1)%nat || (trim value !=? value) then st_throw InvalidChannel
        else
          base ← st_lift (ok_or InvalidChannel (parse_url value));
          if negb (base_allowed base) then st_throw InvalidChannel
          else
            manifest ← st_lift (ok_or InvalidChannel (join_url base "releases-v1.json"));
            signature ← st_lift (ok_or InvalidChannel (join_url base "releases-v1.json.asc"));
            mret (manifest, signature)
  | _ => st_throw InvalidChannel
  end.

Definition manifest_urls (channel : ManifestChannelPolicy) : M (string * string) :=
  match channel with
  | Channel_Stable => mret (RELEASE_MANIFEST_URL, RELEASE_MANIFEST_SIGNATURE_URL)
  | Channel_Testing => testing_manifest_urls TESTING_MANIFEST_BASE_URL_PATH
  end.

(* ------------------------------------------------------------------ *)
(** ** The manifest *)

(** [read_regular] on a file of the temporary directory. *)
Definition read_temporary (content : string) : M string :=
  _ ← on_temp (file_call fault);
  _ ← on_temp (file_call fault);
  if too_large content then st_throw Fetch_TooLarge
  else _ ← on_temp (file_call fault); mret content.

Definition verify_temporary (document signature : string) (installed : ReleaseIdentity)
    (last_sequence : option Z) (channel : ManifestChannelPolicy) (now : Z) : M VerifiedManifest :=
  document ← read_temporary document;
  signature ← read_temporary signature;
  on_disk (verify_documents fault parse_time gpgv manifest_of parse_url CARGO_PKG_VERSION
             document signature installed last_sequence channel now).

Definition fetch_verified_manifest (installed : ReleaseIdentity) (last_sequence : option Z)
    (channel : ManifestChannelPolicy) (now : Z) : M VerifiedManifest :=
  _ ← on_temp (file_call fault);
  '(manifest_url, signature_url) ← manifest_urls channel;
  stored_manifest ← download manifest_url;
  stored_signature ← download signature_url;
  document ← metadata stored_manifest;
  if too_large document then st_throw Fetch_TooLarge
  else
    signature ← metadata stored_signature;
    if too_large signature then st_throw Fetch_TooLarge
    else
      verified ← verify_temporary document signature installed last_sequence channel now;
      _ ← fetch_repository_keys (man_repositories (verified_manifest verified));
      mret verified.

Definition fetch_release_manifest (installed : ReleaseIdentity) (last_sequence : option Z)
    (channel : ManifestChannelPolicy) (now : Z) : M ReleaseManifest :=
  verified ← fetch_verified_manifest installed last_sequence channel now;
  mret (verified_manifest verified).

(* ------------------------------------------------------------------ *)
(** ** The copy of the last offer *)

(** From the temporary file to its rename, which drops the name on an error. *)
Definition write_preview (temporary destination : path) (manifest : VerifiedManifest)
  : ST world FetchError unit :=
  document ← st_lift (ok_or Signature (from_utf8 (document manifest)));
  signature ← st_lift (ok_or Signature (from_utf8 (signature manifest)));
  let cached := {| cache_schema_version := 1; cached_document := document;
                   cached_signature := signature |} in
  _ ← st_map_err (λ _, Fetch_Json) (write_all fault temporary (cache_json cached));
  _ ← io (sync_all fault);
  io (rename fault temporary destination).

(** With the name tempfile chose. *)
Definition persist_preview (parent temporary p : path) (manifest : VerifiedManifest)
  : ST world FetchError unit :=
  _ ← io (create_new euid umask fault temporary 384);
  written ← st_try (E' := FetchError) (write_preview temporary p manifest);
  match written with
  | Err e => _ ← st_try (E' := FetchError) (remove_file fault temporary); st_throw e
  | Ok _ =>
      _ ← io (open_any fault parent);
      io (sync_all fault)
  end.

Definition save_preview_cache (p : path) (manifest : VerifiedManifest) : ST world FetchError unit :=
  parent ← st_lift (ok_or InvalidChannel (Fs.parent p));
  _ ← io (create_dir_all euid umask fault parent);
  name ← st_get (λ w, tempname (nodes w) parent);
  persist_preview parent (join parent name) p manifest.

Definition fetch_release_preview (installed : ReleaseIdentity) (last_sequence : option Z)
    (channel : ManifestChannelPolicy) (cache : path) (now : Z) : M (VerifiedManifest * bool) :=
  fetched ← st_try (E' := FetchError) (fetch_verified_manifest installed last_sequence channel now);
  match fetched with
  | Ok verified =>
      _ ← on_disk (st_try (E' := FetchError) (save_preview_cache cache verified));
      mret (verified, false)
  | Err Download =>
      bytes ← on_disk (read_regular euid umask fault cache (4 * MAX_MANIFEST_BYTES));
      cached ← st_lift (ok_or Fetch_Json (cache_of bytes));
      if (cache_schema_version cached !=? 1)%Z then st_throw Signature
      else
        _ ← on_temp (file_call fault);
        _ ← on_temp (file_call fault);
        _ ← on_temp (file_call fault);
        verified ← verify_temporary (cached_document cached) (cached_signature cached)
                     installed last_sequence channel now;
        mret (verified, true)
  | Err error =>
      _ ← on_disk (st_try (E' := FetchError) (remove_file fault cache));
      st_throw error
  end.

(* ------------------------------------------------------------------ *)
(** ** The calls of a download *)

(** Calls are only added to the history, and no file changes. *)
Record observes (w w' : execution) : Prop := {
  ob_history : history w `prefix_of` history w';
  ob_nodes : nodes (disk w') = nodes (disk w);
}.

#[local] Instance observes_preorder : PreOrder observes.
Proof.
  split; [by intros w; split|]. intros w1 w2 w3 [H1 E1] [H2 E2].
  split; [by etransitivity|congruence].
Qed.

Lemma on_disk_observes {A E} (m : ST world E A) :
  (∀ w, nodes (m w).2 = nodes w) → st_rel observes (on_disk m).
Proof.
  intros H w. specialize (H (disk w)). unfold on_disk. destruct (m (disk w)) as [x d].
  by split.
Qed.

Lemma on_temp_observes {A} (m : ST world IoError A) :
  (∀ w, nodes (m w).2 = nodes w) → st_rel observes (on_temp m).
Proof.
  intros H. apply on_disk_observes. intros w. specialize (H w). unfold io, st_map_err.
  by destruct (m w) as [[] ?].
Qed.

Lemma file_call_nodes w : nodes (file_call fault w).2 = nodes w.
Proof. unfold file_call, syscall. by destruct (fault (calls w)) as [[]|]. Qed.

Lemma read_file_nodes p w : nodes (read_file fault p w).2 = nodes w.
Proof.
  unfold read_file, syscall. destruct (fault (calls w)) as [[]|]; [done|].
  destruct (canonical _ _ _ _) as [q|]; [|done]. by destruct (nodes w !! q) as [[]|].
Qed.

Lemma perform_observes {A E} (e : effect A) : st_rel observes (perform (E := E) oracle e).
Proof. intros w. split; [by apply prefix_app_r|done]. Qed.

Lemma attempt_observes {A E E'} (f : E → E') (e : effect (result E A)) :
  st_rel observes (attempt oracle f e).
Proof. apply st_rel_bind; [apply _|apply perform_observes|intros r; apply st_rel_lift, _]. Qed.

Create HintDb observes.
#[local] Hint Resolve perform_observes attempt_observes on_temp_observes on_disk_observes
  file_call_nodes read_file_nodes symlink_metadata_nodes verify_documents_nodes : observes.
#[local] Hint Extern 1 (st_rel observes (mret _)) => apply st_rel_ret, _ : observes.
#[local] Hint Extern 1 (st_rel observes (st_lift _)) => apply st_rel_lift, _ : observes.
#[local] Hint Extern 1 (st_rel observes (st_throw _)) => apply st_rel_throw, _ : observes.
#[local] Hint Extern 2 (st_rel observes (_ ≫= _)) =>
  (apply st_rel_bind; [apply _| |intros ?]) : observes.
#[local] Hint Extern 2 (st_rel observes (st_map_err _ _)) => apply st_rel_map_err : observes.
#[local] Hint Extern 2 (st_rel observes (st_try _)) => apply st_rel_try : observes.
#[local] Hint Extern 3 (st_rel observes (if ?b then _ else _)) => destruct b : observes.
#[local] Hint Extern 3 (st_rel observes (match ?x with _ => _ end)) => destruct x : observes.
Ltac observes := eauto 30 with observes.

Lemma download_observes url : st_rel observes (download url).
Proof. unfold download. observes. Qed.
Lemma metadata_observes stored : st_rel observes (metadata stored).
Proof. unfold metadata. observes. Qed.
Lemma read_temporary_observes content : st_rel observes (read_temporary content).
Proof. unfold read_temporary. observes. Qed.
#[local] Hint Resolve download_observes metadata_observes read_temporary_observes : observes.

Lemma repository_key_observes repository : st_rel observes (fetch_repository_key repository).
Proof. unfold fetch_repository_key, key_fingerprints. observes. Qed.
#[local] Hint Resolve repository_key_observes : observes.

Lemma repository_keys_observes repositories :
  st_rel observes (fetch_repository_keys repositories).
Proof. induction repositories as [|r rs IH]; cbn; observes. Qed.

Lemma manifest_urls_observes channel : st_rel observes (manifest_urls channel).
Proof. destruct channel; cbn; unfold testing_manifest_urls; observes. Qed.

Lemma verify_temporary_observes document signature installed last channel now :
  st_rel observes (verify_temporary document signature installed last channel now).
Proof. unfold verify_temporary. observes. Qed.
#[local] Hint Resolve repository_keys_observes manifest_urls_observes verify_temporary_observes
  : observes.

Lemma fetch_observes installed last channel now :
  st_rel observes (fetch_verified_manifest installed last channel now).
Proof. unfold fetch_verified_manifest. observes. Qed.
#[local] Hint Resolve fetch_observes : observes.

Lemma observes_Ok {A} (m : M A) w x w' : st_rel observes m → m w = (x, w') → observes w w'.
Proof. intros H E. specialize (H w). by rewrite E in H. Qed.

(* ------------------------------------------------------------------ *)
(** ** What a download establishes *)

(** curl stored this content from this address, between two moments. *)
Definition fetched (h h' : list occurrence) (url content : string) : Prop :=
  ∃ f, happened h h' (Did (Curl curl_options url) (Ok (true, Some content)) f).

(** The key of a repository was downloaded, and its only primary fingerprint, as gpg
    prints it, is the one of the signed manifest. *)
Definition key_checked (h h' : list occurrence) (repository : RepositoryTransition) : Prop :=
  ∃ key output f, fetched h h' (signing_key_url repository) key
    ∧ (str_len key ≤ MAX_MANIFEST_BYTES)%Z
    ∧ happened h h' (Did (Gpg gpg_options key) (Ok output) f) ∧ success output = true
    ∧ parse_fingerprints (from_utf8_lossy (System.stdout output))
      = [signing_key_fingerprint repository].

(** curl reported a failure. *)
Definition refused (h h' : list occurrence) : Prop :=
  ∃ url stored f, happened h h' (Did (Curl curl_options url) (Ok (false, stored)) f).

Lemma fetched_widen h0 h h' h1 url content :
  h0 `prefix_of` h → h' `prefix_of` h1 → fetched h h' url content → fetched h0 h1 url content.
Proof. intros ?? [f H]. exists f. by eapply happened_widen. Qed.

Lemma key_checked_widen h0 h h' h1 repository :
  h0 `prefix_of` h → h' `prefix_of` h1 →
  key_checked h h' repository → key_checked h0 h1 repository.
Proof.
  intros ?? (key & output & f & H1 & H2 & H3 & H4 & H5). exists key, output, f.
  split; [by eapply fetched_widen|]. repeat (split; [done||by eapply happened_widen|]). done.
Qed.

Lemma download_Ok url w stored w' :
  download url w = (Ok stored, w') →
  history w' = history w ++ [Did (Curl curl_options url) (Ok (true, stored)) (nodes (disk w))].
Proof.
  unfold download. intros H. apply st_bind_Ok in H as ([success stored'] & w1 & H1 & H).
  apply attempt_Ok in H1 as [Hh _]. destruct success; [|done]. by injection H as -> <-.
Qed.

Lemma metadata_Ok stored w content w' :
  metadata stored w = (Ok content, w') → stored = Some content ∧ history w' = history w.
Proof.
  unfold metadata. intros H. apply st_bind_Ok in H as ([] & w1 & H1 & H). injection H as H <-.
  apply ok_or_Ok in H. split; [done|]. unfold on_temp, on_disk in H1.
  destruct (io _ _) as [x d]. by injection H1 as _ <-.
Qed.

Lemma read_temporary_Ok content w x w' :
  read_temporary content w = (Ok x, w') → x = content ∧ too_large content = false.
Proof.
  unfold read_temporary. intros H. apply st_bind_Ok in H as (? & ? & _ & H).
  apply st_bind_Ok in H as (? & ? & _ & H). destruct (too_large content); [done|].
  apply st_bind_Ok in H as (? & ? & _ & H). by injection H as <- _.
Qed.

Lemma not_too_large content : too_large content = false → (str_len content ≤ MAX_MANIFEST_BYTES)%Z.
Proof. unfold too_large. by destruct (Z.ltb_spec MAX_MANIFEST_BYTES (str_len content)). Qed.

Lemma fetch_repository_key_Ok repository w u w' :
  fetch_repository_key repository w = (Ok u, w') →
  key_checked (history w) (history w') repository.
Proof.
  unfold fetch_repository_key. intros H.
  apply st_bind_Ok in H as (stored & w1 & H1%st_map_err_Ok%download_Ok & H).
  apply st_bind_Ok in H as (key & w2 & [-> H2]%metadata_Ok & H).
  destruct (too_large key) eqn:El; [done|].
  apply st_bind_Ok in H as (fingerprints & w3 & H3 & H). unfold key_fingerprints in H3.
  apply st_bind_Ok in H3 as ([] & w4 & H4 & H3).
  apply observes_Ok in H4 as [H4 _]; [|observes].
  apply st_bind_Ok in H3 as (output & w5 & [H5 _]%attempt_Ok & H3).
  destruct (success output) eqn:Es; [|done]. injection H3 as <- <-.
  destruct (_ !=? _) eqn:E; [done|]. injection H as _ <-. rewrite negb_false_iff, eqb_true in E.
  exists key, output. eexists. split; [|split; [by apply not_too_large|split; [|done]]].
  - eexists. apply (happened_widen _ (history w) (history w1)); [done|rewrite H1; apply happened_snoc|].
    rewrite H5, <- H2. by apply prefix_app_r.
  - apply (happened_widen _ (history w4) (history w5)); [|rewrite H5; apply happened_snoc|done].
    etransitivity; [|exact H4]. rewrite H2, H1. by apply prefix_app_r.
Qed.

Lemma fetch_repository_keys_Ok repositories w u w' :
  fetch_repository_keys repositories w = (Ok u, w') →
  Forall (key_checked (history w) (history w')) repositories.
Proof.
  revert w. induction repositories as [|r rs IH]; intros w H; [constructor|].
  apply st_bind_Ok in H as ([] & w1 & H1 & H).
  pose proof (observes_Ok _ _ _ _ (repository_key_observes r) H1) as [P1 _].
  pose proof (observes_Ok _ _ _ _ (repository_keys_observes rs) H) as [P2 _].
  constructor.
  - eapply key_checked_widen; [reflexivity|exact P2|by eapply fetch_repository_key_Ok].
  - eapply Forall_impl; [by eapply IH|]. intros x. by apply key_checked_widen.
Qed.

#[local] Abbreviation is_authentic :=
  (authentic parse_time gpgv manifest_of parse_url CARGO_PKG_VERSION).

Lemma verify_temporary_Ok d s installed last channel now w v w' :
  verify_temporary d s installed last channel now w = (Ok v, w') →
  document v = d ∧ signature v = s ∧ (str_len d ≤ MAX_MANIFEST_BYTES)%Z
  ∧ is_authentic installed last channel now v.
Proof.
  unfold verify_temporary. intros H.
  apply st_bind_Ok in H as (? & w1 & [-> Hd]%read_temporary_Ok & H).
  apply st_bind_Ok in H as (? & w2 & [-> _]%read_temporary_Ok & H).
  unfold on_disk in H. destruct (verify_documents _ _ _ _ _ _ _ _ _ _ _ _ _) as [x d'] eqn:E.
  injection H as -> _. apply verify_documents_Ok in E as (-> & -> & Ha & _).
  split; [done|]. split; [done|]. split; [by apply not_too_large|done].
Qed.

(** A manifest and its signature, downloaded from the address of the channel between
    two moments, with the keys of all its repositories. *)
Definition offered (channel : ManifestChannelPolicy) (w : execution) (h' : list occurrence)
    (v : VerifiedManifest) : Prop :=
  (∃ manifest_url signature_url w0 w1,
     manifest_urls channel w0 = (Ok (manifest_url, signature_url), w1)
     ∧ nodes (disk w0) = nodes (disk w)
     ∧ fetched (history w) h' manifest_url (document v)
     ∧ fetched (history w) h' signature_url (signature v))
  ∧ Forall (key_checked (history w) h') (man_repositories (verified_manifest v)).

Lemma fetch_verified_manifest_Ok installed last channel now w v w' :
  fetch_verified_manifest installed last channel now w = (Ok v, w') →
  is_authentic installed last channel now v ∧ (str_len (document v) ≤ MAX_MANIFEST_BYTES)%Z
  ∧ offered channel w (history w') v.
Proof.
  unfold fetch_verified_manifest. intros H.
  apply st_bind_Ok in H as ([] & w1 & H1 & H). apply observes_Ok in H1 as [P1 N1]; [|observes].
  apply st_bind_Ok in H as ([mu su] & w2 & H2 & H).
  pose proof (observes_Ok _ _ _ _ (manifest_urls_observes channel) H2) as [P2 _].
  apply st_bind_Ok in H as (sm & w3 & H3%download_Ok & H).
  apply st_bind_Ok in H as (ss & w4 & H4%download_Ok & H).
  apply st_bind_Ok in H as (d & w5 & [-> H5]%metadata_Ok & H). destruct (too_large d); [done|].
  apply st_bind_Ok in H as (s & w6 & [-> H6]%metadata_Ok & H). destruct (too_large s); [done|].
  apply st_bind_Ok in H as (v' & w7 & H7 & H).
  pose proof (observes_Ok _ _ _ _ (verify_temporary_observes d s installed last channel now) H7) as [P7 _].
  apply verify_temporary_Ok in H7 as (Hd & Hs & Hl & Ha).
  apply st_bind_Ok in H as ([] & w8 & H8 & H). injection H as -> <-. subst d s.
  pose proof (observes_Ok _ _ _ _ (repository_keys_observes _) H8) as [P8 _].
  assert (history w4 `prefix_of` history w8) as P48 by (rewrite <- H5, <- H6; by etransitivity).
  assert (history w `prefix_of` history w2) as P02 by (by etransitivity).
  assert (history w2 `prefix_of` history w3) as P23 by (rewrite H3; by apply prefix_app_r).
  assert (history w3 `prefix_of` history w4) as P34 by (rewrite H4; by apply prefix_app_r).
  split; [done|]. split; [done|]. split.
  - exists mu, su, w1, w2. split; [done|]. split; [done|]. split; eexists.
    + apply (happened_widen _ (history w2) (history w3)); [done|rewrite H3; apply happened_snoc|].
      by etransitivity.
    + apply (happened_widen _ (history w3) (history w4)); [by etransitivity|rewrite H4; apply happened_snoc|done].
  - eapply Forall_impl; [by eapply fetch_repository_keys_Ok|]. intros r.
    apply key_checked_widen; [|done]. etransitivity; [exact P02|]. etransitivity; [exact P23|].
    etransitivity; [exact P34|]. rewrite <- H5, <- H6. done.
Qed.

(* ------------------------------------------------------------------ *)
(** ** When a download counts as refused *)

(** The error [Download] says that curl reported a failure. *)
Definition honest {A} (m : M A) : Prop :=
  ∀ w w', m w = (Err Download, w') → refused (history w) (history w').

Lemma honest_bind {A B} (m : M A) (f : A → M B) :
  st_rel observes m → honest m → (∀ a, st_rel observes (f a)) → (∀ a, honest (f a)) →
  honest (m ≫= f).
Proof.
  intros Om Hm Of Hf w w' H. apply st_bind_Err in H as [H|(a & w1 & H1 & H)]; [by apply Hm|].
  destruct (Hf a _ _ H) as (url & stored & f' & Hh). exists url, stored, f'.
  eapply happened_widen; [by apply (observes_Ok _ _ _ _ Om H1)|exact Hh|done].
Qed.

(** A step that never fails with this error. *)
Definition never {W E A} (e : E) (m : ST W E A) : Prop := ∀ w, (m w).1 ≠ Err e.

Lemma never_bind {W E A B} (e : E) (m : ST W E A) (f : A → ST W E B) :
  never e m → (∀ a, never e (f a)) → never e (m ≫= f).
Proof.
  intros Hm Hf w. specialize (Hm w). unfold mbind, st_bind.
  destruct (m w) as [[a|e'] w1]; [apply Hf|intros [= ->]; by apply Hm].
Qed.

Lemma never_io {A} (m : ST world IoError A) : never Download (io m).
Proof. intros w. unfold io, st_map_err. by destruct (m w) as [[] ?]. Qed.

Lemma never_lift {W A} (r : result FetchError A) :
  r ≠ Err Download → never Download (st_lift (W := W) r).
Proof. by intros H w. Qed.

Lemma never_map_err {E A} (f : E → FetchError) (r : result E A) :
  (∀ e, f e ≠ Download) → map_err f r ≠ Err Download.
Proof. intros H. destruct r; cbn; [done|]. intros [= E1]. by eapply H. Qed.

Lemma never_ok_or {A} (e : FetchError) (o : option A) : e ≠ Download → ok_or e o ≠ Err Download.
Proof. intros H. destruct o; cbn; congruence. Qed.

Lemma never_on_disk {A} (m : ST world FetchError A) : never Download m → never Download (on_disk m).
Proof. intros H w. specialize (H (disk w)). unfold on_disk. by destruct (m (disk w)). Qed.

Lemma never_time manifest now : validate_time_at parse_time manifest now ≠ Err Download.
Proof.
  unfold validate_time_at, mbind, result_bind. repeat case_match; try done.
  all: rename select (ok_or _ _ = Err _) into Ho; apply ok_or_Err in Ho as [_ <-]; done.
Qed.

Create HintDb never.
#[local] Hint Resolve never_io never_lift never_on_disk never_time : never.
#[local] Hint Extern 1 (never _ (mret _)) => done : never.
#[local] Hint Extern 1 (never _ (st_throw _)) => done : never.
#[local] Hint Extern 1 (map_err _ _ ≠ _) => (by apply never_map_err) : never.
#[local] Hint Extern 1 (ok_or _ _ ≠ _) => (by apply never_ok_or) : never.
#[local] Hint Extern 2 (never _ (_ ≫= _)) => (apply never_bind; [|intros ?]) : never.
#[local] Hint Extern 3 (never _ (if ?b then _ else _)) => destruct b : never.
#[local] Hint Extern 3 (never _ (match ?x with _ => _ end)) => destruct x : never.
Ltac never := eauto 30 with never.

Lemma verify_documents_never d s installed last channel now :
  never Download (verify_documents fault parse_time gpgv manifest_of parse_url CARGO_PKG_VERSION
                    d s installed last channel now).
Proof. unfold verify_documents, verify_signature. never. Qed.
#[local] Hint Resolve verify_documents_never : never.

Lemma on_temp_never {A} (m : ST world IoError A) : never Download (on_temp m).
Proof. apply never_on_disk, never_io. Qed.
#[local] Hint Resolve on_temp_never : never.

Lemma attempt_never {A} (e : effect (result IoError A)) :
  never Download (attempt oracle Fetch_Io e).
Proof. unfold attempt. apply never_bind; [done|]. intros r. apply never_lift, never_map_err. done. Qed.
#[local] Hint Resolve attempt_never : never.

Lemma verify_temporary_never d s installed last channel now :
  never Download (verify_temporary d s installed last channel now).
Proof. unfold verify_temporary, read_temporary. never. Qed.

Lemma manifest_urls_never channel : never Download (manifest_urls channel).
Proof. destruct channel; cbn; unfold testing_manifest_urls; never. Qed.

Lemma metadata_never stored : never Download (metadata stored).
Proof. unfold metadata. never. Qed.
#[local] Hint Resolve verify_temporary_never manifest_urls_never metadata_never : never.

Lemma repository_key_never repository : never Download (fetch_repository_key repository).
Proof.
  unfold fetch_repository_key. apply never_bind.
  { intros w. unfold st_map_err. by destruct (download _ _) as [[] ?]. }
  intros stored. unfold key_fingerprints. never.
Qed.
#[local] Hint Resolve repository_key_never : never.

Lemma repository_keys_never repositories : never Download (fetch_repository_keys repositories).
Proof. induction repositories as [|r rs IH]; cbn; never. Qed.
#[local] Hint Resolve repository_keys_never : never.

Lemma honest_not {A} (m : M A) : never Download m → honest m.
Proof. intros H w w' E. specialize (H w). by rewrite E in H. Qed.

Lemma honest_download url : honest (download url).
Proof.
  unfold download. intros w w' H. apply st_bind_Err in H as [H|([success stored] & w1 & H1 & H)].
  - unfold attempt, perform, mbind, st_bind, st_lift in H. destruct (oracle _ _ _ _); done.
  - apply attempt_Ok in H1 as [H1 _]. destruct success; [done|]. injection H as <-.
    exists url, stored. eexists. rewrite H1. apply happened_snoc.
Qed.

Lemma fetch_honest installed last channel now :
  honest (fetch_verified_manifest installed last channel now).
Proof.
  unfold fetch_verified_manifest.
  apply honest_bind; [observes|apply honest_not; never|observes|intros _].
  apply honest_bind; [observes|apply honest_not; never|observes|intros [mu su]].
  apply honest_bind; [observes|apply honest_download|observes|intros sm].
  apply honest_bind; [observes|apply honest_download|observes|intros ss].
  apply honest_not. never.
Qed.

(** C20 An offer that is shown was verified in this very call: gpgv accepted the bytes
    it is parsed from, at most a megabyte, with the signature next to them; the
    route fits the installed release, the channel and an unused sequence number;
    it is valid now. It was either downloaded in this call, from the address of
    the channel and with the keys of all its repositories, each with the single
    primary fingerprint the manifest names; or curl reported a failure in this
    call, no file changed, and the bytes are those of the copy on disk. *)
Theorem offer_verified installed last channel cache now w v cached w' :
  fetch_release_preview installed last channel cache now w = (Ok (v, cached), w') →
  is_authentic installed last channel now v ∧ (str_len (document v) ≤ MAX_MANIFEST_BYTES)%Z
  ∧ (cached = false → offered channel w (history w') v)
  ∧ (cached = true → refused (history w) (history w') ∧ nodes (disk w') = nodes (disk w)
     ∧ ∃ u m text, nodes (disk w) !! cache = Some (File u m text)
         ∧ cache_of text = Some {| cache_schema_version := 1; cached_document := document v;
                                   cached_signature := signature v |}).
Proof.
  unfold fetch_release_preview. intros H. apply st_bind_try in H as (x & w1 & H1 & H).
  pose proof (observes_Ok _ _ _ _ (fetch_observes installed last channel now) H1) as [P1 N1].
  destruct x as [v1|e].
  - apply st_bind_Ok in H as (y & w2 & H2 & H). injection H as -> <- <-.
    unfold on_disk in H2. destruct (st_try _ _) as [z d] in H2. injection H2 as _ <-.
    apply fetch_verified_manifest_Ok in H1 as (Ha & Hl & Ho).
    split; [done|]. split; [done|]. by split.
  - assert (e = Download) as -> by (destruct e; try done; by apply st_bind_Ok in H as (? & ? & _ & H)).
    apply fetch_honest in H1 as Hr. clear H1.
    apply st_bind_Ok in H as (bytes & w2 & H2 & H). unfold on_disk in H2.
    destruct (read_regular _ _ _ _ _ _) as [y d] eqn:E. injection H2 as -> <-.
    apply read_regular_Ok in E as ((u & m & Hf) & _ & Nd).
    apply st_bind_Ok in H as (c & w3 & [= Hc <-] & H). apply ok_or_Ok in Hc.
    destruct (_ !=? _)%Z eqn:Ev; [done|]. rewrite negb_false_iff, eqb_true in Ev.
    match type of H with ?m ?w = _ => assert (st_rel observes m) as Om by observes;
      pose proof (observes_Ok _ _ _ _ Om H) as [P3 N3] end. clear Om.
    apply st_bind_Ok in H as (? & ? & _ & H). apply st_bind_Ok in H as (? & ? & _ & H).
    apply st_bind_Ok in H as (? & ? & _ & H). apply st_bind_Ok in H as (v1 & w4 & H4 & H).
    injection H as -> <- <-. apply verify_temporary_Ok in H4 as (Hd & Hs & Hl & Ha).
    cbn in P3, N3. split; [done|]. split; [by rewrite Hd|]. split; [done|]. intros _.
    split.
    { destruct Hr as (url & stored & f & Hh). exists url, stored, f.
      by eapply happened_widen; [|exact Hh|]. }
    split; [congruence|]. exists u, m, bytes. split; [congruence|]. rewrite Hc. f_equal.
    destruct c. cbn in *. congruence.
Qed.

(* ------------------------------------------------------------------ *)
(** ** The copy on disk *)

Definition cache_text (v : VerifiedManifest) : string :=
  cache_json {| cache_schema_version := 1; cached_document := document v;
                cached_signature := signature v |}.

(** The copy at [p] is left alone, or is a complete one of [v]. *)
Definition whole (p : path) (v : VerifiedManifest) (w w' : world) : Prop :=
  nodes w' !! p = nodes w !! p ∨ ∃ m, nodes w' !! p = Some (File euid m (cache_text v)).

Lemma whole_after p v w0 w w' :
  nodes w !! p = nodes w0 !! p → whole p v w w' → whole p v w0 w'.
Proof. intros E [H|H]; [left; congruence|by right]. Qed.

Lemma other_path {E A} T (m : ST world E A) q w x w' :
  st_rel (touches T) m → m w = (x, w') → ¬ T q → nodes w' !! q = nodes w !! q.
Proof. intros H E' Hq. specialize (H w). rewrite E' in H. by apply H. Qed.

Lemma ok_from_utf8 s w x w' :
  st_lift (W := world) (ok_or Signature (from_utf8 s)) w = (x, w') →
  w' = w ∧ (x = Ok s ∨ x = Err Signature).
Proof.
  unfold st_lift, from_utf8. destruct (utf8_valid s); intros [= <- <-]; auto.
Qed.

Lemma write_preview_touches temporary p v :
  st_rel (touches (λ q, q = temporary ∨ q = p)) (write_preview temporary p v).
Proof.
  unfold write_preview. cbv zeta.
  repeat (apply st_rel_bind; [apply _| |intros ?]); try apply st_rel_map_err; auto with frames.
  eapply touches_widen; [apply write_all_touches|]. auto.
Qed.

Lemma write_preview_spec temporary p v w m x w' :
  temporary ≠ p → nodes w !! temporary = Some (File euid m "") →
  write_preview temporary p v w = (x, w') →
  whole p v w w'
  ∧ (x = Ok () → ∃ m, nodes w' !! p = Some (File euid m (cache_text v))).
Proof.
  intros Hne Ht H. unfold write_preview in H. cbv zeta in H.
  apply st_bind_cases in H as [(e & [-> _]%ok_from_utf8 & ->)|(d & w1 & [-> [[= ->]|[=]]]%ok_from_utf8 & H)];
    [split; [by left|done]|].
  apply st_bind_cases in H as [(e & [-> _]%ok_from_utf8 & ->)|(s & w1 & [-> [[= ->]|[=]]]%ok_from_utf8 & H)];
    [split; [by left|done]|].
  change (cache_json _) with (cache_text v) in H.
  assert (∀ A (n : ST world FetchError A) y w0 w1, st_rel (touches (λ q, q = temporary)) n →
    n w0 = (y, w1) → nodes w1 !! p = nodes w0 !! p) as Hp.
  { intros A n y w0 w1 Hn Hy. eapply other_path; [exact Hn|exact Hy|by intros ->]. }
  apply st_bind_cases in H as [(e & H1 & ->)|([] & w1 & H1 & H)];
    pose proof (Hp _ _ _ _ _ (st_rel_map_err _ _ _ (write_all_touches _ _ _)) H1) as D1;
    [split; [by left|done]|].
  apply st_bind_cases in H as [(e & H2 & ->)|([] & w2 & H2 & H)];
    pose proof (Hp _ _ _ _ _ (st_rel_map_err _ _ _ (sync_all_touches _ _)) H2) as D2;
    [split; [left; congruence|done]|].
  apply st_map_err_Ok in H1, H2. eapply write_all_Ok in H1; [|exact Ht]. apply sync_all_Ok in H2.
  destruct x as [[]|e].
  - apply st_map_err_Ok in H. apply rename_Ok in H. rewrite H2, H1 in H.
    split; [right|intros _]; by eexists.
  - split; [|done]. apply st_map_err_Err in H as (e0 & H & _).
    apply rename_result in H as [E|(? & _)]; [|done]. left. congruence.
Qed.

(** tempfile names start with a dot, as the name of the copy does not. *)
Context (p parent : path) (Hparent : Fs.parent p = Some parent).
Context (Htemp : ∀ ns, join parent (tempname ns parent) ≠ p).

Lemma p_not_above : ¬ p `suffix_of` parent.
Proof. destruct p as [|q d]; [done|]. injection Hparent as ->. apply suffix_cons_ne. Qed.

(** The paths a copy is written through: itself, the directories above it, and a
    temporary file next to it. *)
Definition copy_paths (q : path) : Prop := q `suffix_of` p ∨ ∃ ns, q = join parent (tempname ns parent).

Lemma parent_above q : q `suffix_of` parent → q `suffix_of` p.
Proof. destruct p as [|x d]; [done|]. injection Hparent as ->. apply suffix_cons_r. Qed.

Lemma persist_preview_touches t v :
  copy_paths t → st_rel (touches copy_paths) (persist_preview parent t p v).
Proof.
  intros Ht. unfold persist_preview. apply st_rel_bind; [apply _| |intros _].
  { apply st_rel_map_err. eapply touches_widen; [apply create_new_touches|by intros ? ->]. }
  apply st_rel_bind; [apply _|apply st_rel_try|intros [[]|e]].
  - eapply touches_widen; [apply write_preview_touches|]. intros q [->| ->]; [done|by left].
  - apply st_rel_bind; [apply _| |intros _]; apply st_rel_map_err; auto with frames.
  - apply st_rel_bind; [apply _| |intros _; auto with frames].
    apply st_rel_try. eapply touches_widen; [apply remove_file_touches|by intros ? ->].
Qed.

Lemma save_preview_touches v : st_rel (touches copy_paths) (save_preview_cache p v).
Proof.
  unfold save_preview_cache. rewrite Hparent. intros w.
  apply st_step; [apply _|done|intros d w1 [= <- <-]].
  apply st_step; [apply _| |intros [] w2 _].
  { refine ((_ : st_rel (touches copy_paths) (io (create_dir_all euid umask fault parent))) w).
    apply st_rel_map_err. eapply touches_widen; [apply create_dir_all_touches|].
    intros q Hq. left. by apply parent_above. }
  apply st_step; [apply _|done|intros name w3 [= <- <-]].
  refine (persist_preview_touches _ v _ w2). right. by eexists.
Qed.

Lemma save_preview_spec v w x w' :
  save_preview_cache p v w = (x, w') →
  whole p v w w'
  ∧ (x = Ok () → ∃ m, nodes w' !! p = Some (File euid m (cache_text v))).
Proof.
  unfold save_preview_cache. rewrite Hparent. intros H.
  apply st_bind_cases in H as [(e & [=] & _)|(d & w0 & [= <- <-] & H)].
  apply st_bind_cases in H as [(e & H1 & ->)|([] & w1 & H1 & H)];
    pose proof (other_path _ _ p _ _ _ (st_rel_map_err _ _ _ (create_dir_all_touches _ _ _ parent)) H1
      p_not_above) as D1; [split; [by left|done]|].
  apply st_bind_cases in H as [(e & [=] & _)|(name & w1' & [= <- <-] & H)]. unfold persist_preview in H.
  pose proof (Htemp (nodes w1)) as Hne. set (t := join parent (tempname (nodes w1) parent)) in *.
  apply st_bind_cases in H as [(e & H2 & ->)|([] & w2 & H2 & H)];
    pose proof (other_path _ _ p _ _ _ (st_rel_map_err _ _ _ (create_new_touches _ _ _ t 384)) H2
      ltac:(congruence)) as D2; [split; [left; congruence|done]|].
  apply st_map_err_Ok in H2. apply create_new_Ok in H2 as [m Hm].
  apply st_bind_try in H as (y & w3 & H3 & H).
  apply (write_preview_spec t p v w2 m) in H3 as [Hw Hx]; [|done|done].
  eapply (whole_after p v w) in Hw; [|congruence]. destruct y as [[]|e].
  - assert (nodes w' = nodes w3) as E.
    { assert (st_rel (touches (λ _, False))
        (_ ← io (open_any fault parent); io (sync_all fault))) as Hn.
      { apply st_rel_bind; [apply _| |intros _]; apply st_rel_map_err; auto with frames. }
      apply map_eq. intros q. exact (other_path _ _ q _ _ _ Hn H (λ f, f)). }
    destruct (Hx eq_refl) as [m' Hp]. rewrite <- E in Hp.
    split; [right|intros _]; by eexists.
  - apply st_bind_try in H as (z & w4 & H4 & H). injection H as <- <-. split; [|done].
    pose proof (other_path _ _ p _ _ _ (remove_file_touches _ t) H4 ltac:(congruence)) as D4.
    destruct Hw as [Hw|[m' Hw]]; [left|right; exists m']; congruence.
Qed.

Lemma copy_forgotten e w x w' :
  (_ ← on_disk (st_try (E' := FetchError) (remove_file fault p)); st_throw (A := VerifiedManifest * bool) e) w
    = (x, w') →
  x = Err e ∧ touches copy_paths (disk w) (disk w')
  ∧ (nodes (disk w') !! p = nodes (disk w) !! p ∨ nodes (disk w') !! p = None)
  ∧ (fault (calls (disk w)) = None → (∀ u m, nodes (disk w) !! p ≠ Some (Dir u m)) →
     nodes (disk w') !! p = None).
Proof.
  unfold mbind, st_bind, on_disk, st_try. pose proof (remove_file_touches fault p (disk w)) as Ht.
  destruct (remove_file fault p (disk w)) as [y d] eqn:E. intros [= <- <-]. cbn in *.
  split; [done|]. split.
  { eapply touches_weaken; [|exact Ht]. intros q ->. by left. }
  unfold remove_file, syscall in E. destruct (fault _) as [[]|]; [by injection E as <- <-; split; [left|]|].
  destruct (nodes (disk w) !! p) as [n|] eqn:Ep; [|by injection E as <- <-; cbn; rewrite Ep; auto].
  destruct (is_dir n) eqn:Ed; injection E as <- <-; cbn.
  - rewrite Ep. split; [by left|]. intros _ Hd. destruct n as [u m| |]; try done. by destruct (Hd u m).
  - rewrite lookup_delete_eq. by auto.
Qed.

Lemma read_copy_observes maximum : st_rel observes (on_disk (read_regular euid umask fault p maximum)).
Proof. apply on_disk_observes. intros w. apply read_regular_nodes. Qed.
#[local] Hint Resolve read_copy_observes : observes.

(** C24 The copy of the last offer is always whole, and forgotten once an offer was
    refused: whichever call fails, it is left alone, replaced by a complete copy of
    the offer this call verified, or removed, and only its own path, the directories
    above it and a temporary file next to it are touched. When the download itself
    worked but the offer did not pass, the answer is that error and no copy is left
    unless its removal failed. *)
Theorem copy_whole_or_gone installed last channel now w x w' :
  fetch_release_preview installed last channel p now w = (x, w') →
  touches copy_paths (disk w) (disk w')
  ∧ (nodes (disk w') !! p = nodes (disk w) !! p
     ∨ (∃ v m, x = Ok (v, false) ∧ nodes (disk w') !! p = Some (File euid m (cache_text v)))
     ∨ nodes (disk w') !! p = None)
  ∧ ∀ e w1, fetch_verified_manifest installed last channel now w = (Err e, w1) → e ≠ Download →
      x = Err e
      ∧ (fault (calls (disk w1)) = None → (∀ u m, nodes (disk w) !! p ≠ Some (Dir u m)) →
         nodes (disk w') !! p = None).
Proof.
  unfold fetch_release_preview. intros H. apply st_bind_try in H as (y & w1 & H1 & H).
  pose proof (observes_Ok _ _ _ _ (fetch_observes installed last channel now) H1) as [_ N1].
  assert (∀ d', touches copy_paths (disk w1) d' → touches copy_paths (disk w) d') as Hn.
  { intros d' Ht q Hq. rewrite <- N1. by apply Ht. }
  rewrite H1, <- N1. destruct y as [v|e].
  - unfold mbind, st_bind, on_disk, st_try in H.
    pose proof (save_preview_touches v (disk w1)) as Ht.
    destruct (save_preview_cache p v (disk w1)) as [z d] eqn:E. injection H as <- <-. cbn in *.
    split; [by apply Hn|]. split; [|by intros].
    apply save_preview_spec in E as [[Hw|[m Hw]] _]; [by left|right; left; by eauto].
  - assert (e = Download ∨ (_ ← on_disk (st_try (E' := FetchError) (remove_file fault p)); st_throw e) w1
      = (x, w')) as [->|(-> & Ht & Hp & Hg)%copy_forgotten] by (destruct e; auto).
    + match type of H with ?m _ = _ => assert (st_rel observes m) as Om by observes;
        pose proof (observes_Ok _ _ _ _ Om H) as [_ N2] end.
      split; [by intros q _; congruence|]. split; [left; congruence|]. by intros e w3 [= <- <-] ?.
    + split; [by apply Hn|]. split; [destruct Hp; auto|]. by intros e' w3 [= <- <-] _.
Qed.
End preview.

(* ------------------------------------------------------------------ *)
(** ** An offer without a network *)

Section offline.
Context (oracle : Oracle) (euid umask : Z) (tempname : gmap path node → path → string).
Context (cache_json : PreviewCache → string) (cache_of : string → option PreviewCache).
Context (parse_url : string → option Url) (join_url : Url → string → option string).
Context (parse_time : string → option Z) (gpgv : string → string → result IoError bool).
Context (manifest_of : string → option ReleaseManifest) (CARGO_PKG_VERSION : string).
#[local] Abbreviation is_authentic :=
  (authentic parse_time gpgv manifest_of parse_url CARGO_PKG_VERSION).

Lemma on_temp_runs w : ∃ w', on_temp (file_call no_fault) w = (Ok (), w') ∧ nodes (disk w') = nodes (disk w).
Proof. by eexists. Qed.

Lemma read_temporary_runs content w :
  (str_len content ≤ MAX_MANIFEST_BYTES)%Z → ∃ w', read_temporary no_fault content w = (Ok content, w').
Proof.
  intros Hl. unfold read_temporary, mbind, st_bind, on_temp, on_disk, io, st_map_err, file_call, syscall.
  cbn. unfold too_large. destruct (Z.ltb_spec MAX_MANIFEST_BYTES (str_len content)); [lia|]. by eexists.
Qed.

Lemma validate_time_runs manifest now from until :
  parse_time (valid_from manifest) = Some from → parse_time (valid_until manifest) = Some until →
  (from ≤ now < until)%Z → validate_time_at parse_time manifest now = Ok ().
Proof.
  intros Hf Hu Hn. unfold validate_time_at. rewrite Hf, Hu. cbn.
  destruct (Z.leb_spec until from); [lia|]. destruct (Z.ltb_spec now from); [lia|].
  by destruct (Z.leb_spec until now); [lia|].
Qed.

Lemma verify_documents_runs installed last channel now v w :
  is_authentic installed last channel now v →
  ∃ w', verify_documents no_fault parse_time gpgv manifest_of parse_url CARGO_PKG_VERSION
    (document v) (signature v) installed last channel now w = (Ok v, w').
Proof.
  intros [Hg Hm Hr (from & until & Hf & Hu & Hn)].
  unfold verify_documents, verify_signature, mbind, st_bind, ManifestFetch.io, st_map_err, file_call,
    syscall, st_lift. cbn.
  rewrite Hg. cbn. rewrite Hm. cbn. rewrite Hr. cbn.
  rewrite (validate_time_runs _ _ _ _ Hf Hu Hn). eexists. by destruct v.
Qed.

Lemma verify_temporary_runs installed last channel now v w :
  (str_len (document v) ≤ MAX_MANIFEST_BYTES)%Z → (str_len (signature v) ≤ MAX_MANIFEST_BYTES)%Z →
  is_authentic installed last channel now v →
  ∃ w', verify_temporary no_fault parse_url parse_time gpgv manifest_of CARGO_PKG_VERSION
    (document v) (signature v) installed last channel now w = (Ok v, w').
Proof.
  intros Hd Hs Ha. unfold verify_temporary.
  destruct (read_temporary_runs _ w Hd) as [w1 H1]. rewrite (st_bind_eq _ _ _ _ _ H1).
  destruct (read_temporary_runs _ w1 Hs) as [w2 H2]. rewrite (st_bind_eq _ _ _ _ _ H2).
  destruct (verify_documents_runs installed last channel now v (disk w2) Ha) as [d H3].
  unfold on_disk. rewrite H3. by eexists.
Qed.

(** C28 An offer that was verified once can still be shown without a network: when a
    copy of it was saved, under any failures that did not stop that, and curl now
    reports a failure, the same manifest, document and signature are shown again
    and marked as a copy, as long as the offer still fits this release, channel,
    sequence number and time, and provided the parser inverts the printer on the
    copy and its text is within four megabytes. *)
Theorem offer_survives_offline fault p parent installed last channel now v d d' w w1 :
  Fs.parent p = Some parent → (∀ ns, join parent (tempname ns parent) ≠ p) →
  cache_of (cache_text cache_json v)
    = Some {| cache_schema_version := 1; cached_document := document v; cached_signature := signature v |} →
  (str_len (cache_text cache_json v) ≤ 4 * MAX_MANIFEST_BYTES)%Z →
  (str_len (document v) ≤ MAX_MANIFEST_BYTES)%Z → (str_len (signature v) ≤ MAX_MANIFEST_BYTES)%Z →
  save_preview_cache euid umask fault tempname cache_json p v d = (Ok (), d') →
  nodes (disk w) !! p = nodes d' !! p →
  is_authentic installed last channel now v →
  fetch_verified_manifest oracle no_fault parse_url join_url parse_time gpgv manifest_of
    CARGO_PKG_VERSION installed last channel now w = (Err Download, w1) →
  ∃ w', fetch_release_preview oracle euid umask no_fault tempname cache_json cache_of parse_url
    join_url parse_time gpgv manifest_of CARGO_PKG_VERSION installed last channel p now w
    = (Ok (v, true), w').
Proof.
  intros Hp Ht Hc Hl Hd Hs Hsave Hw Ha H1.
  apply (save_preview_spec _ _ _ _ _ _ _ Hp Ht) in Hsave as [_ Hsave].
  destruct (Hsave eq_refl) as [m Hm]. rewrite <- Hw in Hm.
  pose proof (observes_Ok _ _ _ _ (fetch_observes _ _ _ _ _ _ _ _ _ _ _ _) H1) as [_ N1].
  rewrite <- N1 in Hm.
  unfold fetch_release_preview. unfold mbind at 1, st_bind at 1, st_try at 1. rewrite H1.
  destruct (read_regular_runs euid umask no_fault p (4 * MAX_MANIFEST_BYTES) (disk w1) _ _ _ eq_refl Hm Hl)
    as [d1 E1].
  erewrite st_bind_eq by (unfold on_disk; by rewrite E1).
  erewrite st_bind_eq by (unfold st_lift; by rewrite Hc). cbn beta iota delta [cache_schema_version].
  change (1 !=? 1)%Z with false. cbn iota.
  do 3 (erewrite st_bind_eq by reflexivity). cbn [cached_document cached_signature].
  edestruct (verify_temporary_runs installed last channel now v) as [w2 E2]; [done..|].
  erewrite st_bind_eq by exact E2. by eexists.
Qed.
End offline.

(* ------------------------------------------------------------------ *)
(** ** A concrete offer *)

(** A channel that serves the sample manifest and one key, and no network. *)
Definition preview_oracle (online : bool) : Oracle := λ A h w e,
  match e in effect B return B → B with
  | Curl _ url => λ _, Ok (online, if url ==? "https://example.org/releases-v1.json" then Some "manifest"
                                   else if ends_with ".asc" url then Some "signature" else Some "key")
  | Gpg _ _ => λ _, Ok (sample_output ("pub:-:255:22:KEYID:0" +:+ String nl
      ("fpr:::::::::" +:+ signing_key_fingerprint sample_transition +:+ ":" +:+ String nl "")))
  | _ => λ a, a
  end (sample_oracle A h w e).

Definition preview_path : path := ["offer.json"; "cache"].
Definition preview_json (c : PreviewCache) : string :=
  to_string (cache_schema_version c) +:+ cached_document c +:+ "/" +:+ cached_signature c.
Definition preview_of (text : string) : option PreviewCache :=
  if text ==? "1manifest/signature"
  then Some {| cache_schema_version := 1; cached_document := "manifest"; cached_signature := "signature" |}
  else None.
Definition preview_nodes : gmap path node :=
  {[["cache"] := Dir 0 448; ["etc"] := Dir 0 493; ["lyra-upgrade"; "etc"] := Dir 0 493;
    TESTING_MANIFEST_BASE_URL_PATH := File 0 420 "https://example.org/"]}.
Definition preview_start (ns : gmap path node) : execution := {|
  disk := {| nodes := ns; calls := 0 |}; history := [];
  current := sample_record ReleaseUpgrade AwaitingConfirmation |}.
Definition preview_times (text : string) : option Z :=
  if text ==? valid_from sample_manifest then Some 0%Z else Some 100%Z.
Definition preview_gpgv (signature document : string) : result IoError bool :=
  Ok ((signature ==? "signature") && (document ==? "manifest")).
Definition preview_parse (text : string) : option ReleaseManifest :=
  if text ==? "manifest" then Some sample_manifest else None.

(** A request of a release check at some time. *)
Definition preview_run (online : bool) (now : Z) (w : execution)
  : result FetchError (VerifiedManifest * bool) * execution :=
  fetch_release_preview (preview_oracle online) 0 18 no_fault (λ _ _, ".tmpAAAAAA") preview_json
    preview_of sample_parse_url (λ _ name, Some ("https://example.org/" +:+ name)) preview_times
    preview_gpgv preview_parse "0.3.0" sample_release (Some 6%Z) Channel_Testing preview_path now w.

Definition preview_online := preview_run true 50 (preview_start preview_nodes).
(** Later, without a network, over the files the first request left. *)
Definition preview_offline := preview_run false 60 (preview_start (nodes (disk preview_online.2))).
Definition preview_expired := preview_run true 100 (preview_start (nodes (disk preview_online.2))).

Definition preview_offer : VerifiedManifest :=
  {| verified_manifest := sample_manifest; document := "manifest"; signature := "signature" |}.

Example sample_previews :
  preview_online.1 = Ok (preview_offer, false) ∧ preview_offline.1 = Ok (preview_offer, true)
  ∧ preview_expired.1 = Err Expired
  ∧ nodes (disk preview_online.2) !! preview_path = Some (File 0 384 "1manifest/signature")
  ∧ nodes (disk preview_expired.2) !! preview_path = None.
Proof. vm_compute. repeat split. Qed.

Lemma preview_names (ns : gmap path node) : join ["cache"] ".tmpAAAAAA" ≠ preview_path.
Proof. discriminate. Qed.

Lemma offer_verified_witness :
  refused [] (history preview_offline.2)
  ∧ preview_gpgv "signature" "manifest" = Ok true.
Proof.
  assert (preview_offline = (Ok (preview_offer, true), preview_offline.2)) as H.
  { rewrite <- (proj1 (proj2 sample_previews)). unfold preview_offline. apply surjective_pairing. }
  destruct (offer_verified _ _ _ _ _ _ _ _ _ _ _ _ _ _ _ _ _ _ _ _ _ _ H) as ([Hg _ _ _] & _ & _ & Hr).
  split; [apply (Hr eq_refl)|exact Hg].
Defined.

Definition preview_fetch (online : bool) (now : Z) (w : execution) :=
  fetch_verified_manifest (preview_oracle online) no_fault sample_parse_url
    (λ _ name, Some ("https://example.org/" +:+ name)) preview_times preview_gpgv preview_parse "0.3.0"
    sample_release (Some 6%Z) Channel_Testing now w.

Lemma copy_whole_or_gone_witness :
  preview_expired.1 = Err Expired ∧ nodes (disk preview_expired.2) !! preview_path = None.
Proof.
  destruct (copy_whole_or_gone (preview_oracle true) 0 18 no_fault (λ _ _, ".tmpAAAAAA") preview_json
    preview_of sample_parse_url (λ _ name, Some ("https://example.org/" +:+ name)) preview_times
    preview_gpgv preview_parse "0.3.0" preview_path ["cache"] eq_refl preview_names
    sample_release (Some 6%Z) Channel_Testing 100 (preview_start (nodes (disk preview_online.2)))
    preview_expired.1 preview_expired.2) as (_ & _ & H).
  { unfold preview_expired. apply surjective_pairing. }
  destruct (H Expired (preview_fetch true 100 (preview_start (nodes (disk preview_online.2)))).2)
    as [Hx Hp].
  - apply pair_with_fst. vm_compute. reflexivity.
  - discriminate.
  - split; [exact Hx|]. apply Hp; [reflexivity|]. intros u m. cbn [preview_start disk nodes].
    rewrite (proj1 (proj2 (proj2 (proj2 sample_previews)))). discriminate.
Defined.

Lemma offer_survives_offline_witness :
  ∃ w, preview_offline = (Ok (preview_offer, true), w).
Proof.
  apply (offer_survives_offline (preview_oracle false) 0 18 (λ _ _, ".tmpAAAAAA") preview_json
    preview_of sample_parse_url (λ _ name, Some ("https://example.org/" +:+ name)) preview_times
    preview_gpgv preview_parse "0.3.0" no_fault preview_path ["cache"] sample_release (Some 6%Z)
    Channel_Testing 60 preview_offer {| nodes := preview_nodes; calls := 0 |}
    (save_preview_cache 0 18 no_fault (λ _ _, ".tmpAAAAAA") preview_json preview_path preview_offer
       {| nodes := preview_nodes; calls := 0 |}).2
    (preview_start (nodes (disk preview_online.2)))
    (preview_fetch false 60 (preview_start (nodes (disk preview_online.2)))).2).
  - reflexivity.
  - exact preview_names.
  - reflexivity.
  - vm_compute. discriminate.
  - vm_compute. discriminate.
  - vm_compute. discriminate.
  - apply pair_with_fst. vm_compute. reflexivity.
  - vm_compute. reflexivity.
  - split; [reflexivity|reflexivity|vm_compute; reflexivity|]. exists 0%Z, 100%Z.
    split; [reflexivity|]. split; [reflexivity|]. lia.
  - apply pair_with_fst. vm_compute. reflexivity.
Defined.
