(* ===== verification/Metadata.v ===== *)
(** * Reading package metadata (src/service/src/vendor_metadata.rs)

    The XML of the RPM database and of a repository, as the program walks it, and
    what it takes from them: the installed packages, the primary record of a
    repository and the vendors of the wanted candidates. The events are those of
    quick_xml's [NsReader], a parameter: a list that ends where [Eof] comes, with
    [None] for a reading error. *)

From S2P Require Import Prelude RustStr State Fs Preflight Solver Inventory SolverXml Vendors.
From S2P Require Import Request.

Open Scope bool_scope.
Open Scope lyra_scope.

#[local] Abbreviation M := (result VendorMetadataError).

Definition COMMON : string := "http://linux.duke.edu/metadata/common".
Definition RPM : string := "http://linux.duke.edu/metadata/rpm".
Definition REPO : string := "http://linux.duke.edu/metadata/repo".
Definition MAX_XML_BYTES : Z := 2 * 1024 * 1024 * 1024.

(* ------------------------------------------------------------------ *)
(** ** Elements *)

Record Node := {
  node_ns : string;
  node_name : string;
  node_attrs : gmap string string;
  node_text : string;
}.

Definition node_is (self : Node) (ns name : string) : bool :=
  (node_ns self ==? ns) && (node_name self ==? name).

Definition attr (self : Node) (name : string) : M string :=
  ok_or (Invalid "missing XML attribute") (node_attrs self !! name).

Definition with_text (self : Node) (text : string) : Node := {|
  node_ns := node_ns self; node_name := node_name self; node_attrs := node_attrs self;
  node_text := text |}.

Definition keeps_text (name : string) : bool :=
  contains ["name"; "arch"; "vendor"; "checksum"; "string"; "integer"] name.

Definition append (self : Node) (text : string) : M Node :=
  if keeps_text (node_name self) then
    if (4096 <? str_len (node_text self) + str_len text)%Z
    then Err (Invalid "oversized identity field")
    else Ok (with_text self (node_text self +:+ text))
  else Ok self.

(* ------------------------------------------------------------------ *)
(** ** The walk *)

Inductive resolution : Set := Bound (ns : string) | Unbound | Unknown.

Inductive ns_event : Type :=
  | Element (empty : bool) (ns : resolution) (local_name : string) (attrs : attributes)
  | Closing
  | Characters (content : option string)
  | CData (decoded : option string)
  | GeneralRef (decoded : option string)
  | Doctype
  | Other.

(** [unescape] of quick_xml, for the predefined entities and character references. *)
Class Entities := unescape : string → option string.

Definition resolve (ns : resolution) : M string :=
  match ns with
  | Bound ns => Ok ns
  | Unbound => Ok ""
  | Unknown => Err (Invalid "unbound XML namespace")
  end.

Fixpoint read_attrs (attrs : attributes) (acc : gmap string string) : M (gmap string string) :=
  match attrs with
  | [] => Ok acc
  | None :: _ => Err (Invalid "invalid XML attribute")
  | Some (_, None) :: _ => Err (Invalid "invalid XML attribute value")
  | Some (k, Some value) :: attrs' =>
      if is_some (acc !! k) then Err (Invalid "duplicate XML attribute")
      else read_attrs attrs' (<[k := value]> acc)
  end.

(** [Vec::pop] and [last_mut]. *)
Definition pop {A} (l : list A) : option (list A * A) :=
  match reverse l with [] => None | x :: l' => Some (reverse l', x) end.

Section walk.
Context {HE : Entities} {S : Type}.
Context (root_ns root_name : string).
Context (closed : S → list Node → Node → M S).

Record walker := { stack : list Node; roots : nat; seen : S }.

(** Text goes to the innermost open element. *)
Definition append_last (w : walker) (text : string) : M walker :=
  match pop (stack w) with
  | Some (parents, node) =>
      node ← append node text;
      Ok {| stack := parents ++ [node]; roots := roots w; seen := seen w |}
  | None => Ok w
  end.

Definition on_element (w : walker) (empty : bool) (ns : resolution) (name : string)
    (attrs : attributes) : M walker :=
  ns ← resolve ns;
  attrs ← read_attrs attrs ∅;
  let node := {| node_ns := ns; node_name := name; node_attrs := attrs; node_text := "" |} in
  let roots := match stack w with [] => (roots w + 1)%nat | _ => roots w end in
  if bool_decide (stack w = []) && (negb (roots =? 1)%nat || negb (node_is node root_ns root_name))
  then Err (Invalid "invalid XML root")
  else if (32 <=? length (stack w))%nat then Err (Invalid "excessive XML depth")
  else if empty then
    seen ← closed (seen w) (stack w) node;
    Ok {| stack := stack w; roots := roots; seen := seen |}
  else Ok {| stack := stack w ++ [node]; roots := roots; seen := seen w |}.

Definition on_event (w : walker) (event : option ns_event) : M walker :=
  match event with
  | None => Err (Invalid "malformed XML")
  | Some (Element empty ns name attrs) => on_element w empty ns name attrs
  | Some Closing =>
      '(parents, node) ← ok_or (Invalid "unbalanced XML") (pop (stack w));
      seen ← closed (seen w) parents node;
      Ok {| stack := parents; roots := roots w; seen := seen |}
  | Some (Characters content) =>
      text ← ok_or (Invalid "invalid XML text") content;
      if bool_decide (stack w = []) then
        if negb (is_empty (trim text)) then Err (Invalid "text outside XML root") else Ok w
      else append_last w text
  | Some (CData decoded) =>
      if bool_decide (stack w = []) then Ok w
      else text ← ok_or (Invalid "invalid CDATA") decoded; append_last w text
  | Some (GeneralRef decoded) =>
      name ← ok_or (Invalid "invalid XML reference") decoded;
      resolved ← ok_or (Invalid "unknown XML entity") (unescape ("&" +:+ name +:+ ";"));
      append_last w resolved
  | Some Doctype => Err (Invalid "DTD not allowed")
  | Some Other => Ok w
  end.

Fixpoint on_events (w : walker) (events : list (option ns_event)) : M walker :=
  match events with
  | [] => Ok w
  | event :: events' => w ← on_event w event; on_events w events'
  end.

(** [consumed] is the position of the reader at the end of its input. *)
Definition walk (events : list (option ns_event)) (consumed : Z) (s : S) : M S :=
  w ← on_events {| stack := []; roots := 0; seen := s |} events;
  if negb (roots w =? 1)%nat || negb (bool_decide (stack w = [])) || (MAX_XML_BYTES <=? consumed)%Z
  then Err (Invalid "truncated XML")
  else Ok (seen w).
End walk.
#[global] Arguments walker : clear implicits.
#[global] Arguments stack {S} _.
#[global] Arguments roots {S} _.
#[global] Arguments seen {S} _.

(* ------------------------------------------------------------------ *)
(** ** The RPM database *)

(** The catalog, and the fields of the header that is open. *)
Definition installed_closed (s : Catalog * list string) (parents : list Node) (node : Node)
  : M (Catalog * list string) :=
  '(catalog, fields) ← Ok s;
  fields ← (if (length parents =? 2)%nat && is_some_and (parents !! 1%nat) (λ p, node_is p "" "package")
               && is_empty (node_ns node)
            then if negb (contains ["string"; "integer"] (node_name node))
                 then Err (Invalid "invalid RPM field")
                 else Ok (fields ++ [node_text node])
            else Ok fields);
  if (length parents =? 1)%nat && node_is node "" "package" then
    match fields with
    | [name; epoch; version; release; arch; vendor] =>
        ed ← rpm_edition epoch version release;
        Ok (insert_vendor catalog (name, ed, arch) vendor, [])
    | _ => Err (Invalid "incomplete RPM header")
    end
  else Ok (catalog, fields).

Definition installed_vendors_xml {HE : Entities} (events : list (option ns_event)) (consumed : Z)
  : M Catalog :=
  '(catalog, _) ← walk "" "rpmdb" installed_closed events consumed (∅, []);
  Ok catalog.

(* ------------------------------------------------------------------ *)
(** ** The primary record of a repository *)

Record Primary := { href : string; algorithm : string; checksum : string }.
Definition default_primary : Primary := {| href := ""; algorithm := ""; checksum := "" |}.

Definition primary_closed (s : list Primary * Primary) (parents : list Node) (node : Node)
  : M (list Primary * Primary) :=
  '(records, record) ← Ok s;
  inside ← (match parents !! 1%nat with
            | Some data =>
                if (length parents =? 2)%nat && node_is data REPO "data"
                then kind ← attr data "type"; Ok (kind ==? "primary")
                else Ok false
            | None => Ok false
            end);
  record ← (if (inside : bool) then
              if node_is node REPO "location" then
                if negb (is_empty (href record)) then Err (Invalid "duplicate primary location")
                else
                  location ← attr node "href";
                  Ok {| href := location; algorithm := algorithm record; checksum := checksum record |}
              else if node_is node REPO "checksum" then
                if negb (is_empty (checksum record)) then Err (Invalid "duplicate primary checksum")
                else
                  kind ← attr node "type";
                  Ok {| href := href record; algorithm := kind; checksum := node_text node |}
              else Ok record
            else Ok record);
  closes ← (if (length parents =? 1)%nat && node_is node REPO "data"
            then kind ← attr node "type"; Ok (kind ==? "primary") else Ok false);
  if (closes : bool) then Ok (records ++ [record], default_primary) else Ok (records, record).

Definition primary_record {HE : Entities} (events : list (option ns_event)) (consumed : Z) : M Primary :=
  '(records, _) ← walk REPO "repomd" primary_closed events consumed ([], default_primary);
  match records with
  | [record] => Ok record
  | _ => Err (Invalid "missing/ambiguous primary metadata")
  end.

(* ------------------------------------------------------------------ *)
(** ** The candidates *)

(** The field a closed element gives, with its value. *)
Definition primary_field (parents : list Node) (node : Node) : M (option (string * string)) :=
  let package := is_some_and (parents !! 1%nat) (λ p, node_is p COMMON "package") in
  if (length parents =? 2)%nat && package then
    if node_is node COMMON "name" then Ok (Some ("name", node_text node))
    else if node_is node COMMON "arch" then Ok (Some ("arch", node_text node))
    else if node_is node COMMON "version" then
      epoch ← attr node "epoch";
      ver ← attr node "ver";
      rel ← attr node "rel";
      ed ← rpm_edition epoch ver rel;
      Ok (Some ("edition", ed))
    else Ok None
  else if (length parents =? 3)%nat && package
          && is_some_and (parents !! 2%nat) (λ p, node_is p COMMON "format") && node_is node RPM "vendor"
  then Ok (Some ("vendor", node_text node))
  else Ok None.

Definition get_field (fields : gmap string string) (k : string) : M string :=
  ok_or (Invalid "incomplete primary package") (fields !! k).

Definition vendors_closed (wanted : gset Identity) (s : Catalog * gmap string string)
    (parents : list Node) (node : Node) : M (Catalog * gmap string string) :=
  '(catalog, fields) ← Ok s;
  field ← primary_field parents node;
  fields ← match field with
           | Some (k, value) =>
               if is_some (fields !! k) then Err (Invalid "duplicate primary package field")
               else Ok (<[k := value]> fields)
           | None => Ok fields
           end;
  if (length parents =? 1)%nat && node_is node COMMON "package" then
    name ← get_field fields "name";
    ed ← get_field fields "edition";
    arch ← get_field fields "arch";
    if bool_decide ((name, ed, arch) ∈ wanted) then
      kind ← attr node "type";
      if kind !=? "rpm" then Err (Invalid "non-RPM candidate")
      else Ok (insert_vendor catalog (name, ed, arch) (default "" (fields !! "vendor")), ∅)
    else Ok (catalog, ∅)
  else Ok (catalog, fields).

Definition primary_vendors {HE : Entities} (wanted : gset Identity) (events : list (option ns_event))
    (consumed : Z) : M Catalog :=
  '(catalog, _) ← walk COMMON "metadata" (vendors_closed wanted) events consumed (∅, ∅);
  Ok catalog.

(* ------------------------------------------------------------------ *)
(** ** A repository *)

(** [path.extension()] of a file name: what follows the last dot, if something
    comes before it. *)
Definition extension (name : string) : option string :=
  match reverse (split "." name) with
  | after :: (_ :: _) as before =>
      if bool_decide (before = [""]) then None else Some after
  | _ => None
  end.

(** A location with a component that is not a plain name: the root, a leading dot
    or a parent. *)
Definition unsafe_location (location : string) : bool :=
  starts_with "/" location || (head (split "/" location) ==? Some ".")
  || contains (components location) "..".

Definition decompressor (extension : string) : string :=
  if extension ==? "gz" then "gzip" else if extension ==? "xz" then "xz" else "zstd".

Section repository.
Context {HE : Entities} (euid umask : Z) (fault : nat → option (IoError * nat)).
(** quick_xml over some bytes, with the position at the end; sha2; and a program
    that decompresses its input: its output, and whether it succeeds when that is
    read to the end ([true]) or not. *)
Context (read_xml : string → list (option ns_event) * Z).
Context (sha256 sha512 : string → string).
Context (decompress : string → string → result IoError (string * (bool → bool))).

#[local] Abbreviation F := (ST world VendorMetadataError).
Definition io {A} (m : ST world IoError A) : F A := st_map_err (λ _, Vendor_Io) m.

(** Reading an open file to its end. *)
Definition read_open (n : node) : F string :=
  _ ← io (file_call fault);
  match n with File _ _ content => mret content | _ => st_throw Vendor_Io end.

Definition verify_checksum (file : node) (primary : Primary) : F unit :=
  actual ← (if algorithm primary ==? "sha256" then content ← read_open file; mret (sha256 content)
            else if algorithm primary ==? "sha512" then content ← read_open file; mret (sha512 content)
            else st_throw (Invalid "unsupported primary checksum"));
  if actual !=? checksum primary then st_throw (Invalid "primary checksum mismatch") else mret ().

Definition vendors_in (wanted : gset Identity) (text : string) : M Catalog :=
  primary_vendors wanted (read_xml text).1 (read_xml text).2.

(** The candidates in an open file, which its name says how to unpack. *)
Definition vendors_of_file (name : string) (file : node) (wanted : gset Identity) : F Catalog :=
  match extension name with
  | Some kind =>
      if kind ==? "xml" then content ← read_open file; st_lift (vendors_in wanted content)
      else if contains ["gz"; "xz"; "zst"] kind then
        content ← read_open file;
        '(text, succeeds) ← st_lift (map_err (λ _, Vendor_Io) (decompress (decompressor kind) content));
        let result := vendors_in wanted text in
        if negb (succeeds (is_ok result)) then st_throw (Invalid "primary decompression failed")
        else st_lift result
      else st_throw (Invalid "unsupported primary compression")
  | None => st_throw (Invalid "unsupported primary compression")
  end.

Definition inside (p repo : path) : bool := bool_decide (repo `suffix_of` p).

Definition repository_vendors (repo : path) (wanted : gset Identity) : F Catalog :=
  repomd_path ← io (canonicalize fault (join (join repo "repodata") "repomd.xml"));
  if negb (inside repomd_path repo) then st_throw (Invalid "repomd escapes repository")
  else
    repomd ← io (read_file fault repomd_path);
    primary ← st_lift (primary_record (read_xml repomd).1 (read_xml repomd).2);
    if is_empty (href primary) || unsafe_location (href primary)
    then st_throw (Invalid "unsafe primary location")
    else
      p ← io (canonicalize fault (reverse (components (href primary)) ++ repo));
      if negb (inside p repo) then st_throw (Invalid "primary location escapes repository")
      else
        file ← io (open_nofollow euid umask fault p false false 0);
        _ ← verify_checksum file primary;
        _ ← io (file_call fault);
        result ← vendors_of_file (default "" (head p)) file wanted;
        again ← io (read_file fault repomd_path);
        if again !=? repomd then st_throw (Invalid "metadata changed during lookup")
        else mret result.

(** One turn of the loop over the candidate sets. *)
Definition candidate_vendors (raw_cache : path) (alias : string) (wanted : gset Identity) : F Catalog :=
  root ← io (canonicalize fault raw_cache);
  repo ← io (canonicalize fault (join root alias));
  if negb (inside repo root) then st_throw (Invalid "repository cache escapes root")
  else repository_vendors repo wanted.

(* ------------------------------------------------------------------ *)
(** ** What the catalog of a repository comes from *)

#[local] Instance nodes_preorder : PreOrder (λ w w' : world, nodes w' = nodes w).
Proof. split; [done|intros ???; congruence]. Qed.

Lemma io_Ok {A} (f : gmap path node → result IoError A) w a w' :
  io (syscall fault (λ ns, (f ns, ns))) w = (Ok a, w') → f (nodes w) = Ok a ∧ nodes w' = nodes w.
Proof.
  intros H. apply st_map_err_Ok, syscall_Ok in H as (_ & H & _). by injection H as -> <-.
Qed.

Lemma read_file_Ok p w content w' :
  io (read_file fault p) w = (Ok content, w') →
  nodes w' = nodes w
  ∧ ∃ q u m, canonical MAX_LINKS (nodes w) [] (reverse p) = Ok q
      ∧ nodes w !! q = Some (File u m content).
Proof.
  intros H. apply st_map_err_Ok, syscall_Ok in H as (_ & H & _).
  destruct (canonical _ _ _ _) as [q|]; [|done].
  destruct (nodes w !! q) as [[u m|u m c|t]|] eqn:E; try done. injection H as -> <-. eauto 10.
Qed.

Lemma read_open_Ok n w content w' :
  read_open n w = (Ok content, w') → nodes w' = nodes w ∧ ∃ u m, n = File u m content.
Proof.
  unfold read_open. intros H. apply st_bind_Ok in H as ([] & w1 & [_ H1]%io_Ok & H).
  destruct n as [|u m c|]; try done. injection H as -> <-. eauto.
Qed.

(** The digest of a text under a named algorithm. *)
Definition digest_of (algorithm text : string) : option string :=
  if algorithm ==? "sha256" then Some (sha256 text)
  else if algorithm ==? "sha512" then Some (sha512 text)
  else None.

Lemma verify_checksum_Ok file primary w w' :
  verify_checksum file primary w = (Ok (), w') →
  nodes w' = nodes w ∧ ∃ u m content, file = File u m content
    ∧ digest_of (algorithm primary) content = Some (checksum primary).
Proof.
  unfold verify_checksum. intros H. apply st_bind_Ok in H as (actual & w1 & H1 & H).
  assert (nodes w1 = nodes w ∧ ∃ u m content, file = File u m content
    ∧ digest_of (algorithm primary) content = Some actual) as (N1 & u & m & content & -> & D).
  { unfold digest_of. destruct (_ ==? "sha256"); [|destruct (_ ==? "sha512"); [|done]];
      apply st_bind_Ok in H1 as (c & w2 & [N (u & m & ->)]%read_open_Ok & H1);
      injection H1 as <- <-; eauto 10. }
  destruct (_ !=? _) eqn:E; [done|]. injection H as <-. rewrite negb_false_iff, eqb_true in E.
  split; [done|]. exists u, m, content. by rewrite D, E.
Qed.

(** The text of the primary metadata, unpacked as the name of the file says. *)
Definition unpacked (name content text : string) : Prop :=
  (extension name = Some "xml" ∧ text = content)
  ∨ ∃ kind succeeds, extension name = Some kind ∧ contains ["gz"; "xz"; "zst"] kind = true
      ∧ decompress (decompressor kind) content = Ok (text, succeeds) ∧ succeeds true = true.

Lemma vendors_of_file_Ok name u m content wanted w catalog w' :
  vendors_of_file name (File u m content) wanted w = (Ok catalog, w') →
  nodes w' = nodes w ∧ ∃ text, unpacked name content text ∧ vendors_in wanted text = Ok catalog.
Proof.
  unfold vendors_of_file, unpacked. destruct (extension name) as [kind|]; [|done]. intros H.
  destruct (kind ==? "xml") eqn:Ex; [|destruct (contains _ kind) eqn:Ek; [|done]];
    apply st_bind_Ok in H as (c & w1 & [N1 (? & ? & [= _ _ <-])]%read_open_Ok & H).
  - rewrite eqb_true in Ex. injection H as H <-. split; [done|]. exists content.
    split; [left; by rewrite Ex|done].
  - apply st_bind_Ok in H as ([text succeeds] & w2 & [= Hd <-] & H). apply map_err_Ok in Hd. cbv zeta in H.
    destruct (succeeds _) eqn:Es; [|done]. injection H as H <-. rewrite H in Es. cbn in Es.
    split; [done|]. exists text. split; [right; by exists kind, succeeds|done].
Qed.

End repository.

(* ------------------------------------------------------------------ *)
(** ** The walk and the document *)

(** A document as a tree: elements with their expanded names, and words. *)
Inductive item : Type :=
  | Elem (ns name : string) (attrs : attributes) (items : list item)
  | Word (text : string).

Section item_induction.
Context (P : item → Prop) (Hw : ∀ t, P (Word t))
  (He : ∀ ns name attrs items, Forall P items → P (Elem ns name attrs items)).
Fixpoint item_rect' (i : item) : P i :=
  match i with
  | Word t => Hw t
  | Elem ns name attrs items =>
      He ns name attrs items
        ((fix go (l : list item) : Forall P l :=
            match l with [] => List.Forall_nil _ | x :: l' => List.Forall_cons _ _ _ (item_rect' x) (go l') end)
           items)
  end.
End item_induction.

Fixpoint events_of (i : item) : list (option ns_event) :=
  match i with
  | Elem ns name attrs items =>
      Some (Element false (Bound ns) name attrs) :: concat (map events_of items) ++ [Some Closing]
  | Word t => [Some (Characters (Some t))]
  end.

Section postorder.
Context {HE : Entities} {S : Type} (root_ns root_name : string).
Context (closed : S → list Node → Node → M S).

Definition opened (ns name : string) (attrs : gmap string string) : Node := {|
  node_ns := ns; node_name := name; node_attrs := attrs; node_text := "" |}.

(** The reference: an element is visited after its children, each of which sees the
    text before it in its parents. *)
Fixpoint visit (parents : list Node) (i : item) (s : S) {struct i} : M S :=
  match i with
  | Word _ => Ok s
  | Elem ns name attrs items =>
      attrs ← read_attrs attrs ∅;
      if (32 <=? length parents)%nat then Err (Invalid "excessive XML depth")
      else
        let fix children (node : Node) (items : list item) (s : S) : M (Node * S) :=
          match items with
          | [] => Ok (node, s)
          | Word t :: items' => node ← append node t; children node items' s
          | e :: items' => s ← visit (parents ++ [node]) e s; children node items' s
          end in
        '(node, s) ← children (opened ns name attrs) items s;
        closed s parents node
  end.

Fixpoint children (parents : list Node) (node : Node) (items : list item) (s : S) : M (Node * S) :=
  match items with
  | [] => Ok (node, s)
  | Word t :: items' => node ← append node t; children parents node items' s
  | e :: items' => s ← visit (parents ++ [node]) e s; children parents node items' s
  end.

Lemma visit_elem parents ns name attrs items s :
  visit parents (Elem ns name attrs items) s =
    (attrs ← read_attrs attrs ∅;
     if (32 <=? length parents)%nat then Err (Invalid "excessive XML depth")
     else
       '(node, s) ← children parents (opened ns name attrs) items s;
       closed s parents node).
Proof.
  cbn [visit]. destruct (read_attrs attrs ∅) as [a|e]; [|done]. unfold mbind, result_bind.
  destruct (_ <=? _)%nat; [done|]. f_equal. generalize (opened ns name a) as node. revert s.
  induction items as [|[ns' name' attrs' items'|t] items IH]; intros s node; [done| |].
  - cbn [children]. unfold mbind, result_bind. destruct (visit _ _ _); [apply IH|done].
  - cbn [children]. unfold mbind, result_bind. destruct (append node t); [apply IH|done].
Qed.

#[local] Abbreviation run := (on_events root_ns root_name closed).
#[local] Abbreviation at_node parents r s := {| stack := parents; roots := r; seen := s |}.

Lemma on_events_app w es es' : run w (es ++ es') = (w ← run w es; run w es').
Proof.
  revert w. induction es as [|e es IH]; intros w; [done|]. cbn. unfold mbind, result_bind.
  destruct (on_event _ _ _ w e); [apply IH|done].
Qed.

Lemma pop_snoc {A} (l : list A) x : pop (l ++ [x]) = Some (l, x).
Proof. unfold pop. by rewrite reverse_snoc, reverse_involutive. Qed.

(** An element inside another one leaves the stack as it was. *)
Definition streams (i : item) : Prop := ∀ parents r s,
  parents ≠ [] → (∀ t, i ≠ Word t) →
  run (at_node parents r s) (events_of i) = (s ← visit parents i s; Ok (at_node parents r s)).

Lemma on_word parents node r s t :
  on_event root_ns root_name closed (at_node (parents ++ [node]) r s) (Some (Characters (Some t)))
  = (node ← append node t; Ok (at_node (parents ++ [node]) r s)).
Proof.
  cbn. rewrite bool_decide_eq_false_2 by (by intros [_ [=]]%app_eq_nil).
  unfold append_last. cbn. by rewrite pop_snoc.
Qed.

Lemma children_stream items parents node r s :
  Forall streams items →
  run (at_node (parents ++ [node]) r s) (concat (map events_of items))
  = ('(node, s) ← children parents node items s; Ok (at_node (parents ++ [node]) r s)).
Proof.
  intros H. revert node s. induction H as [|i items Hi _ IH]; intros node s; [done|].
  change (concat (map events_of (i :: items))) with (events_of i ++ concat (map events_of items)).
  rewrite on_events_app. destruct i as [ns name attrs sub|t].
  - rewrite Hi by (done || by intros [_ [=]]%app_eq_nil). cbn [children]. unfold mbind, result_bind.
    destruct (visit _ _ s); [apply IH|done].
  - cbn [events_of on_events children]. unfold mbind at 2, result_bind at 2. rewrite on_word.
    unfold mbind, result_bind. destruct (append node t) as [node'|]; [apply IH|done].
Qed.

Lemma element_stream parents r s ns name attrs items :
  Forall streams items →
  (parents = [] → r = 0%nat ∧ ns = root_ns ∧ name = root_name) →
  run (at_node parents r s) (events_of (Elem ns name attrs items))
  = (s ← visit parents (Elem ns name attrs items) s;
     Ok (at_node parents (match parents with [] => 1%nat | _ => r end) s)).
Proof.
  intros Hs Hroot. rewrite visit_elem. cbn [events_of on_events on_event].
  unfold on_element. cbn [resolve stack roots seen].
  unfold mbind, result_bind. cbn iota. destruct (read_attrs attrs ∅) as [a|e]; [|done].
  set (root_bad := _ && _).
  assert (root_bad = false) as ->.
  { subst root_bad. destruct parents as [|p parents]; [|done].
    destruct (Hroot eq_refl) as (-> & -> & ->). unfold node_is. cbn. by rewrite !eqb_refl. }
  destruct (32 <=? length parents)%nat; [done|].
  rewrite on_events_app, children_stream by done. unfold mbind, result_bind.
  destruct (children parents _ items s) as [[node s']|e]; [|done].
  cbn [on_events on_event stack seen roots]. unfold mbind, result_bind, ok_or. rewrite pop_snoc.
  destruct (closed s' parents node); [|done]. destruct parents; [by destruct (Hroot eq_refl) as [-> _]|done].
Qed.

Lemma all_stream i : streams i.
Proof.
  induction i as [t|ns name attrs items IH] using item_rect'; intros parents r s Hp Hw.
  - by destruct (Hw t).
  - rewrite element_stream by done. by destruct parents.
Qed.

(** An empty element is one that is closed at once. *)
Lemma empty_element w ns name attrs :
  run w [Some (Element true ns name attrs)] = run w [Some (Element false ns name attrs); Some Closing].
Proof.
  cbn [on_events on_event]. unfold on_element, mbind, result_bind.
  destruct (resolve ns) as [n|]; [|done]. destruct (read_attrs attrs ∅) as [a|]; [|done].
  destruct (_ && _); [done|]. destruct (_ <=? _)%nat; [done|]. cbn [stack seen]. unfold ok_or.
  rewrite pop_snoc. by destruct (closed _ _ _).
Qed.

(** C27 The streaming walk is a post-order traversal: for every document tree with the
    right root, whatever its depth, attributes and text, the walk over its events
    gives what the reference gives that visits the tree itself: the same state, or
    the same error of a bound, an attribute or the closing function. *)
Theorem walk_is_postorder attrs items consumed s :
  let document := Elem root_ns root_name attrs items in
  walk root_ns root_name closed (events_of document) consumed s
  = (s ← visit [] document s;
     if (MAX_XML_BYTES <=? consumed)%Z then Err (Invalid "truncated XML") else Ok s).
Proof.
  intros document. unfold walk, document. rewrite element_stream; [|apply Forall_forall; intros i _; apply all_stream|done].
  unfold mbind, result_bind. destruct (visit _ _ s); [|done]. cbn.
  by destruct (MAX_XML_BYTES <=? consumed)%Z.
Qed.
End postorder.

(* ------------------------------------------------------------------ *)
(** ** The RPM database, printed and read *)

(** The document [RPM_QUERY] makes rpm print, between the tags the program adds; an
    architecture or vendor that is not set, printed as an empty element, is a field
    of empty text. *)
Definition field_item (text : string) : item := Elem "" "string" [] [Word text].
Definition package_item (row : list string) : item := Elem "" "package" [] (map field_item row).
Definition rpm_document (rows : list (list string)) : item :=
  Elem "" "rpmdb" [] (map package_item rows).

Definition short (text : string) : Prop := (str_len text ≤ 4096)%Z.

(** The vendors of the packages of an identity. *)
Definition row_vendor (k : Identity) (row : list string) : option string :=
  match row with
  | [name; epoch; version; release; arch; vendor] =>
      match rpm_edition epoch version release with
      | Ok ed => if bool_decide ((name, ed, arch) = k) then Some vendor else None
      | Err _ => None
      end
  | _ => None
  end.

(** What a catalog holds for an identity, after these vendors were inserted. *)
Definition entry_after (o : option (option string)) (vendors : list string) : option (option string) :=
  fold_left (λ o v, match o with None => Some (Some v) | Some _ => Some None end) vendors o.

Lemma insert_vendor_lookup c i vendor k :
  insert_vendor c i vendor !! k = if bool_decide (i = k) then entry_after (c !! k) [vendor] else c !! k.
Proof.
  unfold insert_vendor. case_bool_decide as E; [subst i|];
    by destruct (c !! _) eqn:Ec; rewrite ?lookup_insert_eq, ?lookup_insert_ne, ?Ec by done.
Qed.

Section rpm.
Context {HE : Entities}.
#[local] Abbreviation visit := (visit installed_closed).
#[local] Abbreviation children := (children installed_closed).

Definition rpm_root : Node := opened "" "rpmdb" ∅.
Definition rpm_package : Node := opened "" "package" ∅.

Lemma field_visit c fields text :
  short text → visit [rpm_root; rpm_package] (field_item text) (c, fields) = Ok (c, fields ++ [text]).
Proof.
  intros Ht. unfold field_item. rewrite visit_elem. cbn -[str_len append].
  assert (append (opened "" "string" ∅) text = Ok (with_text (opened "" "string" ∅) text)) as ->; [|done].
  unfold append. change (keeps_text _) with true. cbv iota. cbn [opened node_text].
  unfold short in Ht. change (str_len "") with 0%Z. by destruct (Z.ltb_spec 4096 (0 + str_len text)); [lia|].
Qed.

Lemma fields_visit c row fields :
  Forall short row →
  children [rpm_root] rpm_package (map field_item row) (c, fields) = Ok (rpm_package, (c, fields ++ row)).
Proof.
  intros H. revert fields. induction H as [|text row Ht _ IH]; intros fields.
  { by rewrite app_nil_r. }
  cbn [map Metadata.children field_item]. change (Elem "" "string" [] [Word text]) with (field_item text).
  cbn [app]. rewrite field_visit by done. cbn [mbind result_bind]. by rewrite IH, <- app_assoc.
Qed.

Lemma package_visit c row :
  Forall short row →
  visit [rpm_root] (package_item row) (c, []) = (c' ← Vendors.installed_vendors [row] c; Ok (c', [])).
Proof.
  intros H. unfold package_item. rewrite visit_elem. cbn [read_attrs mbind result_bind length Nat.leb].
  change (opened "" "package" ∅) with rpm_package. rewrite fields_visit by done.
  cbn [app mbind result_bind]. unfold installed_closed. cbn.
  do 6 (destruct row as [|? row]; [done|]). destruct row as [|? row]; [|done].
  by destruct (rpm_edition _ _ _).
Qed.

Lemma packages_visit c rows :
  Forall (Forall short) rows →
  children [] rpm_root (map package_item rows) (c, [])
  = (c' ← Vendors.installed_vendors rows c; Ok (rpm_root, (c', []))).
Proof.
  intros H. revert c. induction H as [|row rows Hr _ IH]; intros c; [done|].
  cbn [map Metadata.children package_item].
  change (Elem "" "package" [] (map field_item row)) with (package_item row). cbn [app].
  rewrite package_visit by done.
  do 6 (destruct row as [|? row]; [done|]). destruct row as [|? row]; [|done].
  cbn [Vendors.installed_vendors]. destruct (rpm_edition _ _ _) as [ed|]; [|done].
  unfold mbind, result_bind. apply IH.
Qed.

Lemma installed_lookup rows c catalog k :
  Vendors.installed_vendors rows c = Ok catalog →
  catalog !! k = entry_after (c !! k) (omap (row_vendor k) rows).
Proof.
  revert c. induction rows as [|row rows IH]; intros c H; [by injection H as ->|].
  do 6 (destruct row as [|? row]; [done|]). destruct row as [|? row]; [|done].
  cbn [Vendors.installed_vendors] in H. destruct (rpm_edition _ _ _) as [ed|] eqn:Ee in H; [|done].
  apply IH in H. rewrite H. cbn [omap list_omap row_vendor]. rewrite Ee.
  rewrite insert_vendor_lookup. by case_bool_decide.
Qed.

Lemma entry_after_alone vendors v : entry_after None vendors = Some (Some v) ↔ vendors = [v].
Proof.
  assert (∀ vs o, entry_after (Some o) vs = Some (Some v) → vs = [] ∧ o = Some v) as H.
  { intros vs. induction vs as [|x vs IH]; intros o; cbn; [by intros [= ->]|].
    intros [_ E]%IH. done. }
  destruct vendors as [|x vs]; cbn; [done|]. split.
  - by intros [-> [= ->]]%H.
  - by intros [= -> ->].
Qed.

End rpm.

(* ------------------------------------------------------------------ *)
(** ** The candidates of a repository, printed and read *)

Record primary_package := {
  pp_name : string; pp_arch : string; pp_epoch : string; pp_ver : string; pp_rel : string;
  pp_vendor : option string;
}.

Definition word_item (ns name text : string) : item := Elem ns name [] [Word text].
Definition version_attributes (p : primary_package) : attributes :=
  [Some ("epoch", Some (pp_epoch p)); Some ("ver", Some (pp_ver p)); Some ("rel", Some (pp_rel p))].
Definition vendor_items (p : primary_package) : list item :=
  match pp_vendor p with Some v => [word_item RPM "vendor" v] | None => [] end.
Definition primary_item (p : primary_package) : item :=
  Elem COMMON "package" [Some ("type", Some "rpm")]
    [word_item COMMON "name" (pp_name p); word_item COMMON "arch" (pp_arch p);
     Elem COMMON "version" (version_attributes p) []; Elem COMMON "format" [] (vendor_items p)].
Definition primary_document (packages : list primary_package) : item :=
  Elem COMMON "metadata" [] (map primary_item packages).

Definition printable (p : primary_package) : Prop :=
  short (pp_name p) ∧ short (pp_arch p) ∧ short (default "" (pp_vendor p)).

Definition pp_identity (p : primary_package) : M Identity :=
  ed ← rpm_edition (pp_epoch p) (pp_ver p) (pp_rel p); Ok (pp_name p, ed, pp_arch p).

(** The reference: the wanted packages, in order. *)
Fixpoint candidates_of (wanted : gset Identity) (packages : list primary_package) (catalog : Catalog)
  : M Catalog :=
  match packages with
  | [] => Ok catalog
  | p :: packages' =>
      identity ← pp_identity p;
      candidates_of wanted packages'
        (if bool_decide (identity ∈ wanted) then insert_vendor catalog identity (default "" (pp_vendor p))
         else catalog)
  end.

(** The vendor of a package of an identity, empty when none is named. *)
Definition candidate_vendor (k : Identity) (p : primary_package) : option string :=
  match pp_identity p with
  | Ok identity => if bool_decide (identity = k) then Some (default "" (pp_vendor p)) else None
  | Err _ => None
  end.

Section primary.
Context {HE : Entities} (wanted : gset Identity).
#[local] Abbreviation visit := (visit (vendors_closed wanted)).
#[local] Abbreviation children := (children (vendors_closed wanted)).

Definition primary_root : Node := opened COMMON "metadata" ∅.
Definition primary_node : Node := opened COMMON "package" {["type" := "rpm"]}.
Definition format_node : Node := opened COMMON "format" ∅.

Lemma word_visit parents ns name text s :
  keeps_text name = true → short text → (length parents < 32)%nat →
  visit parents (word_item ns name text) s
  = vendors_closed wanted s parents (with_text (opened ns name ∅) text).
Proof.
  intros Hn Ht Hl. unfold word_item. rewrite visit_elem. cbn [read_attrs mbind result_bind].
  destruct (Nat.leb_spec 32 (length parents)); [lia|].
  cbn [Metadata.children]. unfold append. cbn [opened node_name node_text]. rewrite Hn.
  unfold short in Ht. change (str_len "") with 0%Z. by destruct (Z.ltb_spec 4096 (0 + str_len text)); [lia|].
Qed.

(** The fields of a package that is open. *)
Definition fields_of (p : primary_package) (ed : string) : gmap string string :=
  let fields := <["edition" := ed]> (<["arch" := pp_arch p]> {["name" := pp_name p]}) in
  match pp_vendor p with Some v => <["vendor" := v]> fields | None => fields end.

(** An element below a package adds its field, once. *)
Lemma field_closed c fields parents node field :
  (1 < length parents)%nat → primary_field parents node = Ok field →
  (∀ k v, field = Some (k, v) → fields !! k = None) →
  vendors_closed wanted (c, fields) parents node
  = Ok (c, match field with Some (k, v) => <[k := v]> fields | None => fields end).
Proof.
  intros Hl Hf Hn. unfold vendors_closed. cbn [mbind result_bind]. rewrite Hf. cbn [mbind result_bind].
  destruct field as [[k v]|]; [rewrite (Hn k v eq_refl); cbn|cbn];
    by destruct (Nat.eqb_spec (length parents) 1); [lia|].
Qed.

#[local] Abbreviation inner := [primary_root; primary_node].

Lemma word_field c fields name text :
  contains ["name"; "arch"] name = true → short text → fields !! name = None →
  visit inner (word_item COMMON name text) (c, fields) = Ok (c, <[name := text]> fields).
Proof.
  intros Hn Ht Hf. rewrite contains_true in Hn.
  rewrite word_visit; [|set_solver|done|cbn; lia].
  rewrite (field_closed c fields inner _ (Some (name, text))); [done|cbn; lia| |].
  - apply elem_of_cons in Hn as [->|Hn]; [reflexivity|].
    apply list_elem_of_singleton in Hn as ->. reflexivity.
  - by intros k v [= <- <-].
Qed.

Lemma version_field c fields p :
  fields !! "edition" = None →
  visit inner (Elem COMMON "version" (version_attributes p) []) (c, fields)
  = (ed ← rpm_edition (pp_epoch p) (pp_ver p) (pp_rel p); Ok (c, <["edition" := ed]> fields)).
Proof.
  intros Hf. rewrite visit_elem.
  change (read_attrs (version_attributes p) ∅) with
    (Ok (E := VendorMetadataError) (<["rel" := pp_rel p]> (<["ver" := pp_ver p]> (<["epoch" := pp_epoch p]> (∅ : gmap string string))))).
  set (attrs := <["rel" := _]> _). cbn [mbind result_bind length Nat.leb Metadata.children].
  assert (primary_field inner (opened COMMON "version" attrs)
    = (ed ← rpm_edition (pp_epoch p) (pp_ver p) (pp_rel p); Ok (Some ("edition", ed)))) as E by reflexivity.
  destruct (rpm_edition _ _ _) as [ed|e] eqn:Ee.
  - rewrite (field_closed c fields inner _ (Some ("edition", ed))); [done|cbn; lia|done|].
    by intros k v [= <- <-].
  - unfold vendors_closed. cbn [mbind result_bind]. by rewrite E.
Qed.

Lemma format_field c fields p :
  short (default "" (pp_vendor p)) → fields !! "vendor" = None →
  visit inner (Elem COMMON "format" [] (vendor_items p)) (c, fields)
  = Ok (c, match pp_vendor p with Some v => <["vendor" := v]> fields | None => fields end).
Proof.
  intros Hv Hf. rewrite visit_elem. cbn [read_attrs mbind result_bind length Nat.leb].
  change (opened COMMON "format" ∅) with format_node. unfold vendor_items.
  assert (∀ f, vendors_closed wanted (c, f) inner format_node = Ok (c, f)) as Hc.
  { intros f. by rewrite (field_closed c f inner _ None) by (done || cbn; lia). }
  destruct (pp_vendor p) as [v|]; [|cbn [Metadata.children mbind result_bind]; apply Hc].
  cbn [Metadata.children word_item app]. change (Elem RPM "vendor" [] _) with (word_item RPM "vendor" v).
  rewrite word_visit by (done || cbn; lia).
  rewrite (field_closed c fields _ _ (Some ("vendor", v))); [|cbn; lia|reflexivity|by intros k x [= <- <-]].
  cbn [mbind result_bind]. apply Hc.
Qed.

Lemma package_children c p :
  printable p →
  children [primary_root] primary_node
    [word_item COMMON "name" (pp_name p); word_item COMMON "arch" (pp_arch p);
     Elem COMMON "version" (version_attributes p) []; Elem COMMON "format" [] (vendor_items p)] (c, ∅)
  = (ed ← rpm_edition (pp_epoch p) (pp_ver p) (pp_rel p); Ok (primary_node, (c, fields_of p ed))).
Proof.
  intros (Hn & Ha & Hv). cbn [Metadata.children app word_item].
  change (Elem COMMON "name" [] _) with (word_item COMMON "name" (pp_name p)).
  change (Elem COMMON "arch" [] _) with (word_item COMMON "arch" (pp_arch p)).
  rewrite word_field by done. cbn [mbind result_bind].
  rewrite word_field by (done || by rewrite lookup_insert_ne). cbn [mbind result_bind].
  rewrite version_field by (by rewrite !lookup_insert_ne).
  destruct (rpm_edition _ _ _) as [ed|]; [|done]. cbn [mbind result_bind].
  rewrite format_field by (done || by rewrite !lookup_insert_ne). done.
Qed.

Lemma primary_visit c p :
  printable p →
  visit [primary_root] (primary_item p) (c, ∅)
  = (c' ← candidates_of wanted [p] c; Ok (c', ∅)).
Proof.
  intros H. unfold primary_item. rewrite visit_elem.
  change (read_attrs [Some ("type", Some "rpm")] ∅) with
    (Ok (E := VendorMetadataError) ({["type" := "rpm"]} : gmap string string)).
  cbn [mbind result_bind length Nat.leb].
  change (opened COMMON "package" _) with primary_node. rewrite package_children by done.
  cbn [candidates_of]. unfold pp_identity.
  destruct (rpm_edition _ _ _) as [ed|]; [|done]. cbn [mbind result_bind].
  unfold vendors_closed. cbn [mbind result_bind].
  change (primary_field [primary_root] primary_node) with (Ok (E := VendorMetadataError) (A := option (string * string)) None).
  cbn [mbind result_bind]. change (_ && _) with true. cbv iota.
  assert (∀ k, k ≠ "vendor" → fields_of p ed !! k
    = (<["edition" := ed]> (<["arch" := pp_arch p]> {["name" := pp_name p]}) : gmap string string) !! k) as Hk.
  { intros k Hk. unfold fields_of. destruct (pp_vendor p); [by rewrite lookup_insert_ne|done]. }
  assert (default "" (fields_of p ed !! "vendor") = default "" (pp_vendor p)) as ->.
  { unfold fields_of. by destruct (pp_vendor p). }
  unfold get_field. rewrite !Hk by done.
  set (fields := <["edition" := ed]> _).
  change (fields !! "name") with (Some (pp_name p)). change (fields !! "edition") with (Some ed).
  change (fields !! "arch") with (Some (pp_arch p)). cbn [ok_or mbind result_bind].
  case_bool_decide; [|done]. change (attr primary_node "type") with (Ok (E := VendorMetadataError) "rpm").
  done.
Qed.

Lemma primaries_visit c packages :
  Forall printable packages →
  children [] primary_root (map primary_item packages) (c, ∅)
  = (c' ← candidates_of wanted packages c; Ok (primary_root, (c', ∅))).
Proof.
  intros H. revert c. induction H as [|p packages Hp _ IH]; intros c; [done|].
  assert (children [] primary_root (map primary_item (p :: packages)) (c, ∅)
    = (x ← visit [primary_root] (primary_item p) (c, ∅);
       children [] primary_root (map primary_item packages) x)) as -> by reflexivity.
  rewrite primary_visit by done. cbn [candidates_of].
  destruct (pp_identity p); [|done]. cbn [mbind result_bind]. apply IH.
Qed.

Lemma candidates_lookup packages c catalog k :
  candidates_of wanted packages c = Ok catalog →
  catalog !! k = (if bool_decide (k ∈ wanted) then entry_after (c !! k) (omap (candidate_vendor k) packages)
                  else c !! k).
Proof.
  revert c. induction packages as [|p packages IH]; intros c H.
  { injection H as ->. by case_bool_decide. }
  cbn [candidates_of] in H. apply bind_Ok in H as (identity & Hi & H). apply IH in H. rewrite H.
  cbn [omap list_omap]. unfold candidate_vendor at 2. rewrite Hi.
  destruct (bool_decide (identity ∈ wanted)) eqn:Hw;
    [apply bool_decide_eq_true in Hw; rewrite insert_vendor_lookup|apply bool_decide_eq_false in Hw];
    repeat case_bool_decide; by subst.
Qed.

(** The candidates are read from the metadata of the repository: the walk over the
    document of any list of packages gives the wanted ones, or the error of the
    first whose edition is none; a candidate has a vendor exactly when it is wanted,
    occurs once, and names a valid vendor. *)
Theorem primary_metadata_read packages consumed :
  Forall printable packages → (consumed < MAX_XML_BYTES)%Z →
  primary_vendors wanted (events_of (primary_document packages)) consumed
    = candidates_of wanted packages ∅
  ∧ ∀ catalog k v, candidates_of wanted packages ∅ = Ok catalog →
      (lookup_vendor catalog k = Ok v
       ↔ k ∈ wanted ∧ omap (candidate_vendor k) packages = [v] ∧ valid_vendor v = true).
Proof.
  intros Hp Hc. split.
  - unfold primary_vendors. pose proof (all_stream COMMON "metadata" (vendors_closed wanted)) as Hs.
    unfold walk, primary_document. rewrite element_stream; [|apply Forall_forall; intros i _; apply Hs|done].
    rewrite visit_elem. cbn [read_attrs mbind result_bind length Nat.leb].
    change (opened COMMON "metadata" ∅) with primary_root. rewrite primaries_visit by done.
    destruct (candidates_of wanted packages ∅) as [c|e]; [|done]. cbn [mbind result_bind].
    assert (vendors_closed wanted (c, ∅) [] primary_root = Ok (c, ∅)) as -> by reflexivity.
    cbn. by destruct (Z.leb_spec MAX_XML_BYTES consumed); [lia|].
  - intros catalog k v Hv. unfold lookup_vendor. rewrite ok_or_Ok, opt_filter_Some.
    rewrite (candidates_lookup _ _ _ k Hv), lookup_empty, <- entry_after_alone.
    case_bool_decide; [|naive_solver]. destruct (entry_after None _) as [[x|]|]; cbn; naive_solver.
Qed.
End primary.

(* ------------------------------------------------------------------ *)
(** ** Bounds of the walk *)

Definition bounded (n : Node) : Prop := (str_len (node_text n) ≤ 4096)%Z.
Definition within (stack : list Node) : Prop := (length stack ≤ 32)%nat ∧ Forall bounded stack.

Lemma append_bounded n text n' : bounded n → append n text = Ok n' → bounded n'.
Proof.
  unfold append, bounded. intros Hn. destruct (keeps_text _); [|by intros [= <-]].
  destruct (Z.ltb_spec 4096 (str_len (node_text n) + str_len text)) as [|Hl]; [done|].
  intros [= <-]. cbn. unfold str_len in *. rewrite string_length_app. lia.
Qed.

Lemma pop_Some {A} (l : list A) l' x : pop l = Some (l', x) → l = l' ++ [x].
Proof.
  unfold pop. destruct (reverse l) as [|y r] eqn:E; [done|]. intros [= <- ->].
  by rewrite <- (reverse_involutive l), E, reverse_cons.
Qed.

#[local] Arguments Nat.leb : simpl never.

Section bounds.
Context {HE : Entities} {S : Type} (root_ns root_name : string).
Context (closed closed' : S → list Node → Node → M S).
Context (Hclosed : ∀ s parents node,
  (length parents < 32)%nat → Forall bounded (node :: parents) →
  closed s parents node = closed' s parents node).
#[local] Abbreviation next c := (on_event root_ns root_name c).

Lemma append_last_within w text w' :
  within (stack w) → append_last (S := S) w text = Ok w' → within (stack w').
Proof.
  unfold append_last. destruct (pop (stack w)) as [[parents node]|] eqn:E; [|by intros ? [= <-]].
  apply pop_Some in E as ->. intros [Hl Hb] H. apply bind_Ok in H as (node' & Hn & [= <-]). cbn.
  apply Forall_app in Hb as [Hb Hx]. split; [by rewrite length_app in *|].
  apply Forall_app. split; [done|]. constructor; [|constructor].
  eapply append_bounded; [|exact Hn]. by inversion Hx.
Qed.

Lemma on_event_same w e : within (stack w) → next closed w e = next closed' w e.
Proof.
  intros [Hl Hb]. destruct e as [[empty ns name attrs| | | | | |]|]; try done; cbn.
  - unfold on_element. destruct (resolve ns); [|done]. cbn. destruct (read_attrs attrs ∅); [|done]. cbn.
    destruct (_ && _); [done|]. destruct (Nat.leb_spec 32 (length (stack w))); [done|].
    destruct empty; [|done]. rewrite Hclosed; [done|done|]. by constructor.
  - destruct (pop (stack w)) as [[parents node]|] eqn:E; [|done]. cbn.
    apply pop_Some in E. rewrite E in Hl, Hb. rewrite length_app in Hl. cbn in Hl.
    apply Forall_app in Hb as [Hp Hn]. rewrite Hclosed; [done|lia|]. constructor; [by inversion Hn|done].
Qed.

Lemma on_event_within w e w' :
  within (stack w) → next closed w e = Ok w' → within (stack w').
Proof.
  intros Hw. destruct e as [[empty ns name attrs| | | | | |]|]; try done; cbn; intros H.
  - unfold on_element in H. apply bind_Ok in H as (n & _ & H). apply bind_Ok in H as (a & _ & H).
    destruct (_ && _); [done|]. destruct (Nat.leb_spec 32 (length (stack w))); [done|].
    destruct empty; [by apply bind_Ok in H as (? & _ & [= <-])|]. injection H as <-. cbn.
    destruct Hw as [_ Hb]. split; [rewrite length_app; cbn; lia|].
    apply Forall_app. split; [done|]. by repeat constructor.
  - apply bind_Ok in H as ([parents node] & Hp & H). apply ok_or_Ok, pop_Some in Hp.
    apply bind_Ok in H as (? & _ & [= <-]). cbn. rewrite Hp in Hw. destruct Hw as [Hl Hb].
    rewrite length_app in Hl. apply Forall_app in Hb as [Hb _]. split; [lia|done].
  - apply bind_Ok in H as (text & _ & H). case_bool_decide.
    + destruct (negb _); [done|]. by injection H as <-.
    + by eapply append_last_within.
  - case_bool_decide; [by injection H as <-|]. apply bind_Ok in H as (text & _ & H).
    by eapply append_last_within.
  - apply bind_Ok in H as (? & _ & H). apply bind_Ok in H as (? & _ & H).
    by eapply append_last_within.
  - by injection H as <-.
Qed.

(** Whatever the document, what the walk holds is bounded: the closing function is
    only ever called with fewer than 32 open elements above the closed one, each
    with at most 4096 bytes of text, so that nothing it does on larger input can
    change what the walk returns. *)
Theorem walk_bounded events consumed s :
  walk root_ns root_name closed events consumed s = walk root_ns root_name closed' events consumed s.
Proof.
  unfold walk. f_equal.
  assert (∀ w, within (stack w) →
    on_events root_ns root_name closed w events = on_events root_ns root_name closed' w events) as H.
  { induction events as [|e events IH]; intros w Hw; [done|]. cbn [on_events].
    rewrite <- (on_event_same w e Hw). destruct (next closed w e) as [w1|] eqn:E; [|done].
    cbn [mbind result_bind]. apply IH. by eapply on_event_within. }
  rewrite H; [done|]. split; [cbn; lia|constructor].
Qed.
End bounds.

(* ------------------------------------------------------------------ *)
(** ** A concrete repository *)

Definition sample_entities : Entities := λ reference, if reference ==? "&amp;" then Some "&" else None.

Definition sample_rows : list (list string) :=
  [["firefox"; "0"; "1"; "1"; "x86_64"; "Lyra"]; ["kernel"; "2"; "6"; "1"; "x86_64"; "Lyra"];
   ["gpg-pubkey"; "0"; "a"; "b"; ""; "Lyra"]; ["gpg-pubkey"; "0"; "a"; "b"; ""; "Lyra"]].

Lemma sample_rows_read : ∃ catalog, Vendors.installed_vendors sample_rows ∅ = Ok catalog.
Proof. apply is_ok_true. vm_compute. reflexivity. Qed.


Definition sample_package (vendor : option string) : primary_package := {|
  pp_name := "firefox"; pp_arch := "x86_64"; pp_epoch := "0"; pp_ver := "2"; pp_rel := "1";
  pp_vendor := vendor |}.
Definition sample_wanted : gset Identity := {[("firefox", "2-1", "x86_64")]}.

Lemma sample_candidates_read :
  ∃ catalog, candidates_of sample_wanted [sample_package (Some "Lyra")] ∅ = Ok catalog.
Proof. apply is_ok_true. vm_compute. reflexivity. Qed.

Lemma primary_metadata_read_witness :
  ∃ catalog, primary_vendors (HE := sample_entities) sample_wanted
      (events_of (primary_document [sample_package (Some "Lyra")])) 1000 = Ok catalog
    ∧ lookup_vendor catalog ("firefox", "2-1", "x86_64") = Ok "Lyra".
Proof.
  destruct (primary_metadata_read (HE := sample_entities) sample_wanted [sample_package (Some "Lyra")] 1000)
    as [E H].
  - repeat constructor; vm_compute; discriminate.
  - reflexivity.
  - destruct sample_candidates_read as [catalog Ec]. exists catalog.
    split; [exact (eq_trans E Ec)|]. apply (H catalog _ _ Ec).
    split; [by apply elem_of_singleton|]. split; vm_compute; reflexivity.
Defined.

(** A closing function that refuses what the walk never shows it. *)
Definition guarded_closed (s : Catalog * list string) (parents : list Node) (node : Node)
  : M (Catalog * list string) :=
  if (32 <=? length parents)%nat then Err (Invalid "panic") else installed_closed s parents node.

Lemma walk_bounded_witness :
  walk (HE := sample_entities) "" "rpmdb" installed_closed (events_of (rpm_document sample_rows)) 1000 (∅, [])
  = walk (HE := sample_entities) "" "rpmdb" guarded_closed (events_of (rpm_document sample_rows)) 1000 (∅, []).
Proof.
  apply walk_bounded. intros s parents node Hl _. unfold guarded_closed.
  destruct (Nat.leb_spec 32 (length parents)) as [Hg|]; [|reflexivity].
  exfalso. exact (Nat.lt_irrefl _ (Nat.lt_le_trans _ _ _ Hl Hg)).
Defined.

(** A repository whose primary metadata is packed by gzip. *)
Definition repomd_document : item :=
  Elem REPO "repomd" []
    [Elem REPO "data" [Some ("type", Some "primary")]
       [Elem REPO "checksum" [Some ("type", Some "sha256")] [Word "SUM"];
        Elem REPO "location" [Some ("href", Some "repodata/primary.xml.gz")] []]].
Definition sample_read_xml (text : string) : list (option ns_event) * Z :=
  (events_of (if text ==? "repomd" then repomd_document
              else primary_document [sample_package (Some "Lyra")]), 1000%Z).
Definition sample_repository : path := ["repo-oss"; "raw"].
Definition repository_world : world := {|
  nodes := {[["raw"] := Dir 0 493; sample_repository := Dir 0 493;
             "repodata" :: sample_repository := Dir 0 493;
             "repomd.xml" :: "repodata" :: sample_repository := File 0 420 "repomd";
             "primary.xml.gz" :: "repodata" :: sample_repository := File 0 420 "packed"]};
  calls := 0 |}.
Definition sample_lookup (sum : string) : result VendorMetadataError Catalog * world :=
  candidate_vendors (HE := sample_entities) 0 18 no_fault sample_read_xml (λ _, sum) (λ _, "")
    (λ program content, Ok (content, λ finished, finished && (program ==? "gzip")))
    ["raw"] "repo-oss" sample_wanted repository_world.

Example sample_lookups :
  (c ← (sample_lookup "SUM").1; lookup_vendor c ("firefox", "2-1", "x86_64")) = Ok "Lyra"
  ∧ (sample_lookup "OTHER").1 = Err (Invalid "primary checksum mismatch").
Proof. vm_compute. split; reflexivity. Qed.

Example extensions :
  extension "primary.xml.gz" = Some "gz" ∧ extension ".xml" = None ∧ extension "xml" = None
  ∧ unsafe_location "repodata/x.gz" = false ∧ unsafe_location "../x" = true
  ∧ unsafe_location "/x" = true ∧ unsafe_location "./x" = true ∧ unsafe_location "a/./x" = false.
Proof. vm_compute. repeat split. Qed.

Definition sample_repository_run : result VendorMetadataError Catalog * world :=
  repository_vendors (HE := sample_entities) 0 18 no_fault sample_read_xml (λ _, "SUM") (λ _, "")
    (λ program content, Ok (content, λ finished, finished && (program ==? "gzip")))
    sample_repository sample_wanted repository_world.

