(* ===== verification/Client.v ===== *)
(** * The client of the service (src/src-tauri/src/main.rs)

    The window talks to two processes of the service, one it starts for reading and
    one pkexec starts for root, a line each way. The processes are an interface,
    [Peers]: what the client does is defined and proved against it, with any
    behaviour of the processes; and the service of Service.v, running behind such
    an interface, is an instance. The commands that ask gsettings and systemctl are
    here too. *)

From S2P Require Import Prelude RustStr Recovery State Fs Persistence Preflight Solver Plan.
From S2P Require Import ManifestData Manifest Migration Discovery Inventory SolverXml Vendors Protocol.
From S2P Require Import Sanitize EventLog EventFile System Planner Executor Request ManifestFetch.
From S2P Require Import Fixture Verifier Rollback Ownership Service Authority Loop.

Open Scope bool_scope.
Open Scope lyra_scope.

(* ------------------------------------------------------------------ *)
(** ** Processes *)

Definition SERVICE : string := "/usr/libexec/lyra-upgrade-service".

Definition admin_command : Command := {|
  program_path := "/usr/bin/pkexec"; command_arguments := [SERVICE];
  environment := [search_path] |}.

(** The two variables that are passed on, when they are set. *)
Definition query_command (variables : string → option string) : Command := {|
  program_path := SERVICE; command_arguments := ["--read-only"];
  environment := search_path :: omap (λ k, v ← variables k; Some (k, v)) ["HOME"; "XDG_CACHE_HOME"] |}.

(** Child processes with pipes, in a world [W]. *)
Class Peers (W H : Type) := {
  spawn : Command → ST W string H;
  (** The exit status, once there is one; [None] inside is a death by a signal. *)
  try_wait : H → ST W string (option (option Z));
  send : H → string → ST W string unit;
  (** One line, or less at the bound or the end of the stream. *)
  read_line : H → Z → ST W string string;
}.

Record Connections (H : Type) := { query : option H; admin : option H }.
#[global] Arguments query {H} _.
#[global] Arguments admin {H} _.
#[global] Arguments Build_Connections {H} _ _.

Definition MAX_REPLY : Z := 16 * 1024 * 1024.

Section client.
Context {W H J : Type} `{!Peers W H} (variables : string → option string).
(** serde_json: a value of the window as a request, a request as text, a text as a
    value. *)
Context (request_of : J → option Request) (request_json : Request → option string).
Context (value_of : string → option J).

#[local] Abbreviation M := (ST (Connections H * W) string).

Definition on_peers {A} (m : ST W string A) : M A := λ s,
  let '(r, w) := m s.2 in (r, (s.1, w)).
Definition held (administrative : bool) (c : Connections H) : option H :=
  if administrative then admin c else query c.
Definition set_guard (administrative : bool) (process : option H) : M unit :=
  st_modify (λ s, (if administrative then Build_Connections (query s.1) process
                   else Build_Connections process (admin s.1), s.2)).

Definition start_process (administrative : bool) : M H :=
  process ← on_peers (st_map_err (λ error, "cannot start service: " +:+ error)
    (spawn (if administrative then admin_command else query_command variables)));
  _ ← set_guard administrative (Some process);
  mret process.

(** The process of a connection, started when there is none that runs. *)
Definition connect (administrative : bool) : M H :=
  found ← st_get (λ s, held administrative s.1);
  ended ← match found with
          | Some process => status ← on_peers (try_wait process); mret (is_some status)
          | None => mret false
          end;
  _ ← (if (ended : bool) then set_guard administrative None else mret ());
  found ← st_get (λ s, held administrative s.1);
  match found with Some process => mret process | None => start_process administrative end.

Definition exchange (request : Request) : M J :=
  process ← connect (needs_authorization request);
  text ← st_lift (ok_or "cannot serialize request" (request_json request));
  _ ← on_peers (st_map_err (λ error, "cannot serialize request: " +:+ error) (send process text));
  _ ← on_peers (send process (String nl ""));
  response ← on_peers (read_line process (MAX_REPLY + 1));
  if is_empty response then
    status ← on_peers (try_wait process);
    if is_some_and status (λ code, (code ==? Some 126%Z) || (code ==? Some 127%Z))
    then st_throw "AUTHORIZATION"
    else st_throw "service closed the protocol stream"
  else if (MAX_REPLY <? str_len response)%Z || negb (ends_nl response) then st_throw "INVALID_RESPONSE"
  else st_lift (ok_or "invalid service response" (value_of response)).

Definition unconfirmed (request : Request) : bool :=
  match request with Protocol.Start _ _ _ _ confirmed _ => negb confirmed | _ => false end.

Definition service_request (value : J) : M J :=
  request ← st_lift (ok_or "INVALID_REQUEST" (request_of value));
  if negb (is_supported request) then st_throw "UNSUPPORTED_PROTOCOL"
  else if unconfirmed request then st_throw "CONFIRMATION_REQUIRED"
  else exchange request.

(** The requests of a window, one after another: the connections are locked. *)
Fixpoint session (values : list J) : M (list (result string J)) :=
  match values with
  | [] => mret []
  | value :: values' =>
      answer ← st_try (service_request value); answers ← session values'; mret (answer :: answers)
  end.
End client.

(* ------------------------------------------------------------------ *)
(** ** The other commands of the window *)

(** From the output of gsettings, [None] when it could not be started. *)
Definition color_scheme (output : option Output) : string :=
  match output with
  | Some result =>
      if success result then
        let scheme := trim_matches "034" (trim_matches "'" (trim (from_utf8_lossy (stdout result)))) in
        if scheme ==? "prefer-dark" then "dark" else "light"
      else "unknown"
  | None => "unknown"
  end.

(** From the status of systemctl. *)
Definition reboot_system (status : option Output) : result string unit :=
  match status with
  | Some result => if success result then Ok () else Err "REBOOT_FAILED"
  | None => Err "REBOOT_FAILED"
  end.

Example schemes :
  color_scheme (Some (sample_output ("'prefer-dark'" +:+ String nl ""))) = "dark"
  ∧ color_scheme (Some (sample_output "'default'")) = "light" ∧ color_scheme None = "unknown".
Proof. vm_compute. repeat split. Qed.

(* ------------------------------------------------------------------ *)
(** ** What is sent where *)

Inductive action (H : Type) : Type :=
  | Spawned (command : Command) (process : H)
  | Sent (process : H) (text : string).
#[global] Arguments Spawned {H} _ _.
#[global] Arguments Sent {H} _ _.

(** The same processes, with a log of what was started and sent. *)
#[export] Instance logged {W H} `{!Peers W H} : Peers (list (action H) * W) H := {
  spawn command := λ s,
    let '(r, w) := spawn command s.2 in
    (r, (match r with Ok h => s.1 ++ [Spawned command h] | Err _ => s.1 end, w));
  try_wait h := λ s, let '(r, w) := try_wait h s.2 in (r, (s.1, w));
  send h text := λ s, let '(r, w) := send h text s.2 in (r, (s.1 ++ [Sent h text], w));
  read_line h limit := λ s, let '(r, w) := read_line h limit s.2 in (r, (s.1, w)) }.

Section routes.
Context {W H J : Type} `{!Peers W H} (variables : string → option string).
Context (request_of : J → option Request) (request_json : Request → option string).
Context (value_of : string → option J).

#[local] Abbreviation state := (Connections H * (list (action H) * W))%type.
#[local] Abbreviation log := (λ s : state, s.2.1).

Definition command_of (administrative : bool) : Command :=
  if administrative then admin_command else query_command variables.

(** A text that may be sent to a process started by this command. *)
Definition allowed (command : Command) (text : string) : Prop :=
  ∃ request, is_supported request = true ∧ unconfirmed request = false
    ∧ command = command_of (needs_authorization request)
    ∧ (Some text = request_json request ∨ text = String nl "").

(** Every text went to a process that was started, by the command of its request. *)
Definition routed (l : list (action H)) : Prop :=
  ∀ l1 process text l2, l = l1 ++ Sent process text :: l2 →
    ∃ command, Spawned command process ∈ l1 ∧ allowed command text.

(** The connections hold processes started by their command. *)
Definition sound (s : state) : Prop :=
  routed (log s) ∧ ∀ administrative process,
    held administrative s.1 = Some process → Spawned (command_of administrative) process ∈ log s.

Lemma routed_nil : routed [].
Proof. intros l1 p text l2 E. by destruct l1. Qed.

Lemma routed_snoc l a :
  routed l →
  (∀ process text, a = Sent process text → ∃ command, Spawned command process ∈ l ∧ allowed command text) →
  routed (l ++ [a]).
Proof.
  intros Hl Ha l1 process text l2 E. destruct l2 as [|b l2 _] using rev_ind.
  - apply app_inj_tail in E as [-> ->]. by apply Ha.
  - rewrite app_comm_cons, app_assoc in E. apply app_inj_tail in E as [-> _]. by eapply Hl.
Qed.

(** A step from [s] keeps the log sound, and establishes [Q] when it succeeds. *)
Definition keeps_at {A} (s : state) (m : ST state string A) (Q : state → A → Prop) : Prop :=
  sound (m s).2 ∧ ∀ a, (m s).1 = Ok a → Q (m s).2 a.

Lemma bind_at {A B} s (m : ST state string A) (f : A → ST state string B) P Q :
  keeps_at s m P → (∀ a s1, sound s1 → P s1 a → keeps_at s1 (f a) Q) → keeps_at s (m ≫= f) Q.
Proof.
  intros [Hs1 Ha] Hf. unfold keeps_at, mbind, st_bind. destruct (m s) as [[a|e] s1]; [|by split].
  apply (Hf a s1 Hs1). by apply Ha.
Qed.

Lemma map_err_at {A} s (f : string → string) (m : ST (list (action H) * W) string A) Q :
  keeps_at s (on_peers m) Q → keeps_at s (on_peers (st_map_err f m)) Q.
Proof.
  unfold keeps_at, on_peers, st_map_err. destruct (m s.2) as [[] ?]; [done|]. intros [? _]. by split.
Qed.

Definition running (administrative : bool) (s : state) (process : H) : Prop :=
  Spawned (command_of administrative) process ∈ log s.

Lemma guard_set (administrative b : bool) (c : Connections H) (p : option H) :
  held b (if administrative then Build_Connections (query c) p else Build_Connections p (admin c))
  = if Bool.eqb administrative b then p else held b c.
Proof. by destruct administrative, b. Qed.

Lemma set_sound administrative (p : option H) s :
  sound s → (∀ h, p = Some h → running administrative s h) →
  sound (set_guard (W := list (action H) * W) administrative p s).2
  ∧ log (set_guard (W := list (action H) * W) administrative p s).2 = log s.
Proof.
  intros [Hr Hg] Hp. split; [|done]. split; [done|]. intros b h. cbn. rewrite guard_set.
  destruct (Bool.eqb_spec administrative b) as [<-|_]; [apply Hp|apply Hg].
Qed.

Lemma start_sound administrative s :
  sound s → keeps_at s (start_process (W := list (action H) * W) variables administrative) (running administrative).
Proof.
  destruct s as [c [l w]]. intros [Hr Hg].
  unfold keeps_at, start_process, mbind, st_bind, on_peers, st_map_err. cbn.
  destruct (spawn _ w) as [[h|e] w1]; cbn; [|by split].
  assert (sound (c, (l ++ [Spawned (command_of administrative) h], w1))) as Hs.
  { split; [by apply routed_snoc|]. intros b p Hp. cbn. apply elem_of_app. left. by apply (Hg b). }
  destruct (set_sound administrative (Some h) _ Hs) as [Hs1 _].
  { intros h' [= <-]. apply elem_of_app. right. by apply list_elem_of_singleton. }
  split; [exact Hs1|]. intros a [= <-]. apply elem_of_app. right. by apply list_elem_of_singleton.
Qed.

Lemma connect_sound administrative s :
  sound s → keeps_at s (connect (W := list (action H) * W) variables administrative) (running administrative).
Proof.
  destruct s as [c [l w]]. intros Hs. unfold connect, keeps_at, mbind, st_bind, st_get. cbn [fst].
  destruct (held administrative c) as [p|] eqn:Eg.
  - unfold on_peers. cbn. destruct (try_wait p w) as [[status|e] w1]; cbn; [|by split].
    assert (sound (c, (l, w1))) as Hs1 by apply Hs. destruct (is_some status).
    + destruct (set_sound administrative None _ Hs1) as [Hs2 _]; [done|].
      cbn. rewrite guard_set, Bool.eqb_reflx. by apply start_sound.
    + cbn. rewrite Eg. split; [done|]. intros a [= <-]. by apply (proj2 Hs).
  - cbn. rewrite Eg. by apply start_sound.
Qed.

Lemma send_sound process text administrative s :
  sound s → running administrative s process → allowed (command_of administrative) text →
  keeps_at s (on_peers (W := list (action H) * W) (send process text))
    (λ s _, running administrative s process).
Proof.
  intros [Hr Hg] Hp Ha. destruct s as [c [l w]]. unfold keeps_at, on_peers, running. cbn.
  destruct (send process text w) as [r w1]. cbn. split.
  - split; [|intros b h Hb; apply elem_of_app; left; by apply (Hg b)].
    apply routed_snoc; [done|]. intros p t [= <- <-]. by eexists.
  - intros u _. apply elem_of_app. by left.
Qed.

(** Waiting and reading send nothing. *)
Lemma quiet_sound {A} (m : ST (list (action H) * W) string A) s :
  (∀ x, (m x).2.1 = x.1) → sound s → keeps_at s (on_peers (H := H) m) (λ _ _, True).
Proof.
  intros Hm [Hr Hg]. destruct s as [c x]. unfold keeps_at, on_peers. cbn. specialize (Hm x).
  destruct (m x) as [r [l w]]. cbn in Hm. subst l. by split.
Qed.

Lemma exchange_sound request s :
  is_supported request = true → unconfirmed request = false → sound s →
  keeps_at s (exchange (W := list (action H) * W) variables request_json value_of request) (λ _ _, True).
Proof.
  intros Hs Hu Hx. unfold exchange. eapply bind_at; [by apply connect_sound|].
  intros process s1 Hs1 Hp.
  apply (bind_at _ _ _ (λ s text, running (needs_authorization request) s process
    ∧ request_json request = Some text)).
  { split; [done|]. intros a Ha%ok_or_Ok. by split. }
  intros text s2 Hs2 [Hp2 Ej].
  assert (∀ t, Some t = request_json request ∨ t = String nl "" →
    allowed (command_of (needs_authorization request)) t) as Ha by (intros t Ht; by exists request).
  eapply bind_at; [apply map_err_at, send_sound; [done|exact Hp2|apply Ha; by left]|].
  intros [] s3 Hs3 Hp3.
  eapply bind_at; [apply send_sound; [done|exact Hp3|apply Ha; by right]|].
  intros [] s4 Hs4 Hp4.
  eapply bind_at; [apply quiet_sound; [|done]|].
  { intros [l w]. cbn. by destruct (read_line process _ w). }
  intros response s5 Hs5 _. destruct (is_empty response).
  - eapply bind_at; [apply quiet_sound; [|done]|].
    { intros [l w]. cbn. by destruct (try_wait process w). }
    intros status s6 Hs6 _. by destruct (is_some_and _ _).
  - by destruct (_ || _).
Qed.

Lemma session_sound values s :
  sound s → sound (session (W := list (action H) * W) variables request_of request_json value_of values s).2.
Proof.
  revert s. induction values as [|value values IH]; intros s Hs; [done|].
  cbn [session]. unfold mbind at 1, st_bind at 1, st_try at 1.
  assert (keeps_at s (service_request (W := list (action H) * W) variables request_of request_json value_of value)
    (λ _ _, True)) as [Hs1 _].
  { unfold service_request. apply (bind_at _ _ _ (λ _ _, True)); [by split|].
    intros request s1 Hs1 _. destruct (is_supported request) eqn:Es; [|done].
    destruct (unconfirmed request) eqn:Eu; [done|]. by apply exchange_sound. }
  destruct (service_request _ _ _ _ _ s) as [x s1]. unfold mbind, st_bind.
  specialize (IH s1 Hs1). by destruct (session _ _ _ _ values s1) as [[] ?].
Qed.

(** C12 Requests go where they belong: whatever the window asks and however the
    processes behave, every text is sent to a process that was started before, by
    pkexec for exactly the requests that need authorization and with --read-only for
    the others; and nothing is sent that is not a supported request or a start the
    user did not confirm. *)
Theorem client_routes_requests values w l w' :
  (session (W := list (action H) * W) variables request_of request_json value_of values
     (Build_Connections None None, ([], w))).2.2 = (l, w') →
  ∀ l1 process text l2, l = l1 ++ Sent process text :: l2 →
    ∃ administrative request, Spawned (command_of administrative) process ∈ l1
      ∧ needs_authorization request = administrative ∧ is_supported request = true
      ∧ unconfirmed request = false
      ∧ (request_json request = Some text ∨ text = String nl "").
Proof.
  intros Hrun l1 process text l2 E.
  destruct (session_sound values (Build_Connections None None, ([], w))) as [Hr _].
  { split; [apply routed_nil|]. by intros []. }
  rewrite Hrun in Hr. cbn in Hr.
  destruct (Hr l1 process text l2 E) as (command & Hc & request & Hs & Hu & -> & Ht).
  exists (needs_authorization request), request. repeat (split; [done|]). destruct Ht; auto.
Qed.
End routes.

(* ------------------------------------------------------------------ *)
(** ** The service behind the pipes *)

(** A process of the service: what it keeps, whether pkexec is going to refuse it, the
    input and output nobody has read, and its status once it ended. *)
Record proc := {
  serving_of : serving;
  refused : bool;
  unread_input : string;
  unread_output : string;
  exit_status : option (option Z);
}.

(** Processes share the machine; each is named by its number. *)
Record machine := { machine_host : execution; procs : list proc }.

Definition read_only_service (uid : Z) : Service := {|
  state_root := state_root (new uid); caller_uid := uid; plans := ∅; service_events := ∅;
  workers := 0; read_only := true |}.

Section behind.
Context {HL : Libraries} (oracle : Oracle).
(** The effective user of a process, by whether it only reads. *)
Context (euid : bool → Z) (umask : Z) (fault : nat → option (IoError * nat)).
Context (pid : Z) (nonce : nat → Z).
Context (from_slice : string → option OperationEvent).
Context (pending_pretty : PendingPlan → string) (pending_parse : string → option PendingPlan).
Context (request_json : Request → option string) (request_parse : string → option Request).
Context (response_json : Response → string) (response_parse : string → option Response).
(** The user of the session, and whether pkexec lets the n-th process be root. *)
Context (user : Z) (authorized : nat → bool).
#[local] Abbreviation handled p := (handle oracle (euid (read_only (service (serving_of p)))) umask fault pid nonce from_slice pending_pretty
  pending_parse request_json response_parse).

(** A process as it starts. *)
Definition started_process (command : Command) (n : nat) (h : execution) : proc :=
  let only := bool_decide (command_arguments command = ["--read-only"]) in {|
  serving_of := {| host := h; service := if only then read_only_service user else new user;
                   logs := ∅; stages := ∅; threads := [] |};
  refused := (program_path command ==? "/usr/bin/pkexec") && negb (authorized n);
  unread_input := ""; unread_output := ""; exit_status := None |}.

Definition ended (p : proc) (rest output : string) (code : Z) : proc := {|
  serving_of := serving_of p; refused := refused p; unread_input := rest;
  unread_output := unread_output p +:+ output; exit_status := Some (Some code) |}.

(** A turn of the loop of the service, once a line is there; a pkexec the user refuses
    ends before the service reads anything. *)
Definition turn (p : proc) (h : execution) : proc * execution :=
  if refused p then (ended p (unread_input p) "" 126, h)
  else
  match read_request request_parse (unread_input p) with
  | (Ok (Some request), rest) =>
      let '(answer, v) := handled p request (with_host (serving_of p) h) in
      match answer with
      | Ok response =>
          ({| serving_of := v; refused := false; unread_input := rest;
              unread_output := unread_output p +:+ response_json response +:+ String nl "";
              exit_status := None |}, host v)
      | Err e => match e with end
      end
  | (Ok None, _) => (p, h)
  | (Err _, rest) =>
      (ended p rest (response_json (Rejected "unknown" "INVALID_REQUEST") +:+ String nl "") 0, h)
  end.

Definition with_input (p : proc) (text : string) : proc := {|
  serving_of := serving_of p; refused := refused p; unread_input := unread_input p +:+ text;
  unread_output := unread_output p; exit_status := exit_status p |}.
Definition with_output (p : proc) (text : string) : proc := {|
  serving_of := serving_of p; refused := refused p; unread_input := unread_input p;
  unread_output := text; exit_status := exit_status p |}.

#[export] Instance services : Peers machine nat := {
  spawn command := λ m,
    (Ok (length (procs m)),
     {| machine_host := machine_host m;
        procs := procs m ++ [started_process command (length (procs m)) (machine_host m)] |});
  try_wait h := λ m, (Ok (procs m !! h ≫= exit_status), m);
  send h text := λ m,
    match procs m !! h with
    | Some p =>
        if is_some (exit_status p) then (Err "Broken pipe", m)
        else
          let p := with_input p text in
          let '(p, host) := if ends_nl (unread_input p) then turn p (machine_host m)
                            else (p, machine_host m) in
          (Ok (), {| machine_host := host; procs := <[h := p]> (procs m) |})
    | None => (Err "Broken pipe", m)
    end;
  read_line h limit := λ m,
    match procs m !! h with
    | Some p =>
        let '(line, rest) := read_until limit (unread_output p) in
        (Ok line, {| machine_host := machine_host m; procs := <[h := with_output p rest]> (procs m) |})
    | None => (Ok "", m)
    end }.

#[local] Existing Instance services.
Context {J : Type} (variables : string → option string) (value_of : string → option J).
#[local] Abbreviation exchanged := (exchange (W := machine) (H := nat) variables request_json value_of).

(** A process that runs and owes nothing. *)
Definition idle (m : machine) (h : nat) (p : proc) : Prop :=
  procs m !! h = Some p ∧ refused p = false ∧ exit_status p = None ∧ unread_input p = "" ∧ unread_output p = "".

(** The process a request will use: an idle one, or the one that will be started. *)
Definition partner (administrative : bool) (s : Connections nat * machine) (p : proc) : Prop :=
  match held administrative s.1 with
  | Some h => idle s.2 h p
  | None =>
      p = started_process (if administrative then admin_command else query_command variables)
            (length (procs s.2)) (machine_host s.2)
      ∧ refused p = false
  end.

Lemma connect_partner administrative c m p :
  partner administrative (c, m) p →
  ∃ h c' m', connect variables administrative (c, m) = (Ok h, (c', m'))
    ∧ idle m' h p ∧ machine_host m' = machine_host m ∧ held administrative c' = Some h.
Proof.
  unfold partner, connect, mbind, st_bind, st_get. cbn [fst snd].
  destruct (held administrative c) as [h|] eqn:Eh.
  - intros (Hp & Hr & He & Hi & Ho). cbn. rewrite Hp. cbn. rewrite He. cbn. rewrite Eh.
    exists h, c, m. by repeat split.
  - intros [-> Hr]. cbn. rewrite Eh.
    eexists _, _, _. split; [reflexivity|]. split; [|split; [done|by destruct administrative]].
    split; [cbn; by rewrite lookup_app_r, Nat.sub_diag|]. by split.
Qed.

Lemma send_some m h p text p' host' :
  procs m !! h = Some p → exit_status p = None →
  (if ends_nl (unread_input (with_input p text)) then turn (with_input p text) (machine_host m)
   else (with_input p text, machine_host m)) = (p', host') →
  send h text m = (Ok (), {| machine_host := host'; procs := <[h := p']> (procs m) |}).
Proof. intros Hp He Ht. cbn [send services]. rewrite Hp, He. cbn [is_some]. cbv zeta. by rewrite Ht. Qed.

End behind.

(* ------------------------------------------------------------------ *)
(** ** A concrete window *)

Definition declined_update : OperationStateRecord :=
  stopped failed_update Failed "RECOVERY_DECLINED" "2026-08-18T00:00:00Z".
Definition client_libraries : Libraries := {|
  plan_json := λ _, Ok "plan"; plan_pretty := λ _, Ok "plan"; manifest_json := λ _, Ok "manifest";
  manifest_pretty := λ _, Ok "manifest"; record_json := sample_encode;
  record_parse := λ text,
    if text ==? state_text sample_encode failed_update then Some failed_update
    else if text ==? state_text sample_encode declined_update then Some declined_update else None;
  inventory_json := λ _, "inventory"; inventory_parse := λ _, None; plan_parse := λ _, None;
  manifest_parse := λ _, None;
  mounts_json := sample_layout; xml_events := sample_update_events; digest := λ _, zeros 64 |}.
Definition client_json (request : Request) : option string :=
  Some (if unconfirmed request then "start" else if needs_authorization request then "decline" else "check").
Definition client_parse (line : string) : option Request :=
  if line ==? "decline" +:+ String nl "" then Some decline
  else if line ==? "check" +:+ String nl "" then Some (CheckRelease PROTOCOL_VERSION "c") else None.
Definition client_answer (response : Response) : string :=
  match response with Rejected _ code => code | _ => "accepted" end.
Definition client_machine : machine := {| machine_host := host (sample_service 1000 false); procs := [] |}.

Definition client_services (authorized : bool) : Peers machine nat :=
  services (HL := client_libraries) rollback_oracle (λ only, if only then 1000%Z else 0%Z) 18 no_fault 104
    (λ n, Z.of_nat n) (λ _, None) (λ _, "pending") (λ _, None) (λ _, None) client_parse client_answer
    (λ _, None) 1000 (λ _, authorized).

(** The user declines the rollback, then checks for a release. *)
Definition client_session (authorized : bool) :=
  session (H := nat) (Peers0 := logged (Peers0 := client_services authorized)) (λ _, None)
    (λ value : string, client_parse (value +:+ String nl "")) client_json (λ text, Some text)
    ["decline"; "check"; "unknown"] (Build_Connections None None, ([], client_machine)).

Example sample_session :
  (client_session true).1 = Ok [Ok ("accepted" +:+ String nl ""); Ok ("QUERY_UNAVAILABLE" +:+ String nl "");
                                Err "INVALID_REQUEST"]
  ∧ (client_session false).1 = Ok [Err "AUTHORIZATION"; Ok ("QUERY_UNAVAILABLE" +:+ String nl "");
                                   Err "INVALID_REQUEST"].
Proof. vm_compute. split; reflexivity. Qed.

Lemma client_routes_requests_witness :
  ∃ administrative request, needs_authorization request = administrative
    ∧ Spawned (command_of (λ _, None) administrative) 0%nat ∈ [Spawned (H := nat) admin_command 0%nat]
    ∧ client_json request = Some "decline".
Proof.
  destruct (client_routes_requests (Peers0 := client_services true) (λ _, None)
    (λ value : string, client_parse (value +:+ String nl "")) client_json (λ text, Some text)
    ["decline"; "check"; "unknown"] client_machine (client_session true).2.2.1 (client_session true).2.2.2
    (surjective_pairing _) [Spawned admin_command 0%nat] 0%nat "decline"
    (drop 2 (client_session true).2.2.1))
    as (administrative & request & Hs & Hn & _ & _ & [Hj|Hj]).
  - vm_compute. reflexivity.
  - exists administrative, request. split; [exact Hn|]. split; [exact Hs|exact Hj].
  - discriminate Hj.
Defined.

Definition client_process : proc :=
  started_process 1000 (λ _, true) admin_command 0 (machine_host client_machine).
Definition client_handled : result Empty_set Response * serving :=
  handle (HL := client_libraries) rollback_oracle 0 18 no_fault 104 (λ n, Z.of_nat n)
    (λ _, None) (λ _, "pending") (λ _, None) client_json (λ _, None) decline
    (with_host (serving_of client_process) (machine_host client_machine)).

(** A handler always answers. *)
Definition answer_of {A} (r : result Empty_set A) : A :=
  match r with Ok a => a | Err e => match e with end end.
Lemma answer_of_Ok {A} (r : result Empty_set A) : r = Ok (answer_of r).
Proof. by destruct r as [|[]]. Qed.

