(* ===== verification/Probe.v ===== *)
(** * The evidence probe of a guest (src/probe/src/main.rs)

    What the probe of a virtual machine prints or sends: the release, the
    installation, and the most recent operation on disk. The port of the hypervisor,
    the serializer, the answer of rpm, the order of a directory and the lengths the
    system reports for files (those of /proc and /sys are not their content's) are
    parameters. *)

From S2P Require Import Prelude RustStr State Fs Persistence System Executor Request Pending.

Open Scope bool_scope.
Open Scope lyra_scope.

Definition STATE_ROOT : path := ["operations"; "lyra-upgrade"; "lib"; "var"].

Record ReleaseEvidence := {
  release_id : string;
  version_id : string;
  edition : string;
  architecture : string;
  build_id : string;
}.

Record UpgradeEvidence := {
  upgrade_package_version : option string;
  upgrade_operation_id : option string;
  operation_state : option OperationState;
  operation_sequence : option Z;
  source_version : option string;
  target_version : option string;
  snapshot_recorded : option bool;
}.

Record GuestEvidence := {
  evidence_schema : Z;
  evidence_status : string;
  evidence_mode : string;
  installation_uuid : string;
  boot_id : string;
  evidence_session : string;
  release : ReleaseEvidence;
  upgrade : UpgradeEvidence;
}.

(* ------------------------------------------------------------------ *)
(** ** Reading facts *)

Definition MAX_FACT : Z := 64 * 1024.

Definition os_release_entry (line : string) : option (string * string) :=
  '(key, value) ← split_once "=" line; Some (key, trim_matches "034" value).

(** A later line replaces an earlier one. *)
Definition parse_os_release (input : string) : gmap string string :=
  fold_left (λ values '(key, value), <[key := value]> values) (omap os_release_entry (lines input)) ∅.

Definition required (values : gmap string string) (key : string) : result string string :=
  ok_or ("missing " +:+ key +:+ " in os-release") (opt_filter (λ value, negb (is_empty value)) (values !! key)).

Definition fact_byte (b : ascii) : bool := is_ascii_alphanumeric b || byte_in ".-_" b.

(** The first line of the form [key='value']. *)
Definition product_fact (input key : string) : result string string :=
  let prefix := key +:+ "='" in
  ok_or ("missing or invalid " +:+ key +:+ " in product-release")
    (opt_filter (λ value, negb (is_empty value) && bytes_all fact_byte value)
       (find_map (λ line, value ← strip_prefix prefix line; strip_suffix "'" value) (lines input))).

Definition validate_uuid (value : string) : result string unit :=
  let parts := split "-" value in
  if bool_decide (map str_len parts = [8; 4; 4; 4; 12]%Z) && list_all (bytes_all is_ascii_hexdigit) parts
  then Ok () else Err "malformed UUID fact".

(** From the answer of rpm, [None] when it was not started. *)
Definition package_version (output : option Output) : option string :=
  output ← output; if success output then Some (trim (from_utf8_lossy (stdout output))) else None.

(* ------------------------------------------------------------------ *)
(** ** Collecting *)

Section probe.
Context (fault : nat → option (IoError * nat)).
Context (decode : string → option OperationStateRecord).
Context (read_dir : path → gmap path node → result IoError (list (option string))).
(** [Metadata::len] of a file, from its path and content. *)
Context (length_of : path → string → Z).
#[local] Abbreviation M := (ST world string).

Definition read_small (p : path) : M string :=
  metadata ← st_map_err (λ _, "missing required fact: " +:+ display p) (symlink_metadata fault p);
  match metadata with
  | File _ _ content =>
      if (MAX_FACT <? length_of p content)%Z then st_throw ("unsafe required fact: " +:+ display p)
      else
        bytes ← st_map_err (λ _, "unreadable required fact: " +:+ display p) (read_file fault p);
        value ← st_lift (ok_or ("unreadable required fact: " +:+ display p) (from_utf8 bytes));
        mret (trim value)
  | _ => st_throw ("unsafe required fact: " +:+ display p)
  end.

Definition entry_record (root : path) (entry : option string) : M (option OperationStateRecord) :=
  match entry with
  | None => mret None
  | Some name =>
      kind ← st_try (E' := string) (symlink_metadata fault (join root name));
      match kind with
      | Ok (Dir _ _) =>
          if negb (utf8_valid name) then mret None
          else loaded ← st_try (E' := string) (load_state fault decode root name); mret (res_ok loaded)
      | _ => mret None
      end
  end.

Fixpoint entry_records (root : path) (entries : list (option string)) : M (list OperationStateRecord) :=
  match entries with
  | [] => mret []
  | entry :: entries' =>
      found ← entry_record root entry;
      states ← entry_records root entries';
      mret (match found with Some r => r :: states | None => states end)
  end.

Definition later (left right : OperationStateRecord) : bool := le_of (updated_at right) (updated_at left).

Definition latest_operation (root : path) : M (option OperationStateRecord) :=
  entries ← st_try (E' := string) (syscall fault (λ ns, (read_dir root ns, ns)));
  match entries with
  | Err _ => mret None
  | Ok entries => states ← entry_records root entries; mret (head (sort_by later states))
  end.

(** [Path::exists], which follows links. *)
Definition exists_at (p : path) : M bool :=
  found ← st_try (E' := string)
    (syscall fault (λ ns, (q ← canonical MAX_LINKS ns [] (reverse p); ok_or NotFound (ns !! q), ns)));
  mret (is_ok found).

(** [str::to_lowercase]: what is not ASCII is refused by the caller either way. *)
Definition collect (root state_root : path) (package_version : option string) : M GuestEvidence :=
  os_release ← read_small (join (join (join root "usr") "lib") "os-release");
  let os_release := parse_os_release os_release in
  product_release ← read_small (join (join (join (join root "usr") "lib") "lyra-os") "product-release");
  uuid ← read_small (join (join (join (join (join root "sys") "class") "dmi") "id") "product_uuid");
  let installation_uuid := to_ascii_lowercase uuid in
  boot ← read_small (join (join (join (join (join root "proc") "sys") "kernel") "random") "boot_id");
  let boot_id := to_ascii_lowercase boot in
  _ ← st_lift (validate_uuid installation_uuid);
  _ ← st_lift (validate_uuid boot_id);
  latest ← latest_operation state_root;
  live ← exists_at (join (join (join root "run") "overlay") "live");
  id ← st_lift (required os_release "ID");
  version ← st_lift (product_fact product_release "LYRA_VERSION_ID");
  edition ← st_lift (product_fact product_release "LYRA_EDITION");
  architecture ← st_lift (product_fact product_release "LYRA_ARCHITECTURE");
  build ← st_lift (product_fact product_release "LYRA_BUILD_ID");
  mret {|
    evidence_schema := 1; evidence_status := "observed"; evidence_mode := "guest-upgrade-state";
    installation_uuid := installation_uuid; boot_id := boot_id;
    evidence_session := if (live : bool) then "live" else "installed";
    release := {| release_id := id; version_id := version; edition := edition;
                  architecture := architecture; build_id := build |};
    upgrade := {|
      upgrade_package_version := package_version;
      upgrade_operation_id := operation_id <$> latest;
      operation_state := state <$> latest;
      operation_sequence := sequence <$> latest;
      source_version := (λ r, State.version (source r)) <$> latest;
      target_version := r ← latest; State.version <$> target r;
      snapshot_recorded := (λ r, is_some (snapshot_number r)) <$> latest |} |}.
End probe.

(* ------------------------------------------------------------------ *)
(** ** Reporting *)

(** The port of the hypervisor: whether there is one, whether it opens, whether it is
    a character device ([None] when that cannot be asked), how many bytes it takes
    before a write fails, and whether it flushes. *)
Record Port := {
  port_exists : bool;
  port_opens : bool;
  port_is_char_device : option bool;
  port_room : option nat;
  port_flushes : bool;
}.

(** What reached the port so far, and a further write to it. *)
Definition write_port (port : Port) (sent text : string) : bool * string :=
  match port_room port with
  | Some n =>
      if String.length (sent +:+ text) <=? n then (true, sent +:+ text)
      else (false, String.substring 0 n (sent +:+ text))
  | None => (true, sent +:+ text)
  end.

Definition emit_to_virtio (to_json : GuestEvidence → string) (evidence : GuestEvidence) (port : Port)
    : result string unit * string :=
  if negb (port_exists port) then (Ok (), "")
  else if negb (port_opens port) then (Err "cannot open virtio evidence port", "")
  else
    match port_is_char_device port with
    | None => (Err "cannot inspect virtio evidence port", "")
    | Some false => (Err "virtio evidence port is not a character device", "")
    | Some true =>
        let '(written, sent) := write_port port "" (to_json evidence) in
        if negb written then (Err "cannot serialize guest evidence", sent)
        else
          let '(written, sent) := write_port port sent (String nl "") in
          if negb written then (Err "cannot write guest evidence", sent)
          else if negb (port_flushes port) then (Err "cannot flush guest evidence", sent)
          else (Ok (), sent)
    end.

(** How a run of the program ends: its status, what it printed, its complaint, and
    what reached the port. *)
Record Outcome := {
  exit_code : Z;
  printed : string;
  complaint : string;
  sent : string;
}.

Definition refused (error : string) (sent : string) : Outcome := {|
  exit_code := 1; printed := ""; complaint := "lyra-upgrade-probe: " +:+ error +:+ String nl "";
  sent := sent |}.

Section main.
Context (fault : nat → option (IoError * nat)).
Context (decode : string → option OperationStateRecord).
Context (read_dir : path → gmap path node → result IoError (list (option string))).
Context (length_of : path → string → Z).
Context (to_json to_json_pretty : GuestEvidence → string) (rpm : option Output) (port : Port).

(** The arguments without the name of the program. *)
Definition main (arguments : list string) : ST world Empty_set Outcome :=
  let run (emit_virtio : bool) : ST world Empty_set Outcome :=
    collected ← st_try (collect fault decode read_dir length_of [] STATE_ROOT (package_version rpm));
    mret match collected with
         | Ok evidence =>
             if emit_virtio then
               match emit_to_virtio to_json evidence port with
               | (Ok _, sent) => {| exit_code := 0; printed := ""; complaint := ""; sent := sent |}
               | (Err error, sent) => refused error sent
               end
             else {| exit_code := 0; printed := to_json_pretty evidence +:+ String nl ""; complaint := "";
                     sent := "" |}
         | Err error => refused error ""
         end in
  match arguments with
  | [] => run false
  | [argument] =>
      if argument ==? "--emit-virtio" then run true
      else mret {| exit_code := 2; printed := "";
                   complaint := "usage: lyra-upgrade-probe [--emit-virtio]" +:+ String nl ""; sent := "" |}
  | _ => mret {| exit_code := 2; printed := "";
                 complaint := "usage: lyra-upgrade-probe [--emit-virtio]" +:+ String nl ""; sent := "" |}
  end.
End main.

(* ------------------------------------------------------------------ *)
(** ** Facts *)

Lemma still_nodes {E A} (m : ST world E A) w : st_rel (touches (λ _, False)) m → nodes (m w).2 = nodes w.
Proof. intros H. apply map_eq. intros q. apply H. tauto. Qed.

Section facts.
Context (fault : nat → option (IoError * nat)).
Context (decode : string → option OperationStateRecord).
Context (read_dir : path → gmap path node → result IoError (list (option string))).
Context (length_of : path → string → Z).
#[local] Abbreviation still := (λ m, st_rel (touches (λ _, False)) m).

(** A fact is the trimmed content of a regular file of a bounded length. *)
Definition fact (ns : gmap path node) (p : path) (value : string) : Prop :=
  ∃ user mode content q user' mode' content',
    ns !! p = Some (File user mode content) ∧ (length_of p content ≤ MAX_FACT)%Z
    ∧ canonical MAX_LINKS ns [] (reverse p) = Ok q ∧ ns !! q = Some (File user' mode' content')
    ∧ utf8_valid content' = true ∧ value = trim content'.

(** An identifier as the validation leaves it: five groups of lower-case digits. *)
Definition uuid_shape (value : string) : Prop :=
  ∃ a b c d e, value = a +:+ "-" +:+ b +:+ "-" +:+ c +:+ "-" +:+ d +:+ "-" +:+ e
    ∧ map String.length [a; b; c; d; e] = [8; 4; 4; 4; 12]
    ∧ Forall (λ part, bytes_all lower_hex part = true) [a; b; c; d; e].

(** A value of the release that was written as a line of the file. *)
Definition stated (product key value : string) : Prop :=
  (key +:+ "='" +:+ value +:+ "'") ∈ lines product ∧ value ≠ "" ∧ bytes_all fact_byte value = true.

Lemma split_single c s p : split c s = [p] → s = p.
Proof.
  revert p. induction s as [|b s IH]; intros p; cbn [split]; [by intros [= <-]|].
  destruct (Ascii.eqb b c).
  - intros [= _ E]. by destruct (split_nonempty c s).
  - destruct (split c s) as [|q qs] eqn:E; [by destruct (split_nonempty c s)|]. intros [= <- ->].
    by rewrite (IH _ eq_refl).
Qed.

Lemma split_cons c s p q ps :
  split c s = p :: q :: ps → ∃ s', s = p +:+ String c s' ∧ split c s' = q :: ps.
Proof.
  revert p. induction s as [|b s IH]; intros p; cbn [split]; [done|].
  destruct (Ascii.eqb_spec b c) as [->|_].
  - intros [= <- E]. by exists s.
  - destruct (split c s) as [|x xs] eqn:E; [by destruct (split_nonempty c s)|]. intros [= <- ->].
    destruct (IH _ eq_refl) as (s' & -> & Hs). by exists s'.
Qed.

Lemma lowercase_no_upper s : bytes_all (λ b, negb (is_ascii_uppercase b)) (to_ascii_lowercase s) = true.
Proof.
  induction s as [|b s IH]; [done|]. cbn. apply andb_true_iff. split; [|done].
  by destruct b as [[] [] [] [] [] [] [] []].
Qed.

Lemma bytes_all_both p q s :
  bytes_all p s = true → bytes_all q s = true → bytes_all (λ b, p b && q b) s = true.
Proof.
  induction s as [|b s IH]; [done|]. cbn. rewrite !andb_true_iff. intros [??] [??]. auto.
Qed.

Lemma validate_uuid_shape value :
  validate_uuid (to_ascii_lowercase value) = Ok () → uuid_shape (to_ascii_lowercase value).
Proof.
  unfold validate_uuid. cbv zeta. pose proof (lowercase_no_upper value) as Hu. revert Hu.
  generalize (to_ascii_lowercase value) as s. intros s Hu.
  destruct (bool_decide _) eqn:Hl; [|done]. destruct (list_all _ _) eqn:Ha; [|done]. intros _.
  apply bool_decide_eq_true in Hl. apply list_all_true in Ha.
  destruct (split "-" s) as [|a [|b [|c [|d [|e [|]]]]]] eqn:E; try discriminate Hl.
  apply split_cons in E as (s1 & -> & E). apply split_cons in E as (s2 & -> & E).
  apply split_cons in E as (s3 & -> & E). apply split_cons in E as (s4 & -> & E).
  apply split_single in E as ->. exists a, b, c, d, e. split; [done|]. split.
  - unfold str_len in Hl. cbn in *. injection Hl. intros. repeat (f_equal; try lia).
  - do 4 (rewrite bytes_all_app in Hu; cbn in Hu; apply andb_true_iff in Hu as [? Hu];
          apply andb_true_iff in Hu as [_ Hu]).
    rewrite !Forall_cons in *. destruct Ha as (? & ? & ? & ? & ? & _).
    repeat split; try by apply bytes_all_both. constructor.
Qed.

Lemma find_map_Some {A B} (f : A → option B) l y : find_map f l = Some y → ∃ x, x ∈ l ∧ f x = Some y.
Proof.
  induction l as [|x l IH]; [done|]. cbn. destruct (f x) eqn:E.
  - intros [= <-]. exists x. split; [left|done].
  - intros (z & Hz & Ez)%IH. exists z. split; [by right|done].
Qed.

Lemma product_fact_stated product key value :
  product_fact product key = Ok value → stated product key value.
Proof.
  unfold product_fact. cbv zeta. intros H%ok_or_Ok. apply opt_filter_Some in H as [H Hb].
  apply find_map_Some in H as (line & Hin & Hl). apply andb_true_iff in Hb as [Hn Hb].
  destruct (strip_prefix _ line) as [v|] eqn:E; [|done]. cbn [mbind option_bind] in Hl.
  apply strip_prefix_Some in E. apply strip_suffix_Some in Hl. subst.
  rewrite <- !string_app_assoc in Hin. split; [exact Hin|]. split; [|done]. by intros ->.
Qed.

Lemma required_Ok values key value :
  required values key = Ok value → values !! key = Some value ∧ value ≠ "".
Proof. intros H%ok_or_Ok. apply opt_filter_Some in H as [H Hn]. split; [done|]. by intros ->. Qed.

(* ------------------------------------------------------------------ *)
(** ** What is collected *)

Lemma read_small_still p : still (read_small fault length_of p).
Proof.
  unfold read_small. apply st_rel_bind; [apply _|apply st_rel_map_err, symlink_metadata_touches|].
  intros [u m|u m c|t]; auto with frames. destruct (_ <? _)%Z; [auto with frames|].
  apply st_rel_bind; [apply _|apply st_rel_map_err, read_file_touches|intros bytes].
  apply st_rel_bind; [apply _|auto with frames|intros; auto with frames].
Qed.

Lemma entry_record_still root entry : still (entry_record fault decode root entry).
Proof.
  destruct entry as [name|]; cbn; [|auto with frames].
  apply st_rel_bind; [apply _|apply st_rel_try, symlink_metadata_touches|].
  intros [[u m|u m c|t]|e]; auto with frames. destruct (negb _); [auto with frames|].
  apply st_rel_bind; [apply _|apply st_rel_try, load_state_touches|intros; auto with frames].
Qed.

Lemma entry_records_still root entries : still (entry_records fault decode root entries).
Proof.
  induction entries as [|entry entries IH]; cbn; [auto with frames|].
  apply st_rel_bind; [apply _|apply entry_record_still|intros found].
  apply st_rel_bind; [apply _|exact IH|intros; auto with frames].
Qed.

Lemma latest_operation_still root : still (latest_operation fault decode read_dir root).
Proof.
  apply st_rel_bind; [apply _|apply st_rel_try, syscall_touches; by intros|intros [entries|e]];
    [|auto with frames].
  apply st_rel_bind; [apply _|apply entry_records_still|intros; auto with frames].
Qed.

Lemma exists_at_still p : still (exists_at fault p).
Proof. apply st_rel_bind; [apply _|apply st_rel_try, syscall_touches; by intros|intros; auto with frames]. Qed.

Lemma read_small_fact p w value w' :
  read_small fault length_of p w = (Ok value, w') → fact (nodes w) p value ∧ nodes w' = nodes w.
Proof using Type.
  intros H. pose proof (still_nodes _ w (read_small_still p)) as Hn. rewrite H in Hn. split; [|exact Hn].
  clear decode read_dir. unfold read_small in H. st_inv.
  match goal with Hs : symlink_metadata _ _ _ = _ |- _ => apply symlink_metadata_Ok in Hs as [Hp Hw] end.
  destruct x as [u m|u m c|t]; try discriminate H.
  destruct (Z.ltb_spec MAX_FACT (length_of p c)) as [|Hl]; [discriminate H|]. st_inv.
  match goal with Hs : ok_or _ _ = _ |- _ => apply ok_or_Ok in Hs; unfold from_utf8 in Hs end.
  match goal with Hs : read_file _ _ _ = _ |- _ => apply syscall_Ok in Hs as (_ & Hs & _); rewrite Hw in Hs end.
  destruct (canonical _ _ _ _) as [q|] eqn:Eq; [|by simplify_eq].
  destruct (nodes w !! q) as [[|u' m' c'|]|] eqn:Ec; simplify_eq.
  destruct (utf8_valid _) eqn:Eu; simplify_eq. unfold fact. naive_solver.
Qed.

(** Whichever call fails, the records that are read are those on disk. *)
Definition recorded (ns : gmap path node) (root : path) (name : string) (r : OperationStateRecord) : Prop :=
  (∃ user mode, ns !! join root name = Some (Dir user mode))
  ∧ (∃ user mode text, ns !! join (join root name) "state.json" = Some (File user mode text) ∧ decode text = Some r)
  ∧ operation_id r = name ∧ validate_state r = Ok ().

Lemma entry_record_found root entry w r w' :
  entry_record fault decode root entry w = (Ok (Some r), w') →
  ∃ name, entry = Some name ∧ recorded (nodes w) root name r.
Proof.
  destruct entry as [name|]; [|done]. unfold entry_record. intros H.
  apply st_bind_try in H as (kind & w1 & H1 & H).
  destruct kind as [[u m|u m c|t]|]; try done. apply symlink_metadata_Ok in H1 as [H1 Hn1].
  destruct (negb _); [done|]. apply st_bind_try in H as (loaded & w2 & H2 & H).
  destruct loaded as [r'|]; [|done]. injection H as -> <-.
  apply load_state_sound in H2 as (u2 & m2 & text & H2 & Hd & Hi & Hv). rewrite Hn1 in H2.
  exists name. split; [done|]. split; [by eexists _, _|]. split; [by eexists _, _, _|done].
Qed.

Lemma entry_records_found root entries w states w' r :
  entry_records fault decode root entries w = (Ok states, w') → r ∈ states →
  ∃ name, Some name ∈ entries ∧ recorded (nodes w) root name r.
Proof.
  revert w states w'. induction entries as [|entry entries IH]; cbn; intros w states w' H Hr.
  { injection H as <- _. by apply elem_of_nil in Hr. }
  apply st_bind_Ok in H as (found & w1 & H1 & H). apply st_bind_Ok in H as (states' & w2 & H2 & H).
  pose proof (still_nodes _ w (entry_record_still root entry)) as Hn. rewrite H1 in Hn. cbn in Hn.
  assert (r ∈ states' → ∃ name, Some name ∈ entry :: entries ∧ recorded (nodes w) root name r) as Hrest.
  { intros Hin. destruct (IH _ _ _ H2 Hin) as (name & ? & ?). rewrite Hn in *. exists name. split; [by right|done]. }
  destruct found as [r0|]; injection H as <- _; [|auto]. apply elem_of_cons in Hr as [->|Hr]; [|auto].
  apply entry_record_found in H1 as (name & -> & Hrec). exists name. split; [left|done].
Qed.
End facts.

(** Without a failing call no record that loads is passed over. *)
Section complete.
Context (decode : string → option OperationStateRecord).

Lemma entry_record_loaded root name w user mode r :
  nodes w !! join root name = Some (Dir user mode) → utf8_valid name = true →
  (load_state no_fault decode root name w).1 = Ok r →
  (entry_record no_fault decode root (Some name) w).1 = Ok (Some r).
Proof.
  intros Hd Hu Hl. unfold entry_record, symlink_metadata, syscall, mbind, st_bind, st_try. cbn.
  rewrite Hd. cbn. rewrite Hu. cbn.
  destruct (load_state_reads decode root name w {| nodes := nodes w; calls := S (calls w) |} eq_refl) as [E _].
  rewrite Hl in E. destruct (load_state _ _ _ _ {| nodes := _; calls := _ |}) as [x w2]. cbn in *. by subst.
Qed.

Lemma entry_records_loaded root entries w states w' name user mode r :
  entry_records no_fault decode root entries w = (Ok states, w') → Some name ∈ entries →
  nodes w !! join root name = Some (Dir user mode) → utf8_valid name = true →
  (load_state no_fault decode root name w).1 = Ok r → r ∈ states.
Proof.
  revert w states w'. induction entries as [|entry entries IH]; cbn; intros w states w' H He Hd Hu Hl.
  { by apply elem_of_nil in He. }
  apply st_bind_Ok in H as (found & w1 & H1 & H). apply st_bind_Ok in H as (states' & w2 & H2 & H).
  pose proof (still_nodes _ w (entry_record_still no_fault decode root entry)) as Hn.
  rewrite H1 in Hn. cbn in Hn. apply elem_of_cons in He as [<-|He].
  - pose proof (entry_record_loaded root name w user mode r Hd Hu Hl) as Hf. rewrite H1 in Hf. injection Hf as ->.
    injection H as <- _. left.
  - assert (r ∈ states') as Hr.
    { apply (IH w1 states' w2); [done|done|by rewrite Hn|done|].
      destruct (load_state_reads decode root name w w1 (eq_sym Hn)) as [E _]. congruence. }
    destruct found; injection H as <- _; [by right|done].
Qed.
End complete.

Section evidence.
Context (fault : nat → option (IoError * nat)).
Context (decode : string → option OperationStateRecord).
Context (read_dir : path → gmap path node → result IoError (list (option string))).
Context (length_of : path → string → Z).

(** The operation part of the evidence shows one record, or none. *)
Definition shows (u : UpgradeEvidence) (r : option OperationStateRecord) : Prop :=
  upgrade_operation_id u = operation_id <$> r ∧ operation_state u = state <$> r
  ∧ operation_sequence u = sequence <$> r ∧ source_version u = (λ r, State.version (source r)) <$> r
  ∧ target_version u = (r ← r; State.version <$> target r)
  ∧ snapshot_recorded u = (λ r, is_some (snapshot_number r)) <$> r.

Lemma latest_operation_found root w r w' :
  latest_operation fault decode read_dir root w = (Ok (Some r), w') →
  ∃ name entries, read_dir root (nodes w) = Ok entries ∧ Some name ∈ entries
    ∧ recorded decode (nodes w) root name r.
Proof.
  unfold latest_operation. intros H. apply st_bind_try in H as (entries & w1 & H1 & H).
  destruct entries as [entries|]; [|done]. apply syscall_Ok in H1 as (_ & H1 & _).
  apply pair_equal_spec in H1 as [Hr Hn]. apply st_bind_Ok in H as (states & w2 & H2 & H).
  injection H as H _. apply head_Some_elem_of, sort_by_elem in H.
  destruct (entry_records_found fault decode root entries w1 states w2 r H2 H) as (name & Hi & Hrec).
  rewrite <- Hn in Hrec. by exists name, entries.
Qed.

(** Without a failing call, no record that loads is more recent than the one shown. *)
Lemma latest_operation_newest root w latest w' entries name user mode r :
  latest_operation no_fault decode read_dir root w = (Ok latest, w') →
  read_dir root (nodes w) = Ok entries → Some name ∈ entries →
  nodes w !! join root name = Some (Dir user mode) → utf8_valid name = true →
  (load_state no_fault decode root name w).1 = Ok r →
  ∃ r', latest = Some r' ∧ le_of (updated_at r) (updated_at r') = true.
Proof.
  unfold latest_operation. intros H Hr Hi Hd Hu Hl.
  apply st_bind_try in H as (entries' & w1 & H1 & H).
  assert (entries' = Ok entries ∧ nodes w1 = nodes w) as [-> Hn].
  { unfold syscall in H1. cbn in H1. rewrite Hr in H1. by injection H1 as <- <-. }
  apply st_bind_Ok in H as (states & w2 & H2 & H). injection H as H _.
  assert (r ∈ states) as Hin.
  { apply (entry_records_loaded decode root entries w1 states w2 name user mode); [done..|by rewrite Hn|done|].
    destruct (load_state_reads decode root name w w1 (eq_sym Hn)) as [E _]. congruence. }
  destruct latest as [r'|].
  - exists r'. split; [done|]. apply (head_sort_by later) in H as [_ H]; [exact (H r Hin)|..]; unfold later.
    + intros x y. apply le_of_total.
    + intros x y z. intros Hxy Hyz. by eapply le_of_trans.
    + intros x. apply le_of_refl.
  - apply (sort_by_elem later) in Hin. destruct (sort_by later states); [by apply elem_of_nil in Hin|done].
Qed.

(** C25 Whichever call fails, the probe changes no file, and the evidence it collects is
    that of the files: both identifiers are those of the machine and the boot, of the
    shape of one in lower case; the release is the one the two release files state, with
    plain values; and the operation is a valid record on disk below the name it carries.
    When no call fails, no record that loads is more recent than the one shown. *)
Theorem probe_evidence_sound root state_root version w e w' :
  collect fault decode read_dir length_of root state_root version w = (Ok e, w') →
  nodes w' = nodes w
  ∧ (∃ os product uuid boot,
      fact length_of (nodes w) ("os-release" :: "lib" :: "usr" :: root) os
      ∧ fact length_of (nodes w) ("product-release" :: "lyra-os" :: "lib" :: "usr" :: root) product
      ∧ fact length_of (nodes w) ("product_uuid" :: "id" :: "dmi" :: "class" :: "sys" :: root) uuid
      ∧ fact length_of (nodes w) ("boot_id" :: "random" :: "kernel" :: "sys" :: "proc" :: root) boot
      ∧ installation_uuid e = to_ascii_lowercase uuid ∧ uuid_shape (installation_uuid e)
      ∧ boot_id e = to_ascii_lowercase boot ∧ uuid_shape (boot_id e)
      ∧ parse_os_release os !! "ID" = Some (release_id (release e)) ∧ release_id (release e) ≠ ""
      ∧ stated product "LYRA_VERSION_ID" (version_id (release e))
      ∧ stated product "LYRA_EDITION" (edition (release e))
      ∧ stated product "LYRA_ARCHITECTURE" (architecture (release e))
      ∧ stated product "LYRA_BUILD_ID" (build_id (release e)))
  ∧ upgrade_package_version (upgrade e) = version
  ∧ (∃ latest, shows (upgrade e) latest
      ∧ (∀ r, latest = Some r → recorded decode (nodes w) state_root (operation_id r) r)
      ∧ (fault = no_fault → ∀ entries name user mode r,
           read_dir state_root (nodes w) = Ok entries → Some name ∈ entries →
           nodes w !! join state_root name = Some (Dir user mode) → utf8_valid name = true →
           (load_state no_fault decode state_root name w).1 = Ok r →
           ∃ r', latest = Some r' ∧ le_of (updated_at r) (updated_at r') = true)).
Proof.
  unfold collect. intros H.
  apply st_bind_Ok in H as (os & w1 & [Hos N1]%read_small_fact & H).
  apply st_bind_Ok in H as (product & w2 & [Hpr N2]%read_small_fact & H).
  apply st_bind_Ok in H as (uuid & w3 & [Huu N3]%read_small_fact & H).
  apply st_bind_Ok in H as (boot & w4 & [Hbo N4]%read_small_fact & H).
  apply st_bind_Ok in H as ([] & w5 & Hvu & H). injection Hvu as Hvu <-.
  apply st_bind_Ok in H as ([] & w6 & Hvb & H). injection Hvb as Hvb <-.
  apply st_bind_Ok in H as (latest & w7 & Hla & H).
  pose proof (still_nodes _ w4 (latest_operation_still fault decode read_dir state_root)) as N7.
  rewrite Hla in N7. cbn in N7.
  apply st_bind_Ok in H as (live & w8 & Hli & H).
  pose proof (still_nodes _ w7 (exists_at_still fault (join (join (join root "run") "overlay") "live"))) as N8.
  rewrite Hli in N8. cbn in N8. clear Hli. st_inv. subst e.
  assert (nodes w4 = nodes w) as N by congruence. rewrite N1 in Hpr. rewrite N2, N1 in Huu.
  rewrite N3, N2, N1 in Hbo. split; [congruence|]. split; [|split; [done|]].
  - exists os, product, uuid, boot. cbn.
    repeat match goal with Hs : product_fact _ _ = Ok _ |- _ => apply product_fact_stated in Hs end.
    match goal with Hs : required _ _ = Ok _ |- _ => apply required_Ok in Hs as [Hi Hi'] end.
    apply validate_uuid_shape in Hvu, Hvb. by split_and!.
  - exists latest. split; [by split_and!|]. split.
    + intros r ->. apply latest_operation_found in Hla as (name & entries & _ & _ & Hrec).
      rewrite N in Hrec. destruct Hrec as (Hd & Hf & <- & Hv).
      split; [exact Hd|]. by split; [exact Hf|].
    + intros -> entries name user mode r Hr Hi Hd Hu Hl. rewrite <- N in Hr, Hd.
      eapply latest_operation_newest; [exact Hla|exact Hr|exact Hi|exact Hd|exact Hu|].
      destruct (load_state_reads decode state_root name w w4 (eq_sym N)) as [E _]. congruence.
Qed.
End evidence.

(* ------------------------------------------------------------------ *)
(** ** How the program ends *)

(** A port that takes evidence. *)
Definition usable (port : Port) : Prop :=
  port_exists port = true ∧ port_opens port = true ∧ port_is_char_device port = Some true.

Lemma write_port_prefix port sent text :
  (write_port port sent text).2 = sent +:+ text ∧ (write_port port sent text).1 = true
  ∨ (write_port port sent text).1 = false ∧ ∃ n, (write_port port sent text).2 = String.substring 0 n (sent +:+ text).
Proof.
  unfold write_port. destruct (port_room port) as [n|]; [|by left].
  destruct (_ <=? n); [by left|right; split; [done|by exists n]].
Qed.

(** Only a usable port gets bytes, and they are a prefix of one line. *)
Lemma emit_prefix to_json evidence port r sent :
  emit_to_virtio to_json evidence port = (r, sent) →
  (sent ≠ "" → usable port)
  ∧ (∃ rest, to_json evidence +:+ String nl "" = sent +:+ rest)
  ∧ (r = Ok () → sent = to_json evidence +:+ String nl "" ∨ port_exists port = false ∧ sent = "").
Proof.
  unfold emit_to_virtio, usable.
  destruct (port_exists port); [|intros [= <- <-]; split; [done|]; split; [by eexists|by right]].
  destruct (port_opens port); [|intros [= <- <-]; split; [done|]; split; [by eexists|done]].
  destruct (port_is_char_device port) as [[]|]; [|intros [= <- <-]; split; [done|]; split; [by eexists|done]..].
  destruct (write_port_prefix port "" (to_json evidence)) as [[E1 E2]|(E2 & n & E1)];
    destruct (write_port port "" _) as [ok1 s1]; cbn in *; subst.
  - destruct (write_port_prefix port (to_json evidence) (String nl "")) as [[E1 E2]|(E2 & n & E1)];
      destruct (write_port port _ _) as [ok2 s2]; cbn in *; subst; cbn.
    + destruct (port_flushes port); intros [= <- <-]; (split; [done|]); (split; [by exists ""; rewrite string_app_nil_r|]).
      * intros _. by left.
      * done.
    + destruct (substring_prefix n (to_json evidence +:+ String nl "")) as [rest Hr].
      intros [= <- <-]. split; [done|]. split; [by exists rest|done].
  - destruct (substring_prefix n (to_json evidence)) as [rest Hr]. intros [= <- <-].
    split; [done|]. split; [|done]. exists (rest +:+ String nl "").
    rewrite string_app_assoc. f_equal. exact Hr.
Qed.

Lemma collect_still fault decode read_dir length_of root state_root version :
  st_rel (touches (λ _, False)) (collect fault decode read_dir length_of root state_root version).
Proof.
  unfold collect. cbv zeta.
  do 4 (apply st_rel_bind; [apply _|apply read_small_still|intros ?]).
  do 2 (apply st_rel_bind; [apply _|auto with frames|intros ?]).
  apply st_rel_bind; [apply _|apply latest_operation_still|intros ?].
  apply st_rel_bind; [apply _|apply exists_at_still|intros ?].
  do 5 (apply st_rel_bind; [apply _|auto with frames|intros ?]). auto with frames.
Qed.

Section ends.
Context (fault : nat → option (IoError * nat)).
Context (decode : string → option OperationStateRecord).
Context (read_dir : path → gmap path node → result IoError (list (option string))).
Context (length_of : path → string → Z).
Context (to_json to_json_pretty : GuestEvidence → string) (rpm : option Output) (port : Port).
#[local] Abbreviation collected := (collect fault decode read_dir length_of [] STATE_ROOT (package_version rpm)).

(** For any arguments and whichever call fails, the program ends with a status and
    changes no file. Bad arguments end with 2 before any call; a failure ends with 1,
    prints no evidence, and only a prefix of the line can have reached the port; and 0
    means that the evidence was collected, and printed once or sent once as one line to a
    character device, or, when there is no port, nowhere. *)
Theorem probe_outcome arguments w :
  ∃ o w', main fault decode read_dir length_of to_json to_json_pretty rpm port arguments w = (Ok o, w')
    ∧ nodes w' = nodes w
    ∧ (exit_code o = 2%Z ∧ arguments ≠ [] ∧ arguments ≠ ["--emit-virtio"] ∧ w' = w
         ∧ printed o = "" ∧ sent o = ""
       ∨ exit_code o = 1%Z ∧ printed o = "" ∧ complaint o ≠ ""
         ∧ (sent o ≠ "" → arguments = ["--emit-virtio"] ∧ usable port
              ∧ ∃ e rest, collected w = (Ok e, w') ∧ to_json e +:+ String nl "" = sent o +:+ rest)
       ∨ exit_code o = 0%Z ∧ complaint o = "" ∧ ∃ e, collected w = (Ok e, w')
         ∧ (arguments = [] ∧ printed o = to_json_pretty e +:+ String nl "" ∧ sent o = ""
            ∨ arguments = ["--emit-virtio"] ∧ printed o = ""
              ∧ (port_exists port = false ∧ sent o = ""
                 ∨ usable port ∧ sent o = to_json e +:+ String nl ""))).
Proof.
  assert (∀ e, to_json e +:+ String nl "" ≠ "") as Hne by (intros e; by destruct (to_json e)).
  pose proof (still_nodes _ w (collect_still fault decode read_dir length_of [] STATE_ROOT (package_version rpm))) as Hn.
  destruct (decide (arguments = [])) as [->|H0]; [|destruct (decide (arguments = ["--emit-virtio"])) as [->|H1]].
  - unfold main, mbind, st_bind, st_try. destruct (collected w) as [[e|e] w1]; cbn in *.
    + eexists _, w1. split; [reflexivity|]. split; [done|]. right. right. split; [done|]. split; [done|].
      exists e. split; [done|]. by left.
    + eexists _, w1. split; [reflexivity|]. split; [done|]. right. left. by split_and!.
  - cbn [main]. rewrite eqb_refl. unfold mbind, st_bind, st_try. destruct (collected w) as [[e|e] w1]; cbn in *.
    + destruct (emit_to_virtio to_json e port) as [r s] eqn:E.
      pose proof (emit_prefix _ _ _ _ _ E) as (Hu & Hp & Hr).
      destruct r as [[]|error]; (eexists _, w1; split; [reflexivity|]; split; [done|]; cbn).
      * right. right. split; [done|]. split; [done|]. exists e. split; [done|]. right. split; [done|].
        split; [done|]. destruct (Hr eq_refl) as [->|[He ->]]; [right|by left].
        split; [by apply Hu, Hne|done].
      * right. left. split; [done|]. split; [done|]. split; [done|]. intros Hs.
        split; [done|]. split; [by apply Hu|]. destruct Hp as [rest Hp]. by exists e, rest.
    + eexists _, w1. split; [reflexivity|]. split; [done|]. right. left. by split_and!.
  - assert (main fault decode read_dir length_of to_json to_json_pretty rpm port arguments w
      = (Ok {| exit_code := 2; printed := "";
               complaint := "usage: lyra-upgrade-probe [--emit-virtio]" +:+ String nl ""; sent := "" |}, w)) as E.
    { destruct arguments as [|argument [|]]; [done| |done]. cbn [main].
      destruct (argument ==? "--emit-virtio") eqn:Ea; [|done]. rewrite eqb_true in Ea. by subst. }
    eexists _, w. split; [exact E|]. split; [done|]. left. by split_and!.
Qed.
End ends.

(* ------------------------------------------------------------------ *)
(** ** A concrete guest *)

Definition fact_file (content : string) : node := File 0 420 content.
Definition newline : string := String nl "".
Definition sample_guest : gmap path node := list_to_map [
  (["usr"], Dir 0 493); (["lib"; "usr"], Dir 0 493); (["lyra-os"; "lib"; "usr"], Dir 0 493);
  (["os-release"; "lib"; "usr"], fact_file ("NAME=LyraOS" +:+ newline +:+ "ID=lyraos" +:+ newline));
  (["product-release"; "lyra-os"; "lib"; "usr"],
    fact_file ("LYRA_VERSION_ID='1.0'" +:+ newline +:+ "LYRA_EDITION='desktop'" +:+ newline
      +:+ "LYRA_ARCHITECTURE='x86_64'" +:+ newline +:+ "LYRA_BUILD_ID='b-1'" +:+ newline));
  (["sys"], Dir 0 365); (["class"; "sys"], Dir 0 365); (["dmi"; "class"; "sys"], Dir 0 365);
  (["id"; "dmi"; "class"; "sys"], Dir 0 365);
  (["product_uuid"; "id"; "dmi"; "class"; "sys"], fact_file ("0123ABCD-0123-4567-89AB-0123456789AB" +:+ newline));
  (["proc"], Dir 0 365); (["sys"; "proc"], Dir 0 365); (["kernel"; "sys"; "proc"], Dir 0 365);
  (["random"; "kernel"; "sys"; "proc"], Dir 0 365);
  (["boot_id"; "random"; "kernel"; "sys"; "proc"], fact_file ("00000000-0000-4000-8000-00000000000a" +:+ newline));
  (STATE_ROOT, Dir 0 448); (join STATE_ROOT (operation_id sample_stored), Dir 0 448);
  (join (join STATE_ROOT (operation_id sample_stored)) "state.json", File 0 384 (state_text sample_encode sample_stored)) ].
Definition sample_listing : path → gmap path node → result IoError (list (option string)) :=
  λ _ _, Ok [None; Some "notes"; Some (operation_id sample_stored)].
Definition guest_world : world := {| nodes := sample_guest; calls := 0 |}.
Definition guest_evidence :=
  collect no_fault sample_decode sample_listing (λ _ content, str_len content) [] STATE_ROOT None guest_world.

Definition blank_evidence : GuestEvidence := {|
  evidence_schema := 0; evidence_status := ""; evidence_mode := ""; installation_uuid := ""; boot_id := "";
  evidence_session := "";
  release := {| release_id := ""; version_id := ""; edition := ""; architecture := ""; build_id := "" |};
  upgrade := {| upgrade_package_version := None; upgrade_operation_id := None; operation_state := None;
                operation_sequence := None; source_version := None; target_version := None;
                snapshot_recorded := None |} |}.
Definition evidence_of : GuestEvidence := default blank_evidence (res_ok guest_evidence.1).

Example sample_evidence :
  is_ok guest_evidence.1 = true ∧ installation_uuid evidence_of = "0123abcd-0123-4567-89ab-0123456789ab"
  ∧ build_id (release evidence_of) = "b-1" ∧ evidence_session evidence_of = "installed"
  ∧ upgrade_operation_id (upgrade evidence_of) = Some (operation_id sample_stored).
Proof. vm_compute. repeat split. Qed.

Lemma probe_evidence_sound_witness :
  uuid_shape (installation_uuid evidence_of) ∧ ∃ r, shows (upgrade evidence_of) (Some r).
Proof.
  assert (guest_evidence = (Ok evidence_of, guest_evidence.2)) as E.
  { apply pair_with_fst. unfold evidence_of.
    assert (is_ok guest_evidence.1 = true) as H by (vm_compute; reflexivity).
    by destruct guest_evidence.1. }
  destruct (probe_evidence_sound no_fault sample_decode sample_listing (λ _ content, str_len content)
    [] STATE_ROOT None guest_world evidence_of guest_evidence.2 E)
    as (_ & (os & product & uuid & boot & _ & _ & _ & _ & _ & Hu & _) & _ & latest & Hs & _).
  split; [exact Hu|]. destruct latest as [r|]; [by exists r|]. exfalso.
  assert (is_some (upgrade_operation_id (upgrade evidence_of)) = true) as H by (vm_compute; reflexivity).
  destruct Hs as (Hs & _). rewrite Hs in H. discriminate H.
Defined.
