(* ===== verification/Artifacts.v ===== *)
(** * Taking an inventory (src/service/src/inventory.rs)

    [capture]: the installed packages and the configuration files RPM kept aside, which
    a bounded walk over /etc finds. The tree is what the system lists, with its errors;
    the walk is proved against a reference and against what it means. *)

From S2P Require Import Prelude RustStr State Fs Preflight Solver Plan ManifestData Discovery System Vendors.

Open Scope bool_scope.
Open Scope lyra_scope.

(** What [read_dir] and [file_type] say, from a directory down: a listing or an entry may
    fail, and links and special files are [Other]. *)
Inductive tree : Type :=
  | Directory (listing : result IoError (list (result IoError (string * tree))))
  | Regular
  | Other
  | Unknown (e : IoError).

Inductive CaptureError : Set :=
  | PackagesUnreadable (e : VendorMetadataError)
  | Walk_Io (e : IoError)
  | WalkTooLarge.

Definition MAX_ENTRIES : Z := 100000.

Definition is_artifact (name : string) : bool :=
  utf8_valid name && (ends_with ".rpmnew" name || ends_with ".rpmsave" name).

Definition artifact_text (p : path) : string := from_utf8_lossy (display p).

(** The artifacts and the count of entries are shared by the whole walk. *)
Fixpoint collect_artifacts (directory : path) (t : tree) (artifacts : list string) (count : Z)
    : result CaptureError (list string * Z) :=
  match t with
  | Directory (Ok entries) =>
      (fix go (entries : list (result IoError (string * tree))) (artifacts : list string) (count : Z) :=
         match entries with
         | [] => Ok (artifacts, count)
         | Err e :: _ => Err (Walk_Io e)
         | Ok (name, kind) :: entries' =>
             let count := (count + 1)%Z in
             if (MAX_ENTRIES <? count)%Z then Err WalkTooLarge
             else
               '(artifacts, count) ←
                 match kind with
                 | Unknown e => Err (Walk_Io e)
                 | Directory _ => collect_artifacts (join directory name) kind artifacts count
                 | Regular =>
                     Ok (if is_artifact name then artifacts ++ [artifact_text (join directory name)]
                         else artifacts, count)
                 | Other => Ok (artifacts, count)
                 end;
               go entries' artifacts count
         end) entries artifacts count
  | Directory (Err e) => Err (Walk_Io e)
  | _ => Err (Walk_Io (OtherError 20))
  end.

(** The fields of each header [rpm -qa --xml] shows, as the parser of XML gives them. *)
Definition installed_packages (headers : result VendorMetadataError (list (list string)))
    : result VendorMetadataError (list InstalledPackage) :=
  headers ← headers;
  catalog ← installed_vendors headers ∅;
  installed_packages_of catalog.

Definition capture (headers : result VendorMetadataError (list (list string))) (etc : tree)
    : result CaptureError InventoryReport :=
  installed_packages ← map_err PackagesUnreadable (installed_packages headers);
  '(artifacts, _) ← collect_artifacts ["etc"] etc [] 0;
  Ok {| inventory_schema_version := 1; inventory_packages := installed_packages;
        configuration_artifacts := sort artifacts |}.

(* ------------------------------------------------------------------ *)
(** ** The reference *)

Section tree_induction.
Context (P : tree → Prop) (Q : result IoError (string * tree) → Prop).
Context (HD : ∀ entries, Forall Q entries → P (Directory (Ok entries))).
Context (HE : ∀ e, P (Directory (Err e))) (HR : P Regular) (HO : P Other) (HU : ∀ e, P (Unknown e)).
Context (HQ : ∀ name t, P t → Q (Ok (name, t))) (HQe : ∀ e, Q (Err e)).

Fixpoint tree_entries_ind (t : tree) : P t :=
  match t with
  | Directory (Ok entries) =>
      HD entries ((fix go entries : Forall Q entries :=
        match entries with
        | [] => Forall_nil_2 Q
        | Ok (name, t) :: entries' => Forall_cons_2 Q _ _ (HQ name t (tree_entries_ind t)) (go entries')
        | Err e :: entries' => Forall_cons_2 Q _ _ (HQe e) (go entries')
        end) entries)
  | Directory (Err e) => HE e
  | Regular => HR
  | Other => HO
  | Unknown e => HU e
  end.
End tree_induction.

(** The number of entries of a tree, [None] when something in it cannot be read. *)
Fixpoint entries_of (t : tree) : option Z :=
  match t with
  | Directory (Ok entries) =>
      (fix go entries :=
         match entries with
         | [] => Some 0%Z
         | Err _ :: _ => None
         | Ok (_, t) :: entries' => n ← entries_of t; m ← go entries'; Some (1 + n + m)%Z
         end) entries
  | Regular | Other => Some 0%Z
  | Directory (Err _) | Unknown _ => None
  end.

(** The artifacts of a tree, in the order of the walk. *)
Fixpoint found (directory : path) (t : tree) : list string :=
  match t with
  | Directory (Ok entries) =>
      concat (map (λ entry, match entry with
        | Ok (name, Regular) => if is_artifact name then [artifact_text (join directory name)] else []
        | Ok (name, t) => found (join directory name) t
        | Err _ => []
        end) entries)
  | _ => []
  end.

(** The node below a tree at a path, innermost name first. *)
Inductive located : tree → path → tree → Prop :=
  | located_entry entries name t : Ok (name, t) ∈ entries → located (Directory (Ok entries)) [name] t
  | located_below entries name t (p : path) t' :
      Ok (name, t) ∈ entries → located t p t' → located (Directory (Ok entries)) (p ++ [name]) t'.

(* ------------------------------------------------------------------ *)
(** ** The walk against the reference *)

Definition is_directory (t : tree) : bool := if t is Directory _ then true else false.

Lemma entries_of_cons name t entries :
  entries_of (Directory (Ok (Ok (name, t) :: entries))) =
  (one ← Some 1%Z;
   rest ← (n ← entries_of t; m ← entries_of (Directory (Ok entries)); Some (n + m)%Z);
   Some (one + rest)%Z).
Proof.
  simpl. destruct (entries_of t); [|done]. simpl.
  match goal with |- (?x ≫= _) = _ => destruct x end; [|done]. simpl. f_equal. lia.
Qed.

(** An entry of a listing as a step of the walk, and what it adds. *)
Definition visit (directory : path) (name : string) (t : tree) (artifacts : list string) (count : Z)
    : result CaptureError (list string * Z) :=
  match t with
  | Unknown e => Err (Walk_Io e)
  | Directory _ => collect_artifacts (join directory name) t artifacts count
  | Regular =>
      Ok (if is_artifact name then artifacts ++ [artifact_text (join directory name)] else artifacts, count)
  | Other => Ok (artifacts, count)
  end.

Definition found_at (directory : path) (name : string) (t : tree) : list string :=
  match t with
  | Regular => if is_artifact name then [artifact_text (join directory name)] else []
  | _ => found (join directory name) t
  end.

Lemma collect_artifacts_cons directory name t entries artifacts count :
  collect_artifacts directory (Directory (Ok (Ok (name, t) :: entries))) artifacts count =
  ('(artifacts, count) ←
     (if (MAX_ENTRIES <? count + 1)%Z then Err WalkTooLarge else Ok (artifacts ++ [], count + 1)%Z);
   '(artifacts, count) ← visit directory name t artifacts count;
   collect_artifacts directory (Directory (Ok entries)) artifacts count).
Proof.
  rewrite app_nil_r. change (collect_artifacts directory (Directory (Ok (Ok (name, t) :: entries))) artifacts count)
    with (if (MAX_ENTRIES <? count + 1)%Z then Err WalkTooLarge
          else '(artifacts, count) ← visit directory name t artifacts (count + 1);
               collect_artifacts directory (Directory (Ok entries)) artifacts count).
  by destruct (MAX_ENTRIES <? count + 1)%Z.
Qed.

Lemma found_cons directory name t entries :
  found directory (Directory (Ok (Ok (name, t) :: entries))) =
  [] ++ found_at directory name t ++ found directory (Directory (Ok entries)).
Proof. by destruct t. Qed.

(** What a stretch of the walk with that many entries and those texts answers. *)
Definition answers (entries : option Z) (texts artifacts : list string) (count : Z)
    (r : result CaptureError (list string * Z)) : Prop :=
  match entries with
  | Some n => (0 ≤ n)%Z ∧ r = (if (MAX_ENTRIES <? count + n)%Z then Err WalkTooLarge
                               else Ok (artifacts ++ texts, (count + n)%Z))
  | None => ∃ e, r = Err e
  end.

Lemma answers_bind n m texts texts' artifacts count r k :
  answers n texts artifacts count r →
  (∀ artifacts count, (count ≤ MAX_ENTRIES)%Z → answers m texts' artifacts count (k artifacts count)) →
  answers (n ← n; m ← m; Some (n + m)%Z) (texts ++ texts') artifacts count
    ('(artifacts, count) ← r; k artifacts count).
Proof.
  intros Hr Hk. destruct n as [n|]; [|destruct Hr as [e ->]; by eexists].
  destruct Hr as [Hn ->]. destruct (Z.ltb_spec MAX_ENTRIES (count + n)) as [Hover|Hwithin].
  - destruct m as [m|]; [|by eexists].
    destruct (Hk [] 0%Z) as [Hm _]; [by unfold MAX_ENTRIES|].
    split; [lia|]. destruct (Z.ltb_spec MAX_ENTRIES (count + (n + m))); [done|lia].
  - specialize (Hk (artifacts ++ texts) (count + n)%Z Hwithin).
    destruct m as [m|]; [|done]. destruct Hk as [Hm Hk]. split; [lia|].
    by rewrite app_assoc, Z.add_assoc.
Qed.

Lemma collect_artifacts_answers t directory artifacts count :
  is_directory t = true → (count ≤ MAX_ENTRIES)%Z →
  answers (entries_of t) (found directory t) artifacts count (collect_artifacts directory t artifacts count).
Proof.
  set (P := λ t, is_directory t = true → ∀ directory artifacts count, (count ≤ MAX_ENTRIES)%Z →
    answers (entries_of t) (found directory t) artifacts count (collect_artifacts directory t artifacts count)).
  intros Ht. revert directory artifacts count. revert Ht. change (P t).
  induction t as [entries IH| | | | |name t IH|e] using tree_entries_ind
    with (Q := λ entry, match entry with Ok (_, t) => P t | Err _ => True end);
    try done; try (intros _ directory artifacts count _; by eexists).
  intros _. induction IH as [|[[name t]|e] entries Ht _ IH];
    intros directory artifacts count Hcount; [ | |by eexists].
  { split; [done|]. rewrite Z.add_0_r, app_nil_r.
    destruct (Z.ltb_spec MAX_ENTRIES count); [lia|done]. }
  rewrite collect_artifacts_cons, entries_of_cons, found_cons.
  apply (answers_bind (Some 1%Z)); [by split|]. clear artifacts count Hcount. intros artifacts count Hcount.
  apply answers_bind; [|intros artifacts' count' Hcount'; by apply IH]. destruct t as [[entries'|e]| | |e].
  - by apply Ht.
  - by eexists.
  - split; [done|]. rewrite Z.add_0_r. destruct (Z.ltb_spec MAX_ENTRIES count); [lia|].
    simpl. destruct (is_artifact name); [done|]. by rewrite app_nil_r.
  - split; [done|]. rewrite Z.add_0_r, app_nil_r. destruct (Z.ltb_spec MAX_ENTRIES count); [lia|done].
  - by eexists.
Qed.

Lemma elem_of_found_at directory name t text :
  text ∈ found_at directory name t ↔
  text ∈ found (join directory name) t ∨
  (t = Regular ∧ is_artifact name = true ∧ text = artifact_text (join directory name)).
Proof.
  destruct t as [l| | |e]; simpl; [by intuition|..|by intuition|by intuition].
  destruct (is_artifact name); set_solver.
Qed.

Lemma elem_of_found_directory directory entries text :
  text ∈ found directory (Directory (Ok entries)) ↔
  ∃ name t, Ok (name, t) ∈ entries ∧ text ∈ found_at directory name t.
Proof.
  induction entries as [|[[name t]|e] entries IH].
  - split; [intros H; by apply not_elem_of_nil in H|intros (? & ? & H & _); by apply not_elem_of_nil in H].
  - rewrite found_cons. simpl. rewrite elem_of_app, IH. split.
    + intros [H|(name' & t' & H & Htext)]; [exists name, t|exists name', t']; split; auto; by constructor.
    + intros (name' & t' & [[= -> ->]|H]%elem_of_cons & Htext); [by left|right; eauto].
  - change (found directory (Directory (Ok (Err e :: entries)))) with (found directory (Directory (Ok entries))).
    rewrite IH. split; intros (name & t & H & Htext); exists name, t; split; auto; [by constructor|].
    by apply elem_of_cons in H as [?|?].
Qed.

(** A text is found exactly for a regular file of that kind somewhere below the directory. *)
Lemma elem_of_found t : ∀ directory text,
  text ∈ found directory t ↔
  ∃ name p, located t (name :: p) Regular ∧ is_artifact name = true
            ∧ text = artifact_text (name :: p ++ directory).
Proof.
  set (P := λ t, ∀ directory text, text ∈ found directory t ↔
    ∃ name p, located t (name :: p) Regular ∧ is_artifact name = true
              ∧ text = artifact_text (name :: p ++ directory)).
  change (P t).
  induction t as [entries IH| | | | |name t IH|e] using tree_entries_ind
    with (Q := λ entry, match entry with Ok (_, t) => P t | Err _ => True end);
    try done; try (intros directory text; split; [set_solver|]; intros (name & p & Hat & _); inversion Hat; fail).
  intros directory text. rewrite elem_of_found_directory. rewrite Forall_forall in IH. split.
  - intros (name & t & Hentry & Htext). apply elem_of_found_at in Htext as [Htext|(-> & Hname & ->)].
    + apply (IH _ Hentry) in Htext as (last & p & Hat & Hlast & ->).
      exists last, (p ++ [name]). split; [by apply (located_below entries name t (last :: p))|].
      split; [done|]. by rewrite <-app_assoc.
    + exists name, []. split; [by apply located_entry|done].
  - intros (last & p & Hat & Hlast & ->).
    inversion Hat as [? name t Hentry|? name t below t' Hentry Hbelow]; subst.
    + exists last, Regular. split; [done|]. apply elem_of_found_at. auto.
    + exists name, t. split; [done|]. apply elem_of_found_at. left.
      destruct below as [|first below]; [by inversion Hbelow; destruct p0|].
      simplify_list_eq. apply (IH _ Hentry). eauto.
Qed.

(** A small tree: a kept file, one in a subdirectory, a link and a file of another name. *)
Definition sample_etc : tree :=
  Directory (Ok [Ok ("a.conf.rpmnew", Regular); Ok ("link.rpmnew", Other);
                 Ok ("d", Directory (Ok [Ok ("b.rpmsave", Regular); Ok ("c.conf", Regular)]))]).

Example collect_sample :
  collect_artifacts ["etc"] sample_etc [] 0 = Ok (["/etc/a.conf.rpmnew"; "/etc/d/b.rpmsave"], 5%Z).
Proof. reflexivity. Qed.

(** One entry more than the limit, wherever it is, fails the walk. *)
Example collect_over :
  collect_artifacts ["etc"] sample_etc [] (MAX_ENTRIES - 4) = Err WalkTooLarge
  ∧ collect_artifacts ["etc"] sample_etc [] (MAX_ENTRIES - 5)
    = Ok (["/etc/a.conf.rpmnew"; "/etc/d/b.rpmsave"], MAX_ENTRIES).
Proof. by split. Qed.

(** An inventory is taken exactly when the installed packages can be read
    without ambiguity and /etc is a directory whose whole tree can be listed and holds at
    most 100,000 entries; it then holds those packages, and the artifacts in sorted order,
    which are exactly the regular files anywhere below /etc, reached through no link, whose
    name ends in .rpmnew or .rpmsave. *)
Theorem capture_exact headers etc r :
  (capture headers etc = Ok r ↔
   is_directory etc = true
   ∧ (∃ n, entries_of etc = Some n ∧ (n ≤ MAX_ENTRIES)%Z)
   ∧ installed_packages headers = Ok (inventory_packages r)
   ∧ inventory_schema_version r = 1%Z
   ∧ configuration_artifacts r = sort (found ["etc"] etc))
  ∧ ∀ text, text ∈ sort (found ["etc"] etc) ↔
      ∃ name p, located etc (name :: p) Regular ∧ is_artifact name = true
                ∧ text = artifact_text (name :: p ++ ["etc"]).
Proof.
  split; [|intros text; by rewrite sort_elem, elem_of_found].
  unfold capture. destruct (installed_packages headers) as [packages|e]; simpl.
  2: { split; [done|]. by intros (_ & _ & ? & _). }
  destruct (is_directory etc) eqn:Hetc.
  2: { split; [|by intros [? _]]. by destruct etc. }
  pose proof (collect_artifacts_answers etc ["etc"] [] 0 Hetc ltac:(done)) as Hanswer.
  destruct (entries_of etc) as [n|] eqn:En.
  2: { destruct Hanswer as [e ->]. split; [done|]. by intros (_ & (? & ? & _) & _). }
  destruct Hanswer as [_ ->]. rewrite Z.add_0_l.
  destruct (Z.ltb_spec MAX_ENTRIES n) as [Hover|Hwithin]; simpl.
  - split; [done|]. intros (_ & (? & [= <-] & ?) & _). lia.
  - split.
    + intros [= <-]. split; [done|]. split; [by exists n|done].
    + intros (_ & _ & [= ->] & Hschema & Hfound). destruct r. simpl in *. by subst.
Qed.
