(* ===== verification/Process.v ===== *)
(** * Child processes (src/service/src/process.rs, run_observed of src/service/src/executor.rs)

    A probe is a child in a process group of its own, polled until it ends or its time
    is up, with two threads that read what it prints up to a bound. A program of an
    execution is read line by line to the end and reported to the observer. The child
    is the parameter: what each poll of it answers, what the clock says, and what its
    streams hold in the end. *)

From S2P Require Import Prelude RustStr Fs Persistence EventFile System.

Open Scope bool_scope.
Open Scope lyra_scope.

(** What a stream delivers until its end, or until reading it fails. *)
Record Stream := { stream_bytes : string; stream_failure : option IoError }.

(* ------------------------------------------------------------------ *)
(** ** Bounded probes *)

Definition LIMIT : Z := 32 * 1024 * 1024.

(** [stream.take(LIMIT + 1).read_to_end]: a failure beyond the limit is not seen. *)
Definition capture (limit : Z) (stream : Stream) : result IoError string :=
  match stream_failure stream with
  | Some e => if (str_len (stream_bytes stream) <=? limit)%Z then Err e
              else Ok (take_bytes (limit + 1) (stream_bytes stream))
  | None => Ok (take_bytes (limit + 1) (stream_bytes stream))
  end.

(** A started child. The polls are numbered; the streams depend on how many there were
    before the group was killed. *)
Record Child := {
  try_wait : nat → result IoError (option (option Z));
  (** The clock in milliseconds, when the deadline is set and after each poll. *)
  started : Z;
  clock : nat → Z;
  child_stdout : nat → Stream;
  child_stderr : nat → Stream;
}.

Inductive ProcessError : Set := Probe_Io (e : IoError) | Probe_TimedOut | Probe_TooLarge.

Inductive signal_step : Set := KillGroup | Reap.

(** The loop: the status, if the child ended before the deadline, and the number of
    polls. [None] is fuel that ran out. *)
Fixpoint poll (fuel : nat) (child : Child) (deadline : Z) (i : nat)
    : option (result IoError (option (option Z)) * nat) :=
  match fuel with
  | O => None
  | S fuel' =>
      match try_wait child i with
      | Err e => Some (Err e, S i)
      | Ok (Some status) => Some (Ok (Some status), S i)
      | Ok None =>
          if (deadline <=? clock child i)%Z then Some (Ok None, S i)
          else poll fuel' child deadline (S i)
      end
  end.

(** What the function returns, and what it did to the group. *)
Definition finished (limit : Z) (child : Child) (status : option (option Z)) (polls : nat)
    : result ProcessError Output :=
  out ← map_err Probe_Io (capture limit (child_stdout child polls));
  err ← map_err Probe_Io (capture limit (child_stderr child polls));
  status ← ok_or Probe_TimedOut status;
  if (limit <? str_len out)%Z || (limit <? str_len err)%Z then Err Probe_TooLarge
  else Ok {| status := status; stdout := out; stderr := err |}.

Definition output (fuel : nat) (limit : Z) (spawned : result IoError Child) (seconds : Z)
    : option (result ProcessError Output * list signal_step) :=
  match spawned with
  | Err e => Some (Err (Probe_Io e), [])
  | Ok child =>
      '(status, polls) ← poll fuel child (started child + seconds * 1000)%Z 0;
      match status with
      | Err e => Some (Err (Probe_Io e), [])
      | Ok status => Some (finished limit child status polls, [KillGroup; Reap])
      end
  end.

(* ------------------------------------------------------------------ *)
(** ** Observed programs *)

(** One report to the observer: the program, whether it is an error line, the line. *)
Record report := { report_program : string; report_error : bool; report_line : string }.

(** The pieces [BufRead::split] yields before a failure: lines that ended, and at the
    end of the stream what is left of one. *)
Fixpoint pieces (failed : bool) (lines : list string) : list string :=
  match lines with
  | [] => []
  | [last] => if failed || is_empty last then [] else [last]
  | line :: lines' => line :: pieces failed lines'
  end.

Section observed.
Context (error_text : IoError → string).

Definition collect_stream (stream : option Stream) (program : string) (error : bool)
    : list report * string :=
  match stream with
  | None => ([], "")
  | Some stream =>
      let lines := pieces (is_some (stream_failure stream)) (split nl (stream_bytes stream)) in
      (map (λ line, {| report_program := program; report_error := error;
                       report_line := from_utf8_lossy line |}) lines
       ++ match stream_failure stream with
          | Some e => [{| report_program := program; report_error := true; report_line := error_text e |}]
          | None => []
          end,
       foldr (λ line s, line +:+ String nl "" +:+ s) "" lines)
  end.

Definition synthetic_failure_status : option Z := Some 127%Z.

(** The streams of a child that was started, and the status it is waited for. *)
Record Running := {
  running_stdout : option Stream;
  running_stderr : option Stream;
  waited : result IoError (option Z);
}.

(** The reports of the two threads, each in its order, and the output. *)
Definition run_observed (program : string) (child : result IoError Running)
    : (list report * list report) * Output :=
  match child with
  | Err e =>
      (([], [{| report_program := program; report_error := true; report_line := error_text e |}]),
       {| status := synthetic_failure_status; stdout := ""; stderr := error_text e |})
  | Ok child =>
      let '(out_reports, out) := collect_stream (running_stdout child) program false in
      let '(err_reports, err) := collect_stream (running_stderr child) program true in
      ((out_reports, err_reports),
       {| status := match waited child with Ok status => status | Err _ => synthetic_failure_status end;
          stdout := out; stderr := err |})
  end.
End observed.

(* ------------------------------------------------------------------ *)
(** ** What a probe returns *)

Lemma take_bytes_length n s : (0 ≤ n)%Z → str_len (take_bytes n s) = Z.min n (str_len s).
Proof.
  revert n. induction s as [|b s IH]; intros n Hn; [cbn; unfold str_len; cbn; lia|]. cbn [take_bytes].
  unfold str_len in *. cbn [String.length]. destruct (Z.leb_spec n 0); [cbn; lia|].
  cbn [String.length]. rewrite !Nat2Z.inj_succ, IH by lia. lia.
Qed.

(** What is kept within the limit is the whole stream. *)
Lemma capture_whole limit stream data :
  (0 ≤ limit)%Z → capture limit stream = Ok data → (str_len data ≤ limit)%Z →
  data = stream_bytes stream ∧ stream_failure stream = None.
Proof.
  unfold capture. intros Hl H Hd.
  assert (data = take_bytes (limit + 1) (stream_bytes stream)
    ∧ (stream_failure stream = None ∨ (limit < str_len (stream_bytes stream))%Z)) as [-> Hf].
  { destruct (stream_failure stream); [destruct (Z.leb_spec (str_len (stream_bytes stream)) limit)|];
      simplify_eq; auto. }
  rewrite take_bytes_length in Hd by lia.
  rewrite take_bytes_all by lia. split; [done|]. destruct Hf; [done|lia].
Qed.

Lemma capture_large limit stream data :
  (0 ≤ limit)%Z → capture limit stream = Ok data → (limit < str_len data)%Z →
  (limit < str_len (stream_bytes stream))%Z.
Proof.
  unfold capture. intros Hl H Hd.
  assert (data = take_bytes (limit + 1) (stream_bytes stream)) as ->.
  { destruct (stream_failure stream); [destruct (_ <=? _)%Z|]; by simplify_eq. }
  rewrite take_bytes_length in Hd; lia.
Qed.

Section probe.
Context (child : Child) (deadline : Z).

(** The polls before this one saw a running child before the deadline. *)
Definition waiting (n : nat) : Prop :=
  ∀ i, i < n → try_wait child i = Ok None ∧ (clock child i < deadline)%Z.

Lemma waiting_snoc n :
  waiting n → try_wait child n = Ok None → (clock child n < deadline)%Z → waiting (S n).
Proof. intros H Hw Hc i Hi. destruct (decide (i = n)) as [->|]; [done|]. apply H. lia. Qed.

Lemma poll_spec fuel n r polls :
  waiting n → poll fuel child deadline n = Some (r, polls) →
  ∃ i, polls = S i ∧ waiting i ∧
    match r with
    | Err e => try_wait child i = Err e
    | Ok (Some status) => try_wait child i = Ok (Some status)
    | Ok None => try_wait child i = Ok None ∧ (deadline ≤ clock child i)%Z
    end.
Proof.
  revert n. induction fuel as [|fuel IH]; intros n Hw; [done|]. cbn [poll].
  destruct (try_wait child n) as [[status|]|e] eqn:Et; [intros [= <- <-]; eauto| |intros [= <- <-]; eauto].
  destruct (Z.leb_spec deadline (clock child n)) as [Hd|Hd]; [intros [= <- <-]; eauto|].
  apply IH. by apply waiting_snoc.
Qed.

(** Sleeping twenty milliseconds takes as long, so the deadline is reached. *)
Lemma poll_ends fuel n :
  (∀ i, clock child i + 20 ≤ clock child (S i))%Z →
  (deadline ≤ clock child n + 20 * (Z.of_nat fuel - 1))%Z → fuel ≠ 0 →
  is_some (poll fuel child deadline n) = true.
Proof.
  intros Hclock. revert n. induction fuel as [|fuel IH]; intros n Hd Hf; [done|]. cbn [poll].
  destruct (try_wait child n) as [[status|]|e]; [done| |done].
  destruct (Z.leb_spec deadline (clock child n)) as [|Hlt]; [done|].
  specialize (Hclock n). apply IH; lia.
Qed.
End probe.

(** How a probe ends: what its result says of the child. *)
Definition ends_as (limit deadline : Z) (child : Child) (r : result ProcessError Output)
    (steps : list signal_step) : Prop :=
  match r with
  | Ok o => steps = [KillGroup; Reap] ∧ ∃ n, waiting child deadline n
      ∧ try_wait child n = Ok (Some (status o))
      ∧ stdout o = stream_bytes (child_stdout child (S n)) ∧ stderr o = stream_bytes (child_stderr child (S n))
      ∧ (str_len (stdout o) ≤ limit)%Z ∧ (str_len (stderr o) ≤ limit)%Z
  | Err Probe_TimedOut => steps = [KillGroup; Reap] ∧ ∃ n, waiting child deadline n
      ∧ try_wait child n = Ok None ∧ (deadline ≤ clock child n)%Z
  | Err Probe_TooLarge => steps = [KillGroup; Reap] ∧ ∃ n, waiting child deadline n
      ∧ (limit < str_len (stream_bytes (child_stdout child (S n)))
         ∨ limit < str_len (stream_bytes (child_stderr child (S n))))%Z
  | Err (Probe_Io e) => ∃ n, waiting child deadline n
      ∧ (steps = [] ∧ try_wait child n = Err e
         ∨ steps = [KillGroup; Reap]
           ∧ (stream_failure (child_stdout child (S n)) = Some e
              ∨ stream_failure (child_stderr child (S n)) = Some e))
  end.

Lemma capture_failed limit stream e : capture limit stream = Err e → stream_failure stream = Some e.
Proof. unfold capture. destruct (stream_failure stream); [destruct (_ <=? _)%Z|]; congruence. Qed.

Lemma finished_ends limit deadline child status n :
  (0 ≤ limit)%Z → waiting child deadline n →
  match status with
  | Some status => try_wait child n = Ok (Some status)
  | None => try_wait child n = Ok None ∧ (deadline ≤ clock child n)%Z
  end →
  ends_as limit deadline child (finished limit child status (S n)) [KillGroup; Reap].
Proof.
  intros Hl Hw Hs. unfold finished, map_err.
  destruct (capture limit (child_stdout child (S n))) as [out|e] eqn:Eo;
    [|apply capture_failed in Eo; cbn; exists n; auto].
  destruct (capture limit (child_stderr child (S n))) as [err|e] eqn:Ee;
    [|apply capture_failed in Ee; cbn; exists n; auto].
  destruct status as [status|]; cbn; [|split; [done|]; by exists n].
  destruct (Z.ltb_spec limit (str_len out)) as [Ho|Ho]; cbn.
  { split; [done|]. exists n. split; [done|]. left. by eapply capture_large. }
  destruct (Z.ltb_spec limit (str_len err)) as [He|He]; cbn.
  { split; [done|]. exists n. split; [done|]. right. by eapply capture_large. }
  apply capture_whole in Eo as [-> _], Ee as [-> _]; [|done..].
  split; [done|]. by exists n.
Qed.

(** C23 A probe of a child that sleeps on a steady clock returns after at most one poll
    per twenty milliseconds of its time: with the status of a child that ended before
    the deadline and both of its streams whole and within the limit, or with the error
    that says which of these failed; and, unless a poll itself failed, its process group
    has been killed and the child reaped before. *)
Theorem output_bounded fuel limit child seconds :
  (∀ i, clock child i + 20 ≤ clock child (S i))%Z → (started child ≤ clock child 0)%Z →
  (0 ≤ limit)%Z → (0 ≤ seconds)%Z → (50 * seconds < Z.of_nat fuel)%Z →
  ∃ r steps, output fuel limit (Ok child) seconds = Some (r, steps)
    ∧ ends_as limit (started child + seconds * 1000) child r steps.
Proof.
  intros Hc H0 Hl Hs Hf. unfold output. cbn.
  assert (is_some (poll fuel child (started child + seconds * 1000) 0) = true) as Hp
    by (apply poll_ends; [done|lia|lia]).
  destruct (poll fuel child _ 0) as [[r polls]|] eqn:E; [|done]. cbn.
  apply poll_spec in E as (n & -> & Hw & Hr); [|intros i Hi; lia].
  destruct r as [status|e].
  - eexists _, _. split; [reflexivity|]. apply finished_ends; [done..|by destruct status].
  - eexists _, _. split; [reflexivity|]. cbn. exists n. auto.
Qed.

(* ------------------------------------------------------------------ *)
(** ** What an observer is told *)

Definition joined (lines : list string) : string := foldr (λ line s, line +:+ String nl "" +:+ s) "" lines.

Lemma pieces_app failed lines rest :
  pieces failed (lines ++ [rest]) = lines ++ (if failed || is_empty rest then [] else [rest]).
Proof.
  induction lines as [|l lines IH]; [by cbn; destruct (failed || is_empty rest)|].
  cbn [app]. rewrite <- IH. by destruct lines.
Qed.

Lemma joined_cons l lines : joined (l :: lines) = l +:+ String nl "" +:+ joined lines.
Proof. reflexivity. Qed.
#[local] Arguments joined : simpl never.

Lemma joined_app l1 l2 : joined (l1 ++ l2) = joined l1 +:+ joined l2.
Proof.
  induction l1 as [|l l1 IH]; [done|]. change ((l :: l1) ++ l2) with (l :: (l1 ++ l2)).
  by rewrite !joined_cons, IH, !string_app_assoc.
Qed.

(** The lines of a text and what is left of it. *)
Lemma split_parts s :
  ∃ lines rest, split nl s = lines ++ [rest] ∧ s = joined lines +:+ rest
    ∧ Forall (λ line, no_nl line = true) (rest :: lines).
Proof.
  induction s as [|b s (lines & rest & E & Hs & Hn)]; [exists [], ""; by repeat constructor|]. cbn [split].
  apply Forall_cons in Hn as [Hr Hn]. destruct (Ascii.eqb_spec b nl) as [->|Hb].
  - exists ("" :: lines), rest. rewrite E. split; [done|]. split; [|by repeat constructor].
    rewrite joined_cons. change (String nl s = String nl (joined lines +:+ rest)). by f_equal.
  - destruct (Ascii.eqb_spec b nl) as [|_]; [done|]. destruct lines as [|l lines]; rewrite E; cbn [app].
    + exists [], (String b rest). split; [done|]. split; [by rewrite Hs|].
      repeat constructor. cbn. apply andb_true_iff. split; [|done]. by destruct (Ascii.eqb_spec b nl).
    + apply Forall_cons in Hn as [Hx Hn]. exists (String b l :: lines), rest. split; [done|].
      split; [rewrite joined_cons in *; by rewrite Hs|]. repeat constructor; [done| |done].
      cbn. apply andb_true_iff. split; [|done]. by destruct (Ascii.eqb_spec b nl).
Qed.

(** What a program prints reaches the observer line by line, in order and whole: a
    stream that is read to its end is reported as its lines, and the bytes kept are the
    stream with its last line terminated; of a stream that fails, every line that ended
    is reported and kept, followed by one report of the failure. *)
Theorem collect_stream_whole error_text stream program error reports bytes :
  collect_stream error_text (Some stream) program error = (reports, bytes) →
  ∃ lines rest, Forall (λ line, no_nl line = true) (rest :: lines)
    ∧ stream_bytes stream = joined lines +:+ rest
    ∧ match stream_failure stream with
      | None => bytes = joined lines +:+ (if is_empty rest then "" else rest +:+ String nl "")
          ∧ map report_line reports
            = map from_utf8_lossy (lines ++ (if is_empty rest then [] else [rest]))
          ∧ Forall (λ r, report_program r = program ∧ report_error r = error) reports
      | Some e => bytes = joined lines
          ∧ ∃ given, reports = given ++ [{| report_program := program; report_error := true;
                                            report_line := error_text e |}]
            ∧ map report_line given = map from_utf8_lossy lines
            ∧ Forall (λ r, report_program r = program ∧ report_error r = error) given
      end.
Proof.
  unfold collect_stream. cbv zeta. intros H.
  destruct (split_parts (stream_bytes stream)) as (lines & rest & E & Hs & Hn).
  rewrite E, pieces_app in H. exists lines, rest. split; [exact Hn|]. split; [exact Hs|].
  destruct (stream_failure stream) as [e|]; cbn [is_some orb] in H; injection H as <- <-.
  - rewrite app_nil_r. split; [done|]. eexists. split; [reflexivity|].
    rewrite map_map. split; [done|]. by apply Forall_map, Forall_true.
  - rewrite app_nil_r. split; [|split].
    + fold (joined (lines ++ if is_empty rest then [] else [rest])). rewrite joined_app.
      by destruct (is_empty rest).
    + by rewrite map_map.
    + by apply Forall_map, Forall_true.
Qed.

(* ------------------------------------------------------------------ *)
(** ** Concrete children *)

(** A child that ends at its third poll, and one that never does. *)
Definition quick_child : Child := {|
  try_wait := λ i, Ok (if i <? 2 then None else Some (Some 0%Z)); started := 0; clock := λ i, (20 * Z.of_nat i)%Z;
  child_stdout := λ _, {| stream_bytes := "probe-ok"; stream_failure := None |};
  child_stderr := λ _, {| stream_bytes := ""; stream_failure := None |} |}.
Definition sleeping_child : Child := {|
  try_wait := λ _, Ok None; started := 0; clock := λ i, (20 * Z.of_nat i)%Z;
  child_stdout := λ _, {| stream_bytes := ""; stream_failure := None |};
  child_stderr := λ _, {| stream_bytes := ""; stream_failure := None |} |}.

Example sleeping_probe_is_bounded_and_ordinary_output_is_preserved :
  output 1 LIMIT (Ok sleeping_child) 0 = Some (Err Probe_TimedOut, [KillGroup; Reap])
  ∧ output 101 LIMIT (Ok quick_child) 2
    = Some (Ok {| status := Some 0%Z; stdout := "probe-ok"; stderr := "" |}, [KillGroup; Reap])
  ∧ output 101 4 (Ok quick_child) 2 = Some (Err Probe_TooLarge, [KillGroup; Reap])
  ∧ output 9 LIMIT (Err NotFound) 2 = Some (Err (Probe_Io NotFound), []).
Proof. vm_compute. repeat split. Qed.

Definition sample_text : string := "one" +:+ String nl ("two" +:+ String nl "three").

Example sample_reports :
  collect_stream (λ _, "failed") (Some {| stream_bytes := sample_text; stream_failure := None |}) "rpm" false
  = (map (λ line, {| report_program := "rpm"; report_error := false; report_line := line |}) ["one"; "two"; "three"],
     sample_text +:+ String nl "")
  ∧ collect_stream (λ _, "failed") (Some {| stream_bytes := sample_text; stream_failure := Some NotFound |}) "rpm" false
  = ([{| report_program := "rpm"; report_error := false; report_line := "one" |};
      {| report_program := "rpm"; report_error := false; report_line := "two" |};
      {| report_program := "rpm"; report_error := true; report_line := "failed" |}],
     "one" +:+ String nl ("two" +:+ String nl "")).
Proof. vm_compute. split; reflexivity. Qed.

(** A program that cannot be started never counts as a success. *)
Example unstarted_program_failed :
  success (run_observed (λ _, "no such file") "dracut" (Err NotFound)).2 = false.
Proof. reflexivity. Qed.

Lemma output_bounded_witness :
  ∃ r steps, output 101 LIMIT (Ok quick_child) 2 = Some (r, steps)
    ∧ ends_as LIMIT 2000 quick_child r steps.
Proof.
  apply (output_bounded 101 LIMIT quick_child 2).
  - intros i. cbn [clock quick_child]. lia.
  - vm_compute. discriminate.
  - vm_compute. discriminate.
  - lia.
  - vm_compute. reflexivity.
Defined.

Lemma collect_stream_whole_witness :
  ∃ lines rest, sample_text = joined lines +:+ rest ∧ Forall (λ line, no_nl line = true) (rest :: lines).
Proof.
  destruct (collect_stream_whole (λ _, "failed") {| stream_bytes := sample_text; stream_failure := None |}
    "rpm" false _ _ (surjective_pairing _)) as (lines & rest & Hn & Hs & _).
  exists lines, rest. split; [exact Hs|exact Hn].
Defined.
