(* ===== verification/Simulation.v ===== *)
(** * The disposable root of the solver (src/service/src/simulation.rs,
    src/service/src/repository_context.rs)

    A private directory with copies of the package database and the configuration of
    the package manager, the command that runs zypper over it, and the probes that
    discovery may ask of zypper there. The program cp, the listing of a directory and
    the name of the private directory are parameters. *)

From S2P Require Import Prelude RustStr Fs Discovery System Request.

Open Scope bool_scope.
Open Scope lyra_scope.

(* ------------------------------------------------------------------ *)
(** ** Running zypper in a context *)

(** The command before the arguments of the request, for an effective user. *)
Definition command (euid : Z) (self : RepositoryContext) : Command :=
  let simulated := is_some (simulation_root self) in
  let unshared := simulated && negb (euid =? 0)%Z in
  {| program_path := if unshared then "/usr/bin/unshare" else "/usr/bin/zypper";
     command_arguments :=
       (if unshared then ["--user"; "--map-root-user"; "--"; "/usr/bin/zypper"] else [])
       ++ match simulation_root self with Some root => ["--root"; display root] | None => [] end
       ++ context_arguments self;
     environment :=
       [search_path; ("LC_ALL", "C")]
       ++ match simulation_root self with
          | Some root => [("ZYPP_LOGFILE", display (join (cache self) "zypper.log"));
                          ("TMPDIR", display (join root "tmp")); ("ZYPPTMPDIR", display (join root "tmp"))]
          | None => []
          end |}.

Definition with_arguments (self : Command) (arguments : list string) : Command := {|
  program_path := program_path self; command_arguments := command_arguments self ++ arguments;
  environment := environment self |}.

(** The bounded run of it, within this many seconds. *)
Definition context_output (process_output : Command → Z → result IoError Output) (euid : Z)
    (self : RepositoryContext) (arguments : list string) : result IoError Output :=
  process_output (with_arguments (command euid self) arguments) 120%Z.

(** The queries of zypper that discovery may ask. *)
Definition prepared_queries : list (list string) := [
  ["--non-interactive"; "--no-refresh"; "lr"; "--details"];
  ["--non-interactive"; "--no-refresh"; "locks"];
  ["--non-interactive"; "--no-refresh"; "packages"; "--orphaned"] ].

(** [PreparedDiscovery]: the machine, except that zypper runs in the context. *)
Definition prepared_backend (machine : DiscoveryBackend)
    (run_context : list string → result IoError Output) : DiscoveryBackend := {|
  backend_read := backend_read (DiscoveryBackend := machine);
  backend_read_dir := backend_read_dir (DiscoveryBackend := machine);
  backend_available_bytes := backend_available_bytes (DiscoveryBackend := machine);
  backend_run := λ program arguments,
    if program !=? "zypper" then backend_run (DiscoveryBackend := machine) program arguments
    else if negb (contains prepared_queries arguments) then Err CommandNotAllowed
    else
      output ← map_err (λ _, CommandFailed "zypper") (run_context arguments);
      text ← ok_or (CommandFailed "zypper") (from_utf8 (System.stdout output));
      Ok {| Discovery.success := System.success output; Discovery.stdout := text |} |}.

(* ------------------------------------------------------------------ *)
(** ** Copying a tree *)

(** The errors of the code; [OutOfFuel] is that of the recursion on directories. *)
Inductive SimulationError : Set :=
  | Sim_Io (e : IoError) | NonRegular | MissingParent | CopyFailed | OutOfFuel.

Definition GPGCHECK : string := ".repo_gpgcheck".
Definition gpgcheck_targets : list string := ["true"; "false"; "./true"; "./false"].

(** A path of the code below another. *)
Definition below (p : path) (text : string) : path := reverse (components text) ++ p.

Section simulation.
Context (euid umask : Z) (fault : nat → option (IoError * nat)).
(** [fs::read_dir]: the names, or the error of an entry. *)
Context (read_dir : path → gmap path node → result IoError (list (result IoError string))).
(** [cp --reflink=auto -- source destination]: whether it succeeded, or why it was not
    started. *)
Context (cp : path → path → gmap path node → result IoError bool * gmap path node).
#[local] Abbreviation M := (ST world SimulationError).
#[local] Abbreviation io := (st_map_err Sim_Io).

Definition copy_entries (copy : path → path → M unit) (source destination : path)
    : list (result IoError string) → M unit :=
  fix go entries :=
    match entries with
    | [] => mret ()
    | entry :: entries' =>
        name ← st_lift (map_err Sim_Io entry);
        _ ← copy (join source name) (join destination name);
        go entries'
    end.

(** The content of a file or of what a link leads to. The file system of Fs.v has no
    special files. *)
Definition copy_content (source destination : path) : M unit :=
  resolved ← io (canonicalize fault source);
  metadata ← io (symlink_metadata fault resolved);
  match metadata with
  | File _ _ _ =>
      parent ← st_lift (ok_or MissingParent (parent destination));
      _ ← io (create_dir_all euid umask fault parent);
      copied ← io (syscall fault (cp resolved destination));
      if (copied : bool) then mret () else st_throw CopyFailed
  | _ => st_throw NonRegular
  end.

Fixpoint copy_tree (fuel : nat) (source destination : path) (optional : bool) : M unit :=
  match fuel with
  | O => st_throw OutOfFuel
  | S fuel' =>
      metadata ← st_try (E' := SimulationError) (symlink_metadata fault source);
      match metadata with
      | Err NotFound => if optional then mret () else st_throw (Sim_Io NotFound)
      | Err e => st_throw (Sim_Io e)
      | Ok (Dir _ _) =>
          _ ← io (create_dir_all euid umask fault destination);
          entries ← io (syscall fault (λ ns, (read_dir source ns, ns)));
          copy_entries (λ s d, copy_tree fuel' s d false) source destination entries
      | Ok (Symlink _) =>
          if head source ==? Some GPGCHECK then
            target ← io (read_link fault source);
            if contains gpgcheck_targets target then
              target ← io (read_link fault source);
              io (symlink fault target destination)
            else copy_content source destination
          else copy_content source destination
      | Ok (File _ _ _) => copy_content source destination
      end
  end.

(** A directory of mode 0700 below the one for temporary files, by [tempfile]. *)
Definition temporary_directory (p : path) : M unit :=
  io (syscall fault (λ ns,
    if is_some (ns !! p) then (Err AlreadyExists, ns)
    else if negb (in_dir ns p) then (Err NotFound, ns)
    else (Ok (), <[p := Dir euid 448]> ns))).

Record Simulation := { simulation_directory : path; simulation_context : RepositoryContext; sim_root : path }.

(** The copies that are always made; only the package database must be there. *)
Definition COPIES : list string := [
  "usr/lib/sysimage/rpm"; "usr/lib/rpm/gnupg"; "etc/zypp/locks"; "etc/zypp/vars.d"; "etc/zypp/vendors.d";
  "etc/zypp/systemCheck"; "var/lib/zypp/AutoInstalled"; "etc/products.d"; "etc/os-release";
  "usr/lib/os-release" ].

Fixpoint copy_all (fuel : nat) (copies : list (path * path * bool)) : M unit :=
  match copies with
  | [] => mret ()
  | (source, destination, optional) :: copies' =>
      _ ← copy_tree fuel source destination optional; copy_all fuel copies'
  end.

Definition with_root (self : RepositoryContext) (root : path) : RepositoryContext := {|
  repos := repos self; cache := cache self; raw := raw self; solv := solv self;
  packages_dir := packages_dir self; simulation_root := Some root |}.

(** [directory] is the name tempfile picks. *)
Definition new (fuel : nat) (directory : path) (with_current_repositories : bool) : M Simulation :=
  _ ← temporary_directory directory;
  let root := join directory "root" in
  _ ← io (create_dir euid umask fault root);
  _ ← io (create_dir euid umask fault (join root "tmp"));
  _ ← io (create_dir_all euid umask fault (below root "var/tmp"));
  _ ← copy_all fuel (map (λ text, (below [] text, below root text, text !=? "usr/lib/sysimage/rpm")) COPIES);
  let context := prepared_context (below root "var/lib/lyra-upgrade-simulation") in
  _ ← io (create_dir_all euid umask fault (repos context));
  _ ← io (create_dir_all euid umask fault (cache context));
  _ ← (if with_current_repositories then
         copy_all fuel [
           (below [] "etc/zypp/services.d", below root "etc/zypp/services.d", true);
           (below [] "etc/zypp/repos.d", repos context, true);
           (below [] "var/cache/zypp/raw", raw context, true);
           (below [] "var/cache/zypp/solv", solv context, true) ]
       else mret ());
  mret {| simulation_directory := directory; simulation_context := with_root context root; sim_root := root |}.
End simulation.

(* ------------------------------------------------------------------ *)
(** ** Nothing outside is touched *)

(** The paths at or below a directory. *)
Definition within (directory q : path) : Prop := directory `suffix_of` q.

#[export] Instance within_dec directory q : Decision (within directory q).
Proof. unfold within. apply _. Defined.

(** [create_dir_all] only makes directories, where there was nothing. *)
Definition only_new (p : path) (w w' : world) : Prop :=
  ∀ q : path, nodes w' !! q = nodes w !! q
       ∨ q `suffix_of` p ∧ nodes w !! q = None ∧ ∃ user mode, nodes w' !! q = Some (Dir user mode).

#[export] Instance only_new_reflexive p : Reflexive (only_new p).
Proof. intros w q. by left. Qed.
#[export] Instance only_new_transitive p : Transitive (only_new p).
Proof.
  intros w1 w2 w3 H1 H2 q. destruct (H1 q) as [E1|(Hs & Hn & u & m & Hd)], (H2 q) as [E2|(Hs2 & Hn2 & H2')].
  - left. congruence.
  - right. split; [done|]. split; [congruence|done].
  - right. split; [done|]. split; [done|]. exists u, m. congruence.
  - congruence.
Qed.

Section new_directories.
Context (euid umask : Z) (fault : nat → option (IoError * nat)).

Lemma create_dir_new p : st_rel (only_new p) (create_dir euid umask fault p).
Proof.
  intros w q. unfold create_dir, syscall. destruct (fault (calls w)) as [[]|]; [by left|].
  destruct (is_some (nodes w !! p)) eqn:E; [by left|]. destruct (negb (in_dir (nodes w) p)); [by left|]. cbn.
  destruct (decide (q = p)) as [->|Hne]; [|left; by rewrite lookup_insert_ne].
  right. split; [done|]. split; [by apply is_some_false|]. eexists _, _. apply lookup_insert_eq.
Qed.

Lemma only_new_weaken p q w w' : p `suffix_of` q → only_new p w w' → only_new q w w'.
Proof. intros Hpq H r. destruct (H r) as [|(Hs & ?)]; [by left|right]. split; [by trans p|done]. Qed.

Lemma create_dir_all_new p : st_rel (only_new p) (create_dir_all euid umask fault p).
Proof.
  assert (∀ e p q, st_rel (only_new p)
    (n ← st_try (E':=IoError) (symlink_metadata fault q);
     match n with Ok (Dir _ _) => mret () | _ => st_throw (A := unit) e end)) as Hset.
  { intros e r q. apply st_rel_bind; [apply _| |intros [[]|]; first [apply st_rel_ret, _|apply st_rel_throw, _]].
    apply st_rel_try. intros w x. left. by rewrite symlink_metadata_nodes. }
  induction p as [|name p IH]; [apply st_rel_ret, _|]. cbn [create_dir_all].
  apply st_rel_bind; [apply _|apply st_rel_try, create_dir_new|intros [[]|[]]]; try apply Hset; [apply st_rel_ret, _|].
  apply st_rel_bind; [apply _| |intros _].
  - intros w. eapply only_new_weaken; [|apply IH]. by apply suffix_cons_r.
  - apply st_rel_bind; [apply _|apply st_rel_try, create_dir_new|intros [[]|e]]; [apply st_rel_ret, _|apply Hset].
Qed.
End new_directories.

(** A link of the copies leads to a file next to it. *)
Definition harmless_link (q : path) (target : string) : Prop :=
  head q = Some GPGCHECK ∧ target ∈ gpgcheck_targets.

Section confinement.
Context (directory : path).

(** The directory and those above it exist, and every link in it is harmless. *)
Record enclosed (w : world) : Prop := {
  enclosed_above : ∀ q : path, q `suffix_of` directory → is_some (nodes w !! q) = true;
  enclosed_links : ∀ (q : path) target, within directory q → nodes w !! q = Some (Symlink target) → harmless_link q target;
}.

(** A step that stays inside and keeps it so. *)
Definition stays (w w' : world) : Prop :=
  enclosed w → enclosed w' ∧ ∀ q : path, ¬ within directory q → nodes w' !! q = nodes w !! q.

#[export] Instance stays_reflexive : Reflexive stays.
Proof. by intros w Hw. Qed.
#[export] Instance stays_transitive : Transitive stays.
Proof.
  intros w1 w2 w3 H1 H2 Hw. destruct (H1 Hw) as [Hw2 E1], (H2 Hw2) as [Hw3 E2].
  split; [done|]. intros q Hq. by rewrite E2, E1.
Qed.

Lemma stays_same w w' : nodes w' = nodes w → stays w w'.
Proof. intros E Hw. split; [|intros; by rewrite E]. destruct Hw. by constructor; rewrite E. Qed.

Lemma stays_new p w w' : within directory p → only_new p w w' → stays w w'.
Proof.
  intros Hp H Hw. destruct Hw as [Ha Hl].
  assert (∀ q : path, ¬ within directory q → nodes w' !! q = nodes w !! q) as Hq.
  { intros q Hq. destruct (H q) as [|(Hs & Hn & _)]; [done|]. exfalso.
    destruct (suffix_weak_total q directory p Hs Hp) as [Hc|Hc]; [|done].
    specialize (Ha q Hc). by rewrite Hn in Ha. }
  split; [|exact Hq]. constructor.
  - intros q Hqs. specialize (Ha q Hqs). destruct (H q) as [->|(_ & Hn & _)]; [done|]. by rewrite Hn in Ha.
  - intros q t Hq' Ht. destruct (H q) as [E|(_ & _ & u & m & Hd)]; [|congruence]. rewrite E in Ht. by apply Hl.
Qed.

Lemma stays_bind {E A B} (m : ST world E A) (f : A → ST world E B) :
  st_rel stays m → (∀ a, st_rel stays (f a)) → st_rel stays (m ≫= f).
Proof. apply st_rel_bind, _. Qed.
Lemma stays_ret {E A} (a : A) : st_rel (E := E) stays (mret a).
Proof. apply st_rel_ret, _. Qed.
Lemma stays_throw {E A} (e : E) : st_rel (A := A) stays (st_throw e).
Proof. apply st_rel_throw, _. Qed.
Lemma stays_lift {E A} (r : result E A) : st_rel stays (st_lift r).
Proof. apply st_rel_lift, _. Qed.
Lemma stays_known {E A B} (a : A) (f : A → ST world E B) :
  st_rel stays (f a) → st_rel stays (st_lift (Ok a) ≫= f).
Proof. intros H w. apply H. Qed.
Lemma stays_quiet {E A} (m : ST world E A) : st_rel (touches (λ _, False)) m → st_rel stays m.
Proof. intros H w. apply stays_same. apply map_eq. intros q. apply H. tauto. Qed.

Section copying.
Context (euid umask : Z) (fault : nat → option (IoError * nat)).
Context (read_dir : path → gmap path node → result IoError (list (result IoError string))).
Context (cp : path → path → gmap path node → result IoError bool * gmap path node).

(** cp writes only in the directory of its destination, unless that is a link that
    leads elsewhere, and it makes no links. *)
Hypothesis cp_writes : ∀ source (p : path) ns (q : path),
  (∀ target, ns !! p = Some (Symlink target) → target ∈ gpgcheck_targets) →
  (∀ r name, q ≠ r ++ name :: tail p) → (cp source p ns).2 !! q = ns !! q.
Hypothesis cp_no_links : ∀ source (p : path) ns (q : path) target,
  (cp source p ns).2 !! q = Some (Symlink target) → ns !! q = Some (Symlink target).

Lemma create_dir_all_stays p : within directory p → st_rel stays (create_dir_all euid umask fault p).
Proof. intros Hp w. eapply stays_new; [exact Hp|apply create_dir_all_new]. Qed.
Lemma create_dir_stays p : within directory p → st_rel stays (create_dir euid umask fault p).
Proof. intros Hp w. eapply stays_new; [exact Hp|apply create_dir_new]. Qed.

Lemma not_above (p q r : path) name : within directory p → q `suffix_of` directory → q ≠ r ++ name :: p.
Proof.
  intros Hp Hq ->. apply suffix_length in Hp, Hq. rewrite length_app in Hq. cbn in Hq. lia.
Qed.

Lemma outside_parent (p q r : path) name : within directory p → ¬ within directory q → q ≠ r ++ name :: p.
Proof. intros Hp Hq ->. apply Hq. unfold within. by apply suffix_app_r, suffix_cons_r. Qed.

Lemma cp_stays source name p :
  within directory p → st_rel stays (syscall fault (cp source (name :: p))).
Proof.
  intros Hp w Hw. unfold syscall. destruct (fault (calls w)) as [[]|]; [by apply stays_same|].
  pose proof (cp_writes source (name :: p) (nodes w)) as Hc. pose proof (cp_no_links source (name :: p) (nodes w)) as Hn.
  destruct (cp source (name :: p) (nodes w)) as [r ns]. cbn in *. destruct Hw as [Ha Hl].
  assert (∀ target, nodes w !! (name :: p) = Some (Symlink target) → target ∈ gpgcheck_targets) as Ht.
  { intros t Ht. apply (Hl (name :: p)); [by apply suffix_cons_r|done]. }
  split; [constructor; cbn|cbn].
  - intros q Hq. rewrite Hc; [by apply Ha|done|]. intros r' n. by apply not_above.
  - intros q t Hq Hs. apply Hl; [done|]. by apply Hn.
  - intros q Hq. apply Hc; [done|]. intros r' n. by apply outside_parent.
Qed.

Lemma symlink_stays target name p :
  within directory p → harmless_link (name :: p) target → st_rel stays (symlink fault target (name :: p)).
Proof.
  intros Hp Ht w Hw. unfold symlink, syscall. cbv beta. destruct (fault (calls w)) as [[]|]; [by apply stays_same|].
  destruct (is_some _); [by apply (stays_same w)|].
  destruct (negb _); [by apply (stays_same w)|]. cbn. destruct Hw as [Ha Hl].
  split; [constructor; cbn|cbn].
  - intros q Hq. rewrite lookup_insert_ne; [by apply Ha|]. intros <-.
    exact (not_above p (name :: p) [] name Hp Hq eq_refl).
  - intros q t Hq. destruct (decide (q = name :: p)) as [->|Hne].
    + rewrite lookup_insert_eq. by intros [= <-].
    + rewrite lookup_insert_ne by done. by apply Hl.
  - intros q Hq. rewrite lookup_insert_ne; [done|]. intros <-.
    exact (outside_parent p (name :: p) [] name Hp Hq eq_refl).
Qed.

Lemma copy_content_stays source name p :
  within directory p → st_rel stays (copy_content euid umask fault cp source (name :: p)).
Proof.
  intros Hp. unfold copy_content.
  apply stays_bind; [apply st_rel_map_err, stays_quiet, canonicalize_touches|intros resolved].
  apply stays_bind; [apply st_rel_map_err, stays_quiet, symlink_metadata_touches|intros metadata].
  destruct metadata; auto using stays_throw. cbn [parent].
  apply stays_known.
  apply stays_bind; [apply st_rel_map_err; by apply create_dir_all_stays|intros _].
  apply stays_bind; [apply st_rel_map_err; by apply cp_stays|intros copied].
  destruct copied; auto using stays_ret, stays_throw.
Qed.

(** Both readings of a link find the same target. *)
Lemma copy_link_stays source p :
  within directory p →
  st_rel stays (target ← st_map_err Sim_Io (read_link fault source);
                if contains gpgcheck_targets target then
                  target ← st_map_err Sim_Io (read_link fault source);
                  st_map_err Sim_Io (symlink fault target (GPGCHECK :: p))
                else copy_content euid umask fault cp source (GPGCHECK :: p)).
Proof.
  intros Hp w. unfold mbind at 1, st_bind at 1, st_map_err at 1.
  pose proof (read_link_touches fault (λ _, False) source) as Hq.
  pose proof (stays_quiet _ Hq w) as S1. destruct (read_link fault source w) as [[t|e] w1] eqn:E1; [|exact S1].
  apply read_link_Ok in E1 as [E1 N1]. destruct (contains gpgcheck_targets t) eqn:Et.
  - unfold mbind, st_bind, st_map_err at 1. pose proof (stays_quiet _ Hq w1) as S2.
    destruct (read_link fault source w1) as [[t'|e] w2] eqn:E2; [|by etrans].
    apply read_link_Ok in E2 as [E2 N2]. rewrite N1, E1 in E2. injection E2 as <-.
    etrans; [exact S1|]. etrans; [exact S2|]. apply st_rel_map_err, symlink_stays; [done|].
    split; [done|]. by apply contains_true.
  - etrans; [exact S1|]. by apply copy_content_stays.
Qed.

Lemma copy_entries_stays copy source p entries :
  (∀ name, st_rel stays (copy (join source name) (join p name))) →
  st_rel stays (copy_entries copy source p entries).
Proof.
  intros Hc. induction entries as [|entry entries IH]; [apply stays_ret|].
  apply stays_bind; [apply stays_lift|intros name].
  apply stays_bind; [apply Hc|intros _; exact IH].
Qed.

Lemma copy_tree_stays fuel source name p optional :
  within directory p → head source = Some name →
  st_rel stays (copy_tree euid umask fault read_dir cp fuel source (name :: p) optional).
Proof.
  revert source name p optional. induction fuel as [|fuel IH]; intros source name p optional Hp Hs;
    [apply stays_throw|]. cbn [copy_tree].
  apply stays_bind; [apply st_rel_try, stays_quiet, symlink_metadata_touches|].
  intros [[u m|u m c|t]|[]]; auto using stays_throw, copy_content_stays;
    [| |by destruct optional; auto using stays_throw, stays_ret].
  - apply stays_bind; [apply st_rel_map_err, create_dir_all_stays; by apply suffix_cons_r|intros _].
    apply stays_bind; [apply st_rel_map_err, stays_quiet, syscall_touches; by intros|intros entries].
    apply copy_entries_stays. intros entry. apply IH; [by apply suffix_cons_r|done].
  - destruct (head source ==? Some GPGCHECK) eqn:Eh; [|by apply copy_content_stays].
    rewrite eqb_true, Hs in Eh. injection Eh as ->. by apply copy_link_stays.
Qed.

(** A copy to a place inside that keeps the last name. *)
Definition proper_copy (copy : path * path * bool) : Prop :=
  ∃ name p, copy.1.2 = name :: p ∧ within directory p ∧ head copy.1.1 = Some name.

Lemma copy_all_stays fuel copies :
  Forall proper_copy copies → st_rel stays (copy_all euid umask fault read_dir cp fuel copies).
Proof.
  induction 1 as [|[[source destination] optional] copies (name & p & E & Hp & Hs) _ IH]; [apply stays_ret|].
  cbn in E, Hs. subst destination. cbn [copy_all].
  apply stays_bind; [by apply copy_tree_stays|intros _; exact IH].
Qed.

Lemma below_proper root text optional :
  within directory root → is_some (last (components text)) = true →
  proper_copy (below [] text, below root text, optional).
Proof.
  intros Hr Hl. destruct (last (components text)) as [name|] eqn:E; [|done].
  apply last_Some in E as [cs E]. exists name, (reverse cs ++ root). unfold below. cbn.
  rewrite E, reverse_snoc. split; [done|]. split; [by apply suffix_app_r|done].
Qed.

Lemma below_within root text : within directory root → within directory (below root text).
Proof. intros Hr. by apply suffix_app_r. Qed.

(** What is copied into the private directory, once it exists. *)
Lemma filled_stays fuel (with_current_repositories : bool) (f : RepositoryContext → Simulation) :
  let root := join directory "root" in
  let context := prepared_context (below root "var/lib/lyra-upgrade-simulation") in
  st_rel stays
    (_ ← st_map_err Sim_Io (create_dir euid umask fault root);
     _ ← st_map_err Sim_Io (create_dir euid umask fault (join root "tmp"));
     _ ← st_map_err Sim_Io (create_dir_all euid umask fault (below root "var/tmp"));
     _ ← copy_all euid umask fault read_dir cp fuel
           (map (λ text, (below [] text, below root text, text !=? "usr/lib/sysimage/rpm")) COPIES);
     _ ← st_map_err Sim_Io (create_dir_all euid umask fault (repos context));
     _ ← st_map_err Sim_Io (create_dir_all euid umask fault (cache context));
     _ ← (if with_current_repositories then
            copy_all euid umask fault read_dir cp fuel [
              (below [] "etc/zypp/services.d", below root "etc/zypp/services.d", true);
              (below [] "etc/zypp/repos.d", repos context, true);
              (below [] "var/cache/zypp/raw", raw context, true);
              (below [] "var/cache/zypp/solv", solv context, true) ]
          else mret ());
     mret (f context)).
Proof.
  intros root context. assert (within directory root) as Hr by (by apply suffix_cons_r).
  set (operation_dir := below root "var/lib/lyra-upgrade-simulation") in *.
  assert (within directory operation_dir) as Ho by (by apply below_within).
  apply stays_bind; [by apply st_rel_map_err, create_dir_stays|intros _].
  apply stays_bind; [apply st_rel_map_err, create_dir_stays; by apply suffix_cons_r|intros _].
  apply stays_bind; [by apply st_rel_map_err, create_dir_all_stays, below_within|intros _].
  apply stays_bind; [apply copy_all_stays|intros _].
  { apply Forall_map. apply Forall_forall. intros text Ht. apply below_proper; [done|].
    revert text Ht. apply Forall_forall. vm_compute. by repeat constructor. }
  apply stays_bind; [apply st_rel_map_err, create_dir_all_stays; by apply suffix_cons_r|intros _].
  apply stays_bind; [apply st_rel_map_err, create_dir_all_stays; by apply suffix_cons_r|intros _].
  apply stays_bind; [|intros _; apply stays_ret].
  destruct with_current_repositories; [|apply stays_ret]. apply copy_all_stays.
  apply Forall_cons; split; [by apply below_proper|].
  assert (∀ text name p, within directory p → head (below [] text) = Some name →
    proper_copy (below [] text, name :: p, true)) as Hp by (intros text name p ? ?; by exists name, p).
  repeat (apply Forall_cons; split); [..|constructor]; apply Hp; try reflexivity; [done|..];
    by apply suffix_cons_r.
Qed.

(** The paths zypper is started with. *)
Definition context_paths (self : RepositoryContext) : list path :=
  [repos self; cache self; raw self; solv self; packages_dir self].

(** C22 Building the root of a simulation, whichever call or copy fails, changes nothing
    outside of the private directory tempfile made for it; every link it leaves in there
    is a check mark of a repository that leads to a file next to it, so that no path of
    the copies leads back to the live system; and the context that is returned, with the
    root it works on and each of its paths, lies in there. *)
Theorem simulation_confined fuel with_current_repositories w x w' :
  (∀ q : path, within directory q → nodes w !! q = None) →
  (∀ q : path, q `suffix_of` directory → q ≠ directory → is_some (nodes w !! q) = true) →
  new euid umask fault read_dir cp fuel directory with_current_repositories w = (x, w') →
  (∀ q : path, ¬ within directory q → nodes w' !! q = nodes w !! q)
  ∧ (∀ (q : path) target, within directory q → nodes w' !! q = Some (Symlink target) → harmless_link q target)
  ∧ (∀ s, x = Ok s →
      simulation_root (simulation_context s) = Some (sim_root s) ∧ within directory (sim_root s)
      ∧ Forall (within directory) (context_paths (simulation_context s))).
Proof.
  intros Hfresh Habove H. unfold new in H.
  apply st_bind_cases in H as [(e & H & ->)|([] & w1 & H1 & H)].
  - apply st_map_err_Err in H as (e0 & H & _).
    assert (nodes w' = nodes w) as E.
    { unfold syscall in H. destruct (fault (calls w)) as [[]|]; [by injection H as _ <-|].
      destruct (is_some _); [by injection H as _ <-|]. destruct (negb _); [by injection H as _ <-|done]. }
    split; [intros; by rewrite E|]. split; [|done]. intros q t Hq. by rewrite E, Hfresh.
  - assert (nodes w1 = <[directory := Dir euid 448]> (nodes w)) as E1.
    { apply st_map_err_Ok, syscall_Ok in H1 as (_ & H1 & _). destruct (is_some _); [done|].
      destruct (negb _); [done|]. by injection H1 as <-. }
    assert (enclosed w1) as He1.
    { constructor; rewrite E1.
      - intros q Hq. destruct (decide (q = directory)) as [->|Hne]; [by rewrite lookup_insert_eq|].
        rewrite lookup_insert_ne by done. by apply Habove.
      - intros q t Hq. destruct (decide (q = directory)) as [->|Hne]; [by rewrite lookup_insert_eq|].
        rewrite lookup_insert_ne by done. by rewrite Hfresh. }
    pose proof (filled_stays fuel with_current_repositories
      (λ context, {| simulation_directory := directory;
                     simulation_context := with_root context (join directory "root");
                     sim_root := join directory "root" |}) w1 He1) as [He2 Hout].
    cbv zeta in Hout, He2. cbv zeta in H. rewrite H in Hout, He2. cbn [snd] in Hout, He2.
    split; [|split].
    + intros q Hq. rewrite Hout, E1 by done. rewrite lookup_insert_ne; [done|]. intros <-. by apply Hq.
    + apply He2.
    + intros s ->. clear He2 Hout. st_inv. subst s. split; [done|].
      assert (within directory (join directory "root")) as Hr by (by apply suffix_cons_r).
      split; [exact Hr|]. pose proof (below_within _ "var/lib/lyra-upgrade-simulation" Hr) as Ho.
      unfold context_paths. rewrite !Forall_cons. split_and!;
        try exact (suffix_cons_r _ _ _ Ho); try exact (suffix_cons_r _ _ _ (suffix_cons_r _ _ _ Ho)).
      by apply Forall_nil.
Qed.
End copying.
End confinement.

(* ------------------------------------------------------------------ *)
(** ** The copies are complete *)

(** What a node of the source becomes: a directory is one again, a check mark is the same
    link, and anything else is a file with the content it leads to. *)
Definition copied (ns : gmap path node) (q : path) (n' : option node) : Prop :=
  match ns !! q with
  | None => n' = None
  | Some (Dir _ _) => ∃ user mode, n' = Some (Dir user mode)
  | Some n =>
      (∃ target, n = Symlink target ∧ harmless_link q target ∧ n' = Some (Symlink target))
      ∨ ∃ resolved user mode content user' mode',
          canonical MAX_LINKS ns [] (reverse q) = Ok resolved ∧ ns !! resolved = Some (File user mode content)
          ∧ n' = Some (File user' mode' content)
  end.

(** A tree that can be copied: what is below a directory only, and leads to files. *)
Record copyable (ns : gmap path node) (source : path) : Prop := {
  copyable_below : ∀ (p : path) name, is_some (ns !! (name :: p ++ source : path)) = true →
    ∃ user mode, ns !! (p ++ source : path) = Some (Dir user mode);
  copyable_leads : ∀ (p : path) n, ns !! (p ++ source : path) = Some n → is_dir n = false →
    (∃ target, n = Symlink target ∧ harmless_link (p ++ source) target)
    ∨ ∃ resolved user mode content,
        canonical MAX_LINKS ns [] (reverse (p ++ source)) = Ok resolved
        ∧ ns !! resolved = Some (File user mode content);
}.

(** Neither path is below the other. *)
Definition apart (source destination : path) : Prop :=
  ∀ p q : path, p ++ source ≠ q ++ destination.

Lemma app_entry {A} (p l : list A) x : p ++ x :: l = (p ++ [x]) ++ l.
Proof. by rewrite <- app_assoc. Qed.

(** Paths below two entries of a directory are different. *)
Lemma same_entry {A} (p k l : list A) x y : p ++ x :: l = k ++ y :: l → x = y.
Proof. rewrite (app_entry p), (app_entry k). intros E. by apply app_inv_tail, app_inj_tail in E as [_ ->]. Qed.

Lemma entry_not_self {A} (p l : list A) x : p ++ x :: l ≠ l.
Proof. intros E. apply (f_equal length) in E. rewrite length_app in E. cbn in E. lia. Qed.

Lemma apart_join source destination name :
  apart source destination → apart (name :: source) (name :: destination).
Proof.
  intros H p q E. apply (H (p ++ [name]) (q ++ [name])). by rewrite <- (app_entry p), <- (app_entry q).
Qed.

(** A path is resolved the same where there is more. *)
Lemma canonical_more links ns ns' base todo q :
  ns ⊆ ns' → canonical links ns base todo = Ok q → canonical links ns' base todo = Ok q.
Proof.
  intros Hs. revert base todo. induction links as [|links IHl]; intros base todo; revert base;
    induction todo as [|name todo IH]; intros base; cbn; try done.
  all: destruct (name ==? ".."); [apply IH|].
  all: destruct (ns !! (name :: base)) as [n|] eqn:E; [|done].
  all: rewrite (lookup_weaken _ _ _ _ E Hs).
  all: destruct n; auto.
Qed.

Section complete.
Context (euid umask : Z).
Context (read_dir : path → gmap path node → result IoError (list (result IoError string))).
Context (cp : path → path → gmap path node → result IoError bool * gmap path node).

(** A listing has the entries of the directory, each once. *)
Hypothesis read_dir_lists : ∀ (p : path) ns user mode, ns !! p = Some (Dir user mode) →
  ∃ names, read_dir p ns = Ok (map Ok names) ∧ NoDup names
    ∧ ∀ name, name ∈ names ↔ is_some (ns !! (name :: p : path)) = true.
(** cp copies the content of a file to a new name. *)
Hypothesis cp_copies : ∀ (source p : path) ns user mode content,
  ns !! source = Some (File user mode content) → ns !! p = None → in_dir ns p = true →
  ∃ user' mode', cp source p ns = (Ok true, <[p := File user' mode' content]> ns).

(** The file system at the start. *)
Context (ns0 : gmap path node).

Lemma nothing_below (q p : path) :
  (∀ (p : path) name, is_some (ns0 !! (name :: p ++ q : path)) = true →
     ∃ user mode, ns0 !! (p ++ q : path) = Some (Dir user mode)) →
  (∀ user mode, ns0 !! q ≠ Some (Dir user mode)) → p ≠ [] → ns0 !! (p ++ q : path) = None.
Proof.
  intros Hb Hq. induction p as [|name p IH]; [done|]. intros _. apply is_some_false.
  destruct (is_some (ns0 !! (name :: p ++ q : path))) eqn:E; [|done]. exfalso.
  apply Hb in E as (u & m & E). destruct p as [|name' p]; [by apply (Hq u m)|]. by rewrite IH in E.
Qed.

Lemma copyable_join source name : copyable ns0 source → copyable ns0 (name :: source).
Proof.
  intros [Hb Hl]. constructor; intros p n; rewrite app_entry; [apply Hb|apply Hl].
Qed.

Lemma create_dir_all_there (p : path) w user mode :
  nodes w !! p = Some (Dir user mode) →
  ∃ w', create_dir_all euid umask no_fault p w = (Ok (), w') ∧ nodes w' = nodes w.
Proof.
  intros Hp. destruct p as [|name p]; [by exists w|]. cbn [create_dir_all].
  unfold create_dir, symlink_metadata, syscall, mbind, st_bind, st_try. cbn. rewrite Hp. cbn. rewrite Hp. cbn.
  by eexists.
Qed.

Lemma create_dir_all_fresh (p : path) w :
  nodes w !! p = None → in_dir (nodes w) p = true →
  ∃ w' mode, create_dir_all euid umask no_fault p w = (Ok (), w') ∧ nodes w' = <[p := Dir euid mode]> (nodes w).
Proof.
  intros Hp Hd. destruct p as [|name p]; [done|]. cbn [create_dir_all].
  unfold create_dir, syscall, mbind, st_bind, st_try. cbn -[in_dir]. rewrite Hp. cbn -[in_dir]. rewrite Hd. cbn. eauto.
Qed.

Lemma in_dir_parent ns name (p : path) :
  in_dir ns (name :: p) = true → ∃ user mode, ns !! p = Some (Dir user mode).
Proof.
  unfold in_dir. cbn [Fs.parent]. destruct (ns !! p) as [[u m|? ? ?|?]|]; cbn; try done. eauto.
Qed.

Lemma in_dir_of ns name (p : path) user mode : ns !! p = Some (Dir user mode) → in_dir ns (name :: p) = true.
Proof. intros H. unfold in_dir. cbn [Fs.parent]. by rewrite H. Qed.

Lemma symlink_metadata_eq (p : path) w n :
  nodes w !! p = Some n → ∃ w', symlink_metadata no_fault p w = (Ok n, w') ∧ nodes w' = nodes w.
Proof. intros H. unfold symlink_metadata, syscall. cbn. rewrite H. cbn. eauto. Qed.

Lemma lookup_more ns (q : path) n : ns0 ⊆ ns → ns0 !! q = Some n → ns !! q = Some n.
Proof. intros Hs Hq. exact (lookup_weaken _ _ _ _ Hq Hs). Qed.

(** A file, or a link that is no check mark. *)
Lemma copy_content_copies (source destination : path) w resolved user mode content :
  ns0 ⊆ nodes w → canonical MAX_LINKS ns0 [] (reverse source) = Ok resolved →
  ns0 !! resolved = Some (File user mode content) →
  nodes w !! destination = None → in_dir (nodes w) destination = true →
  ∃ w' user' mode', copy_content euid umask no_fault cp source destination w = (Ok (), w')
    ∧ nodes w' = <[destination := File user' mode' content]> (nodes w).
Proof.
  intros Hs Hc Hf Hd Hin. destruct destination as [|name parent]; [done|].
  unfold copy_content.
  destruct (canonicalize_eq source w resolved) as (w1 & E1 & N1); [by apply (canonical_more _ ns0)|].
  erewrite st_bind_eq by (apply st_map_err_Ok; exact E1).
  destruct (symlink_metadata_eq resolved w1 (File user mode content)) as (w2 & E2 & N2).
  { rewrite N1. by apply lookup_more. }
  erewrite st_bind_eq by (apply st_map_err_Ok; exact E2). cbn [Fs.parent].
  erewrite st_bind_eq by reflexivity.
  destruct (in_dir_parent _ _ _ Hin) as (u & m & Ep).
  destruct (create_dir_all_there parent w2 u m) as (w3 & E3 & N3); [by rewrite N2, N1|].
  erewrite st_bind_eq by (apply st_map_err_Ok; exact E3). rewrite N2, N1 in N3.
  destruct (cp_copies resolved (name :: parent) (nodes w3) user mode content) as (u' & m' & Hcp).
  { rewrite N3. by apply lookup_more. }
  { by rewrite N3. }
  { by rewrite N3. }
  erewrite st_bind_eq by (unfold st_map_err, syscall; cbn; rewrite Hcp; reflexivity).
  rewrite N3. eexists _, u', m'. split; reflexivity.
Qed.

(** The state in which a copy starts. *)
Record ready (source destination : path) (w : world) : Prop := {
  ready_more : ns0 ⊆ nodes w;
  ready_source : ∀ p : path, nodes w !! (p ++ source : path) = ns0 !! (p ++ source : path);
  ready_destination : ∀ p : path, nodes w !! (p ++ destination : path) = None;
  ready_parent : in_dir (nodes w) destination = true;
  ready_apart : apart source destination;
}.

Lemma ready_same source destination w w' :
  nodes w' = nodes w → ready source destination w → ready source destination w'.
Proof. intros E []. constructor; rewrite ?E; try done; intros; by rewrite E. Qed.

(** What a copy leaves. *)
Definition mirrored (source destination : path) (w w' : world) : Prop :=
  (∀ q : path, ¬ within destination q → nodes w' !! q = nodes w !! q)
  ∧ ∀ p : path, copied ns0 (p ++ source) (nodes w' !! (p ++ destination : path)).

Lemma more_outside (destination : path) w w' :
  ns0 ⊆ nodes w → (∀ p : path, nodes w !! (p ++ destination : path) = None) →
  (∀ q : path, ¬ within destination q → nodes w' !! q = nodes w !! q) → ns0 ⊆ nodes w'.
Proof.
  intros Hs Hd Hq. apply map_subseteq_spec. intros q n Hn. pose proof (lookup_more _ _ _ Hs Hn) as Hn'.
  rewrite Hq; [done|]. intros [k ->]. by rewrite Hd in Hn'.
Qed.

Lemma within_not_apart source destination (p : path) :
  apart source destination → ¬ within destination (p ++ source).
Proof. intros Ha [k E]. by apply (Ha p k). Qed.

Lemma copied_none (q : path) : ns0 !! q = None → copied ns0 q None.
Proof. intros H. unfold copied. by rewrite H. Qed.

(** A single node that is not a directory. *)
Lemma mirrored_leaf (source destination : path) w w' n n' :
  ready source destination w → copyable ns0 source → ns0 !! source = Some n → is_dir n = false →
  nodes w' = <[destination := n']> (nodes w) → copied ns0 source (Some n') → mirrored source destination w w'.
Proof.
  intros Hr [Hb _] Hn Hd E Hc. split.
  - intros q Hq. rewrite E, lookup_insert_ne; [done|]. intros <-. apply Hq. by exists [].
  - intros p. rewrite E. destruct (decide (p = [])) as [->|Hp]; [cbn [app]; by rewrite lookup_insert_eq|].
    assert (destination ≠ p ++ destination) as Hne.
    { intros E'. apply Hp. apply (app_inv_tail destination). by rewrite <- E'. }
    rewrite lookup_insert_ne by exact Hne. rewrite (ready_destination _ _ _ Hr). apply copied_none.
    apply nothing_below; [exact Hb|intros u m Hu; rewrite Hu in Hn; by injection Hn as <-|done].
Qed.

Lemma copy_entries_copies copy (source destination : path) names w user mode :
  (∀ name w, name ∈ names → ready (name :: source) (name :: destination) w →
     ∃ w', copy (join source name) (join destination name) w = (Ok (), w')
           ∧ mirrored (name :: source) (name :: destination) w w') →
  NoDup names → ns0 ⊆ nodes w → (∀ p : path, nodes w !! (p ++ source : path) = ns0 !! (p ++ source : path)) →
  nodes w !! destination = Some (Dir user mode) → apart source destination →
  (∀ name (p : path), name ∈ names → nodes w !! (p ++ name :: destination : path) = None) →
  ∃ w', copy_entries copy source destination (map Ok names) w = (Ok (), w')
    ∧ (∀ q : path, (∀ name, name ∈ names → ¬ within (name :: destination) q) → nodes w' !! q = nodes w !! q)
    ∧ (∀ name (p : path), name ∈ names →
         copied ns0 (p ++ name :: source) (nodes w' !! (p ++ name :: destination : path))).
Proof.
  intros Hcopy Hnd. revert w Hcopy. induction Hnd as [|name names Hin Hnd IH]; intros w Hcopy Hs Hsrc Hd Ha Hfresh.
  { exists w. split; [done|]. split; [done|]. intros name p H. by apply elem_of_nil in H. }
  destruct (Hcopy name w) as (w1 & E1 & Hq1 & Hc1); [left| |].
  { constructor; [done| | |by eapply in_dir_of|by apply apart_join].
    - intros p. rewrite app_entry. apply Hsrc.
    - intros p. apply Hfresh. left. }
  assert (∀ name' (p : path), name' ∈ names → ¬ within (name :: destination) (p ++ name' :: destination)) as Hother.
  { intros name' p Hn' [k E]. apply Hin. by apply same_entry in E as <-. }
  destruct (IH w1) as (w2 & E2 & Hq2 & Hc2).
  - intros name' w' Hn'. apply Hcopy. by right.
  - eapply more_outside; [exact Hs| |exact Hq1]. intros p. apply Hfresh. left.
  - intros p. rewrite Hq1; [apply Hsrc|].
    intros [k E]. apply (Ha p (k ++ [name])). by rewrite E, app_entry.
  - rewrite Hq1; [exact Hd|]. by apply suffix_cons_not.
  - done.
  - intros name' p Hn'. rewrite Hq1; [apply Hfresh; by right|by apply Hother].
  - exists w2. split.
    { cbn [map copy_entries]. erewrite st_bind_eq by reflexivity. erewrite st_bind_eq by exact E1. exact E2. }
    split.
    + intros q Hq. rewrite Hq2, Hq1; [done|apply Hq; left|]. intros name' Hn'. apply Hq. by right.
    + intros name' p [->|Hn']%elem_of_cons; [|by apply Hc2]. rewrite Hq2; [apply Hc1|].
      intros name'' Hn'' [k E]. by apply same_entry in E as <-.
Qed.

(** A check mark is copied as a link. *)
Lemma copy_mark (source destination : path) w target :
  ready source destination w → nodes w !! source = Some (Symlink target) →
  target ∈ gpgcheck_targets →
  ∃ w', (target ← st_map_err Sim_Io (read_link no_fault source);
         if contains gpgcheck_targets target then
           target ← st_map_err Sim_Io (read_link no_fault source);
           st_map_err Sim_Io (symlink no_fault target destination)
         else copy_content euid umask no_fault cp source destination) w = (Ok (), w')
    ∧ nodes w' = <[destination := Symlink target]> (nodes w).
Proof.
  intros Hr Hn Ht.
  destruct (read_link_eq source w target Hn) as (w1 & E1 & N1).
  erewrite st_bind_eq by (apply st_map_err_Ok; exact E1).
  rewrite (proj2 (contains_true _ _) Ht).
  destruct (read_link_eq source w1 target) as (w2 & E2 & N2); [by rewrite N1|].
  erewrite st_bind_eq by (apply st_map_err_Ok; exact E2).
  pose proof (ready_destination _ _ _ Hr []) as Hd. pose proof (ready_parent _ _ _ Hr) as Hp. cbn [app] in Hd.
  unfold st_map_err, symlink, syscall. cbn -[in_dir]. rewrite N2, N1, Hd. cbn -[in_dir]. rewrite Hp. cbn.
  eexists. split; reflexivity.
Qed.

Lemma copy_tree_leaf fuel (source destination : path) optional w n :
  ready source destination w → copyable ns0 source → ns0 !! source = Some n → is_dir n = false →
  ∃ w', copy_tree euid umask no_fault read_dir cp (S fuel) source destination optional w = (Ok (), w')
        ∧ mirrored source destination w w'.
Proof.
  intros Hr Hc Hn Hd. cbn [copy_tree].
  pose proof (ready_source _ _ _ Hr []) as Hw. cbn [app] in Hw. rewrite Hn in Hw.
  destruct (symlink_metadata_eq source w n Hw) as (w1 & E1 & N1).
  erewrite st_bind_eq by (apply st_try_eq; exact E1).
  pose proof (ready_same _ _ _ _ N1 Hr) as Hr1.
  assert (∀ wx, nodes wx = nodes w → (∀ target, n = Symlink target → ¬ harmless_link source target) →
    ∃ w', copy_content euid umask no_fault cp source destination wx = (Ok (), w')
      ∧ mirrored source destination w w') as Hcontent.
  { intros wx Nx Hno. pose proof (ready_same _ _ _ _ Nx Hr) as Hrx.
    destruct (copyable_leads _ _ Hc [] n Hn Hd) as [(t & -> & Ht)|(resolved & u & m & c & Hres & Hf)];
      [by destruct (Hno t eq_refl)|]. cbn [app] in Hres.
    destruct (copy_content_copies source destination wx resolved u m c) as (w2 & u' & m' & E2 & N2);
      [apply Hrx|exact Hres|exact Hf|exact (ready_destination _ _ _ Hrx [])|apply Hrx|].
    exists w2. split; [exact E2|]. rewrite Nx in N2.
    eapply mirrored_leaf; [exact Hr|exact Hc|exact Hn|exact Hd|exact N2|].
    unfold copied. rewrite Hn. destruct n; [done|right..]; by exists resolved, u, m, c, u', m'. }
  destruct n as [u m|u m c|t]; [done|by apply Hcontent|].
  destruct (head source ==? Some GPGCHECK) eqn:Eh; rewrite ?eqb_true, ?eqb_false in Eh;
    [|apply Hcontent; [done|]; intros t' _ [Hh _]; by apply Eh].
  destruct (decide (t ∈ gpgcheck_targets)) as [Ht|Ht].
  - destruct (copy_mark source destination w1 t) as (w2 & E2 & N2); [done|by rewrite N1|done|].
    rewrite N1 in N2. exists w2. split; [exact E2|].
    eapply mirrored_leaf; [exact Hr|exact Hc|exact Hn|done|exact N2|].
    unfold copied. rewrite Hn. left. by exists t.
  - destruct (read_link_eq source w1 t) as (w2 & E2 & N2); [by rewrite N1|].
    erewrite st_bind_eq by (apply st_map_err_Ok; exact E2).
    destruct (contains gpgcheck_targets t) eqn:Ec; [by apply contains_true in Ec|].
    apply Hcontent; [congruence|]. intros t' [= <-] [_ Ht']. done.
Qed.

Lemma copy_tree_copies fuel (source destination : path) optional w n :
  ready source destination w → copyable ns0 source → ns0 !! source = Some n →
  (∀ p : path, is_some (ns0 !! (p ++ source : path)) = true → length p < fuel) →
  ∃ w', copy_tree euid umask no_fault read_dir cp fuel source destination optional w = (Ok (), w')
        ∧ mirrored source destination w w'.
Proof.
  revert source destination optional w n. induction fuel as [|fuel IH]; intros source destination optional w n Hr Hc Hn Hf.
  { exfalso. specialize (Hf []). cbn [app length] in Hf. rewrite Hn in Hf. by specialize (Hf eq_refl); lia. }
  destruct (is_dir n) eqn:Hd; [|by eapply copy_tree_leaf]. destruct n as [u m|?|?]; try done.
  cbn [copy_tree].
  pose proof (ready_source _ _ _ Hr []) as Hw. cbn [app] in Hw. rewrite Hn in Hw.
  destruct (symlink_metadata_eq source w _ Hw) as (w1 & E1 & N1).
  erewrite st_bind_eq by (apply st_try_eq; exact E1).
  pose proof (ready_destination _ _ _ Hr []) as Hd0. cbn [app] in Hd0.
  destruct (create_dir_all_fresh destination w1) as (w2 & mode & E2 & N2);
    [by rewrite N1|by rewrite N1; apply Hr|].
  erewrite st_bind_eq by (apply st_map_err_Ok; exact E2). rewrite N1 in N2.
  assert (∀ p : path, nodes w2 !! (p ++ source : path) = ns0 !! (p ++ source : path)) as Hsrc2.
  { intros p. rewrite N2, lookup_insert_ne; [apply Hr|]. intros E. by apply (ready_apart _ _ _ Hr p []). }
  assert (∀ q : path, q ≠ destination → nodes w2 !! q = nodes w !! q) as Hq2.
  { intros q Hq. by rewrite N2, lookup_insert_ne. }
  destruct (read_dir_lists source (nodes w2) u m) as (names & Hl & Hnd & Hnames).
  { rewrite <- Hn. apply (Hsrc2 []). }
  erewrite st_bind_eq by (unfold st_map_err, syscall; cbn; rewrite Hl; reflexivity).
  set (w3 := {| nodes := nodes w2; calls := _ |}).
  assert (∀ name, name ∈ names → is_some (ns0 !! (name :: source : path)) = true) as Hin.
  { intros name H%Hnames. pose proof (Hsrc2 [name]) as E. cbn [app] in E. by rewrite E in H. }
  destruct (copy_entries_copies (λ s d, copy_tree euid umask no_fault read_dir cp fuel s d false)
    source destination names w3 euid mode) as (w4 & E4 & Hq4 & Hc4).
  - intros name w' H Hr'. apply Hin, is_some_true in H as [n' Hn'].
    eapply IH; [exact Hr'|by apply copyable_join|exact Hn'|].
    intros p Hp. rewrite app_entry in Hp. apply Hf in Hp. rewrite length_app in Hp. cbn in Hp. lia.
  - exact Hnd.
  - eapply more_outside; [apply Hr|apply Hr|]. intros q Hq. apply Hq2. intros ->. apply Hq. by exists [].
  - exact Hsrc2.
  - cbn. by rewrite N2, lookup_insert_eq.
  - apply Hr.
  - intros name p H. cbn. rewrite Hq2 by apply entry_not_self. rewrite app_entry. apply Hr.
  - exists w4. split; [exact E4|]. cbn in Hq4. split.
    + intros q Hq. rewrite Hq4, Hq2; [done|intros ->; apply Hq; by exists []|].
      intros name _ H. apply Hq. unfold within in *. by apply suffix_cons_l in H.
    + intros p. destruct p as [|name p _] using rev_ind.
      * cbn [app]. rewrite Hq4; [|intros name _ H; by apply suffix_cons_not in H].
        unfold copied. rewrite Hn, N2, lookup_insert_eq. eauto.
      * rewrite <- (app_entry p source), <- (app_entry p destination). destruct (decide (name ∈ names)) as [H|H]; [by apply Hc4|].
        assert (ns0 !! (name :: source : path) = None) as Hnone.
        { pose proof (Hsrc2 [name]) as E. cbn [app] in E. rewrite <- E. apply is_some_false, not_true_is_false.
          by rewrite <- Hnames. }
        replace (nodes w4 !! (p ++ name :: destination : path)) with (None (A := node)).
        { apply copied_none. destruct (decide (p = [])) as [->|Hp]; [exact Hnone|].
          apply nothing_below; [apply copyable_join, Hc|by rewrite Hnone|exact Hp]. }
        symmetry. rewrite Hq4, Hq2.
        -- rewrite app_entry. apply Hr.
        -- apply entry_not_self.
        -- intros name' H' [k E]. apply H. by apply same_entry in E as ->.
Qed.
End complete.

(** When no call fails, a tree that leads to regular files is copied completely by any
    fuel above its depth: the copy has exactly the names of the source, directories for
    directories, the check marks of repositories as the same links and, for everything
    else, files with the content it leads to; nothing outside of the copy changes. An
    optional tree that is missing leaves nothing. *)
Theorem copy_tree_mirrors (euid umask : Z)
    (read_dir : path → gmap path node → result IoError (list (result IoError string)))
    (cp : path → path → gmap path node → result IoError bool * gmap path node)
    fuel (source destination : path) optional w :
  (∀ (p : path) (ns : gmap path node) user mode, ns !! p = Some (Dir user mode) →
     ∃ names, read_dir p ns = Ok (map Ok names) ∧ NoDup names
       ∧ ∀ name, name ∈ names ↔ is_some (ns !! (name :: p : path)) = true) →
  (∀ (source p : path) (ns : gmap path node) user mode content,
     ns !! source = Some (File user mode content) → ns !! p = None → in_dir ns p = true →
     ∃ user' mode', cp source p ns = (Ok true, <[p := File user' mode' content]> ns)) →
  copyable (nodes w) source → apart source destination →
  (∀ p : path, nodes w !! (p ++ destination : path) = None) → in_dir (nodes w) destination = true →
  (∀ p : path, is_some (nodes w !! (p ++ source : path)) = true → length p < fuel) → fuel ≠ 0 →
  is_some (nodes w !! source) = true ∨ optional = true →
  ∃ w', copy_tree euid umask no_fault read_dir cp fuel source destination optional w = (Ok (), w')
    ∧ (∀ q : path, ¬ within destination q → nodes w' !! q = nodes w !! q)
    ∧ ∀ p : path, copied (nodes w) (p ++ source) (nodes w' !! (p ++ destination : path)).
Proof.
  intros Hlist Hcp Hc Ha Hd Hp Hf Hfuel Ho. destruct (nodes w !! source) as [n|] eqn:Hn.
  - by eapply (copy_tree_copies euid umask read_dir cp Hlist Hcp (nodes w)).
  - destruct Ho as [?| ->]; [done|]. destruct fuel as [|fuel]; [done|].
    exists {| nodes := nodes w; calls := S (calls w) |}. split; [|split; [done|]].
    + cbn [copy_tree]. unfold mbind, st_bind, st_try, symlink_metadata, syscall. cbn. by rewrite Hn.
    + intros p. cbn. rewrite Hd. apply copied_none. destruct (decide (p = [])) as [->|Hne]; [exact Hn|].
      apply nothing_below; [apply Hc|by rewrite Hn|exact Hne].
Qed.

(* ------------------------------------------------------------------ *)
(** ** Discovery in a context *)

(** Discovery over a context runs zypper only with one of the queries, so none of its
    questions is refused; any other question is refused without running it. *)
Lemma prepared_discovery_closed machine run_context parse_mounts arguments :
  (Discovery.Run "zypper" arguments ∈ (@discover_host (prepared_backend machine run_context) parse_mounts []).2 →
     contains prepared_queries arguments = true)
  ∧ (contains prepared_queries arguments = false →
     backend_run (DiscoveryBackend := prepared_backend machine run_context) "zypper" arguments
     = Err CommandNotAllowed).
Proof.
  split.
  - intros H. destruct (@discover_host_asks (prepared_backend machine run_context) parse_mounts [])
      as (cs & Ecs & Hcs). rewrite Ecs in H. cbn [app] in H.
    rewrite Forall_forall in Hcs. apply Hcs in H. apply contains_true.
    inversion H as [| | | | |program arguments' Ha]; subst. apply contains_true in Ha.
    unfold prepared_queries. set_solver.
  - intros H. cbn. by rewrite H.
Qed.

(* ------------------------------------------------------------------ *)
(** ** A concrete system *)

Definition entry_of (p q : path) : option string :=
  match q with name :: p' => if decide (p' = p) then Some name else None | [] => None end.
Definition sample_names (p : path) (ns : gmap path node) : gset string :=
  set_omap (entry_of p) (dom ns).
Definition sample_read_dir (p : path) (ns : gmap path node) : result IoError (list (result IoError string)) :=
  Ok (map Ok (elements (sample_names p ns))).
Definition sample_cp (source p : path) (ns : gmap path node) : result IoError bool * gmap path node :=
  match ns !! source, p with
  | Some (File _ _ content), _ :: _ => (Ok true, <[p := File 0 420 content]> ns)
  | _, _ => (Ok false, ns)
  end.

Lemma sample_read_dir_lists (p : path) (ns : gmap path node) user mode :
  ns !! p = Some (Dir user mode) →
  ∃ names, sample_read_dir p ns = Ok (map Ok names) ∧ NoDup names
    ∧ ∀ name, name ∈ names ↔ is_some (ns !! (name :: p : path)) = true.
Proof.
  intros _. exists (elements (sample_names p ns)). split; [done|]. split; [apply NoDup_elements|].
  intros name. rewrite elem_of_elements. unfold sample_names. rewrite elem_of_set_omap, is_some_true.
  split.
  - intros (q & [n Hq]%elem_of_dom & E). destruct q as [|name' p']; [done|]. cbn in E.
    destruct (decide (p' = p)) as [->|]; [|done]. injection E as ->. by exists n.
  - intros [n Hn]. exists (name :: p). split; [by apply elem_of_dom_2 in Hn|]. cbn. by rewrite decide_True.
Qed.

Lemma sample_cp_copies (source p : path) (ns : gmap path node) user mode content :
  ns !! source = Some (File user mode content) → ns !! p = None → in_dir ns p = true →
  ∃ user' mode', sample_cp source p ns = (Ok true, <[p := File user' mode' content]> ns).
Proof. intros Hs _ Hp. unfold sample_cp. rewrite Hs. destruct p; [done|]. by eexists _, _. Qed.

Lemma sample_cp_writes (source p : path) (ns : gmap path node) (q : path) :
  (∀ target, ns !! p = Some (Symlink target) → target ∈ gpgcheck_targets) →
  (∀ r name, q ≠ r ++ name :: tail p) → (sample_cp source p ns).2 !! q = ns !! q.
Proof.
  intros _ Hq. unfold sample_cp. destruct (ns !! source) as [[]|]; try done.
  destruct p as [|name p]; [done|]. cbn. rewrite lookup_insert_ne; [done|]. intros <-. by apply (Hq [] name).
Qed.

Lemma sample_cp_no_links (source p : path) (ns : gmap path node) (q : path) target :
  (sample_cp source p ns).2 !! q = Some (Symlink target) → ns !! q = Some (Symlink target).
Proof.
  unfold sample_cp. destruct (ns !! source) as [[]|]; try done. destruct p as [|name p]; [done|]. cbn.
  destruct (decide (q = name :: p)) as [->|Hne]; [by rewrite lookup_insert_eq|by rewrite lookup_insert_ne].
Qed.

(** The package database with a file, a link to it and a check mark; a place for the copy. *)
Definition sample_system : gmap path node := list_to_map [
  ([], Dir 0 493); (["tmp"], Dir 0 1023);
  (["usr"], Dir 0 493); (["lib"; "usr"], Dir 0 493); (["sysimage"; "lib"; "usr"], Dir 0 493);
  (["rpm"; "sysimage"; "lib"; "usr"], Dir 0 493);
  (["db"; "rpm"; "sysimage"; "lib"; "usr"], File 0 420 "headers");
  (["index"; "rpm"; "sysimage"; "lib"; "usr"], Symlink "db");
  ([GPGCHECK; "rpm"; "sysimage"; "lib"; "usr"], Symlink "./true");
  (["etc"], Dir 0 493); (["os-release"; "etc"], Symlink "../usr/lib/os-release");
  (["os-release"; "lib"; "usr"], File 0 420 "ID=lyraos") ].
Definition sample_start : world := {| nodes := sample_system; calls := 0 |}.
Definition sample_directory : path := ["lyra-sim-1"; "tmp"].
Definition sample_new : result SimulationError Simulation * world :=
  new 0 18 no_fault sample_read_dir sample_cp 20 sample_directory true sample_start.
Definition sample_root : path := "root" :: sample_directory.

Example sample_simulation :
  is_ok sample_new.1 = true
  ∧ nodes sample_new.2 !! below sample_root "usr/lib/sysimage/rpm/db" = Some (File 0 420 "headers")
  ∧ nodes sample_new.2 !! below sample_root "usr/lib/sysimage/rpm/index" = Some (File 0 420 "headers")
  ∧ nodes sample_new.2 !! below sample_root "usr/lib/sysimage/rpm/.repo_gpgcheck" = Some (Symlink "./true")
  ∧ nodes sample_new.2 !! below sample_root "etc/os-release" = Some (File 0 420 "ID=lyraos").
Proof. vm_compute. repeat split. Qed.

Lemma sample_check (P : path * node → bool) :
  list_all P (map_to_list sample_system) = true →
  ∀ (q : path) n, sample_system !! q = Some n → P (q, n) = true.
Proof.
  intros H q n Hq. apply list_all_true in H. rewrite Forall_forall in H. apply H. by apply elem_of_map_to_list.
Qed.

Definition sample_source : path := ["rpm"; "sysimage"; "lib"; "usr"].
Definition sample_copy : path := ["copy"; "tmp"].

Lemma sample_absent (p : path) (directory : path) :
  list_all (λ '(q, _), negb (bool_decide (directory `suffix_of` q))) (map_to_list sample_system) = true →
  within directory p → sample_system !! p = None.
Proof.
  intros H Hp. destruct (sample_system !! p) as [n|] eqn:E; [|done].
  pose proof (sample_check _ H _ _ E) as Hx. cbv beta iota in Hx. by rewrite bool_decide_true in Hx.
Qed.

Lemma sample_copyable : copyable sample_system sample_source.
Proof.
  constructor.
  - intros p name H. apply is_some_true in H as [n Hn].
    assert (list_all (λ '(q, _), match q with _ :: q' => is_some_and (sample_system !! (q' : path)) is_dir | [] => true end)
      (map_to_list sample_system) = true) as Hall by (vm_compute; reflexivity).
    pose proof (sample_check _ Hall _ _ Hn) as Hx. cbv beta iota in Hx. clear Hn.
    destruct (sample_system !! (p ++ sample_source : path)) as [[u m|? ? ?|?]|]; try discriminate Hx.
    by exists u, m.
  - intros p n Hn Hd.
    assert (list_all (λ '(q, n), is_dir n
      || match n with Symlink target => bool_decide (head q = Some GPGCHECK) && contains gpgcheck_targets target
                    | _ => false end
      || match canonical MAX_LINKS sample_system [] (reverse q) with
         | Ok resolved => match sample_system !! resolved with Some (File _ _ _) => true | _ => false end
         | Err _ => false
         end) (map_to_list sample_system) = true) as Hall by (vm_compute; reflexivity).
    pose proof (sample_check _ Hall _ _ Hn) as Hx. cbv beta iota in Hx. rewrite Hd in Hx. cbn [orb] in Hx.
    clear Hn. apply orb_true_iff in Hx as [Hx|Hx].
    + left. destruct n as [| |target]; [discriminate Hx..|]. apply andb_true_iff in Hx as [Hh Ht].
      exists target. split; [done|]. split; [by apply bool_decide_eq_true in Hh|by apply contains_true].
    + right. destruct (canonical _ _ _ _) as [resolved|] eqn:Er; [|discriminate Hx].
      destruct (sample_system !! resolved) as [[|u m c|]|] eqn:Ef; try discriminate Hx. exists resolved, u, m, c. split; [reflexivity|exact Ef].
Qed.

Lemma copy_tree_mirrors_witness :
  ∃ w', copy_tree 0 18 no_fault sample_read_dir sample_cp 20 sample_source sample_copy false sample_start = (Ok (), w')
    ∧ copied sample_system ("db" :: sample_source) (nodes w' !! ("db" :: sample_copy : path)).
Proof.
  destruct (copy_tree_mirrors 0 18 sample_read_dir sample_cp 20 sample_source sample_copy false sample_start)
    as (w' & E & _ & Hc).
  - exact sample_read_dir_lists.
  - exact sample_cp_copies.
  - exact sample_copyable.
  - intros p q E. apply (f_equal last) in E. rewrite !last_app in E. discriminate E.
  - intros p. apply (sample_absent _ sample_copy); [vm_compute; reflexivity|]. by exists p.
  - vm_compute. reflexivity.
  - intros p H. apply is_some_true in H as [n Hn].
    assert (list_all (λ '(q, _), length q <? 20) (map_to_list sample_system) = true) as Hall by (vm_compute; reflexivity).
    pose proof (sample_check _ Hall _ _ Hn) as Hx. cbv beta iota in Hx.
    apply Nat.ltb_lt in Hx. rewrite length_app in Hx. lia.
  - discriminate.
  - left. vm_compute. reflexivity.
  - exists w'. split; [exact E|]. exact (Hc ["db"]).
Defined.

Lemma simulation_confined_witness :
  nodes sample_new.2 !! (below sample_root "usr/lib/sysimage/rpm/.repo_gpgcheck" : path) = Some (Symlink "./true")
  ∧ harmless_link (below sample_root "usr/lib/sysimage/rpm/.repo_gpgcheck") "./true"
  ∧ nodes sample_new.2 !! (["db"; "rpm"; "sysimage"; "lib"; "usr"] : path) = Some (File 0 420 "headers").
Proof.
  assert (nodes sample_new.2 !! (below sample_root "usr/lib/sysimage/rpm/.repo_gpgcheck" : path)
          = Some (Symlink "./true")) as Hmark by (vm_compute; reflexivity).
  split; [exact Hmark|].
  destruct (simulation_confined sample_directory 0 18 no_fault sample_read_dir sample_cp
    sample_cp_writes sample_cp_no_links 20 true sample_start sample_new.1 sample_new.2) as (Houtside & Hlinks & _).
  - intros q Hq. apply (sample_absent _ sample_directory); [vm_compute; reflexivity|done].
  - intros q [k E] Hne. destruct k as [|a [|b k]]; cbn in E.
    + by destruct Hne.
    + injection E as _ <-. vm_compute. reflexivity.
    + injection E as _ _ E. symmetry in E. apply app_eq_nil in E as [_ ->]. vm_compute. reflexivity.
  - apply surjective_pairing.
  - split.
    + apply Hlinks; [|exact Hmark]. exists (reverse (components "root/usr/lib/sysimage/rpm/.repo_gpgcheck")). reflexivity.
    + etransitivity; [apply Houtside|vm_compute; reflexivity].
      intros [k E]. apply (f_equal last) in E. rewrite last_app in E. discriminate E.
Defined.
