(* ===== verification/Programs.v ===== *)
(** * The programs (main of src/service/src/main.rs, src/cli/src/main.rs)

    How the service finds out for whom it runs and which of its three modes it takes,
    and the command line tool that prints what the machine looks like. *)

From S2P Require Import Prelude RustStr Recovery State Fs Persistence Preflight Solver Plan.
From S2P Require Import ManifestData Manifest Migration Discovery Inventory SolverXml Vendors Protocol.
From S2P Require Import Sanitize EventLog EventFile System Planner Executor Request ManifestFetch.
From S2P Require Import Fixture Verifier Rollback Ownership Service Authority Loop.

Open Scope bool_scope.
Open Scope lyra_scope.

(** A variable of the environment that is text. *)
Definition caller_uid (euid : Z) (PKEXEC_UID : option string) : option Z :=
  if (euid =? 0)%Z then uid ← PKEXEC_UID; parse_u32 uid else None.

Definition service_for (uid : Z) (read_only : bool) : Service := {|
  state_root := state_root (Service.new uid); Service.caller_uid := uid; plans := plans (Service.new uid);
  service_events := service_events (Service.new uid); workers := workers (Service.new uid);
  Service.read_only := read_only |}.

(** How a program ends, with what it answered. *)
Record Ended := { exit_code : Z; answered : list Response }.

(** The whole machine as the tool prints it. *)
Record InspectionReport := { facts : HostFacts; preflight : PreflightReport }.

Inductive ToolEnded : Type :=
  | Usage
  | DiscoveryFailed (error : DiscoverError)
  | InventoryFailed (error : VendorMetadataError)
  | Printed (inspection : InspectionReport).

Definition valid_arguments (arguments : list string) : bool :=
  match arguments with [] => true | [argument] => argument ==? "inspect" | _ => false end.

Definition tool_exit_code (ended : ToolEnded) : Z :=
  match ended with Usage => 2 | DiscoveryFailed _ | InventoryFailed _ => 1 | Printed _ => 0 end.

Section programs.
Context {HL : Libraries} (oracle : Oracle).
Context (euid umask : Z) (fault : nat → option (IoError * nat)).
Context (pid : Z) (nonce : nat → Z).
Context (from_slice : string → option OperationEvent).
Context (pending_pretty : PendingPlan → string) (pending_parse : string → option PendingPlan).
Context (request_json : Request → option string) (request_parse : string → option Request).
Context (response_parse : string → option Response).
#[local] Abbreviation handled := (handle oracle euid umask fault pid nonce from_slice pending_pretty
  pending_parse request_json response_parse).
#[local] Abbreviation served := (serve oracle euid umask fault pid nonce from_slice pending_pretty
  pending_parse request_json request_parse response_parse).
#[local] Abbreviation looped := (run_loop oracle euid umask fault pid nonce from_slice pending_pretty
  pending_parse request_json request_parse response_parse).

(** The program of the service: its arguments, the variable pkexec sets, the real user,
    the user behind the socket of the broker, and the input. The threads it started are
    waited for at the end; they are runs of their own. *)
Definition main (arguments : list string) (PKEXEC_UID : option string) (getuid : Z) (peer : option Z)
    (input : string) : ST serving Empty_set Ended :=
  if arguments ==? ["--query-connection"] then
    answer ← query_connection oracle euid umask fault from_slice request_json request_parse response_parse
               peer input;
    mret match answer with
         | Some response => {| exit_code := 0; answered := [response] |}
         | None => {| exit_code := 1; answered := [] |}
         end
  else
    let read_only := arguments ==? ["--read-only"] in
    if (arguments !=? []) && negb read_only then mret {| exit_code := 2; answered := [] |}
    else
      match (if read_only then Some getuid else caller_uid euid PKEXEC_UID) with
      | None => mret {| exit_code := 1; answered := [] |}
      | Some uid =>
          _ ← st_modify (λ v, with_service v (service_for uid read_only));
          responses ← looped input;
          mret {| exit_code := 0; answered := default [] responses |}
      end.

(** The tool: discovery as an unprivileged user sees it, with the installed packages. *)
Definition tool_main (arguments : list string) : ST serving Empty_set ToolEnded :=
  if negb (valid_arguments arguments) then mret Usage
  else
    readiness ← (if (euid =? 0)%Z then mret false
                 else
                   response ← st_try (broker_request oracle request_json response_parse
                     (ReadRecoveryReadiness PROTOCOL_VERSION "snapper-readiness"));
                   mret (readiness_response response "snapper-readiness"));
    live ← ask oracle LiveView;
    match (@discover_host (readonly_backend euid live readiness) mounts_json []).1 with
    | Err error => mret (DiscoveryFailed error)
    | Ok facts =>
        packages ← st_try (on_host (installed_packages_at oracle (λ error, error) None));
        mret match packages with
             | Err error => InventoryFailed error
             | Ok packages =>
                 let facts := with_installed facts packages in
                 Printed {| facts := facts; preflight := evaluate_preflight facts default_policy |}
             end
    end.

(* ------------------------------------------------------------------ *)
(** ** Who can change something *)

(** Files, memory and threads are as they were. *)
Definition unchanged (v v' : serving) : Prop := files_of_service v' = files_of_service v ∧ same_memory v v'.

Lemma unchanged_trans v1 v2 v3 : unchanged v1 v2 → unchanged v2 v3 → unchanged v1 v3.
Proof. intros [F1 M1] [F2 M2]. split; [congruence|by etransitivity]. Qed.

#[local] Abbreviation reading := (within same_files same_memory).

Lemma reading_unchanged {A E} (m : ST serving E A) v : (∀ root, st_rel (reading root) m) → unchanged v (m v).2.
Proof. intros Hm. split; [by apply reading_files|by apply reading_memory]. Qed.

Lemma handled_unchanged request v : read_only (service v) = true → unchanged v (handled request v).2.
Proof.
  intros Hr. destruct (needs_authorization request) eqn:En; [|by apply reading_unchanged; intros; apply handle_reads].
  assert ((handled request v).2 = v) as ->; [|split; [done|by destruct v]].
  unfold handle, respond, mbind, st_bind, st_get. rewrite Hr, En. by destruct (is_supported request).
Qed.

Lemma served_unchanged fuel input v : read_only (service v) = true → unchanged v (served fuel input v).2.
Proof.
  revert input v. induction fuel as [|fuel IH]; intros input v Hr; [by split; [|destruct v]|]. cbn [serve].
  destruct (read_request request_parse input) as [[[request|]|e] rest]; [|by split; [|destruct v]..].
  pose proof (handled_unchanged request v Hr) as Hh. unfold mbind, st_bind.
  destruct (handled request v) as [[response|[]] v1]. cbn [snd] in Hh.
  assert (read_only (service v1) = true) as Hr1 by (destruct Hh as [_ ->]; exact Hr).
  pose proof (IH rest v1 Hr1) as Hs. destruct (served fuel rest v1) as [[responses|[]] v2].
  eapply unchanged_trans; [exact Hh|exact Hs].
Qed.

(** A run over other memory of the service. *)
Definition quiet (v v' : serving) : Prop := files_of_service v' = files_of_service v ∧ threads v' = threads v.

Lemma unchanged_quiet v s v' : unchanged (with_service v s) v' → quiet v v'.
Proof. intros [F M]. split; [exact F|by rewrite M]. Qed.

Lemma query_connection_quiet peer input v :
  quiet v (query_connection oracle euid umask fault from_slice request_json request_parse response_parse
             peer input v).2.
Proof.
  destruct peer as [uid|]; [|done]. cbn [query_connection]. destruct (negb _); [done|].
  unfold mbind, st_bind, st_modify. destruct (read_request request_parse input) as [[[request|]|e] rest]; [|done..].
  eapply unchanged_quiet.
  pose proof (reading_unchanged (query_response oracle euid umask fault from_slice request_json response_parse
    request) (with_service v (Service.new uid))) as H.
  destruct (query_response _ _ _ _ _ _ _ _ _) as [[response|[]] v1]. apply H. intros. apply query_reads.
Qed.


(* ------------------------------------------------------------------ *)
(** ** What the tool prints *)

Lemma bind_try {E A B C} (m : ST serving string A) (f : result string A → B) (g : B → ST serving E C) v :
  ((r ← st_try m; mret (f r)) ≫= g) v = g (f (m v).1) (m v).2.
Proof. unfold mbind, st_bind, st_try. by destruct (m v). Qed.

Lemma installed_error {E} (f : VendorMetadataError → E) root h :
  installed_packages_at oracle f root h
  = match installed_packages_at oracle (λ error, error) root h with
    | (Ok packages, h') => (Ok packages, h')
    | (Err error, h') => (Err (f error), h')
    end.
Proof.
  unfold installed_packages_at, attempt, perform, mbind, st_bind, st_lift, map_err. cbn.
  destruct (oracle _ _ _ _) as [headers|error]; cbn; [|done].
  destruct (installed_vendors headers ∅) as [catalog|]; cbn; [|done]. by destruct (installed_packages_of catalog).
Qed.

(** The same machine seen by the tool and by a request. *)
Definition agrees (request_id : string) (tool : result Empty_set ToolEnded * serving)
    (service : result string Response * serving) : Prop :=
  service.2 = tool.2
  ∧ match tool.1 with
    | Ok (Printed inspection) =>
        service.1 = Ok (Inspection request_id (facts inspection) (preflight inspection))
    | Ok Usage => False
    | Ok _ => service.1 = Err "DISCOVERY_FAILED"
    | Err e => match e with end
    end.

(** The tool prints the facts and the verdict that the service gives as an inspection
    of the same machine, fails exactly when that inspection fails, and changes nothing. *)
Theorem tool_shows_inspection request_id v :
  unchanged v (tool_main [] v).2
  ∧ agrees request_id (tool_main [] v) (inspect oracle euid request_json response_parse request_id v).
Proof.
  assert (unchanged v (inspect oracle euid request_json response_parse request_id v).2) as Hi
    by (apply reading_unchanged; intros; apply inspect_inside; try apply _; done).
  revert Hi. unfold tool_main, inspect. cbn [valid_arguments negb].
  assert (∀ (readiness : bool) v1,
    let tool : ST serving Empty_set ToolEnded :=
      live ← ask oracle LiveView;
      match (@discover_host (readonly_backend euid live readiness) mounts_json []).1 with
      | Err error => mret (DiscoveryFailed error)
      | Ok facts =>
          packages ← st_try (on_host (installed_packages_at oracle (λ error, error) None));
          mret match packages with
               | Err error => InventoryFailed error
               | Ok packages =>
                   let facts := with_installed facts packages in
                   Printed {| facts := facts; preflight := evaluate_preflight facts default_policy |}
               end
      end in
    let service : ST serving string Response :=
      live ← ask oracle LiveView;
      facts ← st_lift (map_err (λ _, "DISCOVERY_FAILED")
                (@discover_host (readonly_backend euid live readiness) mounts_json []).1);
      packages ← on_host (installed_packages_at oracle (λ _, "DISCOVERY_FAILED") None);
      let facts := with_installed facts packages in
      mret (Inspection request_id facts (evaluate_preflight facts default_policy)) in
    agrees request_id (tool v1) (service v1)) as Hrest.
  { intros readiness v1. cbv zeta. unfold ask, on_host, perform, mbind, st_bind, st_lift, map_err, st_try. cbn.
    destruct (discover_host _ _) as [[facts|error] calls]; cbn; [|by split].
    rewrite (installed_error (λ _, "DISCOVERY_FAILED")).
    by destruct (installed_packages_at oracle (λ error, error) None _) as [[packages|error] h]; split. }
  cbv zeta in Hrest. intros Hi.
  match goal with |- _ ∧ ?Q => assert Q as Ha; [|split; [destruct Ha as [<- _]; exact Hi|exact Ha]] end.
  clear Hi. destruct (euid =? 0)%Z; [exact (Hrest false v)|].
  rewrite !bind_try. apply Hrest.
Qed.
End programs.

(* ------------------------------------------------------------------ *)
(** ** A concrete run *)

(** The service as pkexec starts it for a user, reading a request to decline a rollback. *)
Definition sample_program (euid : Z) (arguments : list string) (PKEXEC_UID : option string) :=
  main (HL := rollback_libraries) rollback_oracle euid 18 no_fault 104 (λ n, Z.of_nat n)
    (λ _, None) (λ _, "pending") (λ _, None) (λ _, None) loop_parse (λ _, None)
    arguments PKEXEC_UID 1000 None loop_input (sample_service 1001 false).

Definition ended_as (run : result Empty_set Ended * serving) : Z * nat :=
  match run.1 with Ok ended => (exit_code ended, length (answered ended)) | Err e => match e with end end.

Example sample_programs :
  ended_as (sample_program 0 [] (Some "1000")) = (0%Z, 3) ∧ ended_as (sample_program 0 [] None) = (1%Z, 0)
  ∧ ended_as (sample_program 1000 [] (Some "1000")) = (1%Z, 0)
  ∧ ended_as (sample_program 1000 ["--read-only"] None) = (0%Z, 3)
  ∧ ended_as (sample_program 0 ["--help"] (Some "1000")) = (2%Z, 0).
Proof. vm_compute. repeat split. Qed.

